(* ===== verification/_CoqProject ===== *)
-Q . S2P
Prelude.v
Json.v
RuntimeRecord.v
PrivateFiles.v
Policy.v
Identity.v
Trust.v
PolicyRecord.v
PrefixCodec.v
World.v
Messages.v
PolicyStore.v
PolicyPlan.v
Errors.v
ToolArgs.v
Catalogue.v
Gating.v
Wire.v
LineCodec.v
Session.v
Mcp.v
Handler.v
AuthData.v
WebAuthn.v
EnrollStore.v
Presence.v
Allowlist.v
Handshake.v
Lang.v
Frames.v
Control.v
Replies.v
Connection.v
Broker.v
Serve.v
Envelopes.v
AuditTrail.v
Logging.v
Browsers.v
Wrapper.v
Machine.v
Registration.v
Oracles.v
Install.v
Lockfile.v
Peers.v
Pipe.v
PolicyCli.v
Enclave.v
Doctor.v
Flags.v
Exchange.v
NativeHost.v
Reports.v
Relay.v
Commands.v
