(* ===== verification/Prelude.v ===== *)
(** * A verification of the Genkan core

    Genkan lets an MCP harness (an AI client) drive a person's browser through
    an extension, under a policy the person controls. The Rust core
    (src/src/packages/core/src/) is one binary with several roles: the MCP server
    a harness talks to, the broker that owns the browser connections, the native
    host Chrome starts, and the commands a person runs. This library models the
    logic those roles share and proves what makes it safe.

    ** The program's parts and the files that model them

    - [RuntimeRecord] : the versioned record files of the runtime directory
      (runtime_record.rs): the ladder of migrations, the duplicate-key guard, the
      size cap, load, write and remove. Records are instances of the class
      [Record]; [slot] is the abstract record the other files use, and
      [record_file_refines_slot] shows that the bytes on disk implement it.
      [Json] is the JSON tree the guard reads.
    - [Policy] : the policy fields, their permissive directions, the signed
      document, the free overlay, [fold] and the order [relaxes]
      (policy/mod.rs). [PolicyRecord] : the stored record and the rollback ring
      with their readers (policy/store.rs). [PolicyStore] : the two write lanes,
      an attested and signed grant and a free restriction (policy/store.rs).
      [PolicyPlan] : planning a grant and a rollback (policy/plan.rs).
    - [Identity] : labels, client names, anchors, digests, credential ids
      (ipc/identity.rs, ipc/handshake.rs, allowlist.rs, webauthn/). [Trust] : the
      trust record, its epochs and markers, admission and sign counters
      (trust.rs).
    - [World] : the state the write paths share, as explicit state passing: one
      slot per record, the host key, the audit trail, the clock, and an [env]
      that decides which I/O fails.
    - [Messages] : the bytes signatures and challenges cover
      (enclave/challenge.rs, webauthn/statement.rs).
    - [Errors], [ToolArgs], [Catalogue] : the error taxonomy, the argument
      structs, the tool catalogue with its capabilities and the parse of a tool
      call (error.rs, tools/). [Gating] : the kill switch and the policy gate
      (kill.rs, policy/gating.rs).
    - [Wire] : native-messaging frames, capped NDJSON and the bridge messages
      (protocol.rs). [Session] : the browser registry and request correlation as
      a step relation over the critical sections of its threads (session.rs).
      [Mcp], [Handler] : executing a tool call, gates first, the methods a harness sees
      and the wait for a browser (mcp/handler.rs, tools/mod.rs).
    - [AuthData], [WebAuthn] : the authenticator-data parser and encoder, COSE
      keys, client data, assertions and registrations (webauthn/).
    - [EnrollStore], [Presence], [Allowlist] : the enrollment store
      (webauthn/store.rs), presence requests with the answers that may close them
      (presence/), and pairing and revoking trusted clients (allowlist.rs).
    - [LineCodec], [Handshake] : a concrete line codec for the witnesses, and the
      two sides of the socket handshake (ipc/handshake.rs). [Lang] : the shared
      language (lang.rs).
    - [Frames], [Control] : the control frames between extension and host, what
      the host says and what it accepts (protocol/control.rs). [Replies] : the JSON of
      what it says, row by row, written and strictly read. [Exchange] : the
      presence exchange of one browser connection as a state machine
      (native_host/presence.rs).
    - [Connection] : the seam between the serve loop and the protocol engine of a
      harness connection (mcp/connection.rs). [Broker] : the ref-count, the
      revocation registry, the trust watcher and the worker threads of the broker
      as a step relation (broker.rs). [Serve] : admitting one connection, the serve
      loop, the relay and its pipe, and the start of a server (broker.rs,
      mcp_server.rs).
    - [Envelopes], [Oracles] : the JSON of every line on the socket and on the harness's
      pipe, written and read (protocol.rs); and the fuzz targets over all these parsers as
      functions, with the theorem that no assertion of theirs can fail while the external
      codecs keep their documented laws (fuzz/).
    - [Enclave] : the host key over its two stores, pairing, revocation and
      challenges (enclave/). [NativeHost] : the native host's frame handlers, its
      trust watch and the control plane of a killed bridge (native_host.rs). [Relay] :
      its start and the threads of a live bridge between Chrome and the broker.
      [Reports] : what the host answers the options page from the rest of the machine, the
      instance of the class [NativeHost] leaves open.
    - [PrivateFiles] : opening, reading and replacing a private file over names and inodes,
      with planted entries and racing writers (fsguard.rs). [Logging] : the lines on
      standard error, and the JSON of an audit record there and in the file (log.rs, audit.rs).
    - [AuditTrail] : the audit trail's two files, appended and rotated by racing
      processes, and the page a reader prints (audit.rs). [Browsers] : the table of
      browsers and where each looks for its registration (browsers.rs).
    - [Wrapper], [Machine], [Registration], [Install] : the native-messaging
      registration (registration/). [Wrapper] is the launch script, its quoting and its
      recognition; [Machine] the files, directory modes and registry keys with the
      operations that may fail on them; [Registration] the judged slots, [register] and
      [uninstall]; [Install] the commands [doctor --fix] and [uninstall] over them.
    - [Lockfile] : the runtime directory and the published lock file and socket, the
      critical sections that change them and the processes that race for them
      (ipc/lockfile.rs, ipc/socket.rs, ipc/runtime_dir.rs).
    - [Peers], [Pipe] : measuring and attesting the other end of a socket, and the parsed
      names of Windows (ipc/attest.rs, ipc/identity.rs, ipc/platform/); the named pipe of
      Windows, its operations and a read racing a shutdown (ipc/platform/windows/pipe.rs).
    - [PolicyCli], [Doctor], [Flags], [Commands] : the command line. [Flags] is the
      flags and what they become (cli.rs); [PolicyCli] the policy commands
      (policy/cli.rs); [Doctor] the report and its verdict (doctor.rs); [Commands] the
      other handlers and the dispatch of main.rs over all of them.
    - [PrefixCodec] : a concrete policy codec, used only to show that the
      codec laws the policy theorems assume can hold.

    ** How they interact

    A harness reaches the core through the broker ([Broker], [Serve]): its
    connection is admitted by [Handshake] and [Trust], gated per message, and handed to
    the engine through [Connection]. A tool call ([Mcp]) is parsed against the [Catalogue], passes the gates
    ([Gating], which read [Trust] and [PolicyRecord]), and is routed through the
    [Session] over the [Wire]. Policy writes ([PolicyStore], [PolicyPlan]) read
    and write the records through [World] under the runtime lock, and sign
    [Messages] with the host key after a presence attestation, whose WebAuthn
    form is verified by [WebAuthn] and counted in [Trust]. A browser's page asks
    for such writes over the control channel ([Control]); its connection's
    [Exchange] holds one request at a time ([Presence]), answers with [Frames] and
    runs the act an answer attested.

    ** What the theorems show

    Policy: a grant lands exactly what was approved, over the store it was
    prepared over, with a key and a presence proof; a restriction never relaxes
    and never reopens a tool; a rollback lands on its target. Trust: admission
    keys on the anchor, enforcement never lapses, markers track mutations, sign
    counters only move forward. Records: files refine slots, duplicates and
    foreign versions are refused. Gates: fail closed, the kill latch holds, no
    dispatch past a closed gate, the audit record agrees with the outcome. Wire:
    frames round-trip and lines are bounded. Session, in every interleaving:
    replies reach only their caller, every request ends once, the registry is
    sound, a reader that ends spares newer connections. WebAuthn: the data layout
    is read exactly and an assertion answers one statement. Presence: a browser
    with a credential is never demoted to the window, one assertion authorizes one
    act. Exchange, in every reachable state: what the user is asked names what
    would run, no record moves without an answer or a tightening, an answer is
    spent by being given. Control frames never cross sides and requests
    round-trip; the handshake authenticates the label. Broker, in every
    interleaving: the process lives exactly as long as its harnesses, a revocation
    reaches idle relays within a tick, no request is dispatched under a weaker
    posture than the connection was admitted with, and the serve loop always ends.
    Host key: a revocation is reported only when confirmed, pairing never adopts a
    key. Native host: no control frame grants anything without an answered presence
    request, the watch misses no transition, the killed bridge is left only when it
    is released, after what was in the pipe. Audit: however the calls of the writers
    interleave, the trail's two names are the newest two files ever created and a rotation
    takes only a full one, and every record is in the trail or counted as dropped.
    Registration: a refusal comes before the first write, a success reads back
    healthy, a removal takes exactly what is ours, a repair followed by an uninstall
    leaves no trace (for a path without a line feed), machine-wide directories end reachable by every account, and a
    browser label names the only reader of its manifest.

    Five theorems record where a comment and the code differ or the code does not do
    what it means to: [Serve.overlong_line_is_read_on],
    [Broker.registry_may_outlive_the_shutdown_decision],
    [Connection.failed_send_is_not_spent],
    [Registration.failed_value_wedges_the_pointer],
    and [Logging.hidden_record_is_said_to_be_on_stderr]; a sixth case is in
    [Wrapper.wrapper_quoting_is_exact].

    ** Conventions, bounds and fuel

    Rust's [u64] and [u32] are [Z] with the bounds in the statements; checked
    additions are [checked_add_u64], wrapping counters are taken modulo [2 ^ 64]
    ([Session.take_id]) and theorems about them assume fewer than [2 ^ 64] steps
    ([Session.bounded]). Strings are their UTF-8 bytes. [Session.step] has one rule per
    critical section, and two for [send], which gives up the pending lock between its
    registration and its write while it keeps the registry lock; an interleaving of threads
    is a sequence of steps, and [Broker.exec] likewise. The audit trail, the private files,
    the published lock file and the named pipe are stepped call by call where the code holds
    no lock across the calls. The fuelled loops are [trim] (one step per byte is enough, since every
    white-space character is non-empty), [Wire.ndjson_loop], whose fuel, one
    more than the bytes on the stream, is proved enough
    ([Wire.ndjson_line_is_bounded]), [Serve.serve_loop] and [Serve.pump_loop], whose
    fuel, one more than the bytes of the input, is proved enough too, and
    [NativeHost.control_plane_loop], which ends when standard input does. Code that is not in the repository (serde_json,
    base64, SHA-256, CBOR, COSE, ECDSA, the URL parser) is a class of functions;
    what a theorem needs of it is a named hypothesis or class law, and its witness
    instantiates the class by a concrete function.

    ** What is not modelled


    Log lines, the tokenizer of the command line (clap), the calls of the operating
    system under ipc/ (peer credentials, code signing, access control lists) and JSON
    Schema generation are left out; what the code asks of them is an argument. Rust's lock
    poisoning is not modelled: it is reached only through a panic, which the
    crate's lints forbid. *)

(** ** Prelude

    Results, guards and their inversion, machine integers, I/O errors, boolean
    list predicates, strings, [str::trim], and reachability of step relations. *)
From Stdlib Require Import Strings.Byte Ascii.
From stdpp Require Import base list strings pretty gmap.

(** * Results *)

(** Rust's [Result<A, E>], with the error type first so that [result E] is a
    monad. *)
Inductive result (E A : Type) : Type :=
| Ok (a : A)
| Err (e : E).
Arguments Ok {E A} a.
Arguments Err {E A} e.

#[export] Instance result_mret {E} : MRet (result E) := fun A a => Ok a.
#[export] Instance result_mbind {E} : MBind (result E) :=
  fun A B f r => match r with Ok a => f a | Err e => Err e end.
#[export] Instance result_fmap {E} : FMap (result E) :=
  fun A B f r => match r with Ok a => Ok (f a) | Err e => Err e end.

#[export] Instance result_eq_dec {E A} `{EqDecision E, EqDecision A} :
  EqDecision (result E A).
Proof. solve_decision. Defined.

(** [Result::map_err]. *)
Definition map_err {E F A} (f : E -> F) (r : result E A) : result F A :=
  match r with Ok a => Ok a | Err e => Err (f e) end.

(** [Option::ok_or]. *)
Definition ok_or {E A} (o : option A) (e : E) : result E A :=
  match o with Some a => Ok a | None => Err e end.

(** [Result::ok]. *)
Definition ok {E A} (r : result E A) : option A :=
  match r with Ok a => Some a | Err _ => None end.

Definition is_ok {E A} (r : result E A) : bool :=
  match r with Ok _ => true | Err _ => false end.

(** A guard that returns early with an error when [c] holds. *)
Definition refuse_if {E} (c : bool) (e : E) : result E unit :=
  if c then Err e else Ok tt.

Lemma bind_Ok {E A B} (r : result E A) (f : A -> result E B) b :
  (r ≫= f) = Ok b <-> exists a, r = Ok a /\ f a = Ok b.
Proof. destruct r; naive_solver. Qed.

Lemma fmap_Ok {E A B} (r : result E A) (f : A -> B) b :
  (f <$> r) = Ok b <-> exists a, r = Ok a /\ f a = b.
Proof. destruct r; naive_solver. Qed.

Lemma map_err_Ok {E F A} (f : E -> F) (r : result E A) a :
  map_err f r = Ok a <-> r = Ok a.
Proof. destruct r; naive_solver. Qed.

Lemma ok_or_Ok {E A} (o : option A) (e : E) a :
  ok_or o e = Ok a <-> o = Some a.
Proof. destruct o; naive_solver. Qed.

Lemma refuse_if_Ok {E} c (e : E) u :
  refuse_if c e = Ok u <-> c = false.
Proof. destruct c, u; naive_solver. Qed.

(** Invert every [bind]/[fmap]/[map_err]/guard equation in the context. *)
Ltac inv_res :=
  repeat match goal with
  | H : Ok _ = Ok _ |- _ => injection H as H; subst
  | H : Err _ = Err _ |- _ => injection H as H; subst
  | H : Ok _ = Err _ |- _ => discriminate H
  | H : Err _ = Ok _ |- _ => discriminate H
  | H : mret _ = Ok _ |- _ => injection H as H; subst
  | H : (_ ≫= _) = Ok _ |- _ =>
      let a := fresh "a" in let Ha := fresh "Hr" in
      apply bind_Ok in H; destruct H as (a & Ha & H)
  | H : (_ <$> _) = Ok _ |- _ =>
      let a := fresh "a" in let Ha := fresh "Hr" in
      apply fmap_Ok in H; destruct H as (a & Ha & H)
  | H : map_err _ _ = Ok _ |- _ => apply map_err_Ok in H
  | H : ok_or _ _ = Ok _ |- _ => apply ok_or_Ok in H
  | H : refuse_if _ _ = Ok _ |- _ => apply refuse_if_Ok in H
  end.

(** Split a hypothesis or goal on the scrutinee of a [match] or [if]. *)
Ltac case_match_in H :=
  match type of H with
  | context [match ?x with _ => _ end] => destruct x eqn:?
  end.

(** * Machine integers *)

Definition u8_max : Z := 2 ^ 8 - 1.
Definition u16_max : Z := 2 ^ 16 - 1.
Definition u32_max : Z := 2 ^ 32 - 1.
Definition u64_max : Z := 2 ^ 64 - 1.

(** [u64::checked_add]. *)
Definition checked_add_u64 (a b : Z) : option Z :=
  if (a + b <=? u64_max)%Z then Some (a + b)%Z else None.

Lemma checked_add_u64_Some a b c :
  checked_add_u64 a b = Some c <-> (c = a + b /\ a + b <= u64_max)%Z.
Proof.
  unfold checked_add_u64. destruct (Z.leb_spec (a + b) u64_max); naive_solver lia.
Qed.

Lemma checked_add_u64_None a b :
  checked_add_u64 a b = None <-> (u64_max < a + b)%Z.
Proof.
  unfold checked_add_u64. destruct (Z.leb_spec (a + b) u64_max); naive_solver lia.
Qed.

(** * I/O errors *)

(** The [io::ErrorKind]s the core names. *)
Inductive ErrorKind :=
| InvalidData | UnexpectedEof | PermissionDenied | AlreadyExists
| InvalidInput | NotFound | WouldBlock | TimedOut | Other.

#[export] Instance ErrorKind_eq_dec : EqDecision ErrorKind.
Proof. solve_decision. Defined.

Record io_error := IoError { io_kind : ErrorKind; io_msg : string }.

#[export] Instance io_error_eq_dec : EqDecision io_error.
Proof. solve_decision. Defined.

Definition invalid_data (m : string) : io_error := IoError InvalidData m.

(** * Boolean list predicates *)

Section bool_lists.
Context {A : Type}.
Implicit Types (p q : A -> bool) (l : list A).

Lemma existsb_false_iff p l :
  existsb p l = false <-> forall x, x ∈ l -> p x = false.
Proof.
  rewrite <- not_true_iff_false, existsb_exists. setoid_rewrite list_elem_of_In.
  split.
  - intros H x Hx. apply not_true_iff_false. eauto.
  - intros H (x & Hx & Hp). specialize (H x Hx). congruence.
Qed.

Lemma existsb_true_iff p l :
  existsb p l = true <-> exists x, x ∈ l /\ p x = true.
Proof. rewrite existsb_exists. by setoid_rewrite list_elem_of_In. Qed.

Lemma forallb_true_iff p l :
  forallb p l = true <-> forall x, x ∈ l -> p x = true.
Proof. rewrite forallb_forall. by setoid_rewrite list_elem_of_In. Qed.

Lemma forallb_negb_existsb p l :
  forallb (fun x => negb (p x)) l = negb (existsb p l).
Proof. induction l as [|x l IH]; simpl; [done|]. rewrite IH. by destruct (p x). Qed.

Lemma find_Some_iff p l x :
  List.find p l = Some x -> x ∈ l /\ p x = true.
Proof. intros H. apply List.find_some in H. by rewrite list_elem_of_In. Qed.

Lemma find_None_iff p l :
  List.find p l = None <-> forall x, x ∈ l -> p x = false.
Proof.
  split.
  - intros H x Hx. eapply List.find_none; [done|by apply list_elem_of_In].
  - induction l as [|y l IH]; intros H; simpl; [done|].
    rewrite (H y) by set_solver. apply IH. set_solver.
Qed.

End bool_lists.

Lemma elem_of_bfilter {A} (p : A -> bool) l x :
  x ∈ List.filter p l <-> x ∈ l /\ p x = true.
Proof. rewrite !list_elem_of_In. apply List.filter_In. Qed.

Lemma filter_all_true {A} (p : A -> bool) l :
  (forall x, x ∈ l -> p x = true) -> List.filter p l = l.
Proof.
  induction l as [|x l IH]; intros H; simpl; [done|].
  rewrite (H x) by set_solver. f_equal. apply IH. set_solver.
Qed.


Lemma Forall_iff_pointwise {A} (P Q : A -> Prop) (l : list A) :
  Forall (fun x => P x <-> Q x) l -> (Forall P l <-> Forall Q l).
Proof.
  induction 1 as [|x l Hx _ IH]; [by rewrite !Forall_nil|].
  by rewrite !Forall_cons, Hx, IH.
Qed.

(** Membership of a string in a list, as [contains] or [any(|t| t == x)]. *)
Definition str_mem (x : string) (l : list string) : bool :=
  existsb (fun t => String.eqb t x) l.

Lemma str_mem_true x l : str_mem x l = true <-> x ∈ l.
Proof.
  unfold str_mem. rewrite existsb_true_iff. split.
  - intros (t & Ht & E). apply String.eqb_eq in E. by subst.
  - intros H. exists x. split; [done|apply String.eqb_refl].
Qed.

Lemma str_mem_false x l : str_mem x l = false <-> x ∉ l.
Proof. rewrite <- not_true_iff_false. by rewrite str_mem_true. Qed.

(** * Strings: Rust's [str] as its UTF-8 bytes *)

Definition NUL : ascii := "000"%char.

(** The double quote, for the texts that carry one. *)
Definition dquote : string := String "034"%char "".

Fixpoint str_contains (c : ascii) (s : string) : bool :=
  match s with
  | EmptyString => false
  | String d s' => Ascii.eqb c d || str_contains c s'
  end.

Definition str_is_empty (s : string) : bool :=
  match s with EmptyString => true | _ => false end.

(** [s.len()] of a Rust string or byte slice. *)
Definition str_len (s : string) : Z := Z.of_nat (String.length s).

(** [[String]::join]. *)
Fixpoint str_join (sep : string) (l : list string) : string :=
  match l with
  | [] => ""
  | [x] => x
  | x :: l' => x +:+ sep +:+ str_join sep l'
  end.

Lemma str_app_cons c (s t : string) : String c s +:+ t = String c (s +:+ t).
Proof. done. Qed.

Lemma str_app_nil_l (s : string) : "" +:+ s = s.
Proof. done. Qed.

Lemma str_app_nil_r (s : string) : s +:+ "" = s.
Proof. induction s as [|c s IH]; [done|]. by rewrite str_app_cons, IH. Qed.

Lemma str_app_assoc (s t u : string) : (s +:+ t) +:+ u = s +:+ (t +:+ u).
Proof. induction s as [|c s IH]; [done|]. by rewrite !str_app_cons, IH. Qed.

Lemma str_app_inv_head (s t u : string) : s +:+ t = s +:+ u -> t = u.
Proof. induction s as [|c s IH]; [done|]. rewrite !str_app_cons. naive_solver. Qed.

Lemma str_length_app (s t : string) :
  String.length (s +:+ t) = String.length s + String.length t.
Proof. induction s as [|c s IH]; [done|]. rewrite str_app_cons. simpl. by rewrite IH. Qed.

(** A separator character splits a concatenation in one way only when the
    first halves do not contain it. *)
Lemma str_sep_inj c (s1 s2 t1 t2 : string) :
  str_contains c s1 = false -> str_contains c s2 = false ->
  s1 +:+ String c t1 = s2 +:+ String c t2 -> s1 = s2 /\ t1 = t2.
Proof.
  revert s2. induction s1 as [|a s1 IH]; intros [|b s2] H1 H2 E;
    rewrite ?str_app_cons, ?str_app_nil_l in E; simpl in *.
  - by simplify_eq.
  - simplify_eq. by rewrite Ascii.eqb_refl in H2.
  - simplify_eq. by rewrite Ascii.eqb_refl in H1.
  - apply orb_false_iff in H1 as [_ H1], H2 as [_ H2]. simplify_eq.
    destruct (IH s2) as [-> ->]; done.
Qed.

(** ** [str::trim]: the Unicode [White_Space] characters, as UTF-8 *)

Definition utf8 (bs : list Byte.byte) : string := String.string_of_list_byte bs.

(** The encodings of U+0009..U+000D, U+0020, U+0085, U+00A0, U+1680,
    U+2000..U+200A, U+2028, U+2029, U+202F, U+205F and U+3000. *)
Definition white_space : list string :=
  utf8 <$> [
    [x09]; [x0a]; [x0b]; [x0c]; [x0d]; [x20];
    [xc2; x85]; [xc2; xa0]; [xe1; x9a; x80];
    [xe2; x80; x80]; [xe2; x80; x81]; [xe2; x80; x82]; [xe2; x80; x83];
    [xe2; x80; x84]; [xe2; x80; x85]; [xe2; x80; x86]; [xe2; x80; x87];
    [xe2; x80; x88]; [xe2; x80; x89]; [xe2; x80; x8a];
    [xe2; x80; xa8]; [xe2; x80; xa9]; [xe2; x80; xaf];
    [xe2; x81; x9f]; [xe3; x80; x80] ]%byte.

Fixpoint strip_prefix (p s : string) : option string :=
  match p, s with
  | EmptyString, _ => Some s
  | String a p', String b s' => if Ascii.eqb a b then strip_prefix p' s' else None
  | String _ _, EmptyString => None
  end.

Fixpoint str_rev (s : string) : string :=
  match s with EmptyString => "" | String c s' => str_rev s' +:+ String c "" end.

Fixpoint first_some {A B} (f : A -> option B) (l : list A) : option B :=
  match l with
  | [] => None
  | x :: l' => match f x with Some b => Some b | None => first_some f l' end
  end.

(** Strip prefixes of [ws] until none applies; every prefix of [ws] is
    non-empty, so [String.length s] steps are enough. *)
Fixpoint strip_all (ws : list string) (fuel : nat) (s : string) : string :=
  match fuel with
  | O => s
  | S n => match first_some (fun w => strip_prefix w s) ws with
           | Some s' => strip_all ws n s'
           | None => s
           end
  end.

Definition trim_start (s : string) : string :=
  strip_all white_space (String.length s) s.

Definition trim_end (s : string) : string :=
  str_rev (strip_all (str_rev <$> white_space) (String.length s) (str_rev s)).

Definition trim (s : string) : string := trim_end (trim_start s).

Example trim_phrase : trim (utf8 [x20; x20; x61; x62; x20; x0a]%byte) = "ab".
Proof. reflexivity. Qed.

(** * Step relations *)

(** Reachability of a labelled step relation, used by the state machines. *)
Section reach.
Context {S L : Type} (step : S -> L -> S -> Prop) (init : S -> Prop).

Inductive reachable : S -> Prop :=
| reach_init s : init s -> reachable s
| reach_step s l s' : reachable s -> step s l s' -> reachable s'.

Lemma reachable_invariant (I : S -> Prop) :
  (forall s, init s -> I s) ->
  (forall s l s', I s -> step s l s' -> I s') ->
  forall s, reachable s -> I s.
Proof. intros Hi Hs s H. induction H; eauto. Qed.
End reach.

(** The shared hint database. *)
Create HintDb genkan.
#[export] Hint Resolve String.eqb_refl Z.eqb_refl : genkan.
