(* ===== verification/Json.v ===== *)
(** Json: the JSON documents the core reads, as the tree a serde visitor walks:
    object members in source order, repeated names included. What each reader
    makes of a repeated member is the reader's business (RuntimeRecord and
    ClientData refuse one). *)
From S2P Require Import Prelude.
From stdpp Require Import base list sets gmap strings.

Inductive json :=
| JNull
| JBool (b : bool)
| JInt (n : Z)
| JFloat (literal : string)
| JStr (s : string)
| JArr (l : list json)
| JObj (m : list (string * json)).

(** The members of an object in order; [None] for any other value. *)
Definition as_object (j : json) : option (list (string * json)) :=
  match j with JObj m => Some m | _ => None end.

(** [Value::as_str]. *)
Definition as_str (j : json) : option string :=
  match j with JStr s => Some s | _ => None end.

(** The first member of that name. *)
Definition member (name : string) (m : list (string * json)) : option json :=
  snd <$> List.find (fun kv => String.eqb kv.1 name) m.

(** Structural induction that reaches array elements and member values. *)
Section json_ind.
Context (P : json -> Prop)
  (Hnull : P JNull) (Hbool : forall b, P (JBool b)) (Hint : forall n, P (JInt n))
  (Hfloat : forall s, P (JFloat s)) (Hstr : forall s, P (JStr s))
  (Harr : forall l, Forall P l -> P (JArr l))
  (Hobj : forall m, Forall (fun kv => P kv.2) m -> P (JObj m)).

Fixpoint json_deep_ind (j : json) : P j :=
  match j with
  | JNull => Hnull
  | JBool b => Hbool b
  | JInt n => Hint n
  | JFloat s => Hfloat s
  | JStr s => Hstr s
  | JArr l => Harr l ((fix go l : Forall P l :=
      match l with
      | [] => List.Forall_nil _
      | x :: l' => List.Forall_cons _ _ _ (json_deep_ind x) (go l')
      end) l)
  | JObj m => Hobj m ((fix go m : Forall (fun kv => P kv.2) m :=
      match m with
      | [] => List.Forall_nil _
      | kv :: m' => List.Forall_cons _ _ _ (json_deep_ind kv.2) (go m')
      end) m)
  end.
End json_ind.

(** [Value]'s [PartialEq], and that it decides equality. *)
Fixpoint json_eqb (a b : json) : bool :=
  match a, b with
  | JNull, JNull => true
  | JBool x, JBool y => Bool.eqb x y
  | JInt x, JInt y => (x =? y)%Z
  | JFloat x, JFloat y | JStr x, JStr y => String.eqb x y
  | JArr x, JArr y =>
      (fix go l l' := match l, l' with
                      | [], [] => true
                      | v :: l, w :: l' => json_eqb v w && go l l'
                      | _, _ => false
                      end) x y
  | JObj x, JObj y =>
      (fix go m m' := match m, m' with
                      | [], [] => true
                      | (k, v) :: m, (k', w) :: m' => String.eqb k k' && json_eqb v w && go m m'
                      | _, _ => false
                      end) x y
  | _, _ => false
  end.

Lemma json_eqb_eq a b : json_eqb a b = true <-> a = b.
Proof.
  revert b. induction a as [|x|x|x|x|l IH|m IH] using json_deep_ind; intros [|y|y|y|y|l'|m'];
    cbn [json_eqb]; try (split; congruence).
  - rewrite Bool.eqb_true_iff. split; congruence.
  - rewrite Z.eqb_eq. split; congruence.
  - rewrite String.eqb_eq. split; congruence.
  - rewrite String.eqb_eq. split; congruence.
  - revert l'. induction IH as [|v l Hv _ IHl]; intros [|w l']; try (split; congruence).
    rewrite andb_true_iff, Hv, IHl. split; [intros [-> [= ->]]|intros [= -> ->]]; done.
  - revert m'. induction IH as [|[k v] m Hv _ IHm]; intros [|[k' w] m'];
      try (split; congruence).
    cbn in Hv. rewrite !andb_true_iff, String.eqb_eq, Hv, IHm.
    split; [intros [[-> ->] [= ->]]|intros [= -> -> ->]]; done.
Qed.

#[export] Instance json_eq_dec : EqDecision json.
Proof.
  intros a b. destruct (json_eqb a b) eqn:E; [left|right].
  - by apply json_eqb_eq.
  - intros H. apply json_eqb_eq in H. congruence.
Defined.

(** No object, at any depth, repeats a member name. *)
Inductive distinct_names : json -> Prop :=
| dn_null : distinct_names JNull
| dn_bool b : distinct_names (JBool b)
| dn_int n : distinct_names (JInt n)
| dn_float s : distinct_names (JFloat s)
| dn_str s : distinct_names (JStr s)
| dn_arr l : Forall distinct_names l -> distinct_names (JArr l)
| dn_obj m : NoDup m.*1 -> Forall distinct_names m.*2 -> distinct_names (JObj m).

#[export] Hint Constructors distinct_names : genkan.

Lemma member_elem name m v : member name m = Some v -> (name, v) ∈ m.
Proof.
  unfold member. intros H. apply fmap_Some in H as ([k w] & Hf & ->).
  apply find_Some_iff in Hf as [Hin E]. apply String.eqb_eq in E. simpl in *. by subst.
Qed.

Lemma member_None name m : member name m = None <-> name ∉ m.*1.
Proof.
  unfold member. rewrite fmap_None, find_None_iff. split.
  - intros H Hin. apply list_elem_of_fmap in Hin as ([k v] & -> & Hkv).
    specialize (H _ Hkv). simpl in H. by rewrite String.eqb_refl in H.
  - intros H [k v] Hkv. simpl. apply String.eqb_neq. intros ->.
    apply H. by apply (list_elem_of_fmap_2 fst) in Hkv.
Qed.
