(* ===== verification/RuntimeRecord.v ===== *)
(** RuntimeRecord: the loader and writer every JSON record of the runtime
    directory shares (src/src/packages/core/src/runtime_record.rs), the capped
    read under it (fsguard.rs, [read_capped]), and the interface the stateful
    components are proved against: a [slot] holds what one record file means.

    serde_json is not part of the repository: the parser, the printer and the
    derived (de)serializers are parameters, with the facts the code relies on
    as hypotheses of the section that uses them. *)
From S2P Require Import Prelude Json.
From stdpp Require Import base list sets gmap strings pretty.

Abbreviation bytes := (list Byte.byte).

(** * The migration ladder *)

Definition usize_max : Z := u64_max.

Abbreviation Rung := (json -> result string json).

Record Ladder := { first_version : Z; rungs : list Rung }.

(** [saturating_add] on [usize]. *)
Definition current (l : Ladder) : Z :=
  Z.min usize_max (l.(first_version) + Z.of_nat (length l.(rungs))).

Inductive climb_error :=
| BelowFloor (version floor : Z)
| AboveLadder (version newest : Z)
| RungFailed (e : string).

(** [try_fold] of the pending rungs over the body. *)
Fixpoint run_rungs (rs : list Rung) (body : json) : result string json :=
  match rs with
  | [] => Ok body
  | r :: rs' => body' ← r body; run_rungs rs' body'
  end.

Definition climb (self : Ladder) (version : Z) (body : json) : result climb_error json :=
  if (version <? self.(first_version))%Z then
    Err (BelowFloor version self.(first_version))
  else
    let climbed := (version - self.(first_version))%Z in
    if (Z.of_nat (length self.(rungs)) <? climbed)%Z then
      Err (AboveLadder version (current self))
    else map_err RungFailed (run_rungs (drop (Z.to_nat climbed) self.(rungs)) body).

(** * Repeated keys *)

(** The visitor [NoDuplicateKeys]: the error is the first repeated key met in
    document order. *)
Fixpoint no_duplicate_keys (j : json) : result string unit :=
  match j with
  | JNull | JBool _ | JInt _ | JFloat _ | JStr _ => Ok tt
  | JArr l =>
      (fix visit_seq l : result string unit :=
         match l with
         | [] => Ok tt
         | x :: l' => _ ← no_duplicate_keys x; visit_seq l'
         end) l
  | JObj m =>
      (fix visit_map (seen : gset string) m : result string unit :=
         match m with
         | [] => Ok tt
         | (key, v) :: m' =>
             if decide (key ∈ seen) then Err key
             else _ ← no_duplicate_keys v; visit_map ({[key]} ∪ seen) m'
         end) ∅ m
  end.

(** * The record envelope *)

(** [Envelope<Map<String, Value>>]: a [usize] version and the flattened rest. *)
Definition parse_envelope (j : json) : option (Z * list (string * json)) :=
  m ← as_object j;
  v ← member "version" m;
  match v with
  | JInt n =>
      if (0 <=? n)%Z && (n <=? usize_max)%Z
      then Some (n, List.filter (fun kv => negb (String.eqb kv.1 "version")) m)
      else None
  | _ => None
  end.

Inductive decode_error :=
| NotJson (e : string)
| RepeatedKey (key : string)
| BadEnvelope
| Climb (e : climb_error)
| BadBody (e : string).

Inductive encode_error := OverCap (len cap : Z).

(** What a record type declares, with its derived serde implementation. *)
Class Record (T : Type) := {
  FILE : string;
  MAX_BYTES : Z;
  LADDER : Ladder;
  to_body : T -> list (string * json);
  from_body : json -> result string T
}.

Section record.
Context {T : Type} `{!Record T}.
Context (parse_json : bytes -> result string json) (print_json : json -> bytes).
Context (render : decode_error -> string) (render_cap : encode_error -> string)
  (over_cap_text : string).

Definition VERSION : Z := current LADDER.

(** [invalid(Self::FILE, e)]. *)
Definition invalid (e : string) : io_error := invalid_data (FILE +:+ ": " +:+ e).

Definition decode_body (j : json) : result decode_error T :=
  _ ← map_err RepeatedKey (no_duplicate_keys j);
  env ← ok_or (parse_envelope j) BadEnvelope;
  body ← map_err Climb (climb LADDER env.1 (JObj env.2));
  map_err BadBody (from_body body).

Definition decode (b : bytes) : result decode_error T :=
  j ← map_err NotJson (parse_json b);
  decode_body j.

Definition envelope (t : T) : json := JObj (("version", JInt VERSION) :: to_body t).

Definition encode (t : T) : result encode_error bytes :=
  let b := print_json (envelope t) in
  if (MAX_BYTES <? Z.of_nat (length b))%Z
  then Err (OverCap (Z.of_nat (length b)) MAX_BYTES)
  else Ok b.

(** [fsguard::read_capped]: at most [cap + 1] bytes are taken from the file. *)
Definition read_capped (file : option bytes) (max : Z) : result io_error (option bytes) :=
  match file with
  | None => Ok None
  | Some content =>
      let read := take (Z.to_nat (max + 1)) content in
      if (max <? Z.of_nat (length read))%Z then Err (invalid_data over_cap_text)
      else Ok (Some read)
  end.

Definition load (file : option bytes) : result io_error (option T) :=
  r ← read_capped file MAX_BYTES;
  match r with
  | Some b => Some <$> map_err (fun e => invalid (render e)) (decode b)
  | None => Ok None
  end.

(** The atomic replacement: on success the file is exactly the encoded bytes,
    on any error it is untouched. *)
Definition write (fault : option io_error) (t : T) (file : option bytes) :
    result io_error unit * option bytes :=
  match encode t with
  | Err e => (Err (invalid (render_cap e)), file)
  | Ok b => match fault with
            | Some e => (Err e, file)
            | None => (Ok tt, Some b)
            end
  end.

(** Removing an absent file is not an error. *)
Definition remove (fault : option io_error) (file : option bytes) :
    result io_error unit * option bytes :=
  match file, fault with
  | None, _ => (Ok tt, None)
  | Some _, Some e => (Err e, file)
  | Some _, None => (Ok tt, None)
  end.
End record.

(** * Slots: what a record file means to its readers *)

Inductive slot (T : Type) :=
| Absent
| Damaged (e : io_error)
| Stored (t : T).
Arguments Absent {T}.
Arguments Damaged {T} e.
Arguments Stored {T} t.

Definition slot_load {T} (s : slot T) : result io_error (option T) :=
  match s with Absent => Ok None | Damaged e => Err e | Stored t => Ok (Some t) end.

(** The size rule of [encode] and the refusal it earns, per record type. *)
Class Sized (T : Type) := { fits : T -> bool; too_large : T -> io_error }.

Definition slot_write {T} `{Sized T} (fault : option io_error) (t : T) (s : slot T) :
    result io_error unit * slot T :=
  if fits t then
    match fault with Some e => (Err e, s) | None => (Ok tt, Stored t) end
  else (Err (too_large t), s).

Definition slot_remove {T} (fault : option io_error) (s : slot T) :
    result io_error unit * slot T :=
  match s, fault with
  | Absent, _ => (Ok tt, Absent)
  | _, Some e => (Err e, s)
  | _, None => (Ok tt, Absent)
  end.

Lemma slot_load_Some {T} (s : slot T) t : slot_load s = Ok (Some t) <-> s = Stored t.
Proof. destruct s; naive_solver. Qed.

Lemma slot_load_None {T} (s : slot T) : slot_load s = Ok None <-> s = Absent.
Proof. destruct s; naive_solver. Qed.

Lemma slot_write_Ok {T} `{Sized T} fault t (s s' : slot T) u :
  slot_write fault t s = (Ok u, s') -> s' = Stored t /\ fits t = true.
Proof. unfold slot_write. destruct (fits t), fault; naive_solver. Qed.

Lemma slot_write_Err {T} `{Sized T} fault t (s s' : slot T) e :
  slot_write fault t s = (Err e, s') -> s' = s.
Proof. unfold slot_write. destruct (fits t), fault; naive_solver. Qed.

Lemma slot_remove_Ok {T} fault (s s' : slot T) u : slot_remove fault s = (Ok u, s') -> s' = Absent.
Proof. unfold slot_remove. destruct s, fault; naive_solver. Qed.

Lemma slot_remove_Err {T} fault (s s' : slot T) e : slot_remove fault s = (Err e, s') -> s' = s.
Proof. unfold slot_remove. destruct s, fault; naive_solver. Qed.

#[export] Hint Resolve slot_write_Ok slot_write_Err : genkan.

(** * Lemmas on the ladder and the visitor *)

Lemma run_rungs_app rs rs' j :
  run_rungs (rs ++ rs') j = (run_rungs rs j ≫= run_rungs rs').
Proof.
  revert j. induction rs as [|r rs IH]; intros j; simpl; [done|].
  destruct (r j); simpl; [apply IH|done].
Qed.

Lemma climb_at_current l j :
  (0 <= first_version l)%Z -> (first_version l + Z.of_nat (length (rungs l)) <= usize_max)%Z ->
  climb l (current l) j = Ok j.
Proof.
  intros H0 Hmax. unfold climb, current. rewrite Z.min_r by done.
  destruct (Z.ltb_spec (first_version l + Z.of_nat (length (rungs l))) (first_version l)); [lia|].
  replace (_ + _ - _)%Z with (Z.of_nat (length (rungs l))) by lia.
  rewrite Z.ltb_irrefl, Nat2Z.id, drop_all. done.
Qed.

Lemma no_duplicate_keys_seq l :
  (fix visit_seq l : result string unit :=
     match l with [] => Ok tt | x :: l' => _ ← no_duplicate_keys x; visit_seq l' end) l = Ok tt <->
  Forall (fun x => no_duplicate_keys x = Ok tt) l.
Proof.
  induction l as [|x l IH]; [done|].
  rewrite Forall_cons, <- IH, bind_Ok.
  split; [intros ([] & ? & ?); done|intros [? ?]; exists tt; done].
Qed.

Lemma no_duplicate_keys_map seen m :
  (fix visit_map (seen : gset string) m : result string unit :=
     match m with
     | [] => Ok tt
     | (key, v) :: m' =>
         if decide (key ∈ seen) then Err key
         else _ ← no_duplicate_keys v; visit_map ({[key]} ∪ seen) m'
     end) seen m = Ok tt <->
  NoDup m.*1 /\ (forall k, k ∈ m.*1 -> k ∉ seen) /\
  Forall (fun x => no_duplicate_keys x = Ok tt) m.*2.
Proof.
  revert seen. induction m as [|[k v] m IH]; intros seen.
  - csimpl. split; [|done]. intros _. repeat constructor. set_solver.
  - csimpl. rewrite NoDup_cons, Forall_cons. case_decide as Hk.
    + split; [done|]. intros (_ & H & _). exfalso. apply (H k); set_solver.
    + rewrite bind_Ok. split.
      * intros ([] & Hv & H). apply IH in H as (Hnd & Hs & Hf).
        repeat split; auto; [|set_solver]. intros Hin. apply (Hs k); set_solver.
      * intros ((Hk' & Hnd) & Hs & Hv & Hf). exists tt. split; [done|]. apply IH.
        repeat split; auto. intros k' Hk''. specialize (Hs k'). set_solver.
Qed.

(** The visitor accepts exactly the documents whose objects repeat no name. *)
Lemma no_duplicate_keys_spec j : no_duplicate_keys j = Ok tt <-> distinct_names j.
Proof.
  induction j as [ | | | | |l IH|m IH] using json_deep_ind;
    try (split; [constructor|done]).
  - simpl. rewrite no_duplicate_keys_seq, (Forall_iff_pointwise _ distinct_names) by done.
    split; [constructor; done|by inversion 1].
  - simpl. rewrite no_duplicate_keys_map.
    rewrite (Forall_iff_pointwise _ distinct_names) by (by rewrite Forall_fmap).
    split; [intros (? & _ & ?); by constructor|inversion 1; set_solver].
Qed.

(** * The file implements the slot *)

Section refinement.
Context {T : Type} `{!Record T}.
Context (parse_json : bytes -> result string json) (print_json : json -> bytes).
Context (render : decode_error -> string) (render_cap : encode_error -> string)
  (over_cap_text : string).

(** serde_json reads back what it printed of a record. *)
Hypothesis parse_print : forall t : T, parse_json (print_json (envelope t)) = Ok (envelope t).
(** The derived deserializer inverts the derived serializer. *)
Hypothesis from_to_body : forall t : T, from_body (JObj (to_body t)) = Ok t.
(** A serialized struct repeats no name and has no [version] field. *)
Hypothesis body_names : forall t : T, distinct_names (JObj (to_body t)).
Hypothesis body_version : forall t : T, "version" ∉ (to_body t).*1.
(** The ladder's bounds are [usize] values that do not saturate. *)
Hypothesis ladder_ok :
  (0 <= first_version LADDER)%Z /\
  (first_version LADDER + Z.of_nat (length (rungs LADDER)) <= usize_max)%Z.

Abbreviation load_ := (load parse_json render over_cap_text (T := T)).
Abbreviation write_ := (write print_json render_cap (T := T)).

Definition slot_of (file : option bytes) : slot T :=
  match load_ file with
  | Ok None => Absent
  | Ok (Some t) => Stored t
  | Err e => Damaged e
  end.

#[local] Instance file_sized : Sized T := {|
  fits t := is_ok (encode print_json t);
  too_large t := match encode print_json t with
                 | Err e => invalid (T := T) (render_cap e)
                 | Ok _ => invalid_data ""
                 end
|}.

Lemma parse_envelope_envelope t : parse_envelope (envelope (T := T) t) = Some (VERSION, to_body t).
Proof.
  unfold parse_envelope, envelope. simpl. unfold member. simpl.
  assert ((0 <=? VERSION)%Z && (VERSION <=? usize_max)%Z = true) as ->.
  { apply andb_true_intro. rewrite !Z.leb_le. unfold VERSION, current.
    rewrite Z.min_r by tauto. lia. }
  do 2 f_equal. apply List.forallb_filter_id. apply forallb_true_iff. intros [k v] Hkv. simpl.
  apply negb_true_iff, String.eqb_neq. intros ->. apply (body_version t).
  by apply (list_elem_of_fmap_2 fst) in Hkv.
Qed.

Lemma decode_encode t b :
  encode print_json t = Ok b -> decode parse_json b = Ok t.
Proof.
  unfold encode. case_match; intros; simplify_eq.
  unfold decode, decode_body. rewrite parse_print. cbn [map_err mbind result_mbind].
  assert (no_duplicate_keys (envelope t) = Ok tt) as ->.
  { apply no_duplicate_keys_spec. specialize (body_names t). unfold envelope.
    inversion body_names as [| | | | | |m Hnd Hv]; subst. constructor; csimpl.
    - apply NoDup_cons_2; [apply body_version|done].
    - constructor; [constructor|done]. }
  rewrite parse_envelope_envelope. cbn [map_err ok_or mbind result_mbind fst snd]. unfold VERSION.
  rewrite climb_at_current by tauto. simpl. by rewrite from_to_body.
Qed.

Lemma encode_fits t b :
  encode print_json t = Ok b -> (Z.of_nat (length b) <= MAX_BYTES)%Z.
Proof. unfold encode. case_match eqn:E; intros; simplify_eq. by apply Z.ltb_ge. Qed.

Lemma load_written t b :
  encode print_json t = Ok b -> load_ (Some b) = Ok (Some t).
Proof.
  intros H. pose proof (encode_fits _ _ H) as Hlen. unfold load, read_capped.
  rewrite take_ge by lia.
  destruct (Z.ltb_spec MAX_BYTES (Z.of_nat (length b))); [lia|]. simpl.
  by rewrite (decode_encode t b).
Qed.

(** C34: the record file implements the slot: reading the file is reading the
    slot it stands for, and a write, a refused write or a removal moves the
    file exactly as it moves the slot. A written record therefore loads back
    equal, and a write that fails leaves the previous record readable. *)
Theorem record_file_refines_slot (file : option bytes) (fault : option io_error) (t : T) :
  load_ file = slot_load (slot_of file) /\
  slot_write fault t (slot_of file) =
    ((write_ fault t file).1, slot_of (write_ fault t file).2) /\
  (remove None file).1 = Ok tt /\ slot_of (remove None file).2 = Absent.
Proof.
  split; [|split; [|split]].
  - unfold slot_of. by destruct (load_ file) as [[]|].
  - unfold slot_write, write. simpl. destruct (encode print_json t) as [b|e] eqn:E; simpl; [|done].
    destruct fault; simpl; [done|]. unfold slot_of at 1. by rewrite (load_written t b).
  - by destruct file.
  - by destruct file.
Qed.
End refinement.

(** ** A concrete record for the witnesses *)

Module KillFlag.
#[export] Instance killflag : Record bool := {|
  FILE := "flag.json"; MAX_BYTES := 8; LADDER := {| first_version := 0; rungs := [] |};
  to_body b := [("killed", JBool b)];
  from_body j := match j with
                 | JObj [(k, JBool b)] => if String.eqb k "killed" then Ok b else Err "unknown field"
                 | _ => Err "shape"
                 end
|}.

Definition print (j : json) : bytes :=
  match j with JObj [_; (_, JBool true)] => [Byte.x01] | _ => [Byte.x00] end.

Definition parse (b : bytes) : result string json :=
  match b with
  | [Byte.x00] => Ok (envelope false)
  | [Byte.x01] => Ok (envelope true)
  | _ => Err "syntax"
  end.

Definition text (A : Type) (_ : A) : string := "refused".
End KillFlag.
#[local] Existing Instance KillFlag.killflag.

Lemma record_file_refines_slot_witness :
  load KillFlag.parse (KillFlag.text _) "over cap" (Some [Byte.x01]) = Ok (Some true) /\
  (remove None (Some [Byte.x01])).1 = Ok tt.
Proof.
  destruct (record_file_refines_slot KillFlag.parse KillFlag.print (KillFlag.text _)
    (KillFlag.text _) "over cap") with (file := Some [Byte.x01]) (fault := @None io_error) (t := true)
    as (H1 & _ & H3 & _).
  - intros []; reflexivity.
  - intros []; reflexivity.
  - intros []; apply no_duplicate_keys_spec; reflexivity.
  - intros [] H; apply list_elem_of_singleton in H; discriminate H.
  - split; vm_compute; discriminate.
  - split; [rewrite H1; reflexivity|exact H3].
Defined.

(** C36: a record is decoded only from a document that repeats no member name at
    any depth and whose [version] is an integer on this binary's ladder; a
    repeated key such as two [killed] members, or a version outside the ladder,
    is refused whatever the body says. *)
Theorem decode_refuses_duplicates_and_versions {T} `{!Record T} (j : json) (t : T) :
  decode_body j = Ok t ->
  distinct_names j /\
  exists m v, j = JObj m /\ member "version" m = Some (JInt v) /\
    (first_version LADDER <= v <= first_version LADDER + Z.of_nat (length (rungs LADDER)))%Z.
Proof.
  unfold decode_body. intros H. inv_res. destruct a. split.
  { by apply no_duplicate_keys_spec. }
  destruct j as [ | | | | | |m]; try discriminate. exists m.
  unfold parse_envelope in Hr0. simpl in Hr0.
  destruct (member "version" m) as [v|] eqn:Em; [|discriminate]. simpl in Hr0.
  destruct v as [ | |n| | | | ]; try discriminate.
  destruct (_ && _) in Hr0; [|discriminate]. simplify_eq. exists n. split; [done|]. split; [done|].
  unfold climb in Hr1. simpl in Hr1. repeat case_match; simplify_eq.
  rewrite Z.ltb_ge in *. lia.
Qed.

Lemma decode_refuses_duplicates_and_versions_witness :
  distinct_names (envelope true) /\ decode_body (envelope true) = Ok true.
Proof.
  split; [|reflexivity].
  apply (decode_refuses_duplicates_and_versions (envelope true) true). reflexivity.
Defined.

(** Retiring the oldest rung while raising the floor keeps the meaning of
    every version still on the ladder: the current version does not move, and a
    body stored at any version above the retired one climbs to the same result. *)
Theorem retiring_the_first_rung_is_safe (fv : Z) (r : Rung) (rs : list Rung)
    (version : Z) (body : json) :
  (fv < version)%Z ->
  let old := {| first_version := fv; rungs := r :: rs |} in
  let new := {| first_version := fv + 1; rungs := rs |} in
  current old = current new /\ climb old version body = climb new version body.
Proof.
  intros Hv old new. assert (current old = current new) as Hc.
  { unfold current, old, new. simpl length. cbn [first_version rungs]. f_equal. lia. }
  split; [done|]. unfold climb. rewrite Hc. cbn [first_version rungs old new]. simpl length.
  destruct (Z.ltb_spec version fv); [lia|].
  destruct (Z.ltb_spec version (fv + 1)); [lia|].
  replace (version - fv)%Z with (Z.succ (version - (fv + 1))) by lia.
  rewrite Z2Nat.inj_succ by lia. simpl drop.
  destruct (Z.ltb_spec (Z.of_nat (S (length rs))) (Z.succ (version - (fv + 1)))),
    (Z.ltb_spec (Z.of_nat (length rs)) (version - (fv + 1))); try lia; done.
Qed.

Lemma retiring_the_first_rung_is_safe_witness :
  climb {| first_version := 0; rungs := [fun _ => Err "never"; fun j => Ok (JArr [j])] |} 1 JNull =
  climb {| first_version := 1; rungs := [fun j => Ok (JArr [j])] |} 1 JNull.
Proof.
  exact (proj2 (retiring_the_first_rung_is_safe 0 (fun _ => Err "never")
    [fun j => Ok (JArr [j])] 1 JNull eq_refl)).
Defined.
