(* ===== verification/PrivateFiles.v ===== *)
(** PrivateFiles: the files of the runtime directory under one user's processes
    (src/src/packages/core/src/fsguard.rs, Unix). Names and inodes are kept apart, so that a
    planted link, a planted file of a looser mode and a second name of one inode are what
    they are; [write_private_atomic] is a sequence of steps that other writers interleave
    with, any of which may fail or be killed between two of them.

    The directory operations of the same file ([ensure_private_dir]) are with [Machine]. *)
From S2P Require Import Prelude Json RuntimeRecord.
From stdpp Require Import base list gmap sets strings.

(** * Names and inodes *)

Record Inode := mkInode { in_mode : Z; in_data : bytes }.

Inductive Entry := EFile (inode : nat) | ELink (target : string) | EDir.

Record Fs := mkFs { fs_names : gmap string Entry; fs_inodes : gmap nat Inode; fs_next : nat }.

(** Every inode is below the next one to be allocated, and every file has its inode. *)
Definition fs_ok (f : Fs) : Prop :=
  (forall i x, fs_inodes f !! i = Some x -> i < fs_next f) /\
  (forall n i, fs_names f !! n = Some (EFile i) -> is_Some (fs_inodes f !! i)).

Definition PRIVATE : Z := 384.   (* 0o600 *)
Definition created_mode (umask mode : Z) : Z := Z.ldiff mode umask.
Definition owner_only (mode : Z) : Prop := Z.land mode 63 = 0%Z.   (* 0o077 *)

Definition set_names (f : Fs) (names : gmap string Entry) : Fs := mkFs names (fs_inodes f) (fs_next f).
Definition set_inode (f : Fs) (i : nat) (x : Inode) : Fs := mkFs (fs_names f) (<[i := x]> (fs_inodes f)) (fs_next f).

(** A file created under a name that is free. *)
Definition create (f : Fs) (name : string) (mode : Z) : Fs :=
  mkFs (<[name := EFile (fs_next f)]> (fs_names f)) (<[fs_next f := mkInode mode []]> (fs_inodes f)) (S (fs_next f)).

(** * Opens *)

(** [open_private], the body of [open_private_append] and [open_private_rw]: the handle is
    an inode. [fault] is a failure of the open, [chmod] one of [set_permissions]. *)
Definition open_private (umask : Z) (fault chmod : option io_error) (path : string) (f : Fs) :
    Fs * result io_error nat :=
  let tighten (i : nat) (f : Fs) :=
    match chmod, fs_inodes f !! i with
    | Some e, _ => (f, Err e)
    | None, Some x => (set_inode f i (mkInode PRIVATE (in_data x)), Ok i)
    | None, None => (f, Err (IoError NotFound "no such file"))
    end in
  match fault with
  | Some e => (f, Err e)
  | None =>
      match fs_names f !! path with
      | Some (ELink _) => (f, Err (IoError Other "too many levels of symbolic links"))
      | Some EDir => (f, Err (IoError Other "is a directory"))
      | Some (EFile i) => tighten i f
      | None => let i := fs_next f in tighten i (create f path (created_mode umask PRIVATE))
      end
  end.

(** * Reads *)

(** What a plain open reaches: links are followed, a loop of them ends the open, and a name
    that leads nowhere is absent. *)
Fixpoint resolve (fuel : nat) (f : Fs) (name : string) : result io_error (option nat) :=
  match fuel with
  | O => Err (IoError Other "too many levels of symbolic links")
  | S fuel =>
      match fs_names f !! name with
      | Some (EFile i) => Ok (Some i)
      | Some (ELink target) => resolve fuel f target
      | Some EDir => Err (IoError Other "is a directory")
      | None => Ok None
      end
  end.

(** [read_capped] of a path: the open fails, finds nothing, or the file is read to its cap. *)
Definition read_private (over_cap_text : string) (fuel : nat) (f : Fs) (path : string) (max : Z) :
    result io_error (option bytes) :=
  match resolve fuel f path with
  | Err e => Err e
  | Ok found => read_capped over_cap_text (found ≫= fun i => in_data <$> fs_inodes f !! i) max
  end.

(** * Atomic replacement *)

(** A writer between creating its temporary file and renaming it. *)
Record Writer := mkWriter { w_tmp : string; w_inode : nat; w_todo : bytes; w_whole : bytes }.

(** [landed]: the bytes of each rename, in order. [orphans]: the temporary files of writers
    that were killed before they could remove them. *)
Record Dir := mkDir {
  d_fs : Fs;
  d_writers : gmap nat Writer;
  d_landed : list bytes;
  d_orphans : list string
}.

Inductive act :=
| PCreate (p : nat) (b : bytes) (tmp : string)   (* NamedTempFile::new_in *)
| PWrite (p : nat) (n : nat)                     (* some of write_all *)
| PPersist (p : nat)                             (* persist: the rename *)
| PDrop (p : nat)                                (* an error: the temporary file is removed *)
| PKilled (p : nat).                             (* the process ends where it is *)

Definition pexec (path : string) (umask : Z) (a : act) (d : Dir) : option Dir :=
  let f := d_fs d in
  match a with
  | PCreate p b tmp =>
      match d_writers d !! p, fs_names f !! tmp with
      | None, None =>
          if String.eqb tmp path then None
          else Some (mkDir (create f tmp (created_mode umask PRIVATE))
                       (<[p := mkWriter tmp (fs_next f) b b]> (d_writers d)) (d_landed d) (d_orphans d))
      | _, _ => None
      end
  | PWrite p n =>
      w ← d_writers d !! p;
      x ← fs_inodes f !! w_inode w;
      Some (mkDir (set_inode f (w_inode w) (mkInode (in_mode x) (in_data x ++ take n (w_todo w))))
              (<[p := mkWriter (w_tmp w) (w_inode w) (drop n (w_todo w)) (w_whole w)]> (d_writers d))
              (d_landed d) (d_orphans d))
  | PPersist p =>
      w ← d_writers d !! p;
      match w_todo w, fs_names f !! path with
      | _ :: _, _ | [], Some EDir => None
      | [], _ =>
          Some (mkDir (set_names f (<[path := EFile (w_inode w)]> (delete (w_tmp w) (fs_names f))))
                  (delete p (d_writers d)) (d_landed d ++ [w_whole w]) (d_orphans d))
      end
  | PDrop p =>
      w ← d_writers d !! p;
      Some (mkDir (set_names f (delete (w_tmp w) (fs_names f))) (delete p (d_writers d)) (d_landed d) (d_orphans d))
  | PKilled p =>
      w ← d_writers d !! p;
      Some (mkDir f (delete p (d_writers d)) (d_landed d) (w_tmp w :: d_orphans d))
  end.

(** [write_private_atomic] of one process, alone: the temporary file under the name [tmp]
    the random generator gives, then the bytes, then the rename; every early return drops
    the temporary file. The faults are those of the three calls that can fail. *)
Definition has_parent (path : string) : bool := negb (forallb (Ascii.eqb (Ascii.ascii_of_nat 47)) (String.list_ascii_of_string path)).

Definition write_private_atomic (path : string) (umask : Z) (p : nat) (tmp : string) (b : bytes)
    (new_fault write_fault rename_fault : option io_error) (d : Dir) : result io_error unit * Dir :=
  if negb (has_parent path) then (Err (IoError Other "target path has no parent directory"), d)
  else match new_fault, pexec path umask (PCreate p b tmp) d with
  | Some e, _ => (Err e, d)
  | None, None => (Err (IoError Other "file exists"), d)
  | None, Some d1 =>
      let drop_tmp (e : io_error) (d : Dir) := (Err e, default d (pexec path umask (PDrop p) d)) in
      match write_fault, pexec path umask (PWrite p (length b)) d1 with
      | Some e, _ => drop_tmp e d1
      | None, None => drop_tmp (IoError Other "not open") d1
      | None, Some d2 =>
          match rename_fault, pexec path umask (PPersist p) d2 with
          | Some e, _ => drop_tmp e d2
          | None, None => drop_tmp (IoError Other "is a directory") d2
          | None, Some d3 => (Ok tt, d3)
          end
      end
  end.

Definition pstart (f : Fs) : Dir := mkDir f ∅ [] [].
Definition prun (path : string) (umask : Z) (f : Fs) : Dir -> Prop :=
  rtc (fun d d' => exists a, pexec path umask a d = Some d') (pstart f).

(** * Lemmas *)

Lemma created_private umask : owner_only (created_mode umask PRIVATE).
Proof.
  unfold owner_only, created_mode, PRIVATE. apply Z.bits_inj'. intros n Hn.
  rewrite Z.land_spec, Z.ldiff_spec, Z.bits_0.
  assert (Z.testbit 384 n && Z.testbit 63 n = false) as H.
  { rewrite <- Z.land_spec. apply Z.bits_0. }
  destruct (Z.testbit 384 n), (Z.testbit 63 n), (Z.testbit umask n); done.
Qed.

Section replacement.
Context (path : string) (umask : Z) (f0 : Fs) (Hf0 : fs_ok f0).

(** A writer's temporary file: its own name and inode, both new, holding what was written. *)
Definition writer_ok (f : Fs) (w : Writer) : Prop :=
  fs_names f !! w_tmp w = Some (EFile (w_inode w)) /\ w_tmp w <> path /\ fs_names f0 !! w_tmp w = None /\
  fs_next f0 <= w_inode w /\
  exists written, fs_inodes f !! w_inode w = Some (mkInode (created_mode umask PRIVATE) written) /\
    written ++ w_todo w = w_whole w.

(** The entry at the path: what was there, or the last file that landed, which no writer
    still holds. *)
Definition path_ok (d : Dir) : Prop :=
  match last (d_landed d) with
  | None => fs_names (d_fs d) !! path = fs_names f0 !! path
  | Some b =>
      exists i, fs_names (d_fs d) !! path = Some (EFile i) /\ fs_next f0 <= i /\
        fs_inodes (d_fs d) !! i = Some (mkInode (created_mode umask PRIVATE) b) /\
        forall p w, d_writers d !! p = Some w -> w_inode w <> i
  end.

Record dir_ok (d : Dir) : Prop := {
  do_next : fs_next f0 <= fs_next (d_fs d);
  do_inodes : forall i x, fs_inodes (d_fs d) !! i = Some x -> i < fs_next (d_fs d);
  do_old : forall i, i < fs_next f0 -> fs_inodes (d_fs d) !! i = fs_inodes f0 !! i;
  do_writers : forall p w, d_writers d !! p = Some w -> writer_ok (d_fs d) w;
  do_apart : forall p q w v, d_writers d !! p = Some w -> d_writers d !! q = Some v -> p <> q ->
    w_inode w <> w_inode v /\ w_tmp w <> w_tmp v;
  do_path : path_ok d;
  do_orphans : forall n, n ∈ d_orphans d -> fs_names f0 !! n = None /\ is_Some (fs_names (d_fs d) !! n) /\ n <> path /\
    forall p w, d_writers d !! p = Some w -> w_tmp w <> n;
  do_names : forall n, n <> path ->
    fs_names (d_fs d) !! n = fs_names f0 !! n \/
    (exists p w, d_writers d !! p = Some w /\ w_tmp w = n) \/ n ∈ d_orphans d
}.

Lemma start_ok : dir_ok (pstart f0).
Proof. split; cbn; try done; [apply Hf0|set_solver|by left]. Qed.

Lemma writer_below d p w : dir_ok d -> d_writers d !! p = Some w -> w_inode w < fs_next (d_fs d).
Proof. intros H Hw. destruct (do_writers d H p w Hw) as (_ & _ & _ & _ & b & Hi & _). by eapply do_inodes. Qed.

Lemma create_ok d p b tmp :
  dir_ok d -> d_writers d !! p = None -> fs_names (d_fs d) !! tmp = None -> tmp <> path ->
  dir_ok (mkDir (create (d_fs d) tmp (created_mode umask PRIVATE))
            (<[p := mkWriter tmp (fs_next (d_fs d)) b b]> (d_writers d)) (d_landed d) (d_orphans d)).
Proof.
  intros H Hp Ht Hne. pose proof (do_next d H) as Hnext.
  assert (forall q w, d_writers d !! q = Some w -> w_inode w <> fs_next (d_fs d) /\ w_tmp w <> tmp) as Hfresh.
  { intros q w Hw. split; [apply (writer_below d q w H) in Hw; lia|].
    intros <-. destruct (do_writers d H q w Hw) as (Hn & _). congruence. }
  assert (tmp ∉ d_orphans d) as Hno by (intros Ho; apply (do_orphans d H) in Ho as (_ & [x Hx] & _); congruence).
  assert (fs_names f0 !! tmp = None) as Ht0.
  { destruct (do_names d H tmp Hne) as [Hs|[(q & w & Hw & <-)|Ho]]; [congruence|by destruct (Hfresh q w Hw)|done]. }
  split; cbn [d_fs d_writers d_landed d_orphans create fs_names fs_inodes fs_next].
  - lia.
  - intros i x Hi. destruct (decide (i = fs_next (d_fs d))) as [->|Hi']; [lia|].
    rewrite lookup_insert_ne in Hi by done. apply (do_inodes d H) in Hi. lia.
  - intros i Hi. rewrite lookup_insert_ne by lia. by apply (do_old d H).
  - intros q w Hw. destruct (decide (q = p)) as [->|Hq].
    + rewrite lookup_insert_eq in Hw. injection Hw as <-. unfold writer_ok. cbn. rewrite !lookup_insert_eq.
      split; [done|]. split; [done|]. split; [done|]. split; [lia|]. by exists [].
    + rewrite lookup_insert_ne in Hw by done. destruct (Hfresh q w Hw) as [Hi Ht']. unfold writer_ok. cbn.
      rewrite !lookup_insert_ne by congruence. by apply (do_writers d H q).
  - intros q r w v Hw Hv Hqr. destruct (decide (q = p)) as [->|Hq], (decide (r = p)) as [->|Hr]; [done| | |].
    + rewrite lookup_insert_eq in Hw. rewrite lookup_insert_ne in Hv by done. injection Hw as <-.
      destruct (Hfresh r v Hv). cbn. split; congruence.
    + rewrite lookup_insert_eq in Hv. rewrite lookup_insert_ne in Hw by done. injection Hv as <-.
      destruct (Hfresh q w Hw). by cbn.
    + rewrite lookup_insert_ne in Hw, Hv by done. by eapply (do_apart d H).
  - pose proof (do_path d H) as Hpath. unfold path_ok in *. cbn [d_landed d_fs d_writers fs_names fs_inodes create].
    rewrite lookup_insert_ne by done. destruct (last (d_landed d)) as [x|]; [|done].
    destruct Hpath as (i & H1 & H2 & H3 & H4). exists i. split; [done|]. split; [done|].
    assert (i <> fs_next (d_fs d)) by (apply (do_inodes d H) in H3; lia). rewrite lookup_insert_ne by done.
    split; [done|]. intros q w Hw. destruct (decide (q = p)) as [->|Hq].
    + rewrite lookup_insert_eq in Hw. by injection Hw as <-.
    + rewrite lookup_insert_ne in Hw by done. by eapply H4.
  - intros n Hn. destruct (do_orphans d H n Hn) as (H1 & H2 & H3 & H4). assert (n <> tmp) by set_solver.
    rewrite lookup_insert_ne by done. split; [done|]. split; [done|]. split; [done|]. intros q w Hw.
    destruct (decide (q = p)) as [->|Hq]; [rewrite lookup_insert_eq in Hw; by injection Hw as <-|].
    rewrite lookup_insert_ne in Hw by done. by eapply H4.
  - intros n Hn. destruct (decide (n = tmp)) as [->|Hnt].
    + right. left. exists p. rewrite lookup_insert_eq. by eexists.
    + rewrite lookup_insert_ne by done. destruct (do_names d H n Hn) as [?|[(q & w & Hw & Hq)|?]]; [by left| |by right; right].
      right. left. exists q, w. split; [|done]. rewrite lookup_insert_ne; [done|congruence].
Qed.

(** Writing more of a temporary file changes nothing but that file. *)
Lemma write_ok d p w n written :
  dir_ok d -> d_writers d !! p = Some w ->
  fs_inodes (d_fs d) !! w_inode w = Some (mkInode (created_mode umask PRIVATE) written) ->
  written ++ w_todo w = w_whole w ->
  dir_ok (mkDir (set_inode (d_fs d) (w_inode w) (mkInode (created_mode umask PRIVATE) (written ++ take n (w_todo w))))
            (<[p := mkWriter (w_tmp w) (w_inode w) (drop n (w_todo w)) (w_whole w)]> (d_writers d))
            (d_landed d) (d_orphans d)).
Proof.
  intros H Hw Hi Hwhole. destruct (do_writers d H p w Hw) as (Hn & Hne & Hn0 & Hge & _).
  assert (forall q v, <[p := mkWriter (w_tmp w) (w_inode w) (drop n (w_todo w)) (w_whole w)]> (d_writers d) !! q = Some v ->
    exists u, d_writers d !! q = Some u /\ w_tmp v = w_tmp u /\ w_inode v = w_inode u) as Hsame.
  { intros q v Hv. destruct (decide (q = p)) as [->|Hq].
    - rewrite lookup_insert_eq in Hv. injection Hv as <-. by exists w.
    - rewrite lookup_insert_ne in Hv by done. by exists v. }
  split; cbn [d_fs d_writers d_landed d_orphans set_inode fs_names fs_inodes fs_next].
  - apply (do_next d H).
  - intros i x Hx. destruct (decide (i = w_inode w)) as [->|Hne']; [by eapply writer_below|].
    rewrite lookup_insert_ne in Hx by done. by apply (do_inodes d H) in Hx.
  - intros i Hlt. rewrite lookup_insert_ne by lia. by apply (do_old d H).
  - intros q v Hv. destruct (decide (q = p)) as [->|Hq].
    + rewrite lookup_insert_eq in Hv. injection Hv as <-. unfold writer_ok. cbn. rewrite lookup_insert_eq.
      repeat (split; [done|]). eexists. split; [reflexivity|]. by rewrite <- app_assoc, take_drop.
    + rewrite lookup_insert_ne in Hv by done. unfold writer_ok. cbn.
      destruct (do_apart d H q p v w Hv Hw Hq) as [Hi' _]. rewrite lookup_insert_ne by done. by apply (do_writers d H q).
  - intros q r u v Hu Hv Hqr. destruct (Hsame q u Hu) as (u' & Hu' & -> & ->), (Hsame r v Hv) as (v' & Hv' & -> & ->).
    by eapply (do_apart d H).
  - pose proof (do_path d H) as Hpath. unfold path_ok in *. cbn [d_landed d_fs d_writers fs_names fs_inodes set_inode].
    destruct (last (d_landed d)) as [x|]; [|done]. destruct Hpath as (i & H1 & H2 & H3 & H4). exists i.
    pose proof (H4 p w Hw) as Hwi. rewrite lookup_insert_ne by done. repeat (split; [done|]).
    intros q v Hv. destruct (Hsame q v Hv) as (u & Hu & _ & ->). by eapply H4.
  - intros m Hm. destruct (do_orphans d H m Hm) as (H1 & H2 & H3 & H4). repeat (split; [done|]).
    intros q v Hv. destruct (Hsame q v Hv) as (u & Hu & -> & _). by eapply H4.
  - intros m Hm. destruct (do_names d H m Hm) as [?|[(q & v & Hv & Hq)|?]]; [by left| |by right; right].
    right. left. destruct (decide (q = p)) as [->|Hqp].
    + exists p. rewrite lookup_insert_eq. eexists. split; [done|]. cbn. congruence.
    + exists q, v. by rewrite lookup_insert_ne.
Qed.

(** A writer that ends: the others are as they were, and its temporary name is gone, or is
    an orphan. *)
Lemma end_ok d p w (removed : bool) :
  dir_ok d -> d_writers d !! p = Some w ->
  dir_ok (mkDir (if removed then set_names (d_fs d) (delete (w_tmp w) (fs_names (d_fs d))) else d_fs d)
            (delete p (d_writers d)) (d_landed d) (if removed then d_orphans d else w_tmp w :: d_orphans d)).
Proof.
  intros H Hw. destruct (do_writers d H p w Hw) as (Hn & Hne & Hn0 & _).
  assert (forall q v, delete p (d_writers d) !! q = Some v -> d_writers d !! q = Some v /\ q <> p) as Hdel.
  { intros q v Hv. by apply lookup_delete_Some in Hv as [? ?]. }
  assert (forall m, m <> w_tmp w -> fs_names (if removed then set_names (d_fs d) (delete (w_tmp w) (fs_names (d_fs d))) else d_fs d) !! m
    = fs_names (d_fs d) !! m) as Hnames.
  { intros m Hm. destruct removed; [|done]. cbn. by rewrite lookup_delete_ne. }
  assert (fs_inodes (if removed then set_names (d_fs d) (delete (w_tmp w) (fs_names (d_fs d))) else d_fs d) = fs_inodes (d_fs d)
    /\ fs_next (if removed then set_names (d_fs d) (delete (w_tmp w) (fs_names (d_fs d))) else d_fs d) = fs_next (d_fs d))
    as [Hino Hnxt] by by destruct removed.
  split; cbn [d_fs d_writers d_landed d_orphans]; rewrite ?Hino, ?Hnxt.
  - apply (do_next d H).
  - apply (do_inodes d H).
  - apply (do_old d H).
  - intros q v [Hv Hq]%Hdel. unfold writer_ok. destruct (do_apart d H q p v w Hv Hw Hq) as [_ Ht].
    rewrite Hino, Hnames by done. by apply (do_writers d H q).
  - intros q r u v [Hu _]%Hdel [Hv _]%Hdel. by apply (do_apart d H).
  - pose proof (do_path d H) as Hpath. unfold path_ok in *. cbn [d_landed d_fs d_writers].
    rewrite Hnames, Hino by done. destruct (last (d_landed d)); [|done]. destruct Hpath as (i & H1 & H2 & H3 & H4).
    exists i. repeat (split; [done|]). intros q v [Hv _]%Hdel. by eapply H4.
  - intros m Hm. destruct (decide (m = w_tmp w)) as [->|Hmw].
    + destruct removed; [by destruct (do_orphans d H _ Hm) as (_ & _ & _ & H4); destruct (H4 p w Hw)|].
      repeat (split; [by eauto|]). intros q v [Hv Hq]%Hdel. by apply (do_apart d H q p v w Hv Hw Hq).
    + assert (m ∈ d_orphans d) as Ho by (destruct removed; set_solver).
      destruct (do_orphans d H m Ho) as (H1 & H2 & H3 & H4). rewrite Hnames by done.
      repeat (split; [done|]). intros q v [Hv _]%Hdel. by eapply H4.
  - intros m Hm. destruct (decide (m = w_tmp w)) as [->|Hmw].
    + destruct removed; [left; cbn; by rewrite lookup_delete_eq|right; right; set_solver].
    + rewrite Hnames by done. destruct (do_names d H m Hm) as [?|[(q & v & Hv & Hq)|Ho]]; [by left| |].
      * right. left. exists q, v. split; [|done]. rewrite lookup_delete_ne; [done|]. intros ->. congruence.
      * right. right. destruct removed; set_solver.
Qed.

(** The rename of a finished temporary file. *)
Lemma persist_ok d p w :
  dir_ok d -> d_writers d !! p = Some w -> w_todo w = [] ->
  dir_ok (mkDir (set_names (d_fs d) (<[path := EFile (w_inode w)]> (delete (w_tmp w) (fs_names (d_fs d)))))
            (delete p (d_writers d)) (d_landed d ++ [w_whole w]) (d_orphans d)).
Proof.
  intros H Hw Hdone. destruct (do_writers d H p w Hw) as (Hn & Hne & Hn0 & Hge & b & Hi & Hb).
  rewrite Hdone, app_nil_r in Hb. subst b. pose proof (end_ok d p w true H Hw) as [H1 H2 H3 H4 H5 _ H7 H8].
  cbn [d_fs d_writers d_landed d_orphans] in *. split; cbn [d_fs d_writers d_landed d_orphans]; try done.
  - intros q v Hv. destruct (H4 q v Hv) as (Hn' & Ht & Hr). split; [|done]. cbn in *. by rewrite lookup_insert_ne.
  - unfold path_ok. cbn [d_landed d_fs d_writers]. rewrite last_snoc. exists (w_inode w). cbn.
    rewrite lookup_insert_eq. repeat (split; [done|]). intros q v Hv. apply lookup_delete_Some in Hv as [Hq Hv].
    by apply (do_apart d H q p v w Hv Hw).
  - intros m Hm. destruct (H7 m Hm) as (Ha & Hs & Hmp & Hr). split; [done|]. split; [|done]. cbn in *.
    by rewrite lookup_insert_ne.
  - intros m Hm. destruct (H8 m Hm) as [Hs|Hs]; [left|by right]. cbn in *. by rewrite lookup_insert_ne.
Qed.

Lemma pexec_ok a d d' : dir_ok d -> pexec path umask a d = Some d' -> dir_ok d'.
Proof.
  intros H. destruct a as [p b tmp|p n|p|p|p]; cbn [pexec].
  - destruct (d_writers d !! p) eqn:Ep; [done|]. destruct (fs_names (d_fs d) !! tmp) eqn:Et; [done|].
    destruct (String.eqb_spec tmp path); [done|]. intros [= <-]. by apply create_ok.
  - destruct (d_writers d !! p) as [w|] eqn:Ew; [|done]. cbn [mbind option_bind].
    destruct (do_writers d H p w Ew) as (_ & _ & _ & _ & b & Hi & Hb). rewrite Hi. cbn [mbind option_bind in_mode in_data].
    intros [= <-]. by apply write_ok.
  - destruct (d_writers d !! p) as [w|] eqn:Ew; [|done]. cbn [mbind option_bind].
    destruct (w_todo w) eqn:Et; [|done]. intros Hs. assert (d' = mkDir (set_names (d_fs d)
      (<[path := EFile (w_inode w)]> (delete (w_tmp w) (fs_names (d_fs d))))) (delete p (d_writers d))
      (d_landed d ++ [w_whole w]) (d_orphans d)) as -> by (destruct (fs_names (d_fs d) !! path) as [[]|]; by inversion Hs).
    by apply persist_ok.
  - destruct (d_writers d !! p) as [w|] eqn:Ew; [|done]. intros [= <-]. by apply (end_ok d p w true).
  - destruct (d_writers d !! p) as [w|] eqn:Ew; [|done]. intros [= <-]. by apply (end_ok d p w false).
Qed.

Lemma prun_ok d : prun path umask f0 d -> dir_ok d.
Proof.
  unfold prun. intros H. assert (forall x, rtc (fun d d' => exists a, pexec path umask a d = Some d') x d -> dir_ok x -> dir_ok d) as Hr.
  { clear H. intros x Hx. induction Hx as [|x y z [a Ha] _ IH]; [done|]. intros Hok. apply IH. by eapply pexec_ok. }
  eapply Hr; [exact H|apply start_ok].
Qed.
End replacement.

(** One writer alone with [written] of its bytes on disk and [todo] left. *)
Definition alone (umask : Z) (p : nat) (tmp : string) (b written todo : bytes) (f : Fs) : Dir :=
  mkDir (mkFs (<[tmp := EFile (fs_next f)]> (fs_names f))
           (<[fs_next f := mkInode (created_mode umask PRIVATE) written]> (fs_inodes f)) (S (fs_next f)))
    {[p := mkWriter tmp (fs_next f) todo b]} [] [].

Section alone.
Context (path : string) (umask : Z) (p : nat) (tmp : string) (b : bytes) (f : Fs).

Lemma pstep a d d' :
  pexec path umask a d = Some d' -> rtc (fun d d' => exists a, pexec path umask a d = Some d') d d'.
Proof. intros H. apply rtc_once. by exists a. Qed.

Lemma pcreate_alone d :
  pexec path umask (PCreate p b tmp) (pstart f) = Some d ->
  fs_names f !! tmp = None /\ tmp <> path /\ d = alone umask p tmp b [] b f.
Proof.
  cbn. destruct (fs_names f !! tmp); [done|]. destruct (String.eqb_spec tmp path); [done|]. intros [= <-].
  by rewrite insert_empty.
Qed.

Lemma pwrite_alone :
  pexec path umask (PWrite p (length b)) (alone umask p tmp b [] b f) = Some (alone umask p tmp b b [] f).
Proof.
  unfold pexec, alone. cbn [d_writers d_fs]. rewrite lookup_singleton_eq. cbn [mbind option_bind w_inode fs_inodes].
  rewrite lookup_insert_eq. cbn [mbind option_bind in_mode in_data w_todo w_tmp w_whole d_landed d_orphans app].
  unfold set_inode. cbn [fs_names fs_inodes fs_next]. by rewrite firstn_all, drop_all, insert_insert_eq, insert_singleton_eq.
Qed.

Lemma ppersist_alone d :
  pexec path umask (PPersist p) (alone umask p tmp b b [] f) = Some d ->
  d_writers d = ∅ /\ d_orphans d = [] /\ d_landed d = [b].
Proof.
  unfold pexec, alone. cbn [d_writers d_fs]. rewrite lookup_singleton_eq. cbn [mbind option_bind w_todo].
  intros H. assert (exists g, d = mkDir g (delete p {[p := mkWriter tmp (fs_next f) [] b]}) ([] ++ [b]) []) as [g ->].
  { destruct (_ !! path) as [[]|]; (discriminate H || (injection H as <-; by eexists)). }
  cbn. by rewrite delete_singleton_eq.
Qed.

(** What a return before the temporary file leaves, and one after it. *)
Definition left_alone (r : result io_error unit) (d : Dir) : Prop :=
  (exists e, r = Err e) /\ prun path umask f d /\ d_writers d = ∅ /\ d_orphans d = [] /\ d_landed d = [] /\
  fs_names (d_fs d) = fs_names f.

Lemma untouched (e : io_error) r d : (Err e, pstart f) = (r, d) -> left_alone r d.
Proof. intros [= <- <-]. split; [by eexists|]. split; [constructor|done]. Qed.

Lemma dropped written todo (e : io_error) r d :
  prun path umask f (alone umask p tmp b written todo f) -> fs_names f !! tmp = None ->
  (Err e, default (alone umask p tmp b written todo f) (pexec path umask (PDrop p) (alone umask p tmp b written todo f))) = (r, d) ->
  left_alone r d.
Proof.
  intros Hrun Ht. destruct (pexec _ _ _ _) as [d'|] eqn:E.
  2:{ unfold pexec, alone in E. cbn [d_writers] in E. by rewrite lookup_singleton_eq in E. }
  intros [= <- <-]. split; [by eexists|]. split; [unfold prun; etransitivity; [exact Hrun|by eapply pstep]|].
  unfold pexec, alone in E. cbn [d_writers] in E. rewrite lookup_singleton_eq in E. injection E as <-.
  cbn. rewrite delete_singleton_eq, delete_insert_id by done. done.
Qed.

Lemma left_alone_reports r d (G : Prop) :
  left_alone r d -> G ->
  prun path umask f d /\ d_writers d = ∅ /\ d_orphans d = [] /\
  match r with
  | Ok _ => d_landed d = [b]
  | Err _ => d_landed d = [] /\ fs_names (d_fs d) = fs_names f
  end /\ G.
Proof. intros ([e ->] & H1 & H2 & H3 & H4 & H5) HG. done. Qed.
End alone.

(** * Properties *)

(** C15: A private record is replaced atomically, whatever was planted and whoever races. From
    any directory, after any interleaving of any number of writers, each of which may write
    in pieces, fail, or be killed between any two steps: until a first write lands, the
    entry at the path is the one that was there; afterwards the path reads as the whole of
    the last write that landed, never a part of one, in a file of no mode bit for anyone
    else, that did not exist before. No file that existed is written to or has its mode
    changed, so a planted link is not followed and a planted file, or another name of it, never
    holds the record. And once no writer is left and none was killed, no temporary file is. *)
Theorem private_write_is_atomic (path : string) (umask : Z) (f0 : Fs) (d : Dir) :
  fs_ok f0 -> prun path umask f0 d ->
  match last (d_landed d) with
  | None => fs_names (d_fs d) !! path = fs_names f0 !! path
  | Some b =>
      (forall text fuel max, (Z.of_nat (length b) <= max)%Z ->
         read_private text (S fuel) (d_fs d) path max = Ok (Some b)) /\
      exists i x, fs_names (d_fs d) !! path = Some (EFile i) /\ fs_inodes (d_fs d) !! i = Some x /\
        owner_only (in_mode x) /\ fs_inodes f0 !! i = None
  end /\
  (forall i x, fs_inodes f0 !! i = Some x -> fs_inodes (d_fs d) !! i = Some x) /\
  (d_writers d = ∅ -> d_orphans d = [] -> forall n, n <> path -> fs_names (d_fs d) !! n = fs_names f0 !! n).
Proof.
  intros Hf0 Hrun. pose proof (prun_ok path umask f0 Hf0 d Hrun) as H. split; [|split].
  - pose proof (do_path path umask f0 d H) as Hp. unfold path_ok in Hp. destruct (last (d_landed d)) as [b|]; [|done].
    destruct Hp as (i & Hn & Hge & Hi & _). split.
    + intros text fuel max Hb. unfold read_private. cbn [resolve]. rewrite Hn. cbn [mbind option_bind]. rewrite Hi.
      cbn [fmap option_fmap option_map in_data read_capped]. rewrite firstn_all2 by lia.
      destruct (Z.ltb_spec max (Z.of_nat (length b))); [lia|done].
    + exists i, (mkInode (created_mode umask PRIVATE) b). split; [done|]. split; [done|]. split; [apply created_private|].
      destruct (fs_inodes f0 !! i) as [x|] eqn:E; [|done]. apply Hf0 in E. lia.
  - intros i x Hx. rewrite (do_old path umask f0 d H); [done|]. by apply Hf0 in Hx.
  - intros Hw Ho n Hn. destruct (do_names path umask f0 d H n Hn) as [?|[(p & w & Hpw & _)|Hin]]; [done| |].
    + rewrite Hw in Hpw. by rewrite lookup_empty in Hpw.
    + rewrite Ho in Hin. set_solver.
Qed.

(** One write alone, whatever fails in it: it is such a run, with no writer and no orphan
    left. It reports success exactly when its bytes landed, an error leaves the directory's
    names as they were, and without a fault it succeeds on anything but a directory. *)
Theorem private_write_reports_what_landed (path : string) (umask : Z) (p : nat) (tmp : string) (b : bytes)
    (new_fault write_fault rename_fault : option io_error) (f : Fs) (r : result io_error unit) (d : Dir) :
  write_private_atomic path umask p tmp b new_fault write_fault rename_fault (pstart f) = (r, d) ->
  prun path umask f d /\ d_writers d = ∅ /\ d_orphans d = [] /\
  match r with
  | Ok _ => d_landed d = [b]
  | Err _ => d_landed d = [] /\ fs_names (d_fs d) = fs_names f
  end /\
  (has_parent path = true -> new_fault = None -> write_fault = None -> rename_fault = None ->
   fs_names f !! tmp = None -> tmp <> path -> fs_names f !! path <> Some EDir -> r = Ok tt).
Proof.
  intros H. unfold write_private_atomic in H. destruct (has_parent path); cbn [negb] in H.
  2:{ apply untouched with (path := path) (umask := umask) in H. by apply left_alone_reports. }
  destruct new_fault as [e|].
  { apply untouched with (path := path) (umask := umask) in H. by apply left_alone_reports. }
  destruct (pexec path umask (PCreate p b tmp) (pstart f)) as [d1|] eqn:E1.
  2:{ apply untouched with (path := path) (umask := umask) in H. apply left_alone_reports; [done|].
      intros _ _ _ _ Ht Hne _. cbn in E1. rewrite Ht in E1. by destruct (String.eqb_spec tmp path). }
  destruct (pcreate_alone path umask p tmp b f d1 E1) as (Ht & Hne & ->). apply pstep in E1.
  destruct write_fault as [e|]; [apply dropped in H; [by apply left_alone_reports|done..]|].
  rewrite (pwrite_alone path umask p tmp b f) in H.
  pose proof (pstep _ _ _ _ _ (pwrite_alone path umask p tmp b f)) as E2. assert (prun path umask f (alone umask p tmp b b [] f)) as E by (unfold prun; by etransitivity).
  destruct rename_fault as [e|]; [apply dropped in H; [by apply left_alone_reports|done..]|].
  destruct (pexec path umask (PPersist p) (alone umask p tmp b b [] f)) as [d3|] eqn:E3.
  - injection H as <- <-. destruct (ppersist_alone path umask p tmp b f d3 E3) as (Hw & Ho & Hl).
    split; [by unfold prun; etransitivity; [exact E|eapply pstep]|done].
  - apply dropped in H; [|done..]. apply left_alone_reports; [done|]. intros _ _ _ _ _ _ Hd. revert E3.
    unfold pexec, alone. cbn [d_writers d_fs fs_names]. rewrite lookup_singleton_eq. cbn [mbind option_bind w_todo].
    rewrite lookup_insert_ne by done. by destruct (fs_names f !! path) as [[]|].
Qed.

(** A private open gives a handle on a file nobody else may read. It never follows a link;
    a file it opens keeps its contents and loses every bit of its mode but the owner's; a
    file it creates is empty; and whatever it answers, no other file is changed. *)
Theorem private_open_is_owner_only (umask : Z) (fault chmod : option io_error) (path : string) (f f' : Fs)
    (r : result io_error nat) :
  fs_ok f -> open_private umask fault chmod path f = (f', r) ->
  (forall i, r = Ok i ->
     fs_names f' !! path = Some (EFile i) /\ (forall target, fs_names f !! path <> Some (ELink target)) /\
     exists x, fs_inodes f' !! i = Some x /\ in_mode x = PRIVATE /\
       in_data x = match fs_inodes f !! i with Some old => in_data old | None => [] end) /\
  (forall i x, fs_inodes f !! i = Some x -> r <> Ok i -> fs_inodes f' !! i = Some x) /\
  (forall n, n <> path -> fs_names f' !! n = fs_names f !! n).
Proof.
  intros [Hlt Hf] H. unfold open_private in H. destruct fault as [e|]; [by injection H as <- <-|].
  assert (fs_inodes f !! fs_next f = None) as Hnew.
  { destruct (fs_inodes f !! fs_next f) as [x|] eqn:E; [|done]. apply Hlt in E. lia. }
  destruct (fs_names f !! path) as [[i|target|]|] eqn:En; try (by injection H as <- <-).
  - destruct (Hf path i En) as [x Hx]. rewrite Hx in H. destruct chmod as [e|]; injection H as <- <-; [done|].
    cbn. split; [|split; [|done]].
    + intros j [= <-]. split; [done|]. split; [done|]. exists (mkInode PRIVATE (in_data x)).
      by rewrite lookup_insert_eq, Hx.
    + intros j y Hy Hj. rewrite lookup_insert_ne by congruence. done.
  - cbn in H. rewrite lookup_insert_eq in H. destruct chmod as [e|]; injection H as <- <-; cbn.
    + split; [done|]. split; [|intros n Hn; by rewrite lookup_insert_ne].
      intros j y Hy _. rewrite lookup_insert_ne; [done|]. intros <-. congruence.
    + split; [|split; [|intros n Hn; by rewrite lookup_insert_ne]].
      * intros j [= <-]. rewrite lookup_insert_eq. split; [done|]. split; [done|]. exists (mkInode PRIVATE []).
        by rewrite lookup_insert_eq, Hnew.
      * intros j y Hy Hj. rewrite !lookup_insert_ne by congruence. done.
Qed.

(** * Witnesses *)

(** A link planted at the path and a loose file it leads to; two writers, one killed. *)
Module PrivateExample.
Definition planted : Fs :=
  mkFs {["trust.json" := ELink "victim"; "victim" := EFile 0; "loose" := EFile 0]} {[0 := mkInode 420 [Byte.x61]]} 1.
Definition acts : list act :=
  [PCreate 1 [Byte.x31; Byte.x32] ".tmpA"; PCreate 2 [Byte.x33] ".tmpB"; PWrite 1 1; PWrite 2 1; PKilled 2; PWrite 1 1; PPersist 1].
Fixpoint play (l : list act) (d : Dir) : option Dir :=
  match l with [] => Some d | a :: l => d ← pexec "trust.json" 18 a d; play l d end.
Definition after : Dir := default (pstart planted) (play acts (pstart planted)).

Lemma acts_run l d d' : play l d = Some d' -> rtc (fun d d' => exists a, pexec "trust.json" 18 a d = Some d') d d'.
Proof.
  revert d. induction l as [|a l IH]; intros d H; cbn [play] in H; [injection H as <-; constructor|].
  apply bind_Some in H as (d1 & H1 & H). eapply rtc_l; [by exists a|by apply IH].
Qed.

Lemma ran : prun "trust.json" 18 planted after.
Proof. apply (acts_run acts). vm_compute. reflexivity. Qed.

Lemma planted_ok : fs_ok planted.
Proof.
  split.
  - intros i x Hx. cbn in Hx. apply lookup_singleton_Some in Hx as [<- _]. cbn. lia.
  - intros n i Hn. cbn in *. apply lookup_insert_Some in Hn as [[_ Hn]|[_ Hn]]; [done|].
    apply lookup_insert_Some in Hn as [[_ [= <-]]|[_ Hn]]; [by eexists|].
    apply lookup_singleton_Some in Hn as [_ [= <-]]; by eexists.
Qed.
End PrivateExample.

Lemma private_write_is_atomic_witness :
  read_private "" 1 (d_fs PrivateExample.after) "trust.json" 16 = Ok (Some [Byte.x31; Byte.x32]) /\
  fs_inodes (d_fs PrivateExample.after) !! 0 = Some (mkInode 420 [Byte.x61]).
Proof.
  destruct (private_write_is_atomic "trust.json" 18 PrivateExample.planted PrivateExample.after
    PrivateExample.planted_ok PrivateExample.ran) as (H1 & H2 & _).
  assert (last (d_landed PrivateExample.after) = Some [Byte.x31; Byte.x32]) as E by (vm_compute; reflexivity).
  rewrite E in H1. destruct H1 as [H1 _]. split; [apply H1; cbn; lia|]. apply H2. reflexivity.
Defined.

Lemma private_open_is_owner_only_witness :
  exists f', open_private 18 None None "loose" PrivateExample.planted = (f', Ok 0) /\
    exists x, fs_inodes f' !! 0 = Some x /\ in_mode x = PRIVATE /\ in_data x = [Byte.x61].
Proof.
  eexists. split; [reflexivity|].
  destruct (private_open_is_owner_only 18 None None "loose" PrivateExample.planted _ (Ok 0) PrivateExample.planted_ok eq_refl)
    as (H & _). destruct (H 0 eq_refl) as (_ & _ & x & Hx). exists x. exact Hx.
Defined.
