(* ===== verification/Policy.v ===== *)
(** Policy: the host-owned policy fields, their permissive directions, the
    comparison lattice and the fold of a restriction overlay over a baseline
    (src/src/packages/core/src/policy/mod.rs), and the comma-joined transport
    of the tool deny list (cli.rs, [parse_tool_list]).

    The [policy_fields!] macro is written out: one constructor, accessor case
    and record field per catalogue row. [&mut] accessors are setters. *)
From S2P Require Import Prelude.
From Stdlib Require Import Strings.Byte Ascii.
From stdpp Require Import base list sets strings pretty.

(** * Constants and bounded values *)

Definition POLICY_DOC_VERSION : Z := 1.
Definition JS_SAFE_INT_MAX : Z := 9007199254740991.
Definition DISABLED_TOOLS_MAX_ENTRIES : nat := 256.
Definition DISABLED_TOOL_NAME_MAX_BYTES : Z := 128.

(** The bounds and the grammar of [disabledTools]. *)
Definition validate_disabled_tools (tools : list string) : result string unit :=
  if (DISABLED_TOOLS_MAX_ENTRIES <? length tools)%nat then
    Err "disabledTools carries more than 256 entries"
  else if existsb (fun t => str_is_empty t
                     || (DISABLED_TOOL_NAME_MAX_BYTES <? str_len t)%Z) tools then
    Err "a disabledTools entry is empty or longer than 128 bytes"
  else if existsb (str_contains NUL) tools then
    Err "a disabledTools entry contains a NUL byte"
  else if existsb (str_contains ",") tools then
    Err "a disabledTools entry contains a comma, which the comma-joined CLI transport cannot round-trip"
  else if existsb (fun t => negb (String.eqb (trim t) t)) tools then
    Err "a disabledTools entry carries surrounding whitespace, which the CLI transport's trimming re-split cannot round-trip"
  else Ok tt.

(** [Ms(u64)]: a millisecond count, built only by bounded constructors. *)
Abbreviation Ms := Z (only parsing).
Inductive MsOutOfBounds : Type := MsOutOfBounds_.
Definition Ms_ZERO : Ms := 0%Z.
Definition Ms_try_from (ms : Z) : result MsOutOfBounds Ms :=
  if (JS_SAFE_INT_MAX <? ms)%Z then Err MsOutOfBounds_ else Ok ms.

(** * The catalogue *)

Inductive BoolPole := TruePermissive | FalsePermissive.
Inductive MsOrder := GrowsPermissive | GrowsPermissiveZeroTop.

Inductive BoolField :=
| BF_CdpMode
| BF_FileUploadEnabled
| BF_HandleDialogEnabled
| BF_PageEvalEnabled
| BF_ConfirmHighRiskClick
| BF_ConfirmPageEval
| BF_PresenceConfirm
| BF_ConfirmTabClose
| BF_WarnPreciseSnapshot
| BF_EvalMask.

Inductive MsField :=
| MF_HostReverifyMs
| MF_ConfirmGraceMs
| MF_ClickToastTimeoutMs
| MF_EvalToastTimeoutMs.

Inductive ToolSetField := TF_DisabledTools.

Inductive Direction :=
| DirBool (p : BoolPole)
| DirMs (o : MsOrder)
| ShrinksPermissiveSet.

Inductive FieldKind :=
| KBool (f : BoolField)
| KMs (f : MsField)
| KToolSet (f : ToolSetField).

Inductive PolicyField :=
| CdpMode
| FileUploadEnabled
| HandleDialogEnabled
| PageEvalEnabled
| ConfirmHighRiskClick
| ConfirmPageEval
| PresenceConfirm
| ConfirmTabClose
| WarnPreciseSnapshot
| EvalMask
| HostReverifyMs
| ConfirmGraceMs
| ClickToastTimeoutMs
| EvalToastTimeoutMs
| DisabledTools.

#[export] Instance BoolPole_eq_dec : EqDecision BoolPole.
Proof. solve_decision. Defined.
#[export] Instance MsOrder_eq_dec : EqDecision MsOrder.
Proof. solve_decision. Defined.
#[export] Instance BoolField_eq_dec : EqDecision BoolField.
Proof. solve_decision. Defined.
#[export] Instance MsField_eq_dec : EqDecision MsField.
Proof. solve_decision. Defined.
#[export] Instance ToolSetField_eq_dec : EqDecision ToolSetField.
Proof. solve_decision. Defined.
#[export] Instance PolicyField_eq_dec : EqDecision PolicyField.
Proof. solve_decision. Defined.

(** Every policy field, in declaration (wire) order. *)
Definition ALL : list PolicyField :=
  [CdpMode;
   FileUploadEnabled;
   HandleDialogEnabled;
   PageEvalEnabled;
   ConfirmHighRiskClick;
   ConfirmPageEval;
   PresenceConfirm;
   ConfirmTabClose;
   WarnPreciseSnapshot;
   EvalMask;
   HostReverifyMs;
   ConfirmGraceMs;
   ClickToastTimeoutMs;
   EvalToastTimeoutMs;
   DisabledTools].

Definition wire_name (f : PolicyField) : string :=
  match f with
  | CdpMode => "cdpMode"
  | FileUploadEnabled => "fileUploadEnabled"
  | HandleDialogEnabled => "handleDialogEnabled"
  | PageEvalEnabled => "pageEvalEnabled"
  | ConfirmHighRiskClick => "confirmHighRiskClick"
  | ConfirmPageEval => "confirmPageEval"
  | PresenceConfirm => "presenceConfirm"
  | ConfirmTabClose => "confirmTabClose"
  | WarnPreciseSnapshot => "warnPreciseSnapshot"
  | EvalMask => "evalMask"
  | HostReverifyMs => "hostReverifyMs"
  | ConfirmGraceMs => "confirmGraceMs"
  | ClickToastTimeoutMs => "clickToastTimeoutMs"
  | EvalToastTimeoutMs => "evalToastTimeoutMs"
  | DisabledTools => "disabledTools"
  end.

Definition kind (f : PolicyField) : FieldKind :=
  match f with
  | CdpMode => KBool BF_CdpMode
  | FileUploadEnabled => KBool BF_FileUploadEnabled
  | HandleDialogEnabled => KBool BF_HandleDialogEnabled
  | PageEvalEnabled => KBool BF_PageEvalEnabled
  | ConfirmHighRiskClick => KBool BF_ConfirmHighRiskClick
  | ConfirmPageEval => KBool BF_ConfirmPageEval
  | PresenceConfirm => KBool BF_PresenceConfirm
  | ConfirmTabClose => KBool BF_ConfirmTabClose
  | WarnPreciseSnapshot => KBool BF_WarnPreciseSnapshot
  | EvalMask => KBool BF_EvalMask
  | HostReverifyMs => KMs MF_HostReverifyMs
  | ConfirmGraceMs => KMs MF_ConfirmGraceMs
  | ClickToastTimeoutMs => KMs MF_ClickToastTimeoutMs
  | EvalToastTimeoutMs => KMs MF_EvalToastTimeoutMs
  | DisabledTools => KToolSet TF_DisabledTools
  end.

Definition pole (f : BoolField) : BoolPole :=
  match f with
  | BF_CdpMode => TruePermissive
  | BF_FileUploadEnabled => TruePermissive
  | BF_HandleDialogEnabled => TruePermissive
  | BF_PageEvalEnabled => TruePermissive
  | BF_ConfirmHighRiskClick => FalsePermissive
  | BF_ConfirmPageEval => FalsePermissive
  | BF_PresenceConfirm => FalsePermissive
  | BF_ConfirmTabClose => FalsePermissive
  | BF_WarnPreciseSnapshot => FalsePermissive
  | BF_EvalMask => FalsePermissive
  end.

Definition order (f : MsField) : MsOrder :=
  match f with
  | MF_HostReverifyMs => GrowsPermissiveZeroTop
  | MF_ConfirmGraceMs => GrowsPermissive
  | MF_ClickToastTimeoutMs => GrowsPermissive
  | MF_EvalToastTimeoutMs => GrowsPermissive
  end.

Definition direction (f : PolicyField) : Direction :=
  match kind f with
  | KBool f => DirBool (pole f)
  | KMs f => DirMs (order f)
  | KToolSet _ => ShrinksPermissiveSet
  end.

(** * The value carriers *)

Record PolicyValues := mkPolicyValues {
  pv_cdp_mode : bool;
  pv_file_upload_enabled : bool;
  pv_handle_dialog_enabled : bool;
  pv_page_eval_enabled : bool;
  pv_confirm_high_risk_click : bool;
  pv_confirm_page_eval : bool;
  pv_presence_confirm : bool;
  pv_confirm_tab_close : bool;
  pv_warn_precise_snapshot : bool;
  pv_eval_mask : bool;
  pv_host_reverify_ms : Ms;
  pv_confirm_grace_ms : Ms;
  pv_click_toast_timeout_ms : Ms;
  pv_eval_toast_timeout_ms : Ms;
  pv_disabled_tools : list string }.

Record PolicyOverlay := mkPolicyOverlay {
  po_cdp_mode : option bool;
  po_file_upload_enabled : option bool;
  po_handle_dialog_enabled : option bool;
  po_page_eval_enabled : option bool;
  po_confirm_high_risk_click : option bool;
  po_confirm_page_eval : option bool;
  po_presence_confirm : option bool;
  po_confirm_tab_close : option bool;
  po_warn_precise_snapshot : option bool;
  po_eval_mask : option bool;
  po_host_reverify_ms : option Ms;
  po_confirm_grace_ms : option Ms;
  po_click_toast_timeout_ms : option Ms;
  po_eval_toast_timeout_ms : option Ms;
  po_disabled_tools : option (list string) }.

Record PolicyDoc := mkPolicyDoc {
  pd_v : Z;
  pd_revision : Z;
  pd_touched : list PolicyField;
  pd_cdp_mode : bool;
  pd_file_upload_enabled : bool;
  pd_handle_dialog_enabled : bool;
  pd_page_eval_enabled : bool;
  pd_confirm_high_risk_click : bool;
  pd_confirm_page_eval : bool;
  pd_presence_confirm : bool;
  pd_confirm_tab_close : bool;
  pd_warn_precise_snapshot : bool;
  pd_eval_mask : bool;
  pd_host_reverify_ms : Ms;
  pd_confirm_grace_ms : Ms;
  pd_click_toast_timeout_ms : Ms;
  pd_eval_toast_timeout_ms : Ms;
  pd_disabled_tools : list string }.

#[export] Instance PolicyOverlay_eq_dec : EqDecision PolicyOverlay.
Proof. solve_decision. Defined.
#[export] Instance PolicyDoc_eq_dec : EqDecision PolicyDoc.
Proof. solve_decision. Defined.

(** The typed accessors of [PolicyValues]. *)
Definition get_bool (p : PolicyValues) (f : BoolField) : bool :=
  match f with
  | BF_CdpMode => p.(pv_cdp_mode)
  | BF_FileUploadEnabled => p.(pv_file_upload_enabled)
  | BF_HandleDialogEnabled => p.(pv_handle_dialog_enabled)
  | BF_PageEvalEnabled => p.(pv_page_eval_enabled)
  | BF_ConfirmHighRiskClick => p.(pv_confirm_high_risk_click)
  | BF_ConfirmPageEval => p.(pv_confirm_page_eval)
  | BF_PresenceConfirm => p.(pv_presence_confirm)
  | BF_ConfirmTabClose => p.(pv_confirm_tab_close)
  | BF_WarnPreciseSnapshot => p.(pv_warn_precise_snapshot)
  | BF_EvalMask => p.(pv_eval_mask)
  end.

Definition set_bool (p : PolicyValues) (f : BoolField) (x : bool) : PolicyValues :=
  match p, f with
  | mkPolicyValues _ a1 a2 a3 a4 a5 a6 a7 a8 a9 a10 a11 a12 a13 a14, BF_CdpMode =>
      mkPolicyValues x a1 a2 a3 a4 a5 a6 a7 a8 a9 a10 a11 a12 a13 a14
  | mkPolicyValues a0 _ a2 a3 a4 a5 a6 a7 a8 a9 a10 a11 a12 a13 a14, BF_FileUploadEnabled =>
      mkPolicyValues a0 x a2 a3 a4 a5 a6 a7 a8 a9 a10 a11 a12 a13 a14
  | mkPolicyValues a0 a1 _ a3 a4 a5 a6 a7 a8 a9 a10 a11 a12 a13 a14, BF_HandleDialogEnabled =>
      mkPolicyValues a0 a1 x a3 a4 a5 a6 a7 a8 a9 a10 a11 a12 a13 a14
  | mkPolicyValues a0 a1 a2 _ a4 a5 a6 a7 a8 a9 a10 a11 a12 a13 a14, BF_PageEvalEnabled =>
      mkPolicyValues a0 a1 a2 x a4 a5 a6 a7 a8 a9 a10 a11 a12 a13 a14
  | mkPolicyValues a0 a1 a2 a3 _ a5 a6 a7 a8 a9 a10 a11 a12 a13 a14, BF_ConfirmHighRiskClick =>
      mkPolicyValues a0 a1 a2 a3 x a5 a6 a7 a8 a9 a10 a11 a12 a13 a14
  | mkPolicyValues a0 a1 a2 a3 a4 _ a6 a7 a8 a9 a10 a11 a12 a13 a14, BF_ConfirmPageEval =>
      mkPolicyValues a0 a1 a2 a3 a4 x a6 a7 a8 a9 a10 a11 a12 a13 a14
  | mkPolicyValues a0 a1 a2 a3 a4 a5 _ a7 a8 a9 a10 a11 a12 a13 a14, BF_PresenceConfirm =>
      mkPolicyValues a0 a1 a2 a3 a4 a5 x a7 a8 a9 a10 a11 a12 a13 a14
  | mkPolicyValues a0 a1 a2 a3 a4 a5 a6 _ a8 a9 a10 a11 a12 a13 a14, BF_ConfirmTabClose =>
      mkPolicyValues a0 a1 a2 a3 a4 a5 a6 x a8 a9 a10 a11 a12 a13 a14
  | mkPolicyValues a0 a1 a2 a3 a4 a5 a6 a7 _ a9 a10 a11 a12 a13 a14, BF_WarnPreciseSnapshot =>
      mkPolicyValues a0 a1 a2 a3 a4 a5 a6 a7 x a9 a10 a11 a12 a13 a14
  | mkPolicyValues a0 a1 a2 a3 a4 a5 a6 a7 a8 _ a10 a11 a12 a13 a14, BF_EvalMask =>
      mkPolicyValues a0 a1 a2 a3 a4 a5 a6 a7 a8 x a10 a11 a12 a13 a14
  end.

Definition get_ms (p : PolicyValues) (f : MsField) : Ms :=
  match f with
  | MF_HostReverifyMs => p.(pv_host_reverify_ms)
  | MF_ConfirmGraceMs => p.(pv_confirm_grace_ms)
  | MF_ClickToastTimeoutMs => p.(pv_click_toast_timeout_ms)
  | MF_EvalToastTimeoutMs => p.(pv_eval_toast_timeout_ms)
  end.

Definition set_ms (p : PolicyValues) (f : MsField) (x : Ms) : PolicyValues :=
  match p, f with
  | mkPolicyValues a0 a1 a2 a3 a4 a5 a6 a7 a8 a9 _ a11 a12 a13 a14, MF_HostReverifyMs =>
      mkPolicyValues a0 a1 a2 a3 a4 a5 a6 a7 a8 a9 x a11 a12 a13 a14
  | mkPolicyValues a0 a1 a2 a3 a4 a5 a6 a7 a8 a9 a10 _ a12 a13 a14, MF_ConfirmGraceMs =>
      mkPolicyValues a0 a1 a2 a3 a4 a5 a6 a7 a8 a9 a10 x a12 a13 a14
  | mkPolicyValues a0 a1 a2 a3 a4 a5 a6 a7 a8 a9 a10 a11 _ a13 a14, MF_ClickToastTimeoutMs =>
      mkPolicyValues a0 a1 a2 a3 a4 a5 a6 a7 a8 a9 a10 a11 x a13 a14
  | mkPolicyValues a0 a1 a2 a3 a4 a5 a6 a7 a8 a9 a10 a11 a12 _ a14, MF_EvalToastTimeoutMs =>
      mkPolicyValues a0 a1 a2 a3 a4 a5 a6 a7 a8 a9 a10 a11 a12 x a14
  end.

Definition get_tools (p : PolicyValues) (f : ToolSetField) : list string :=
  match f with
  | TF_DisabledTools => p.(pv_disabled_tools)
  end.

Definition set_tools (p : PolicyValues) (f : ToolSetField) (x : list string) : PolicyValues :=
  match p, f with
  | mkPolicyValues a0 a1 a2 a3 a4 a5 a6 a7 a8 a9 a10 a11 a12 a13 _, TF_DisabledTools =>
      mkPolicyValues a0 a1 a2 a3 a4 a5 a6 a7 a8 a9 a10 a11 a12 a13 x
  end.

(** The typed accessors of [PolicyOverlay]. *)
Definition oget_bool (p : PolicyOverlay) (f : BoolField) : option bool :=
  match f with
  | BF_CdpMode => p.(po_cdp_mode)
  | BF_FileUploadEnabled => p.(po_file_upload_enabled)
  | BF_HandleDialogEnabled => p.(po_handle_dialog_enabled)
  | BF_PageEvalEnabled => p.(po_page_eval_enabled)
  | BF_ConfirmHighRiskClick => p.(po_confirm_high_risk_click)
  | BF_ConfirmPageEval => p.(po_confirm_page_eval)
  | BF_PresenceConfirm => p.(po_presence_confirm)
  | BF_ConfirmTabClose => p.(po_confirm_tab_close)
  | BF_WarnPreciseSnapshot => p.(po_warn_precise_snapshot)
  | BF_EvalMask => p.(po_eval_mask)
  end.

Definition oset_bool (p : PolicyOverlay) (f : BoolField) (x : option bool) : PolicyOverlay :=
  match p, f with
  | mkPolicyOverlay _ a1 a2 a3 a4 a5 a6 a7 a8 a9 a10 a11 a12 a13 a14, BF_CdpMode =>
      mkPolicyOverlay x a1 a2 a3 a4 a5 a6 a7 a8 a9 a10 a11 a12 a13 a14
  | mkPolicyOverlay a0 _ a2 a3 a4 a5 a6 a7 a8 a9 a10 a11 a12 a13 a14, BF_FileUploadEnabled =>
      mkPolicyOverlay a0 x a2 a3 a4 a5 a6 a7 a8 a9 a10 a11 a12 a13 a14
  | mkPolicyOverlay a0 a1 _ a3 a4 a5 a6 a7 a8 a9 a10 a11 a12 a13 a14, BF_HandleDialogEnabled =>
      mkPolicyOverlay a0 a1 x a3 a4 a5 a6 a7 a8 a9 a10 a11 a12 a13 a14
  | mkPolicyOverlay a0 a1 a2 _ a4 a5 a6 a7 a8 a9 a10 a11 a12 a13 a14, BF_PageEvalEnabled =>
      mkPolicyOverlay a0 a1 a2 x a4 a5 a6 a7 a8 a9 a10 a11 a12 a13 a14
  | mkPolicyOverlay a0 a1 a2 a3 _ a5 a6 a7 a8 a9 a10 a11 a12 a13 a14, BF_ConfirmHighRiskClick =>
      mkPolicyOverlay a0 a1 a2 a3 x a5 a6 a7 a8 a9 a10 a11 a12 a13 a14
  | mkPolicyOverlay a0 a1 a2 a3 a4 _ a6 a7 a8 a9 a10 a11 a12 a13 a14, BF_ConfirmPageEval =>
      mkPolicyOverlay a0 a1 a2 a3 a4 x a6 a7 a8 a9 a10 a11 a12 a13 a14
  | mkPolicyOverlay a0 a1 a2 a3 a4 a5 _ a7 a8 a9 a10 a11 a12 a13 a14, BF_PresenceConfirm =>
      mkPolicyOverlay a0 a1 a2 a3 a4 a5 x a7 a8 a9 a10 a11 a12 a13 a14
  | mkPolicyOverlay a0 a1 a2 a3 a4 a5 a6 _ a8 a9 a10 a11 a12 a13 a14, BF_ConfirmTabClose =>
      mkPolicyOverlay a0 a1 a2 a3 a4 a5 a6 x a8 a9 a10 a11 a12 a13 a14
  | mkPolicyOverlay a0 a1 a2 a3 a4 a5 a6 a7 _ a9 a10 a11 a12 a13 a14, BF_WarnPreciseSnapshot =>
      mkPolicyOverlay a0 a1 a2 a3 a4 a5 a6 a7 x a9 a10 a11 a12 a13 a14
  | mkPolicyOverlay a0 a1 a2 a3 a4 a5 a6 a7 a8 _ a10 a11 a12 a13 a14, BF_EvalMask =>
      mkPolicyOverlay a0 a1 a2 a3 a4 a5 a6 a7 a8 x a10 a11 a12 a13 a14
  end.

Definition oget_ms (p : PolicyOverlay) (f : MsField) : option Ms :=
  match f with
  | MF_HostReverifyMs => p.(po_host_reverify_ms)
  | MF_ConfirmGraceMs => p.(po_confirm_grace_ms)
  | MF_ClickToastTimeoutMs => p.(po_click_toast_timeout_ms)
  | MF_EvalToastTimeoutMs => p.(po_eval_toast_timeout_ms)
  end.

Definition oset_ms (p : PolicyOverlay) (f : MsField) (x : option Ms) : PolicyOverlay :=
  match p, f with
  | mkPolicyOverlay a0 a1 a2 a3 a4 a5 a6 a7 a8 a9 _ a11 a12 a13 a14, MF_HostReverifyMs =>
      mkPolicyOverlay a0 a1 a2 a3 a4 a5 a6 a7 a8 a9 x a11 a12 a13 a14
  | mkPolicyOverlay a0 a1 a2 a3 a4 a5 a6 a7 a8 a9 a10 _ a12 a13 a14, MF_ConfirmGraceMs =>
      mkPolicyOverlay a0 a1 a2 a3 a4 a5 a6 a7 a8 a9 a10 x a12 a13 a14
  | mkPolicyOverlay a0 a1 a2 a3 a4 a5 a6 a7 a8 a9 a10 a11 _ a13 a14, MF_ClickToastTimeoutMs =>
      mkPolicyOverlay a0 a1 a2 a3 a4 a5 a6 a7 a8 a9 a10 a11 x a13 a14
  | mkPolicyOverlay a0 a1 a2 a3 a4 a5 a6 a7 a8 a9 a10 a11 a12 _ a14, MF_EvalToastTimeoutMs =>
      mkPolicyOverlay a0 a1 a2 a3 a4 a5 a6 a7 a8 a9 a10 a11 a12 x a14
  end.

Definition oget_tools (p : PolicyOverlay) (f : ToolSetField) : option (list string) :=
  match f with
  | TF_DisabledTools => p.(po_disabled_tools)
  end.

Definition oset_tools (p : PolicyOverlay) (f : ToolSetField) (x : option (list string)) : PolicyOverlay :=
  match p, f with
  | mkPolicyOverlay a0 a1 a2 a3 a4 a5 a6 a7 a8 a9 a10 a11 a12 a13 _, TF_DisabledTools =>
      mkPolicyOverlay a0 a1 a2 a3 a4 a5 a6 a7 a8 a9 a10 a11 a12 a13 x
  end.

(** [PolicyDoc::values]: the field values, detached from the scoping fields. *)
Definition doc_values (d : PolicyDoc) : PolicyValues :=
  {| pv_cdp_mode := d.(pd_cdp_mode);
     pv_file_upload_enabled := d.(pd_file_upload_enabled);
     pv_handle_dialog_enabled := d.(pd_handle_dialog_enabled);
     pv_page_eval_enabled := d.(pd_page_eval_enabled);
     pv_confirm_high_risk_click := d.(pd_confirm_high_risk_click);
     pv_confirm_page_eval := d.(pd_confirm_page_eval);
     pv_presence_confirm := d.(pd_presence_confirm);
     pv_confirm_tab_close := d.(pd_confirm_tab_close);
     pv_warn_precise_snapshot := d.(pd_warn_precise_snapshot);
     pv_eval_mask := d.(pd_eval_mask);
     pv_host_reverify_ms := d.(pd_host_reverify_ms);
     pv_confirm_grace_ms := d.(pd_confirm_grace_ms);
     pv_click_toast_timeout_ms := d.(pd_click_toast_timeout_ms);
     pv_eval_toast_timeout_ms := d.(pd_eval_toast_timeout_ms);
     pv_disabled_tools := d.(pd_disabled_tools) |}.

Definition doc_from_values (values : PolicyValues) (revision : Z)
    (touched : list PolicyField) : PolicyDoc :=
  {| pd_v := POLICY_DOC_VERSION; pd_revision := revision; pd_touched := touched;
     pd_cdp_mode := values.(pv_cdp_mode);
     pd_file_upload_enabled := values.(pv_file_upload_enabled);
     pd_handle_dialog_enabled := values.(pv_handle_dialog_enabled);
     pd_page_eval_enabled := values.(pv_page_eval_enabled);
     pd_confirm_high_risk_click := values.(pv_confirm_high_risk_click);
     pd_confirm_page_eval := values.(pv_confirm_page_eval);
     pd_presence_confirm := values.(pv_presence_confirm);
     pd_confirm_tab_close := values.(pv_confirm_tab_close);
     pd_warn_precise_snapshot := values.(pv_warn_precise_snapshot);
     pd_eval_mask := values.(pv_eval_mask);
     pd_host_reverify_ms := values.(pv_host_reverify_ms);
     pd_confirm_grace_ms := values.(pv_confirm_grace_ms);
     pd_click_toast_timeout_ms := values.(pv_click_toast_timeout_ms);
     pd_eval_toast_timeout_ms := values.(pv_eval_toast_timeout_ms);
     pd_disabled_tools := values.(pv_disabled_tools) |}.

(** The fail-closed deny baseline. *)
Definition values_default : PolicyValues :=
  {| pv_cdp_mode := false;
     pv_file_upload_enabled := false;
     pv_handle_dialog_enabled := false;
     pv_page_eval_enabled := false;
     pv_confirm_high_risk_click := true;
     pv_confirm_page_eval := true;
     pv_presence_confirm := true;
     pv_confirm_tab_close := true;
     pv_warn_precise_snapshot := true;
     pv_eval_mask := true;
     pv_host_reverify_ms := Ms_ZERO;
     pv_confirm_grace_ms := 60000%Z;
     pv_click_toast_timeout_ms := 30000%Z;
     pv_eval_toast_timeout_ms := 45000%Z;
     pv_disabled_tools := [] |}.

Definition overlay_default : PolicyOverlay :=
  {| po_cdp_mode := None;
     po_file_upload_enabled := None;
     po_handle_dialog_enabled := None;
     po_page_eval_enabled := None;
     po_confirm_high_risk_click := None;
     po_confirm_page_eval := None;
     po_presence_confirm := None;
     po_confirm_tab_close := None;
     po_warn_precise_snapshot := None;
     po_eval_mask := None;
     po_host_reverify_ms := None;
     po_confirm_grace_ms := None;
     po_click_toast_timeout_ms := None;
     po_eval_toast_timeout_ms := None;
     po_disabled_tools := None |}.

Definition doc_default : PolicyDoc := doc_from_values values_default 0 [].

Definition copy_field (self : PolicyValues) (field : PolicyField)
    (from : PolicyValues) : PolicyValues :=
  match kind field with
  | KBool f => set_bool self f (get_bool from f)
  | KMs f => set_ms self f (get_ms from f)
  | KToolSet f => set_tools self f (get_tools from f)
  end.

Definition overlay_has (self : PolicyOverlay) (field : PolicyField) : bool :=
  match kind field with
  | KBool f => bool_decide (is_Some (oget_bool self f))
  | KMs f => bool_decide (is_Some (oget_ms self f))
  | KToolSet f => bool_decide (is_Some (oget_tools self f))
  end.

Definition overlay_clear (self : PolicyOverlay) (field : PolicyField) : PolicyOverlay :=
  match kind field with
  | KBool f => oset_bool self f None
  | KMs f => oset_ms self f None
  | KToolSet f => oset_tools self f None
  end.

Definition overlay_set_from (self : PolicyOverlay) (field : PolicyField)
    (values : PolicyValues) : PolicyOverlay :=
  match kind field with
  | KBool f => oset_bool self f (Some (get_bool values f))
  | KMs f => oset_ms self f (Some (get_ms values f))
  | KToolSet f => oset_tools self f (Some (get_tools values f))
  end.

Definition overlay_copy_entry (self : PolicyOverlay) (field : PolicyField)
    (from : PolicyOverlay) : PolicyOverlay :=
  match kind field with
  | KBool f => oset_bool self f (oget_bool from f)
  | KMs f => oset_ms self f (oget_ms from f)
  | KToolSet f => oset_tools self f (oget_tools from f)
  end.

(** [PolicyDoc::validate]. *)
Definition doc_validate (d : PolicyDoc) : result string unit :=
  if negb (d.(pd_v) =? POLICY_DOC_VERSION)%Z then
    Err "unsupported policy document version"
  else if (JS_SAFE_INT_MAX <? d.(pd_revision))%Z then
    Err "revision exceeds the JS-safe integer bound (2^53 - 1)"
  else validate_disabled_tools d.(pd_disabled_tools).

(** * The fold and the comparison lattice *)

(** One iteration of [fold]'s loop. *)
Definition fold_field (overlay : PolicyOverlay) (effective : PolicyValues)
    (field : PolicyField) : PolicyValues :=
  match kind field with
  | KBool f => match oget_bool overlay f with Some v => set_bool effective f v | None => effective end
  | KMs f => match oget_ms overlay f with Some v => set_ms effective f v | None => effective end
  | KToolSet f => match oget_tools overlay f with Some v => set_tools effective f v | None => effective end
  end.

Definition fold (baseline : PolicyValues) (overlay : PolicyOverlay) : PolicyValues :=
  foldl (fold_field overlay) baseline ALL.

Definition zero_top_rank (ms : Ms) : Z :=
  if (ms =? Ms_ZERO)%Z then u64_max else ms.

Definition field_relaxes (field : PolicyField) (candidate anchor : PolicyValues) : bool :=
  match kind field with
  | KBool f =>
      match pole f with
      | TruePermissive => get_bool candidate f && negb (get_bool anchor f)
      | FalsePermissive => negb (get_bool candidate f) && get_bool anchor f
      end
  | KMs f =>
      match order f with
      | GrowsPermissive => (get_ms anchor f <? get_ms candidate f)%Z
      | GrowsPermissiveZeroTop =>
          (zero_top_rank (get_ms anchor f) <? zero_top_rank (get_ms candidate f))%Z
      end
  | KToolSet f =>
      existsb (fun t => negb (str_mem t (get_tools candidate f))) (get_tools anchor f)
  end.

Definition field_differs (field : PolicyField) (a b : PolicyValues) : bool :=
  field_relaxes field a b || field_relaxes field b a.

(** [impl PartialEq for PolicyValues]. *)
Definition values_eq (self other : PolicyValues) : bool :=
  forallb (fun f => negb (field_differs f self other)) ALL.

Definition relaxes (candidate anchor : PolicyValues) : bool :=
  existsb (fun f => field_relaxes f candidate anchor) ALL.

Definition restricts_or_equal (candidate anchor : PolicyValues) : bool :=
  negb (relaxes candidate anchor).

(** * The comma-joined transport of the deny list (cli.rs) *)

(** [str::split] on one character. *)
Fixpoint str_split (c : ascii) (s : string) : list string :=
  match s with
  | EmptyString => [""]
  | String d s' =>
      if Ascii.eqb c d then "" :: str_split c s'
      else match str_split c s' with
           | w :: ws => String d w :: ws
           | [] => [String d ""]
           end
  end.

Definition parse_tool_list (value : string) : list string :=
  List.filter (fun s => negb (str_is_empty s)) (trim <$> str_split "," value).

(** * Field views: one value per field, whatever its kind *)

Inductive FieldVal :=
| VBool (b : bool)
| VMs (m : Ms)
| VTools (l : list string).

#[export] Instance VBool_inj : Inj (=) (=) VBool.
Proof. by injection 1. Qed.
#[export] Instance VMs_inj : Inj (=) (=) VMs.
Proof. by injection 1. Qed.
#[export] Instance VTools_inj : Inj (=) (=) VTools.
Proof. by injection 1. Qed.

Definition field_get (p : PolicyValues) (field : PolicyField) : FieldVal :=
  match kind field with
  | KBool f => VBool (get_bool p f)
  | KMs f => VMs (get_ms p f)
  | KToolSet f => VTools (get_tools p f)
  end.

Definition overlay_get (o : PolicyOverlay) (field : PolicyField) : option FieldVal :=
  match kind field with
  | KBool f => VBool <$> oget_bool o f
  | KMs f => VMs <$> oget_ms o f
  | KToolSet f => VTools <$> oget_tools o f
  end.

(** Every millisecond window sits inside the bound [Ms_try_from] enforces. *)
Definition values_ok (p : PolicyValues) : Prop :=
  forall f, (0 <= get_ms p f <= JS_SAFE_INT_MAX)%Z.

(** The lattice order: [a] is at most as permissive as [b], field by field. *)
Definition restricts (a b : PolicyValues) : Prop :=
  forall f, field_relaxes f a b = false.

Definition values_eqv (a b : PolicyValues) : Prop :=
  forall f, field_differs f a b = false.

Lemma elem_of_ALL f : f ∈ ALL.
Proof. unfold ALL. destruct f; set_solver. Qed.

Lemma ALL_NoDup : NoDup ALL.
Proof. apply (bool_decide_unpack _). by vm_compute. Qed.

(** Instantiate a field-wise equation at each of the fifteen fields. *)
Ltac at_each_field H :=
  generalize (H CdpMode), (H FileUploadEnabled), (H HandleDialogEnabled),
    (H PageEvalEnabled), (H ConfirmHighRiskClick), (H ConfirmPageEval),
    (H PresenceConfirm), (H ConfirmTabClose), (H WarnPreciseSnapshot),
    (H EvalMask), (H HostReverifyMs), (H ConfirmGraceMs),
    (H ClickToastTimeoutMs), (H EvalToastTimeoutMs), (H DisabledTools); clear H.

Lemma values_ext p q : (forall f, field_get p f = field_get q f) -> p = q.
Proof.
  intros H. destruct p, q. at_each_field H. unfold field_get. simpl.
  do 15 (let E := fresh in intros E; injection E as ->). done.
Qed.

Lemma overlay_ext o q : (forall f, overlay_get o f = overlay_get q f) -> o = q.
Proof.
  intros H. destruct o, q. at_each_field H. unfold overlay_get. simpl.
  do 15 (let E := fresh in intros E; apply (inj _) in E; subst). done.
Qed.

(** ** Setter laws, stated once on the views *)

(** A record is determined by what the other fields keep and the new value. *)
Ltac by_fields :=
  intros; repeat match goal with
  | p : PolicyValues |- _ => destruct p
  | o : PolicyOverlay |- _ => destruct o
  end;
  repeat match goal with f : PolicyField |- _ => destruct f end;
  unfold field_get, overlay_get, fold_field, copy_field, overlay_clear,
    overlay_set_from, overlay_copy_entry, overlay_has; simpl;
  try (case_decide; [try discriminate|]); try done;
  repeat case_match; simpl in *; simplify_eq; try done.

Lemma field_get_fold_field o e g f :
  field_get (fold_field o e g) f =
    if decide (f = g) then default (field_get e f) (overlay_get o f) else field_get e f.
Proof. by_fields. Qed.

Lemma field_get_copy_field p q g f :
  field_get (copy_field p g q) f = if decide (f = g) then field_get q f else field_get p f.
Proof. by_fields. Qed.

Lemma overlay_get_clear o g f :
  overlay_get (overlay_clear o g) f = if decide (f = g) then None else overlay_get o f.
Proof. by_fields. Qed.

Lemma overlay_get_set_from o g p f :
  overlay_get (overlay_set_from o g p) f =
    if decide (f = g) then Some (field_get p f) else overlay_get o f.
Proof. by_fields. Qed.

Lemma overlay_get_copy_entry o g q f :
  overlay_get (overlay_copy_entry o g q) f =
    if decide (f = g) then overlay_get q f else overlay_get o f.
Proof. by_fields. Qed.

Lemma overlay_has_get o f : overlay_has o f = bool_decide (is_Some (overlay_get o f)).
Proof.
  unfold overlay_has, overlay_get. destruct (kind f) as [g|g|g].
  all: apply bool_decide_ext; by rewrite fmap_is_Some.
Qed.

Lemma overlay_get_default f : overlay_get overlay_default f = None.
Proof. by destruct f. Qed.

Lemma doc_values_from_values p r t : doc_values (doc_from_values p r t) = p.
Proof. by destruct p. Qed.

(** The effective value of a field is the overlay's entry where it has one,
    the baseline's everywhere else. *)
Lemma fold_get b o f :
  field_get (fold b o) f = default (field_get b f) (overlay_get o f).
Proof.
  assert (forall l e, field_get (foldl (fold_field o) e l) f =
    if decide (f ∈ l) then default (field_get e f) (overlay_get o f) else field_get e f) as H.
  { induction l as [|g l IH]; intros e; simpl; [done|].
    rewrite IH, field_get_fold_field.
    destruct (decide (f = g)) as [->|Hn].
    - rewrite (decide_True (P := g ∈ g :: l)) by set_solver.
      case_decide; [by destruct (overlay_get o g)|done].
    - destruct (decide (f ∈ l)); [rewrite decide_True by set_solver|
        rewrite decide_False by set_solver]; done. }
  unfold fold. rewrite H, decide_True by apply elem_of_ALL. done.
Qed.

Lemma fold_default b : fold b overlay_default = b.
Proof. apply values_ext. intros f. by rewrite fold_get, overlay_get_default. Qed.

(** ** The comparison reads the two field values only *)

Definition val_relaxes (f : PolicyField) (c a : FieldVal) : bool :=
  match kind f, c, a with
  | KBool f, VBool c, VBool a =>
      match pole f with TruePermissive => c && negb a | FalsePermissive => negb c && a end
  | KMs f, VMs c, VMs a =>
      match order f with
      | GrowsPermissive => (a <? c)%Z
      | GrowsPermissiveZeroTop => (zero_top_rank a <? zero_top_rank c)%Z
      end
  | KToolSet _, VTools c, VTools a => existsb (fun t => negb (str_mem t c)) a
  | _, _, _ => false
  end.

Lemma field_relaxes_val f c a :
  field_relaxes f c a = val_relaxes f (field_get c f) (field_get a f).
Proof. unfold field_relaxes, val_relaxes, field_get. by destruct (kind f). Qed.

Lemma field_relaxes_ext f c c' a a' :
  field_get c f = field_get c' f -> field_get a f = field_get a' f ->
  field_relaxes f c a = field_relaxes f c' a'.
Proof. intros Hc Ha. by rewrite !field_relaxes_val, Hc, Ha. Qed.

Lemma field_differs_ext f c c' a a' :
  field_get c f = field_get c' f -> field_get a f = field_get a' f ->
  field_differs f c a = field_differs f c' a'.
Proof.
  intros Hc Ha. unfold field_differs.
  by rewrite (field_relaxes_ext f c c' a a'), (field_relaxes_ext f a a' c c').
Qed.

Lemma tools_relax_false (c a : list string) :
  existsb (fun t => negb (str_mem t c)) a = false <-> a ⊆ c.
Proof.
  rewrite existsb_false_iff. split; intros H t Ht; specialize (H t Ht).
  - apply str_mem_true. by apply negb_false_iff.
  - apply negb_false_iff. by apply str_mem_true.
Qed.

Lemma field_relaxes_refl f a : field_relaxes f a a = false.
Proof.
  unfold field_relaxes. destruct (kind f) as [g|g|g].
  - destruct (pole g), (get_bool a g); done.
  - destruct (order g); apply Z.ltb_irrefl.
  - by apply tools_relax_false.
Qed.

Lemma field_relaxes_trans f a b c :
  field_relaxes f a b = false -> field_relaxes f b c = false -> field_relaxes f a c = false.
Proof.
  unfold field_relaxes. destruct (kind f) as [g|g|g].
  - destruct (pole g), (get_bool a g), (get_bool b g), (get_bool c g); done.
  - destruct (order g); rewrite !Z.ltb_ge; lia.
  - rewrite !tools_relax_false. set_solver.
Qed.

(** ** [relaxes], [restricts_or_equal] and [==] as relations *)

Lemma relaxes_false c a : relaxes c a = false <-> restricts c a.
Proof.
  unfold relaxes, restricts. rewrite existsb_false_iff. split; [|by eauto].
  intros H f. apply H, elem_of_ALL.
Qed.

Lemma restricts_or_equal_spec c a : restricts_or_equal c a = true <-> restricts c a.
Proof. unfold restricts_or_equal. by rewrite negb_true_iff, relaxes_false. Qed.

Lemma values_eq_spec a b : values_eq a b = true <-> values_eqv a b.
Proof.
  unfold values_eq, values_eqv. rewrite forallb_true_iff. split.
  - intros H f. specialize (H f (elem_of_ALL f)). by apply negb_true_iff.
  - intros H f _. by rewrite H.
Qed.

Lemma values_eqv_restricts a b : values_eqv a b <-> restricts a b /\ restricts b a.
Proof.
  unfold values_eqv, restricts, field_differs. setoid_rewrite orb_false_iff. naive_solver.
Qed.

#[export] Instance restricts_preorder : PreOrder restricts.
Proof.
  split.
  - intros a f. apply field_relaxes_refl.
  - intros a b c H1 H2 f. by eapply field_relaxes_trans.
Qed.

#[export] Instance values_eqv_equiv : Equivalence values_eqv.
Proof.
  split; intros a; [|intros b|intros b c]; rewrite ?values_eqv_restricts.
  - done.
  - tauto.
  - intros [H1 H2] [H3 H4]. split; by etrans.
Qed.

#[export] Instance values_eqv_restricts_proper :
  Proper (values_eqv ==> values_eqv ==> iff) restricts.
Proof.
  intros a a' Ha b b' Hb. rewrite values_eqv_restricts in Ha, Hb.
  destruct Ha, Hb. split; intros; (etrans; [|etrans; [|]]; [|eassumption|]; eassumption).
Qed.

Lemma field_eqv_relaxes f a a' b b' :
  field_differs f a a' = false -> field_differs f b b' = false ->
  field_relaxes f a b = field_relaxes f a' b'.
Proof.
  unfold field_differs. rewrite !orb_false_iff. intros [Ha1 Ha2] [Hb1 Hb2].
  destruct (field_relaxes f a b) eqn:E, (field_relaxes f a' b') eqn:E'; try done.
  - rewrite <- E. eapply field_relaxes_trans; [exact Ha1|].
    eapply field_relaxes_trans; [exact E'|exact Hb2].
  - rewrite <- E'. symmetry. eapply field_relaxes_trans; [exact Ha2|].
    eapply field_relaxes_trans; [exact E|exact Hb1].
Qed.

#[export] Instance fold_proper : Proper (values_eqv ==> eq ==> values_eqv) fold.
Proof.
  intros b b' Hb o ? <- f.
  destruct (overlay_get o f) as [v|] eqn:E.
  - rewrite (field_differs_ext f _ (fold b o) _ (fold b o)); rewrite ?fold_get, ?E; try done.
    unfold field_differs. by rewrite field_relaxes_refl.
  - rewrite (field_differs_ext f _ b _ b'); rewrite ?fold_get, ?E; done.
Qed.

#[export] Hint Resolve elem_of_ALL field_relaxes_refl : genkan.

(** ** Exactness of [==] inside the millisecond bound *)

Lemma zero_top_rank_inj a b :
  (0 <= a <= JS_SAFE_INT_MAX)%Z -> (0 <= b <= JS_SAFE_INT_MAX)%Z ->
  zero_top_rank a = zero_top_rank b -> a = b.
Proof.
  unfold zero_top_rank, Ms_ZERO, JS_SAFE_INT_MAX, u64_max.
  destruct (Z.eqb_spec a 0), (Z.eqb_spec b 0); lia.
Qed.

Lemma bool_field_differs a b f :
  field_relaxes f a b = false -> field_relaxes f b a = false ->
  forall g, kind f = KBool g -> get_bool a g = get_bool b g.
Proof.
  unfold field_relaxes. intros H1 H2 g Hg. rewrite Hg in *.
  destruct (pole g), (get_bool a g), (get_bool b g); done.
Qed.

Lemma kind_of_bool g : exists f, kind f = KBool g.
Proof. destruct g; [exists CdpMode|exists FileUploadEnabled|exists HandleDialogEnabled
  |exists PageEvalEnabled|exists ConfirmHighRiskClick|exists ConfirmPageEval
  |exists PresenceConfirm|exists ConfirmTabClose|exists WarnPreciseSnapshot
  |exists EvalMask]; done. Qed.

Lemma kind_of_ms g : exists f, kind f = KMs g.
Proof. destruct g; [exists HostReverifyMs|exists ConfirmGraceMs
  |exists ClickToastTimeoutMs|exists EvalToastTimeoutMs]; done. Qed.

Lemma values_eqv_exact a b :
  values_ok a -> values_ok b -> values_eqv a b ->
  (forall g, get_bool a g = get_bool b g) /\
  (forall g, get_ms a g = get_ms b g) /\
  (forall t, t ∈ pv_disabled_tools a <-> t ∈ pv_disabled_tools b).
Proof.
  intros Ha Hb Heq. apply values_eqv_restricts in Heq as [H1 H2]. repeat split.
  - intros g. destruct (kind_of_bool g) as [f Hf]. eapply (bool_field_differs a b f); eauto.
  - intros g. destruct (kind_of_ms g) as [f Hf].
    specialize (H1 f). specialize (H2 f). unfold field_relaxes in *. rewrite Hf in *.
    destruct (order g); rewrite ?Z.ltb_ge in *.
    + lia.
    + apply zero_top_rank_inj; auto. lia.
  - specialize (H2 DisabledTools). apply tools_relax_false in H2. apply H2.
  - specialize (H1 DisabledTools). apply tools_relax_false in H1. apply H1.
Qed.

(** ** The deny-list transport *)

Lemma str_split_no_sep c w : str_contains c w = false -> str_split c w = [w].
Proof.
  induction w as [|d w IH]; simpl; [done|].
  rewrite orb_false_iff. intros [-> H]. by rewrite (IH H).
Qed.

Lemma str_split_app c w s :
  str_contains c w = false -> str_split c (w +:+ String c s) = w :: str_split c s.
Proof.
  induction w as [|d w IH]; intros Hc.
  - rewrite str_app_nil_l. simpl. by rewrite Ascii.eqb_refl.
  - simpl in Hc. apply orb_false_iff in Hc as [Hd Hw].
    rewrite str_app_cons. simpl. by rewrite Hd, (IH Hw).
Qed.

Lemma str_split_join tools :
  tools <> [] -> (forall t, t ∈ tools -> str_contains "," t = false) ->
  str_split "," (str_join "," tools) = tools.
Proof.
  induction tools as [|t [|u ts] IH]; intros Hn Hc; [done| |].
  - simpl. apply str_split_no_sep, Hc. set_solver.
  - change (str_join "," (t :: u :: ts)) with (t +:+ String "," (str_join "," (u :: ts))).
    rewrite str_split_app by (apply Hc; set_solver). f_equal. apply IH; set_solver.
Qed.

Lemma validate_disabled_tools_Ok tools u :
  validate_disabled_tools tools = Ok u ->
  length tools <= DISABLED_TOOLS_MAX_ENTRIES /\
  forall t, t ∈ tools ->
    str_is_empty t = false /\ (str_len t <= DISABLED_TOOL_NAME_MAX_BYTES)%Z /\
    str_contains NUL t = false /\ str_contains "," t = false /\ trim t = t.
Proof.
  unfold validate_disabled_tools. repeat case_match; try done. intros _.
  repeat match goal with H : existsb _ _ = false |- _ => rewrite existsb_false_iff in H end.
  split; [by apply Nat.ltb_ge|]. intros t Ht.
  repeat match goal with H : forall x, x ∈ tools -> _ |- _ => specialize (H t Ht) end.
  rewrite orb_false_iff in *. destruct_and!.
  repeat split; try done; [by apply Z.ltb_ge|].
  by apply String.eqb_eq, negb_false_iff.
Qed.

Lemma parse_tool_list_join tools :
  (forall t, t ∈ tools -> str_is_empty t = false /\ str_contains "," t = false /\ trim t = t) ->
  parse_tool_list (str_join "," tools) = tools.
Proof.
  intros H. destruct (decide (tools = [])) as [->|Hn]; [done|].
  unfold parse_tool_list. rewrite str_split_join; [|done|naive_solver].
  replace (trim <$> tools) with tools.
  - apply filter_all_true. intros t Ht. by rewrite (proj1 (H t Ht)).
  - symmetry. rewrite <- (list_fmap_id tools) at 2. apply list_fmap_ext.
    intros i t Ht. apply list_elem_of_lookup_2 in Ht. naive_solver.
Qed.

(** * Properties *)

(** The permissiveness comparison is a preorder on every pair of policies,
    and [==] is exactly its kernel: two policies restrict each other if and
    only if no field differs. *)
Theorem policy_order_is_a_preorder (a b c : PolicyValues) :
  restricts_or_equal a a = true /\
  (restricts_or_equal a b = true -> restricts_or_equal b c = true ->
   restricts_or_equal a c = true) /\
  (values_eq a b = true <->
   restricts_or_equal a b = true /\ restricts_or_equal b a = true).
Proof.
  rewrite values_eq_spec, !restricts_or_equal_spec.
  split; [done|]. split; [by intros; etrans|]. apply values_eqv_restricts.
Qed.

(** Inside the JS-safe millisecond bound, policy equality compares every
    boolean and every window exactly and the deny list as a set. The bound is
    needed: [hostReverifyMs] ranks 0 as [u64::MAX]. *)
Theorem policy_eq_is_exact (a b : PolicyValues) (Ha : values_ok a) (Hb : values_ok b) :
  values_eq a b = true <->
  (forall g, get_bool a g = get_bool b g) /\ (forall g, get_ms a g = get_ms b g) /\
  (forall t, t ∈ pv_disabled_tools a <-> t ∈ pv_disabled_tools b).
Proof.
  rewrite values_eq_spec. split; [by apply values_eqv_exact|].
  intros (Hbool & Hms & Htools) f. unfold field_differs, field_relaxes.
  destruct (kind f) as [g|g|[]] eqn:Hk.
  - rewrite (Hbool g). by destruct (pole g), (get_bool b g).
  - rewrite (Hms g). destruct (order g); by rewrite Z.ltb_irrefl.
  - apply orb_false_iff. simpl. rewrite !tools_relax_false. unfold subseteq, list_subseteq.
    naive_solver.
Qed.

Definition ex_values : PolicyValues :=
  set_tools (set_ms values_default MF_HostReverifyMs 5000) TF_DisabledTools
    ["page_eval"; "page_upload"; "page_eval"].
Definition ex_values' : PolicyValues :=
  set_tools (set_ms values_default MF_HostReverifyMs 5000) TF_DisabledTools
    ["page_upload"; "page_eval"].

Lemma policy_eq_is_exact_witness :
  values_eq ex_values ex_values' = true /\
  (forall t, t ∈ pv_disabled_tools ex_values <-> t ∈ pv_disabled_tools ex_values').
Proof.
  assert (values_eq ex_values ex_values' = true) as H by reflexivity.
  split; [exact H|].
  apply (policy_eq_is_exact ex_values ex_values').
  - intros []; unfold JS_SAFE_INT_MAX; simpl; lia.
  - intros []; unfold JS_SAFE_INT_MAX; simpl; lia.
  - exact H.
Defined.

(** The default policy is the deny baseline: on every boolean field it is
    at least as restrictive as any policy whatsoever, so every grant is off
    and every confirmation is on. *)
Theorem default_policy_denies (p : PolicyValues) (f : PolicyField) :
  (exists g, kind f = KBool g) ->
  field_relaxes f values_default p = false /\
  (direction f = DirBool TruePermissive -> field_get values_default f = VBool false) /\
  (direction f = DirBool FalsePermissive -> field_get values_default f = VBool true).
Proof. intros [g Hg]. destruct f; by simplify_eq. Qed.

Lemma default_policy_denies_witness :
  field_relaxes PageEvalEnabled values_default ex_values = false.
Proof.
  apply (default_policy_denies ex_values PageEvalEnabled).
  exists BF_PageEvalEnabled. reflexivity.
Defined.

(** A deny list the policy accepts survives the comma-joined argument
    transport: joining it with commas and parsing it back (split, trim, drop
    empties) yields the same list, so no entry is dropped or split on the way. *)
Theorem disabled_tools_transport_roundtrip (tools : list string) :
  validate_disabled_tools tools = Ok tt ->
  parse_tool_list (str_join "," tools) = tools.
Proof.
  intros H%validate_disabled_tools_Ok. apply parse_tool_list_join. naive_solver.
Qed.

Lemma disabled_tools_transport_roundtrip_witness :
  parse_tool_list (str_join "," ["page_eval"; "page upload"]) = ["page_eval"; "page upload"].
Proof. apply disabled_tools_transport_roundtrip. reflexivity. Defined.
