(* ===== verification/Identity.v ===== *)
(** Identity: the labels, digests and anchors the trust decisions key on
    (src/src/packages/core/src/ipc/handshake.rs [validate_label],
    ipc/identity.rs, allowlist.rs entry types) and the enrolled WebAuthn
    credential as the trust record keeps it (webauthn/credential.rs,
    webauthn/store.rs). The newtypes are their payload here; each parser is the
    boundary that admits a value. *)
From S2P Require Import Prelude RuntimeRecord.
From Stdlib Require Import Ascii.
From stdpp Require Import base list sets strings.

Definition byte_in (lo hi : nat) (c : ascii) : bool :=
  (lo <=? nat_of_ascii c)%nat && (nat_of_ascii c <=? hi)%nat.

Definition is_ascii_alphanumeric (c : ascii) : bool :=
  byte_in 48 57 c || byte_in 65 90 c || byte_in 97 122 c.

Definition label_char (c : ascii) : bool :=
  is_ascii_alphanumeric c || Ascii.eqb c "." || Ascii.eqb c "_" || Ascii.eqb c "-".

(** [validate_label]: 1 to 32 bytes of [[A-Za-z0-9._-]], the first alphanumeric. *)
Definition validate_label (label : string) : bool :=
  let b := String.list_ascii_of_string label in
  ((1 <=? length b)%nat && (length b <=? 32)%nat)
  && match b with c :: _ => is_ascii_alphanumeric c | [] => false end
  && forallb label_char b.

Abbreviation BrowserLabel := string (only parsing).

Definition BrowserLabel_parse (s : string) : option BrowserLabel :=
  if validate_label s then Some s else None.

Definition DEFAULT_LABEL : string := "default".

Definition DIGEST_WIDTHS : list nat := [20; 32].

Definition hex_char (c : ascii) : bool := byte_in 48 57 c || byte_in 97 102 c.

Abbreviation HashDigest := string (only parsing).

(** [HashDigest::try_from(String)]. *)
Definition HashDigest_try_from (value : string) : result string HashDigest :=
  let n := String.length value in
  if existsb (Nat.eqb (n / 2)) DIGEST_WIDTHS && Nat.even n
     && forallb hex_char (String.list_ascii_of_string value)
  then Ok value
  else Err "hash anchor must be 40 or 64 lowercase hex characters".

Abbreviation SignerId := string (only parsing).

(** [SignerId::try_from(String)]. *)
Definition SignerId_try_from (value : string) : result string SignerId :=
  if str_is_empty value then Err "signer anchor must be non-empty"
  else if str_contains NUL value then Err "signer anchor must not contain a NUL byte"
  else Ok value.

Record ClientIdentity := { ci_hash : HashDigest; ci_signer : option SignerId }.

(** The authorization key of an allowlist entry. *)
Inductive Anchor :=
| AnchorHash (h : HashDigest)
| AnchorSigner (s : SignerId).

Definition anchor_display (a : Anchor) : string :=
  match a with
  | AnchorHash h => "hash " +:+ h
  | AnchorSigner s => "signer " +:+ s
  end.

Abbreviation ClientName := string (only parsing).

Definition INVALID_CLIENT_NAME : string :=
  "invalid client name (want 1-32 chars of [A-Za-z0-9._-], starting alphanumeric)".

Definition ClientName_try_from (value : string) : result string ClientName :=
  if validate_label value then Ok value else Err INVALID_CLIENT_NAME.

Record ClientEntry := {
  ce_name : ClientName;
  ce_anchor : Anchor;
  ce_added_unix : Z
}.

#[export] Instance Anchor_eq_dec : EqDecision Anchor.
Proof. solve_decision. Defined.
#[export] Instance ClientEntry_eq_dec : EqDecision ClientEntry.
Proof. solve_decision. Defined.

(** ** Enrolled credentials *)

Definition MIN_CREDENTIAL_ID_LEN : nat := 16.
Definition MAX_CREDENTIAL_ID_LEN : nat := 1023.

Inductive CredentialIdError :=
| CidEncoding
| CidLength (len : nat).

Abbreviation CredentialId := bytes (only parsing).

(** [CredentialId::parse]. *)
Definition CredentialId_parse (b : bytes) : result CredentialIdError CredentialId :=
  let len := length b in
  if (MIN_CREDENTIAL_ID_LEN <=? len)%nat && (len <=? MAX_CREDENTIAL_ID_LEN)%nat
  then Ok b else Err (CidLength len).

(** An ES256 public key, as its SEC1 bytes (the storage spelling). *)
Record CosePublicKey := { sec1 : bytes }.

#[export] Instance byte_eq_dec : EqDecision Byte.byte := Byte.byte_eq_dec.
#[export] Instance CosePublicKey_eq_dec : EqDecision CosePublicKey.
Proof. solve_decision. Defined.

Record Credential := {
  cr_id : CredentialId;
  cr_public_key : CosePublicKey;
  cr_sign_count : Z;
  cr_backup_eligible : bool
}.

Record Enrollment := { en_label : BrowserLabel; en_credential : Credential }.

#[export] Instance Credential_eq_dec : EqDecision Credential.
Proof. solve_decision. Defined.
#[export] Instance Enrollment_eq_dec : EqDecision Enrollment.
Proof. solve_decision. Defined.

Definition en_id (e : Enrollment) : CredentialId := cr_id (en_credential e).

(** * Lemmas *)

Lemma str_contains_spec c s :
  str_contains c s = true <-> c ∈ String.list_ascii_of_string s.
Proof.
  induction s as [|d s IH]; simpl; [set_solver|].
  rewrite orb_true_iff, Ascii.eqb_eq, IH. set_solver.
Qed.

Lemma label_char_not_nul : label_char NUL = false.
Proof. reflexivity. Qed.

(** A validated label is non-empty, at most 32 bytes and NUL-free. *)
Lemma validate_label_facts s :
  validate_label s = true ->
  s <> "" /\ str_contains NUL s = false /\
  forallb label_char (String.list_ascii_of_string s) = true.
Proof.
  unfold validate_label. rewrite !andb_true_iff. intros [[[H1 H2] H3] H4].
  split; [by intros ->|]. split; [|done].
  apply not_true_iff_false. rewrite str_contains_spec. intros Hin.
  rewrite forallb_true_iff in H4. specialize (H4 _ Hin). by rewrite label_char_not_nul in H4.
Qed.

Lemma BrowserLabel_parse_Some s l :
  BrowserLabel_parse s = Some l <-> l = s /\ validate_label s = true.
Proof. unfold BrowserLabel_parse. destruct (validate_label s); naive_solver. Qed.

Lemma default_label_valid : validate_label DEFAULT_LABEL = true.
Proof. reflexivity. Qed.

#[export] Hint Resolve default_label_valid : genkan.
