(* ===== verification/Trust.v ===== *)
(** Trust: the one trust record (src/src/packages/core/src/trust.rs): the kill
    latch, the trusted-client allowlist, the enrollments, the change epochs, and
    the admission decision taken from one snapshot of it. [counter_advances] is
    webauthn/store.rs's rule, which the record applies. *)
From S2P Require Import Prelude RuntimeRecord Identity.
From stdpp Require Import base list sets strings.

(** * Data *)

Inductive Clients :=
| NeverPaired
| Paired (l : list ClientEntry).

Record Trust := mkTrust {
  epoch : Z;
  killed : bool;
  kill_epoch : Z;
  host_key_epoch : Z;
  policy_epoch : Z;
  lang_epoch : Z;
  clients : Clients;
  enrollments : list Enrollment
}.

Definition trust_default : Trust := mkTrust 0 false 0 0 0 0 NeverPaired [].

Definition with_clients (t : Trust) (c : Clients) : Trust :=
  mkTrust t.(epoch) t.(killed) t.(kill_epoch) t.(host_key_epoch) t.(policy_epoch)
    t.(lang_epoch) c t.(enrollments).

Definition with_enrollments (t : Trust) (l : list Enrollment) : Trust :=
  mkTrust t.(epoch) t.(killed) t.(kill_epoch) t.(host_key_epoch) t.(policy_epoch)
    t.(lang_epoch) t.(clients) l.

(** * Mutators *)

Definition set_killed (t : Trust) (k : bool) : Trust :=
  mkTrust t.(epoch) k t.(kill_epoch) t.(host_key_epoch) t.(policy_epoch)
    t.(lang_epoch) t.(clients) t.(enrollments).

(** Add an enrollment, replacing one of the same credential id. *)
Definition enroll (t : Trust) (e : Enrollment) : Trust :=
  with_enrollments t
    (List.filter (fun x => negb (bool_decide (en_id x = en_id e))) t.(enrollments) ++ [e]).

(** Forget every enrollment under a label; returns the ones that went. *)
Definition revoke_browser_enrollments (t : Trust) (label : BrowserLabel) :
    list Enrollment * Trust :=
  let gone := List.filter (fun e => String.eqb (en_label e) label) t.(enrollments) in
  let kept := List.filter (fun e => negb (String.eqb (en_label e) label)) t.(enrollments) in
  (gone, with_enrollments t kept).

Definition forget_pairings (t : Trust) : (list Enrollment * list ClientEntry) * Trust :=
  let '(gone, rest) := match t.(clients) with
                       | Paired l => (l, Paired [])
                       | NeverPaired => ([], NeverPaired)
                       end in
  ((t.(enrollments), gone), with_enrollments (with_clients t rest) []).

Inductive CounterAdvance :=
| Advanced
| Stale (stored : Z)
| CounterNotEnrolled.

(** [webauthn::counter_advances]. *)
Definition counter_advances (stored received : Z) : bool :=
  ((stored =? 0)%Z && (received =? 0)%Z) || (stored <? received)%Z.

Definition find_enrollment (id : CredentialId) (l : list Enrollment) : option Enrollment :=
  List.find (fun e => bool_decide (en_id e = id)) l.

Definition counter_advance (t : Trust) (id : CredentialId) (sign_count : Z) : CounterAdvance :=
  match find_enrollment id t.(enrollments) with
  | None => CounterNotEnrolled
  | Some e =>
      let stored := cr_sign_count (en_credential e) in
      if counter_advances stored sign_count then Advanced else Stale stored
  end.

Definition with_count (e : Enrollment) (n : Z) : Enrollment :=
  let c := en_credential e in
  {| en_label := en_label e;
     en_credential := {| cr_id := cr_id c; cr_public_key := cr_public_key c;
                         cr_sign_count := n; cr_backup_eligible := cr_backup_eligible c |} |}.

(** [iter_mut().find(..)]: the first match is updated in place. *)
Fixpoint update_first (id : CredentialId) (n : Z) (l : list Enrollment) : list Enrollment :=
  match l with
  | [] => []
  | e :: l' => if bool_decide (en_id e = id) then with_count e n :: l'
               else e :: update_first id n l'
  end.

Definition set_sign_count (t : Trust) (id : CredentialId) (n : Z) : Trust :=
  with_enrollments t (update_first id n t.(enrollments)).

(** Add a client, replacing a same-named one. *)
Definition pair_entry (t : Trust) (entry : ClientEntry) : Trust :=
  let l := match t.(clients) with Paired l => l | NeverPaired => [] end in
  with_clients t
    (Paired (List.filter (fun c => negb (String.eqb (ce_name c) (ce_name entry))) l ++ [entry])).

(** Remove a client; an emptied list stays [Paired]. *)
Definition revoke_name (t : Trust) (name : string) : Trust :=
  match t.(clients) with
  | Paired l =>
      with_clients t (Paired (List.filter (fun c => negb (String.eqb (ce_name c) name)) l))
  | NeverPaired => t
  end.

(** * Epochs *)

Inductive Scope := ScopeClients | ScopeKill | ScopeHostKey | ScopePolicy | ScopeLang | ScopeEnrollments.

#[export] Instance Scope_eq_dec : EqDecision Scope.
Proof. solve_decision. Defined.

Definition bumped (t : Trust) (scope : Scope) : result io_error Trust :=
  e ← ok_or (checked_add_u64 t.(epoch) 1) (invalid_data "trust epoch overflow");
  let mk k h p l :=
    Ok (mkTrust e t.(killed) k h p l t.(clients) t.(enrollments)) in
  match scope with
  | ScopeClients | ScopeEnrollments =>
      mk t.(kill_epoch) t.(host_key_epoch) t.(policy_epoch) t.(lang_epoch)
  | ScopeKill => mk e t.(host_key_epoch) t.(policy_epoch) t.(lang_epoch)
  | ScopeHostKey => mk t.(kill_epoch) e t.(policy_epoch) t.(lang_epoch)
  | ScopePolicy => mk t.(kill_epoch) t.(host_key_epoch) e t.(lang_epoch)
  | ScopeLang => mk t.(kill_epoch) t.(host_key_epoch) t.(policy_epoch) e
  end.

(** The marker a scope stamps, if it stamps one. *)
Definition marker (s : Scope) (t : Trust) : option Z :=
  match s with
  | ScopeClients | ScopeEnrollments => None
  | ScopeKill => Some t.(kill_epoch)
  | ScopeHostKey => Some t.(host_key_epoch)
  | ScopePolicy => Some t.(policy_epoch)
  | ScopeLang => Some t.(lang_epoch)
  end.

(** * Admission *)

Inductive Posture := Unenrolled | Trusted (name : string).
Inductive Admission := Admit (p : Posture) | Refused.

Definition anchor_matches (anchor : Anchor) (ident : ClientIdentity) : bool :=
  match anchor with
  | AnchorHash h => String.eqb h ident.(ci_hash)
  | AnchorSigner t => bool_decide (ident.(ci_signer) = Some t)
  end.

(** [TrustState::decide]. *)
Definition decide_admission (t : Trust) (ident : option ClientIdentity) : Admission :=
  match t.(clients) with
  | NeverPaired => Admit Unenrolled
  | Paired l =>
      match ident with
      | None => Refused
      | Some ident =>
          match List.find (fun c => anchor_matches (ce_anchor c) ident) l with
          | Some c => Admit (Trusted (ce_name c))
          | None => Refused
          end
      end
  end.

(** [TrustState::current]: an absent record is the bootstrap. *)
Definition trust_current (s : slot Trust) : result io_error Trust :=
  default trust_default <$> slot_load s.

(** * Lemmas *)

Definition is_paired (c : Clients) : bool :=
  match c with Paired _ => true | NeverPaired => false end.

Definition paired_entries (c : Clients) : list ClientEntry :=
  match c with Paired l => l | NeverPaired => [] end.

Lemma bumped_Ok t s t' :
  bumped t s = Ok t' ->
  (epoch t' = epoch t + 1)%Z /\ killed t' = killed t /\ clients t' = clients t /\
  enrollments t' = enrollments t /\
  (forall s', marker s' t' = if decide (s = s') then (fun _ => epoch t') <$> marker s' t
                            else marker s' t).
Proof.
  unfold bumped. intros H. inv_res. apply checked_add_u64_Some in Hr as [-> _].
  destruct s; inv_res; repeat split; intros []; done.
Qed.

Lemma bumped_Err t s e :
  bumped t s = Err e -> (u64_max < epoch t + 1)%Z.
Proof.
  unfold bumped. destruct (checked_add_u64 (epoch t) 1) eqn:E.
  - destruct s; done.
  - intros _. by apply checked_add_u64_None.
Qed.

Lemma find_enrollment_Some id l e :
  find_enrollment id l = Some e -> e ∈ l /\ en_id e = id.
Proof. intros [? H]%find_Some_iff. by apply bool_decide_eq_true in H. Qed.

Lemma update_first_ids id n l : en_id <$> update_first id n l = en_id <$> l.
Proof.
  induction l as [|e l IH]; simpl; [done|].
  case_bool_decide; csimpl; [done|]. by rewrite IH.
Qed.

Lemma find_update_first id id' n l :
  find_enrollment id (update_first id' n l) =
    if decide (id = id') then (fun e => with_count e n) <$> find_enrollment id l
    else find_enrollment id l.
Proof.
  induction l as [|e l IH]; simpl; [by case_decide|].
  unfold find_enrollment in *. destruct (decide (en_id e = id')) as [He|He].
  - rewrite bool_decide_true by done. simpl. change (en_id (with_count e n)) with (en_id e).
    destruct (decide (id = id')) as [->|]; [by rewrite !bool_decide_true|].
    by rewrite !bool_decide_false by congruence.
  - rewrite bool_decide_false by done. simpl. rewrite IH.
    destruct (bool_decide (en_id e = id)) eqn:E; [|done].
    apply bool_decide_eq_true in E. by rewrite decide_False by congruence.
Qed.

Lemma NoDup_bfilter {A B} (f : A -> B) (keep : A -> bool) l : NoDup (f <$> l) -> NoDup (f <$> List.filter keep l).
Proof.
  induction l as [|c l IH]; cbn; [done|]. intros [Hc Hl]%NoDup_cons. destruct (keep c); cbn; [|by apply IH].
  apply NoDup_cons. split; [|by apply IH]. intros (x & Hx & Hin)%list_elem_of_fmap.
  apply elem_of_bfilter in Hin as [Hin _]. apply Hc. rewrite Hx. by apply list_elem_of_fmap_2.
Qed.

Lemma enroll_ids_NoDup t e :
  NoDup (en_id <$> enrollments t) -> NoDup (en_id <$> enrollments (enroll t e)).
Proof.
  intros H. unfold enroll. simpl. rewrite fmap_app. apply NoDup_app. split; [|split].
  - by apply NoDup_bfilter.
  - intros i Hi. apply list_elem_of_fmap in Hi as (x & -> & Hx).
    apply elem_of_bfilter in Hx as [_ Hx]. csimpl.
    rewrite list_elem_of_singleton. apply negb_true_iff, bool_decide_eq_false in Hx. done.
  - csimpl. apply NoDup_singleton.
Qed.

(** * Mutation histories *)

(** Every write the core makes to the record, with the scope it is made under
    (kill.rs, allowlist.rs, webauthn/store.rs, enclave/cli.rs, policy/store.rs,
    lang.rs). *)
Inductive trust_op :=
| OpKill (k : bool)
| OpEnroll (e : Enrollment)
| OpRevokeBrowser (label : BrowserLabel)
| OpSignCount (id : CredentialId) (n : Z)
| OpPair (entry : ClientEntry)
| OpRevoke (name : string)
| OpHostKey
| OpForgetPairings
| OpPolicy
| OpLang.

Definition op_scope (op : trust_op) : Scope :=
  match op with
  | OpKill _ => ScopeKill
  | OpEnroll _ | OpRevokeBrowser _ | OpSignCount _ _ => ScopeEnrollments
  | OpPair _ | OpRevoke _ => ScopeClients
  | OpHostKey | OpForgetPairings => ScopeHostKey
  | OpPolicy => ScopePolicy
  | OpLang => ScopeLang
  end.

Definition apply_op (t : Trust) (op : trust_op) : Trust :=
  match op with
  | OpKill k => set_killed t k
  | OpEnroll e => enroll t e
  | OpRevokeBrowser label => (revoke_browser_enrollments t label).2
  | OpSignCount id n => set_sign_count t id n
  | OpPair entry => pair_entry t entry
  | OpRevoke name => revoke_name t name
  | OpForgetPairings => (forget_pairings t).2
  | OpHostKey | OpPolicy | OpLang => t
  end.

(** The pure half of [mutate_locked_with]: bump, then edit. *)
Definition mutate (t : Trust) (op : trust_op) : result io_error Trust :=
  t' ← bumped t (op_scope op); Ok (apply_op t' op).

Fixpoint run_ops (t : Trust) (ops : list trust_op) : result io_error Trust :=
  match ops with
  | [] => Ok t
  | op :: ops' => t' ← mutate t op; run_ops t' ops'
  end.

(** Where a scope's marker stands after a history: the epoch of its last bump. *)
Fixpoint marker_after (s : Scope) (ops : list trust_op) (e m : Z) : Z :=
  match ops with
  | [] => m
  | op :: ops' =>
      marker_after s ops' (e + 1) (if decide (op_scope op = s) then e + 1 else m)%Z
  end.

Lemma apply_op_epochs t op :
  epoch (apply_op t op) = epoch t /\ forall s, marker s (apply_op t op) = marker s t.
Proof.
  destruct op; try done; unfold apply_op, pair_entry, revoke_name, forget_pairings;
    destruct (clients t); split; intros; try done; by destruct s.
Qed.

Lemma mutate_Ok t op t' :
  mutate t op = Ok t' ->
  (epoch t' = epoch t + 1)%Z /\
  forall s, marker s t' = if decide (op_scope op = s) then (fun _ => epoch t') <$> marker s t
                          else marker s t.
Proof.
  unfold mutate. intros H. inv_res. apply bumped_Ok in Hr as (He & _ & _ & _ & Hm).
  destruct (apply_op_epochs a op) as [-> Hs]. split; [done|]. intros s. by rewrite Hs, Hm.
Qed.

Lemma run_ops_marker t ops t' s m :
  run_ops t ops = Ok t' -> marker s t = Some m ->
  (epoch t' = epoch t + Z.of_nat (length ops))%Z /\
  marker s t' = Some (marker_after s ops (epoch t) m).
Proof.
  revert t m. induction ops as [|op ops IH]; intros t m H Hm; simpl in *.
  - inv_res. split; [lia|done].
  - inv_res. apply mutate_Ok in Hr as [He Hs]. rewrite <- He.
    assert (marker s a = Some (if decide (op_scope op = s) then epoch a else m)) as Ha.
    { rewrite Hs, Hm. by case_decide. }
    destruct (IH _ _ H Ha) as [-> ->]. split; [lia|done].
Qed.

Lemma marker_after_moves s ops e m :
  (m <= e)%Z -> (m <= marker_after s ops e m <= e + Z.of_nat (length ops))%Z /\
  (marker_after s ops e m <> m <-> exists op, op ∈ ops /\ op_scope op = s).
Proof.
  revert e m. induction ops as [|op ops IH]; intros e m Hm; simpl.
  - split; [lia|]. split; [done|set_solver].
  - case_decide as Hs.
    + destruct (IH (e + 1) (e + 1))%Z as [Hb _]; [lia|]. split; [lia|].
      split; [intros _; exists op; set_solver|lia].
    + destruct (IH (e + 1) m)%Z as [Hb Hi]; [lia|]. split; [lia|]. rewrite Hi. set_solver.
Qed.

Lemma apply_op_paired t op :
  is_paired (clients t) = true -> is_paired (clients (apply_op t op)) = true.
Proof.
  destruct op; try done; unfold apply_op, pair_entry, revoke_name, forget_pairings;
    destruct (clients t); try done.
Qed.

Definition pairs_name (name : string) (op : trust_op) : bool :=
  match op with OpPair entry => String.eqb (ce_name entry) name | _ => false end.

(** No entry of that name, and enforcement on. *)
Definition name_absent (name : string) (t : Trust) : Prop :=
  is_paired (clients t) = true /\ forall c, c ∈ paired_entries (clients t) -> ce_name c <> name.

Lemma apply_op_absent name t op :
  pairs_name name op = false -> name_absent name t -> name_absent name (apply_op t op).
Proof.
  intros Hp [H1 H2]. split; [by apply apply_op_paired|].
  destruct op; try done; unfold apply_op, pair_entry, revoke_name, forget_pairings;
    destruct (clients t) as [|l] eqn:E; try done; simpl in *; try (rewrite E; exact H2).
  - intros c. rewrite elem_of_app, elem_of_bfilter, list_elem_of_singleton.
    intros [[Hc _]| ->]; [by apply H2|]. by apply String.eqb_neq.
  - intros c. rewrite elem_of_bfilter. naive_solver.
  - intros c. set_solver.
Qed.

Lemma name_absent_decide name t i :
  name_absent name t -> decide_admission t i <> Admit (Trusted name).
Proof.
  intros [H1 H2] H. unfold decide_admission in H.
  destruct (clients t) as [|l]; [done|]. simpl in *.
  destruct i as [i|]; [|done]. case_match eqn:Hf; simplify_eq.
  apply find_Some_iff in Hf as [Hin _]. naive_solver.
Qed.

Lemma bumped_absent name t s t' : bumped t s = Ok t' -> name_absent name t -> name_absent name t'.
Proof. intros (_ & _ & Hc & _)%bumped_Ok. unfold name_absent. by rewrite Hc. Qed.

(** ** Spent counters *)

(** A history in which a counter is written only by an assertion that advances it
    (webauthn/store.rs, [advance_sign_count]). *)
Fixpoint counters_advance (t : Trust) (ops : list trust_op) : Prop :=
  match ops with
  | [] => True
  | op :: ops' =>
      match op with OpSignCount id n => counter_advance t id n = Advanced | _ => True end /\
      forall t', mutate t op = Ok t' -> counters_advance t' ops'
  end.

(** Every enrollment of a credential holds at least that counter. *)
Definition spent (id : CredentialId) (n : Z) (t : Trust) : Prop :=
  NoDup (en_id <$> enrollments t) /\
  forall e, e ∈ enrollments t -> en_id e = id -> (n <= cr_sign_count (en_credential e))%Z.

Lemma update_first_elem id n l e :
  NoDup (en_id <$> l) -> e ∈ update_first id n l ->
  (e ∈ l /\ en_id e <> id) \/ (en_id e = id /\ cr_sign_count (en_credential e) = n /\ is_Some (find_enrollment id l)).
Proof.
  induction l as [|x l IH]; cbn; [by intros _ ?%elem_of_nil|]. intros [Hx Hl]%NoDup_cons.
  case_bool_decide as Hi.
  - intros [->|He]%elem_of_cons; [by right; eauto|].
    left. split; [set_solver|]. intros E. apply Hx. rewrite Hi, <- E. by apply list_elem_of_fmap_2.
  - intros [->|He]%elem_of_cons; [left; split; [set_solver|done]|].
    destruct (IH Hl He) as [[? ?]|(? & ? & ?)]; [left; set_solver|right]. done.
Qed.

Lemma spent_set id n t :
  NoDup (en_id <$> enrollments t) -> spent id n (set_sign_count t id n).
Proof.
  intros H. split; cbn; [by rewrite update_first_ids|]. intros e He Hid.
  apply update_first_elem in He as [[_ ?]|(_ & -> & _)]; [done|lia|done].
Qed.

Lemma spent_stale id n t : spent id n t -> (0 < n)%Z -> counter_advance t id n <> Advanced.
Proof.
  intros [_ H] Hn. unfold counter_advance. destruct (find_enrollment id _) as [e|] eqn:E; [|done].
  apply find_enrollment_Some in E as [Hin Hid]. specialize (H e Hin Hid). unfold counter_advances.
  destruct (Z.eqb_spec n 0); [lia|]. rewrite andb_false_r. cbn. by destruct (Z.ltb_spec (cr_sign_count (en_credential e)) n); [lia|].
Qed.

Lemma apply_op_spent id n t op :
  spent id n t -> (0 < n)%Z ->
  (forall e, op = OpEnroll e -> en_id e = id -> (n <= cr_sign_count (en_credential e))%Z) ->
  (forall id' n', op = OpSignCount id' n' -> counter_advance t id' n' = Advanced) ->
  spent id n (apply_op t op).
Proof.
  intros [Hnd H] Hn He Hs. destruct op; try done; unfold apply_op, pair_entry, revoke_name, forget_pairings.
  - split; [by apply enroll_ids_NoDup|]. intros x. cbn. rewrite elem_of_app, elem_of_bfilter, list_elem_of_singleton.
    intros [[Hx _]| ->]; [by apply H|by apply He].
  - split; cbn; [by apply NoDup_bfilter|]. intros x. rewrite elem_of_bfilter. intros [Hx _]. by apply H.
  - split; cbn; [by rewrite update_first_ids|]. intros x Hx Hid.
    specialize (Hs _ _ eq_refl). apply update_first_elem in Hx as [[Hx _]|(Hx & -> & _)]; [by apply H| |done].
    assert (id0 = id) as -> by congruence. unfold counter_advance in Hs.
    destruct (find_enrollment id _) as [y|] eqn:E; [|done]. apply find_enrollment_Some in E as [Hy Hyid].
    specialize (H y Hy Hyid). unfold counter_advances in Hs. destruct (_ || _) eqn:Eb; [|done]. lia.
  - by destruct (clients t).
  - destruct (clients t); split; cbn; try constructor; by intros ? ?%elem_of_nil.
Qed.

(** No history of writes makes a spent counter fresh, short of enrolling the credential
    again with a lower one. *)
Lemma run_ops_spent id n t ops t' :
  spent id n t -> (0 < n)%Z ->
  (forall e, OpEnroll e ∈ ops -> en_id e = id -> (n <= cr_sign_count (en_credential e))%Z) ->
  counters_advance t ops -> run_ops t ops = Ok t' -> spent id n t'.
Proof.
  revert t. induction ops as [|op ops IH]; intros t Hsp Hn He Ha Hr; cbn [run_ops] in Hr; [by inv_res|].
  destruct Ha as [Hop Ha]. apply bind_Ok in Hr as (t1 & Hm & Hr). specialize (Ha t1 Hm).
  unfold mutate in Hm. apply bind_Ok in Hm as (a & Hb & [= <-]). apply bumped_Ok in Hb as (_ & _ & _ & Hen & _).
  eapply IH; [|done|set_solver|exact Ha|exact Hr]. apply apply_op_spent; [unfold spent; by rewrite Hen|done|set_solver|].
  intros id' n' ->. unfold counter_advance in *. by rewrite Hen.
Qed.

(** ** What stands under a name *)

(** The identity an anchor is of: the image it hashes to, or the signer it has. *)
Definition own_anchor (id : ClientIdentity) (a : Anchor) : Prop :=
  a = AnchorHash (ci_hash id) \/ exists s, ci_signer id = Some s /\ a = AnchorSigner s.

Definition entry_anchor (t : Trust) (name : string) : option Anchor :=
  ce_anchor <$> List.find (fun c => String.eqb (ce_name c) name) (paired_entries (clients t)).

(** The anchor that stands under a name: the one last paired, unless revoked or forgotten since. *)
Definition stands (name : string) (a : option Anchor) (op : trust_op) : option Anchor :=
  match op with
  | OpPair e => if String.eqb (ce_name e) name then Some (ce_anchor e) else a
  | OpRevoke n => if String.eqb n name then None else a
  | OpForgetPairings => None
  | _ => a
  end.
Definition standing (t : Trust) (ops : list trust_op) (name : string) : option Anchor :=
  fold_left (stands name) ops (entry_anchor t name).

Lemma anchor_matches_spec a id : anchor_matches a id = true <-> own_anchor id a.
Proof.
  unfold own_anchor. destruct a as [h|s]; cbn [anchor_matches].
  - rewrite String.eqb_eq. split; [intros ->; by left|]. intros [[= ->]|(s & _ & ?)]; done.
  - rewrite bool_decide_eq_true. split; [intros H; right; by exists s|]. intros [?|(s' & H & [= ->])]; done.
Qed.

Lemma decide_admission_cases t i :
  (is_paired (clients t) = false /\ decide_admission t i = Admit Unenrolled) \/
  (exists id c, i = Some id /\ is_paired (clients t) = true /\ c ∈ paired_entries (clients t) /\
     own_anchor id (ce_anchor c) /\ decide_admission t i = Admit (Trusted (ce_name c))) \/
  (is_paired (clients t) = true /\
   (forall id c, i = Some id -> c ∈ paired_entries (clients t) -> ~ own_anchor id (ce_anchor c)) /\
   decide_admission t i = Refused).
Proof.
  unfold decide_admission. destruct (clients t) as [|l]; [by left|]. right. destruct i as [id|]; [|by right].
  destruct (List.find _ l) as [c|] eqn:Hf.
  - apply find_Some_iff in Hf as [Hin Hm]. apply anchor_matches_spec in Hm. left. by exists id, c.
  - rewrite find_None_iff in Hf. right. split; [done|]. split; [|done]. intros id' c [= <-] Hc Ho.
    apply anchor_matches_spec in Ho. rewrite Hf in Ho; done.
Qed.

Lemma find_name_filter name n l :
  List.find (fun c => String.eqb (ce_name c) name) (List.filter (fun c => negb (String.eqb (ce_name c) n)) l) =
  if String.eqb n name then None else List.find (fun c => String.eqb (ce_name c) name) l.
Proof.
  induction l as [|c l IH]; cbn; [by destruct (String.eqb n name)|].
  destruct (String.eqb_spec (ce_name c) n) as [<-|Hn]; cbn; rewrite IH.
  - by destruct (String.eqb (ce_name c) name).
  - destruct (String.eqb_spec (ce_name c) name) as [<-|]; [|done].
    by destruct (String.eqb_spec n (ce_name c)) as [->|].
Qed.

Lemma find_app_one {A} (f : A -> bool) l x :
  List.find f (l ++ [x]) = match List.find f l with Some y => Some y | None => if f x then Some x else None end.
Proof. induction l as [|y l IH]; cbn; [done|]. by destruct (f y). Qed.

Lemma apply_op_anchor t op name : entry_anchor (apply_op t op) name = stands name (entry_anchor t name) op.
Proof.
  unfold entry_anchor. destruct op; try done; unfold apply_op, pair_entry, revoke_name, forget_pairings;
    destruct (clients t) as [|l] eqn:E; cbn [with_clients with_enrollments clients paired_entries stands snd];
    rewrite ?E; cbn [paired_entries]; rewrite ?find_app_one, ?find_name_filter; cbn.
  - by destruct (String.eqb (ce_name entry) name).
  - by destruct (String.eqb_spec (ce_name entry) name); [|destruct (List.find _ l)].
  - by destruct (String.eqb name0 name).
  - by destruct (String.eqb name0 name).
  - done.
  - done.
Qed.

Lemma apply_op_names t op :
  NoDup (ce_name <$> paired_entries (clients t)) -> NoDup (ce_name <$> paired_entries (clients (apply_op t op))).
Proof.
  intros H. destruct op; try done; unfold apply_op, pair_entry, revoke_name, forget_pairings;
    destruct (clients t) as [|l] eqn:E; cbn [with_clients with_enrollments clients paired_entries snd];
    rewrite ?E; cbn [paired_entries] in *; try done.
  - apply NoDup_singleton.
  - rewrite fmap_app. apply NoDup_app. split; [by apply NoDup_bfilter|]. split; [|apply NoDup_singleton].
    intros n (c & -> & Hc)%list_elem_of_fmap. apply elem_of_bfilter in Hc as [_ Hc]. cbn.
    rewrite list_elem_of_singleton. by apply negb_true_iff, String.eqb_neq in Hc.
  - by apply NoDup_bfilter.
  - constructor.
Qed.

Lemma apply_op_pairs t op :
  is_paired (clients (apply_op t op)) = true <-> is_paired (clients t) = true \/ exists e, op = OpPair e.
Proof.
  destruct op; try (cbn; split; [by left|by intros [?|(? & ?)]]); unfold apply_op, pair_entry, revoke_name, forget_pairings.
  - cbn. split; [eauto|done].
  - destruct (clients t) as [|l] eqn:E; cbn; rewrite ?E; naive_solver.
  - destruct (clients t) as [|l] eqn:E; cbn; naive_solver.
Qed.

(** The names, the standing anchors and the enforcement after a history. *)
Lemma run_ops_clients t ops t' :
  NoDup (ce_name <$> paired_entries (clients t)) -> run_ops t ops = Ok t' ->
  NoDup (ce_name <$> paired_entries (clients t')) /\
  (forall name, entry_anchor t' name = standing t ops name) /\
  (is_paired (clients t') = true <-> is_paired (clients t) = true \/ exists e, OpPair e ∈ ops).
Proof.
  revert t. induction ops as [|op ops IH]; intros t Hnd Hr; cbn [run_ops] in Hr.
  { inv_res. split; [done|]. split; [done|]. split; [by left|]. intros [?|(e & ?%elem_of_nil)]; done. }
  apply bind_Ok in Hr as (t1 & Hm & Hr). unfold mutate in Hm. apply bind_Ok in Hm as (a & Hb & [= <-]).
  apply bumped_Ok in Hb as (_ & _ & Hc & _).
  destruct (IH (apply_op a op)) as (H1 & H2 & H3); [apply apply_op_names; by rewrite Hc|done|].
  split; [done|]. split.
  - intros name. rewrite H2. unfold standing. cbn [fold_left]. rewrite apply_op_anchor. unfold entry_anchor. by rewrite Hc.
  - rewrite H3, apply_op_pairs, Hc. setoid_rewrite elem_of_cons. naive_solver.
Qed.

Lemma not_paired_since c (ops : list trust_op) :
  ~ (is_paired c = true \/ exists e, OpPair e ∈ ops) -> is_paired c = false /\ forall e, OpPair e ∉ ops.
Proof. intros H. destruct (is_paired c); [tauto|]. split; [done|]. intros e He. apply H. right. by exists e. Qed.

Lemma entry_anchor_Some t name a :
  entry_anchor t name = Some a -> exists c, c ∈ paired_entries (clients t) /\ ce_name c = name /\ ce_anchor c = a.
Proof.
  unfold entry_anchor. intros (c & Hf & ->)%fmap_Some. apply find_Some_iff in Hf as [Hin Hn].
  apply String.eqb_eq in Hn. by exists c.
Qed.

Lemma entry_anchor_elem t c :
  NoDup (ce_name <$> paired_entries (clients t)) -> c ∈ paired_entries (clients t) ->
  entry_anchor t (ce_name c) = Some (ce_anchor c).
Proof.
  unfold entry_anchor. induction (paired_entries (clients t)) as [|x l IH]; [by intros _ ?%elem_of_nil|].
  cbn. intros [Hx Hl]%NoDup_cons [->|Hin]%elem_of_cons; [by rewrite String.eqb_refl|].
  destruct (String.eqb_spec (ce_name x) (ce_name c)) as [E|]; [|by apply IH].
  destruct Hx. rewrite E. by apply list_elem_of_fmap_2.
Qed.

(** * Properties *)

(** C11: admission is decided by the anchor alone, whatever the history of the record. Start
    from a record with distinct names and make any writes. A harness is served unenrolled
    exactly when no client was ever paired, before or during the history; it is trusted
    under a name only when the anchor last paired under that name, and not revoked or
    forgotten since, is the hash of its image or its signer; and it is refused exactly when
    a client was once paired and no standing anchor is its own, which an unmeasured harness
    has none of. *)
Theorem admission_keys_on_the_anchor (t t' : Trust) (ops : list trust_op) (i : option ClientIdentity) :
  NoDup (ce_name <$> paired_entries (clients t)) -> run_ops t ops = Ok t' ->
  (decide_admission t' i = Admit Unenrolled <->
     is_paired (clients t) = false /\ forall e, OpPair e ∉ ops) /\
  (forall name, decide_admission t' i = Admit (Trusted name) ->
     exists id anchor, i = Some id /\ standing t ops name = Some anchor /\ own_anchor id anchor) /\
  (decide_admission t' i = Refused <->
     (is_paired (clients t) = true \/ exists e, OpPair e ∈ ops) /\
     forall id name anchor, i = Some id -> standing t ops name = Some anchor -> ~ own_anchor id anchor).
Proof.
  intros Hnd Hr. destruct (run_ops_clients t ops t' Hnd Hr) as (Hnd' & Hst & Hp).
  destruct (decide_admission_cases t' i) as [[Hc ->]|[(id & c & -> & Hpt & Hin & Hown & ->)|(Hpt & Hno & ->)]].
  - assert (is_paired (clients t) = false /\ forall e, OpPair e ∉ ops) as [H1 H2].
    { apply not_paired_since. by rewrite <- Hp, Hc. }
    split; [tauto|]. split; [done|]. split; [done|]. intros [[?|(e & He)] _]; [congruence|by destruct (H2 e)].
  - apply Hp in Hpt as Hev. split; [|split].
    + split; [done|]. intros [? H2]. destruct Hev as [?|(e & He)]; [congruence|by destruct (H2 e)].
    + intros name [= <-]. exists id, (ce_anchor c). rewrite <- Hst. by rewrite (entry_anchor_elem t' c).
    + split; [done|]. intros [_ H]. destruct (H id (ce_name c) (ce_anchor c) eq_refl); [|done].
      rewrite <- Hst. by apply entry_anchor_elem.
  - apply Hp in Hpt as Hev. split; [|split; [done|]].
    + split; [done|]. intros [? H2]. destruct Hev as [?|(e & He)]; [congruence|by destruct (H2 e)].
    + split; [|done]. intros _. split; [done|]. intros id name anchor -> Hs. rewrite <- Hst in Hs.
      apply entry_anchor_Some in Hs as (c & Hin & _ & <-). by apply Hno.
Qed.

Lemma admission_keys_on_the_anchor_witness :
  let ops := [OpPair {| ce_name := "codex"; ce_anchor := AnchorSigner "acme"; ce_added_unix := 0 |};
              OpPair {| ce_name := "other"; ce_anchor := AnchorHash "bb"; ce_added_unix := 0 |}; OpRevoke "other"] in
  exists t', run_ops trust_default ops = Ok t' /\
    decide_admission t' (Some {| ci_hash := "bb"; ci_signer := None |}) = Refused.
Proof.
  intros ops. eexists. split; [reflexivity|].
  apply (admission_keys_on_the_anchor trust_default _ ops); [constructor|reflexivity|].
  split; [right; eexists; unfold ops; left|]. intros id name anchor [= <-] Hs Ho.
  unfold standing, ops in Hs. cbn [fold_left stands entry_anchor clients trust_default paired_entries find fmap option_fmap option_map] in Hs.
  cbn [ce_name ce_anchor] in Hs. destruct (String.eqb_spec "other" name); [done|].
  destruct (String.eqb_spec "codex" name); [|done]. injection Hs as <-. destruct Ho as [?|(s & ? & ?)]; done.
Defined.

(** Once a client was paired, no history of writes (pairings, revocations,
    forgetting everything, kills, enrollments, policy or language changes) ever
    reopens the unenforced posture, and a revoked client is not admitted under
    its name again until that name is paired anew. *)
Theorem enforcement_never_lapses (t t' : Trust) (ops : list trust_op)
    (i : option ClientIdentity) :
  is_paired (clients t) = true -> run_ops t ops = Ok t' ->
  decide_admission t' i <> Admit Unenrolled /\
  (forall name, name_absent name t -> forallb (fun op => negb (pairs_name name op)) ops = true ->
     decide_admission t' i <> Admit (Trusted name)).
Proof.
  intros Hp Hr. split.
  - assert (is_paired (clients t') = true) as Hp'.
    { revert t Hp Hr. induction ops as [|op ops IH]; intros t Hp Hr; simpl in *; inv_res; [done|].
      apply (IH a); [|done]. unfold mutate in Hr0. inv_res. apply apply_op_paired.
      apply bumped_Ok in Hr1 as (_ & _ & -> & _). done. }
    unfold decide_admission. destruct (clients t'); [done|]. by repeat case_match.
  - intros name Ha Hn. apply name_absent_decide. clear Hp.
    revert t Ha Hr. induction ops as [|op ops IH]; intros t Ha Hr; simpl in *; inv_res; [done|].
    apply andb_true_iff in Hn as [Hn1 Hn2]. apply (IH Hn2 a); [|done].
    unfold mutate in Hr0. inv_res. apply apply_op_absent; [by apply negb_true_iff|].
    by eapply bumped_absent.
Qed.

Definition ex_entry (name hash : string) : ClientEntry :=
  {| ce_name := name; ce_anchor := AnchorHash hash; ce_added_unix := 0 |}.

Lemma enforcement_never_lapses_witness :
  let t := with_clients trust_default (Paired [ex_entry "codex" "aa"]) in
  exists t', run_ops t [OpRevoke "codex"; OpKill true] = Ok t' /\
    decide_admission t' (Some {| ci_hash := "aa"; ci_signer := None |}) <> Admit Unenrolled.
Proof.
  intros t. eexists. split; [reflexivity|].
  apply (enforcement_never_lapses t _ [OpRevoke "codex"; OpKill true]); reflexivity.
Defined.

(** The epoch moves by exactly one per write, and a scope's marker changes
    exactly when a write of that scope happened, ending at the epoch of the last
    one; so a watcher that compares a marker for inequality misses no change of
    its scope and is not woken by the others. *)
Theorem epochs_track_mutations (t t' : Trust) (ops : list trust_op) (s : Scope) (m : Z) :
  run_ops t ops = Ok t' -> marker s t = Some m -> (m <= epoch t)%Z ->
  (epoch t' = epoch t + Z.of_nat (length ops))%Z /\
  marker s t' = Some (marker_after s ops (epoch t) m) /\
  (marker s t' <> marker s t <-> exists op, op ∈ ops /\ op_scope op = s).
Proof.
  intros Hr Hm Hle. destruct (run_ops_marker _ _ _ _ _ Hr Hm) as [He Hm'].
  split; [done|]. split; [done|]. rewrite Hm', Hm.
  rewrite <- (proj2 (marker_after_moves s ops (epoch t) m Hle)). split; congruence.
Qed.

Lemma epochs_track_mutations_witness :
  exists t', run_ops trust_default [OpKill true; OpLang; OpKill false] = Ok t' /\
    marker ScopeKill t' = Some 3%Z.
Proof.
  eexists. split; [reflexivity|].
  refine (eq_trans (proj1 (proj2 (epochs_track_mutations trust_default _
    [OpKill true; OpLang; OpKill false] ScopeKill 0 eq_refl eq_refl _))) _).
  - simpl. lia.
  - reflexivity.
Defined.

(** The counter rule under the lock: what was just accepted is stale from then on. *)
Lemma accepted_counter_is_stale t id n n' :
  counter_advance t id n = Advanced -> (0 <= n')%Z -> (n' <= n)%Z -> (0 < n)%Z ->
  counter_advance (set_sign_count t id n) id n' = Stale n.
Proof.
  unfold counter_advance, set_sign_count. simpl. intros Ha H0 Hle Hn.
  rewrite find_update_first, decide_True by done.
  destruct (find_enrollment id (enrollments t)) as [e|]; [|done]. simpl.
  unfold counter_advances. destruct (Z.eqb_spec n 0); [lia|]. simpl.
  by destruct (Z.ltb_spec n n'); [lia|].
Qed.

(** An accepted sign counter only moves forward. Once the record took the
    counter of an assertion from a counting authenticator, every assertion of
    that credential carrying the same or a lower counter is stale (a replay),
    and no other credential's counter moved. *)
Theorem sign_counter_replay_is_stale (t : Trust) (id id' : CredentialId) (n n' : Z) :
  counter_advance t id n = Advanced -> (0 <= n')%Z -> (n' <= n)%Z -> (0 < n)%Z ->
  counter_advance (set_sign_count t id n) id n' = Stale n /\
  (id' <> id -> find_enrollment id' (enrollments (set_sign_count t id n)) =
                find_enrollment id' (enrollments t)).
Proof.
  intros Ha H0 Hle Hn. split; [by apply accepted_counter_is_stale|].
  intros Hne. unfold set_sign_count. cbn [with_enrollments enrollments].
  by rewrite find_update_first, decide_False.
Qed.

Definition ex_cred (id : CredentialId) (n : Z) : Enrollment :=
  {| en_label := "chrome"; en_credential :=
      {| cr_id := id; cr_public_key := {| sec1 := [] |}; cr_sign_count := n;
         cr_backup_eligible := false |} |}.

Lemma sign_counter_replay_is_stale_witness :
  let t := with_enrollments trust_default [ex_cred [Byte.x01] 4; ex_cred [Byte.x02] 9] in
  counter_advance (set_sign_count t [Byte.x01] 5) [Byte.x01] 5 = Stale 5.
Proof.
  intros t. refine (proj1 (sign_counter_replay_is_stale t [Byte.x01] [Byte.x02] 5 5 _ _ _ _)).
  - reflexivity.
  - lia.
  - lia.
  - lia.
Defined.
