(* ===== verification/PolicyRecord.v ===== *)
(** PolicyRecord: the on-disk policy state as pure data
    (src/src/packages/core/src/policy/store.rs, and [decode_entry_doc] of
    policy/plan.rs): the store, the history ring, the validated reads of the
    baseline and of the effective policy, and the overlay algebra of the two
    write lanes. base64, serde_json and sha2 are parameters ([PolicyCodec]). *)
From S2P Require Import Prelude RuntimeRecord Policy.
From stdpp Require Import base list sets strings pretty.

(** * External codecs *)

Class PolicyCodec := {
  base64_encode : bytes -> string;
  base64_decode : string -> result string bytes;
  doc_to_bytes : PolicyDoc -> bytes;
  doc_of_bytes : bytes -> result string PolicyDoc;
  (** SHA-256 over the entry's content, in hex. *)
  entry_digest : string -> option PolicyOverlay -> Z -> string
}.

(** The bounds the document parser enforces itself: the JS-safe revision and
    every JS-safe window. *)
Definition doc_ok (d : PolicyDoc) : Prop :=
  (0 <= pd_revision d <= JS_SAFE_INT_MAX)%Z /\ values_ok (doc_values d).

(** What the store relies on: base64 and JSON read back what they wrote, and a
    parsed document is inside the parser's bounds. *)
Class PolicyCodecOk `{!PolicyCodec} := {
  base64_roundtrip : forall b, base64_decode (base64_encode b) = Ok b;
  doc_roundtrip : forall d, doc_ok d -> doc_of_bytes (doc_to_bytes d) = Ok d;
  doc_parse_ok : forall b d, doc_of_bytes b = Ok d -> doc_ok d
}.

(** * The records *)

Record PolicyStore := mkPolicyStore {
  ps_baseline_b64 : string;
  ps_sig_b64 : option string;
  ps_key_id : option string;
  ps_overlay : option PolicyOverlay
}.

Record PolicyHistoryEntry := mkHistoryEntry {
  he_baseline_b64 : string;
  he_sig_b64 : option string;
  he_key_id : option string;
  he_overlay : option PolicyOverlay;
  he_superseded_unix : Z
}.

Record PolicyHistory := mkPolicyHistory { entries : list PolicyHistoryEntry }.

Definition history_default : PolicyHistory := mkPolicyHistory [].

(** The store as one read saw it, by content. *)
Record StoreObservation := mkObservation {
  ob_baseline_b64 : string;
  ob_overlay : option PolicyOverlay
}.

#[export] Instance PolicyStore_eq_dec : EqDecision PolicyStore.
Proof. solve_decision. Defined.
#[export] Instance StoreObservation_eq_dec : EqDecision StoreObservation.
Proof. solve_decision. Defined.
#[export] Instance PolicyHistoryEntry_eq_dec : EqDecision PolicyHistoryEntry.
Proof. solve_decision. Defined.

Section reads.
Context `{!PolicyCodec}.

(** [decode_entry_doc]: base64, JSON, [PolicyDoc::validate]. *)
Definition decode_entry_doc (baseline_b64 : string) : result string PolicyDoc :=
  b ← base64_decode baseline_b64;
  doc ← doc_of_bytes b;
  _ ← doc_validate doc;
  Ok doc.

(** [PolicyStore::baseline_doc]: the same discipline, as an I/O error. *)
Definition baseline_doc (self : PolicyStore) : result io_error PolicyDoc :=
  b ← map_err (fun e => invalid_data ("baseline: " +:+ e)) (base64_decode self.(ps_baseline_b64));
  doc ← map_err (fun e => invalid_data ("baseline parse: " +:+ e)) (doc_of_bytes b);
  _ ← map_err (fun e => invalid_data ("baseline: " +:+ e)) (doc_validate doc);
  Ok doc.

Definition overlay_or_default (o : option PolicyOverlay) : PolicyOverlay :=
  default overlay_default o.

(** [PolicyStore::effective]: the fold, direction-checked. *)
Definition effective (self : PolicyStore) : result io_error PolicyValues :=
  doc ← baseline_doc self;
  let baseline := doc_values doc in
  let eff := fold baseline (overlay_or_default self.(ps_overlay)) in
  if negb (restricts_or_equal eff baseline) then
    Err (invalid_data "the stored overlay relaxes the signed baseline; refusing the store")
  else Ok eff.

Definition observation (self : PolicyStore) : StoreObservation :=
  mkObservation self.(ps_baseline_b64) self.(ps_overlay).

(** [PolicyHistoryEntry::id]. *)
Definition entry_id (e : PolicyHistoryEntry) : string :=
  entry_digest e.(he_baseline_b64) e.(he_overlay) e.(he_superseded_unix).
End reads.

(** * Overlay algebra *)

(** The overlay a grant leaves behind: the stored entries minus the touched ones. *)
Definition retained_overlay (o : PolicyOverlay) (touched : list PolicyField) : PolicyOverlay :=
  foldl overlay_clear o touched.

Definition overlay_present_fields (o : PolicyOverlay) : list PolicyField :=
  List.filter (overlay_has o) ALL.

(** Merge [arg] over [stored]: a present [arg] entry wins. *)
Definition merge_overlay (stored arg : PolicyOverlay) : PolicyOverlay :=
  foldl (fun arg field => if negb (overlay_has arg field)
                          then overlay_copy_entry arg field stored else arg) arg ALL.

Definition normalize_overlay (o : PolicyOverlay) : option PolicyOverlay :=
  if bool_decide (o = overlay_default) then None else Some o.

(** * Lemmas *)

Lemma retained_overlay_get o touched f :
  overlay_get (retained_overlay o touched) f =
    if decide (f ∈ touched) then None else overlay_get o f.
Proof.
  unfold retained_overlay. revert o.
  induction touched as [|g l IH]; intros o; simpl; [done|].
  rewrite IH, overlay_get_clear.
  destruct (decide (f = g)) as [->|Hn].
  - rewrite (decide_True (P := g ∈ g :: l)) by set_solver. by case_decide.
  - destruct (decide (f ∈ l)); [rewrite decide_True by set_solver|
      rewrite decide_False by set_solver]; done.
Qed.

Lemma merge_overlay_get stored arg f :
  overlay_get (merge_overlay stored arg) f =
    match overlay_get arg f with Some v => Some v | None => overlay_get stored f end.
Proof.
  unfold merge_overlay.
  assert (forall l a, overlay_get (foldl (fun arg field => if negb (overlay_has arg field)
      then overlay_copy_entry arg field stored else arg) a l) f =
    match overlay_get a f with
    | Some v => Some v
    | None => if decide (f ∈ l) then overlay_get stored f else None end) as H.
  { induction l as [|g l IH]; intros a; simpl; [by destruct (overlay_get a f)|].
    rewrite IH. rewrite overlay_has_get.
    destruct (decide (f = g)) as [->|Hn].
    - rewrite (decide_True (P := g ∈ g :: l)) by set_solver.
      destruct (overlay_get a g) as [v|] eqn:E.
      + rewrite bool_decide_true by eauto. simpl. by rewrite E.
      + rewrite bool_decide_false by (by intros [? ?]). simpl.
        rewrite overlay_get_copy_entry, decide_True by done.
        destruct (overlay_get stored g); [done|by case_decide].
    - assert (overlay_get (if negb (bool_decide (is_Some (overlay_get a g)))
        then overlay_copy_entry a g stored else a) f = overlay_get a f) as ->.
      { destruct (negb _); [by rewrite overlay_get_copy_entry, decide_False|done]. }
      destruct (overlay_get a f); [done|].
      destruct (decide (f ∈ l)); [rewrite decide_True by set_solver|
        rewrite decide_False by set_solver]; done. }
  rewrite H, decide_True by apply elem_of_ALL. done.
Qed.

Lemma normalize_overlay_default o :
  overlay_or_default (normalize_overlay o) = o.
Proof. unfold normalize_overlay. by case_bool_decide; simpl. Qed.

Lemma baseline_doc_Ok `{!PolicyCodec} s d :
  baseline_doc s = Ok d <-> decode_entry_doc (ps_baseline_b64 s) = Ok d.
Proof.
  unfold baseline_doc, decode_entry_doc.
  destruct (base64_decode _); simpl; [|done].
  destruct (doc_of_bytes _); simpl; [|done].
  destruct (doc_validate _); simpl; naive_solver.
Qed.

Lemma effective_Ok `{!PolicyCodec} s eff :
  effective s = Ok eff <->
  exists d, baseline_doc s = Ok d /\
    eff = fold (doc_values d) (overlay_or_default (ps_overlay s)) /\
    restricts eff (doc_values d).
Proof.
  unfold effective. destruct (baseline_doc s) as [d|e]; simpl; [|naive_solver].
  case_match eqn:E.
  - apply negb_true_iff in E. split; [done|].
    intros (d' & [= <-] & -> & Hr). apply restricts_or_equal_spec in Hr. congruence.
  - apply negb_false_iff, restricts_or_equal_spec in E. split.
    + intros [= <-]. by exists d.
    + by intros (d' & [= <-] & -> & _).
Qed.

#[export] Hint Resolve normalize_overlay_default : genkan.
#[global] Arguments fold : simpl never.
#[global] Arguments merge_overlay : simpl never.
#[global] Arguments retained_overlay : simpl never.
#[global] Arguments normalize_overlay : simpl never.
#[global] Arguments restricts_or_equal : simpl never.
