(* ===== verification/PrefixCodec.v ===== *)
(** PrefixCodec: a concrete byte codec that satisfies the interface the policy
    store assumes of base64 and serde_json ([PolicyRecord.PolicyCodec] and its
    laws), so that every theorem stated against the interface has an instance.
    It is not the wire format: values are written in a prefix code, one
    combinator per shape, and read back by a parser that returns the rest. *)
From S2P Require Import Prelude RuntimeRecord Policy PolicyRecord.
From Stdlib Require Import Strings.Byte.
From stdpp Require Import base list sets strings.

(** A codec whose parser undoes its printer in front of any rest. *)
Record codec (A : Type) := Codec {
  enc : A -> bytes;
  dec : bytes -> option (A * bytes);
  dec_enc : forall a rest, dec (enc a ++ rest) = Some (a, rest)
}.
Arguments Codec {A}.
Arguments enc {A}.
Arguments dec {A}.
Arguments dec_enc {A}.

Section combinators.
Context {A B : Type}.

Definition pair_enc (ca : codec A) (cb : codec B) (p : A * B) : bytes :=
  enc ca p.1 ++ enc cb p.2.
Definition pair_dec (ca : codec A) (cb : codec B) (b : bytes) : option ((A * B) * bytes) :=
  '(x, b1) ← dec ca b; '(y, b2) ← dec cb b1; Some ((x, y), b2).

Lemma pair_law ca cb p rest : pair_dec ca cb (pair_enc ca cb p ++ rest) = Some (p, rest).
Proof.
  unfold pair_dec, pair_enc. rewrite <- app_assoc, dec_enc. cbn.
  rewrite dec_enc. by destruct p.
Qed.

Definition c_pair (ca : codec A) (cb : codec B) : codec (A * B) :=
  Codec (pair_enc ca cb) (pair_dec ca cb) (pair_law ca cb).

(** Transport a codec along a retraction. *)
Definition iso_dec (ca : codec A) (f : A -> B) (b : bytes) : option (B * bytes) :=
  '(x, b1) ← dec ca b; Some (f x, b1).

Lemma iso_law (ca : codec A) (f : A -> B) (g : B -> A) (Hfg : forall y, f (g y) = y) y rest :
  iso_dec ca f (enc ca (g y) ++ rest) = Some (y, rest).
Proof. unfold iso_dec. rewrite dec_enc. cbn. by rewrite Hfg. Qed.

Definition c_iso (ca : codec A) (f : A -> B) (g : B -> A) (Hfg : forall y, f (g y) = y) :
    codec B :=
  Codec (fun y => enc ca (g y)) (iso_dec ca f) (iso_law ca f g Hfg).
End combinators.

(** A list, each element announced by a one and the end by a zero. *)
Fixpoint list_enc {A} (ca : codec A) (l : list A) : bytes :=
  match l with [] => [x00] | a :: l' => x01 :: enc ca a ++ list_enc ca l' end.

Fixpoint list_dec {A} (fuel : nat) (ca : codec A) (b : bytes) : option (list A * bytes) :=
  match fuel, b with
  | _, x00 :: b' => Some ([], b')
  | S n, x01 :: b' => '(a, b1) ← dec ca b'; '(l, b2) ← list_dec n ca b1; Some (a :: l, b2)
  | _, _ => None
  end.

Lemma list_dec_enc {A} (ca : codec A) l rest n :
  length l <= n -> list_dec n ca (list_enc ca l ++ rest) = Some (l, rest).
Proof.
  revert n. induction l as [|a l IH]; intros n Hn; [by destruct n|].
  destruct n as [|n]; cbn in *; [lia|].
  rewrite <- app_assoc, dec_enc. cbn. rewrite IH by lia. done.
Qed.

Lemma list_enc_length {A} (ca : codec A) l : length l <= length (list_enc ca l).
Proof. induction l as [|a l IH]; cbn; [lia|]. rewrite length_app. lia. Qed.

Lemma list_law {A} (ca : codec A) l rest :
  list_dec (length (list_enc ca l ++ rest)) ca (list_enc ca l ++ rest) = Some (l, rest).
Proof.
  apply list_dec_enc. rewrite length_app. pose proof (list_enc_length ca l). lia.
Qed.

Definition c_list {A} (ca : codec A) : codec (list A) :=
  Codec (list_enc ca) (fun b => list_dec (length b) ca b) (list_law ca).

(** ** Atoms *)

Definition byte_dec (b : bytes) : option (Byte.byte * bytes) :=
  match b with x :: b' => Some (x, b') | [] => None end.

Definition c_byte : codec Byte.byte := Codec (fun x => [x]) byte_dec (fun _ _ => eq_refl).

Definition bool_of_byte (x : Byte.byte) : bool := match x with x00 => false | _ => true end.
Definition byte_of_bool (b : bool) : Byte.byte := if b then x01 else x00.

Lemma bool_byte b : bool_of_byte (byte_of_bool b) = b.
Proof. by destruct b. Qed.

Definition c_bool : codec bool := c_iso c_byte bool_of_byte byte_of_bool bool_byte.

Fixpoint bits_of_pos (p : positive) : list bool :=
  match p with xH => [] | xO p => false :: bits_of_pos p | xI p => true :: bits_of_pos p end.
Fixpoint pos_of_bits (l : list bool) : positive :=
  match l with [] => xH | false :: l => xO (pos_of_bits l) | true :: l => xI (pos_of_bits l) end.

Definition bits_of_Z (z : Z) : bool * list bool :=
  match z with
  | Z0 => (true, [])
  | Zpos p => (true, true :: bits_of_pos p)
  | Zneg p => (false, true :: bits_of_pos p)
  end.
Definition Z_of_bits (x : bool * list bool) : Z :=
  match x with
  | (_, []) => Z0
  | (true, _ :: l) => Zpos (pos_of_bits l)
  | (false, _ :: l) => Zneg (pos_of_bits l)
  end.

Lemma pos_bits p : pos_of_bits (bits_of_pos p) = p.
Proof. induction p; cbn; by rewrite ?IHp. Qed.

Lemma Z_bits z : Z_of_bits (bits_of_Z z) = z.
Proof. destruct z; cbn; by rewrite ?pos_bits. Qed.

Definition c_Z : codec Z := c_iso (c_pair c_bool (c_list c_bool)) Z_of_bits bits_of_Z Z_bits.

Lemma string_bytes s : String.string_of_list_byte (String.list_byte_of_string s) = s.
Proof. apply String.string_of_list_byte_of_string. Qed.

Definition c_string : codec string :=
  c_iso (c_list c_byte) String.string_of_list_byte String.list_byte_of_string string_bytes.

Definition field_index (f : PolicyField) : Z :=
  match f with
  | CdpMode => 0 | FileUploadEnabled => 1 | HandleDialogEnabled => 2 | PageEvalEnabled => 3
  | ConfirmHighRiskClick => 4 | ConfirmPageEval => 5 | PresenceConfirm => 6
  | ConfirmTabClose => 7 | WarnPreciseSnapshot => 8 | EvalMask => 9 | HostReverifyMs => 10
  | ConfirmGraceMs => 11 | ClickToastTimeoutMs => 12 | EvalToastTimeoutMs => 13
  | DisabledTools => 14
  end.
Definition field_of_index (z : Z) : PolicyField := default CdpMode (ALL !! Z.to_nat z).

Lemma field_indexed f : field_of_index (field_index f) = f.
Proof. by destruct f. Qed.

Definition c_field : codec PolicyField := c_iso c_Z field_of_index field_index field_indexed.

(** ** Documents *)

Definition doc_tuple (d : PolicyDoc) :=
  ((pd_v d, pd_revision d, pd_touched d),
   ([pd_cdp_mode d; pd_file_upload_enabled d; pd_handle_dialog_enabled d;
     pd_page_eval_enabled d; pd_confirm_high_risk_click d; pd_confirm_page_eval d;
     pd_presence_confirm d; pd_confirm_tab_close d; pd_warn_precise_snapshot d;
     pd_eval_mask d],
    [pd_host_reverify_ms d; pd_confirm_grace_ms d; pd_click_toast_timeout_ms d;
     pd_eval_toast_timeout_ms d],
    pd_disabled_tools d)).

Definition tuple_doc (x : (Z * Z * list PolicyField) * (list bool * list Z * list string)) :
    PolicyDoc :=
  let '((v, r, t), (bs, ms, tools)) := x in
  let b i := default false (bs !! i) in
  let m i := default 0%Z (ms !! i) in
  mkPolicyDoc v r t (b 0) (b 1) (b 2) (b 3) (b 4) (b 5) (b 6) (b 7) (b 8) (b 9)
    (m 0) (m 1) (m 2) (m 3) tools.

Lemma doc_tuple_id d : tuple_doc (doc_tuple d) = d.
Proof. by destruct d. Qed.

Definition c_doc : codec PolicyDoc :=
  c_iso (c_pair (c_pair (c_pair c_Z c_Z) (c_list c_field))
    (c_pair (c_pair (c_list c_bool) (c_list c_Z)) (c_list c_string)))
    tuple_doc doc_tuple doc_tuple_id.

(** The parser's own bounds, decided. *)
Definition ms_okb (z : Z) : bool := (0 <=? z)%Z && (z <=? JS_SAFE_INT_MAX)%Z.
Definition doc_okb (d : PolicyDoc) : bool :=
  ms_okb (pd_revision d) &&
  forallb (fun f => ms_okb (get_ms (doc_values d) f))
    [MF_HostReverifyMs; MF_ConfirmGraceMs; MF_ClickToastTimeoutMs; MF_EvalToastTimeoutMs].

Lemma ms_okb_spec z : ms_okb z = true <-> (0 <= z <= JS_SAFE_INT_MAX)%Z.
Proof. unfold ms_okb. rewrite andb_true_iff, !Z.leb_le. done. Qed.

Lemma doc_okb_spec d : doc_okb d = true <-> doc_ok d.
Proof.
  unfold doc_okb, doc_ok, values_ok. rewrite andb_true_iff, ms_okb_spec, forallb_true_iff.
  setoid_rewrite ms_okb_spec. split; intros [H1 H2]; (split; [done|]).
  - intros f. apply H2. destruct f; set_solver.
  - intros f _. apply H2.
Qed.

#[export] Instance prefix_codec : PolicyCodec := {|
  base64_encode := String.string_of_list_byte;
  base64_decode s := Ok (String.list_byte_of_string s);
  doc_to_bytes := enc c_doc;
  doc_of_bytes b := match dec c_doc b with
                    | Some (d, []) => if doc_okb d then Ok d else Err "out of bounds"
                    | _ => Err "malformed"
                    end;
  entry_digest b o now := b
|}.

#[export] Instance prefix_codec_ok : PolicyCodecOk.
Proof.
  split.
  - intros b. cbn. f_equal. apply String.list_byte_of_string_of_list_byte.
  - intros d Hd. cbn [doc_of_bytes doc_to_bytes prefix_codec].
    rewrite <- (app_nil_r (enc c_doc d)), dec_enc. apply doc_okb_spec in Hd. by rewrite Hd.
  - intros b d. cbn [doc_of_bytes prefix_codec].
    destruct (dec c_doc b) as [[d' [|]]|]; [|done..].
    destruct (doc_okb d') eqn:E; [|done]. intros H. injection H as <-. by apply doc_okb_spec.
Qed.
