(* ===== verification/World.v ===== *)
(** World: the state the host's write paths share, as explicit state passing.

    A [world] is the runtime directory (one [slot] per record file), the host
    key as [EnrollmentKey::lookup] finds it, the audit trail and the clock. An
    [env] decides which I/O fails: the runtime lock, a write or a removal per
    file. A [host] computation reads an [env] and passes the world on; fallible
    Rust functions return a [result] inside it.

    [with_runtime_lock] runs its body in one step of the world, so what another
    process does between two critical sections is another world: theorems about
    an operation that releases the lock and takes it again (a prompt in between)
    quantify over both worlds. *)
From S2P Require Import Prelude RuntimeRecord Policy Identity Trust PolicyRecord.
From stdpp Require Import base list strings.

(** * The audit trail (audit.rs) *)

Inductive AuditKind :=
| ToolCall | HarnessAdmit | HarnessRefuse | AttachRefuse | BrowserAttach | BrowserRefuse
| PairClient | RevokeClient | HostKeyRevoke | HostKeyPair | KillEngage | KillRelease
| PresenceAssert | AuditEnroll | RevokeBrowser | PolicyWrite
| ConfirmShown | ConfirmAllowed | ConfirmDenied
| EnrollApproved | EnrollRejected | EnrollRevoked.

Inductive Surface := SurfCli | SurfExtension | SurfBroker | SurfHost | SurfCore.

(** A record as the deciding code hands it to [audit::record], which stamps the
    version and the time; a tool call's own fields are [Mcp]'s. *)
Record AuditRecord := mkAudit {
  au_kind : AuditKind;
  au_surface : option Surface;
  au_outcome : option string;
  au_tool : option string;
  au_name : option string;
  au_detail : option string;
  au_cid : option string
}.

Definition audit_of (k : AuditKind) (s : Surface) (outcome : string) (detail : option string) :=
  mkAudit k (Some s) (Some outcome) None None detail None.

Definition audit_named (k : AuditKind) (s : Surface) (name outcome : string)
    (detail : option string) :=
  mkAudit k (Some s) (Some outcome) None (Some name) detail None.

(** * Presence paths (presence/mod.rs) *)

Class Digest := { sha256 : bytes -> bytes; hex_encode : bytes -> string }.

Inductive PresencePath :=
| PathWebAuthn (id : CredentialId)
| PathConfirmWindow
| PathTty.

Definition path_wire_name (p : PresencePath) : string :=
  match p with
  | PathWebAuthn _ => "webauthn"
  | PathConfirmWindow => "confirm_window"
  | PathTty => "tty"
  end.

Definition audit_label `{!Digest} (p : PresencePath) : string :=
  match p with
  | PathWebAuthn id => "webauthn:" +:+ hex_encode (sha256 id)
  | PathConfirmWindow | PathTty => path_wire_name p
  end.

(** Evidence that presence was attested, by the path that vouched. *)
Record PresenceAttestation := mkAttestation { att_path : PresencePath }.

(** * The world *)

(** The shared-language record (lang.rs). *)
Record LangStore := mkLang { lang_value : string; lang_seq : Z }.

(** The host identity key: its fingerprint and its signing function. *)
Record EnrollmentKey := mkKey {
  key_fingerprint : string;
  key_sign : bytes -> result string bytes
}.

Record world := mkWorld {
  w_trust : slot Trust;
  w_policy : slot PolicyStore;
  w_history : slot PolicyHistory;
  w_lang : slot LangStore;
  w_key : result string (option EnrollmentKey);
  w_audit : list AuditRecord;
  w_now : Z
}.

Record env := mkEnv {
  e_lock : option io_error;
  e_write : string -> option io_error;
  e_remove : string -> option io_error
}.

(** Nothing fails. *)
Definition calm : env := mkEnv None (fun _ => None) (fun _ => None).

Definition set_trust (s : slot Trust) (w : world) : world :=
  mkWorld s w.(w_policy) w.(w_history) w.(w_lang) w.(w_key) w.(w_audit) w.(w_now).
Definition set_policy (s : slot PolicyStore) (w : world) : world :=
  mkWorld w.(w_trust) s w.(w_history) w.(w_lang) w.(w_key) w.(w_audit) w.(w_now).
Definition set_history (s : slot PolicyHistory) (w : world) : world :=
  mkWorld w.(w_trust) w.(w_policy) s w.(w_lang) w.(w_key) w.(w_audit) w.(w_now).
Definition set_lang (s : slot LangStore) (w : world) : world :=
  mkWorld w.(w_trust) w.(w_policy) w.(w_history) s w.(w_key) w.(w_audit) w.(w_now).
Definition add_audit (r : AuditRecord) (w : world) : world :=
  mkWorld w.(w_trust) w.(w_policy) w.(w_history) w.(w_lang) w.(w_key)
    (w.(w_audit) ++ [r]) w.(w_now).

(** * The host monad *)

Definition host (A : Type) : Type := env -> world -> A * world.

Definition hret {A} (a : A) : host A := fun _ w => (a, w).

Definition hbind {A B} (m : host A) (k : A -> host B) : host B :=
  fun e w => let '(a, w') := m e w in k a e w'.

(** The [?] operator. *)
Definition htry {E A B} (m : host (result E A)) (k : A -> host (result E B)) :
    host (result E B) :=
  hbind m (fun r => match r with Ok a => k a | Err e => hret (Err e) end).

Declare Scope host_scope.
Delimit Scope host_scope with host.
Notation "'let!' x := m 'in' k" := (hbind m (fun x => k))
  (at level 10, x pattern, m at level 100, k at level 200) : host_scope.
Notation "'let?' x := m 'in' k" := (htry m (fun x => k))
  (at level 10, x pattern, m at level 100, k at level 200) : host_scope.
Open Scope host_scope.

Definition hmap_err {E F A} (f : E -> F) (m : host (result E A)) : host (result F A) :=
  let! r := m in hret (map_err f r).

(** Read a component of the world. *)
Definition asks {A} (f : world -> A) : host A := fun _ w => (f w, w).

Definition audit_record (r : AuditRecord) : host unit := fun _ w => (tt, add_audit r w).

(** [ipc::with_runtime_lock]. *)
Definition with_runtime_lock {A} (f : host (result io_error A)) : host (result io_error A) :=
  fun e w => match e.(e_lock) with Some err => (Err err, w) | None => f e w end.

Definition now_unix : host Z := asks w_now.

Section world.
Context `{!Sized Trust}.

(** [TrustState::current]. *)
Definition current_trust : host (result io_error Trust) :=
  asks (fun w => trust_current w.(w_trust)).

Definition write_trust (t : Trust) : host (result io_error unit) := fun e w =>
  let '(r, s) := slot_write (e.(e_write) "trust.json") t w.(w_trust) in (r, set_trust s w).

(** [Trust::mutate_locked_with]: read, bump, edit, write. *)
Definition mutate_locked_with {A} (scope : Scope) (f : Trust -> A * Trust) :
    host (result io_error (Trust * A)) :=
  let? t := current_trust in
  let? t' := hret (bumped t scope) in
  let '(out, next) := f t' in
  let? _ := write_trust next in
  hret (Ok (next, out)).

(** [Trust::mutate_locked]. *)
Definition mutate_locked (scope : Scope) (f : Trust -> Trust) : host (result io_error Trust) :=
  let? r := mutate_locked_with scope (fun t => (tt, f t)) in
  hret (Ok r.1).

(** What a successful mutation did: the readable record was bumped and edited,
    the result is what is now stored, and nothing else of the world moved. *)
Lemma mutate_locked_with_Ok {A} scope (f : Trust -> A * Trust) e w w' t out :
  mutate_locked_with scope f e w = (Ok (t, out), w') ->
  exists t0 t1, trust_current (w_trust w) = Ok t0 /\ bumped t0 scope = Ok t1 /\
    f t1 = (out, t) /\ w' = set_trust (Stored t) w.
Proof.
  unfold mutate_locked_with, htry, hbind, current_trust, asks, hret, write_trust.
  destruct (trust_current (w_trust w)) as [t0|] eqn:E0; [|done].
  destruct (bumped t0 scope) as [t1|] eqn:E1; [|done].
  destruct (f t1) as [o next] eqn:Ef.
  destruct (slot_write _ next (w_trust w)) as [[[]|] s] eqn:Es; [|done].
  intros [= <- <- <-]. apply slot_write_Ok in Es as [-> _]. eauto 10.
Qed.

Lemma mutate_locked_with_Err {A} scope (f : Trust -> A * Trust) e w w' err :
  mutate_locked_with scope f e w = (Err err, w') -> w' = w.
Proof.
  unfold mutate_locked_with, htry, hbind, current_trust, asks, hret, write_trust.
  destruct (trust_current (w_trust w)) as [t0|] eqn:E0; [|by intros [=]].
  destruct (bumped t0 scope) as [t1|] eqn:E1; [|by intros [=]].
  destruct (f t1) as [o next] eqn:Ef.
  destruct (slot_write _ next (w_trust w)) as [[[]|] s] eqn:Es; intros [=]; subst.
  apply slot_write_Err in Es as ->. by destruct w.
Qed.

Lemma mutate_locked_Ok scope f e w w' t :
  mutate_locked scope f e w = (Ok t, w') ->
  exists t0 t1, trust_current (w_trust w) = Ok t0 /\ bumped t0 scope = Ok t1 /\
    t = f t1 /\ w' = set_trust (Stored t) w.
Proof.
  unfold mutate_locked, htry at 1, hbind at 1.
  destruct (mutate_locked_with _ _ e w) as [[[t' []]|] w1] eqn:E; [|by intros [=]].
  intros [= <- <-]. apply mutate_locked_with_Ok in E as (t0 & t1 & ? & ? & [= <-] & ->).
  eauto 10.
Qed.

Lemma mutate_locked_Err scope f e w w' err :
  mutate_locked scope f e w = (Err err, w') -> w' = w.
Proof.
  unfold mutate_locked, htry at 1, hbind at 1.
  destruct (mutate_locked_with _ _ e w) as [[[t' []]|] w1] eqn:E; intros [=]; subst.
  by eapply mutate_locked_with_Err.
Qed.
End world.

(** * Postconditions *)

(** [wp m Q]: the run of [m] ends in [Q]. *)
Definition wp {A} (m : host A) (Q : A -> world -> Prop) (e : env) (w : world) : Prop :=
  Q (m e w).1 (m e w).2.

Lemma wp_elim {A} (m : host A) Q e w a w' : wp m Q e w -> m e w = (a, w') -> Q a w'.
Proof. unfold wp. intros H E. by rewrite E in H. Qed.

Lemma wp_intro {A} (m : host A) (Q : A -> world -> Prop) e w :
  (forall a w', m e w = (a, w') -> Q a w') -> wp m Q e w.
Proof. unfold wp. intros H. apply H. by destruct (m e w). Qed.

Lemma wp_ret {A} (a : A) (Q : A -> world -> Prop) e w : Q a w -> wp (hret a) Q e w.
Proof. done. Qed.

Lemma wp_asks {A} (f : world -> A) (Q : A -> world -> Prop) e w : Q (f w) w -> wp (asks f) Q e w.
Proof. done. Qed.

Lemma wp_audit r (Q : unit -> world -> Prop) e w :
  Q tt (add_audit r w) -> wp (audit_record r) Q e w.
Proof. done. Qed.

Lemma wp_bind {A B} (m : host A) (k : A -> host B) Q e w :
  wp m (fun a => wp (k a) Q e) e w -> wp (hbind m k) Q e w.
Proof. unfold wp, hbind. by destruct (m e w). Qed.

Lemma wp_mono {A} (m : host A) (P Q : A -> world -> Prop) e w :
  wp m P e w -> (forall a w', P a w' -> Q a w') -> wp m Q e w.
Proof. unfold wp. auto. Qed.

(** Run a [host] program symbolically. *)
Ltac host_run :=
  repeat (unfold htry, hbind, hret, asks, hmap_err, audit_record in *; simpl in *).
