(* ===== verification/Messages.v ===== *)
(** Messages: the exact bytes signatures and challenges cover
    (src/src/packages/core/src/enclave/challenge.rs and
    src/src/packages/core/src/webauthn/statement.rs): NUL-separated fields under
    a domain prefix, every field but the last NUL-free. *)
From S2P Require Import Prelude RuntimeRecord Identity.
From Stdlib Require Import Strings.Byte Ascii.
From stdpp Require Import base list sets strings.

(** UTF-8 bytes of a string. *)
Definition as_bytes (s : string) : bytes := String.list_byte_of_string s.

(** * Field bounds *)

Inductive FieldFault := FaultEmpty | FaultTooLong | FaultNul.

(** Non-empty, at most [max] bytes, NUL-free. *)
Definition bounded_nul_free (s : string) (max : Z) : result FieldFault unit :=
  if str_is_empty s then Err FaultEmpty
  else if (max <? str_len s)%Z then Err FaultTooLong
  else if str_contains NUL s then Err FaultNul
  else Ok tt.

Definition MAX_NONCE_LEN : Z := 256.
Definition MAX_ACTION_LEN : Z := 1024.
Definition MAX_ORIGIN_LEN : Z := 300.
Definition MAX_CONTEXT_LEN : Z := 4096.

(** * Enclave messages *)

Definition CHALLENGE_DOMAIN : string := "genkan-enclave-v1".
Definition POLICY_DOMAIN : string := "genkan-policy-v1".

(** [EnclaveError::InvalidChallenge] is the only error of these encoders. *)
Inductive EnclaveError :=
| NotEnrolled
| InvalidChallenge (why : string)
| KeyInvalid (why : string)
| Keychain (why : string)
| Signing (why : string).

Definition domain_message (domain nonce : string) (context : option string) :
    result EnclaveError bytes :=
  let context := default "" context in
  match bounded_nul_free nonce MAX_NONCE_LEN with
  | Err FaultEmpty => Err (InvalidChallenge "empty nonce")
  | Err FaultTooLong => Err (InvalidChallenge "nonce too long")
  | Err FaultNul => Err (InvalidChallenge "nonce contains NUL")
  | Ok _ =>
      match bounded_nul_free context MAX_CONTEXT_LEN with
      | Err FaultTooLong => Err (InvalidChallenge "context too long")
      | Err FaultNul => Err (InvalidChallenge "context contains NUL")
      | Ok _ | Err FaultEmpty =>
          Ok (as_bytes domain ++ [x00] ++ as_bytes nonce ++ [x00] ++ as_bytes context)
      end
  end.

Definition challenge_message (nonce : string) (context : option string) :
    result EnclaveError bytes :=
  domain_message CHALLENGE_DOMAIN nonce context.

Definition policy_message (doc_bytes : bytes) : bytes :=
  as_bytes POLICY_DOMAIN ++ [x00] ++ doc_bytes.

(** * WebAuthn statements *)

Definition PRESENCE_DOMAIN : string := "genkan-webauthn-presence-v1".
Definition ENROLL_DOMAIN : string := "genkan-webauthn-enroll-v1".

Inductive StatementDomain := DomPresence | DomEnrollment.

Definition domain_str (d : StatementDomain) : string :=
  match d with DomPresence => PRESENCE_DOMAIN | DomEnrollment => ENROLL_DOMAIN end.

(** [Nonce::parse] and [Action::parse]. *)
Definition Nonce_parse (s : string) : option string :=
  if is_ok (bounded_nul_free s MAX_NONCE_LEN) then Some s else None.

Definition Action_parse (s : string) : option string :=
  if is_ok (bounded_nul_free s MAX_ACTION_LEN) then Some s else None.

Definition Action_enroll : string := "enroll".
Definition Action_release_kill_switch : string := "release the kill switch".

(** The page operations a presence request may be minted for. *)
Inductive PageOp := PageEval | PageUpload.

Definition PageOp_as_str (op : PageOp) : string :=
  match op with PageEval => "page_eval" | PageUpload => "page_upload" end.

Definition PageOp_parse (s : string) : option PageOp :=
  List.find (fun op => String.eqb (PageOp_as_str op) s) [PageEval; PageUpload].

(** [Origin::parse]: bounded, free of the trail's delimiters, and reproduced by
    the WHATWG parser's origin serialization (the [url] crate). *)
Class OriginParser := { origin_serialization : string -> option string }.

Definition Origin_parse `{!OriginParser} (s : string) : option string :=
  if str_is_empty s || (MAX_ORIGIN_LEN <? str_len s)%Z
     || existsb (fun b => Ascii.eqb b ";" || Ascii.eqb b "=" || Ascii.eqb b " ")
          (String.list_ascii_of_string s)
  then None
  else serialized ← origin_serialization s;
       if String.eqb serialized s then Some s else None.

Definition Action_page_op (op : PageOp) (origin : string) : string :=
  PageOp_as_str op +:+ " on " +:+ origin.

Record Statement := mkStatement {
  st_domain : StatementDomain;
  st_browser_label : BrowserLabel;
  st_action : string;
  st_nonce : string
}.

(** The fields passed their parsers. *)
Definition statement_ok (s : Statement) : Prop :=
  validate_label (st_browser_label s) = true /\
  Action_parse (st_action s) = Some (st_action s) /\
  Nonce_parse (st_nonce s) = Some (st_nonce s).

(** [Statement::message]: the parts joined by NUL. *)
Definition statement_message (s : Statement) : bytes :=
  let parts := [domain_str (st_domain s); st_browser_label s; st_action s; st_nonce s] in
  foldl (fun msg '(i, part) =>
           (if (0 <? i)%nat then msg ++ [x00] else msg) ++ as_bytes part)
        [] (zip (seq 0 4) parts).

(** * Lemmas *)

Lemma as_bytes_inj s t : as_bytes s = as_bytes t -> s = t.
Proof.
  intros H. unfold as_bytes in H.
  by rewrite <- (String.string_of_list_byte_of_string s), H,
    String.string_of_list_byte_of_string.
Qed.

Lemma nul_not_in_bytes s : str_contains NUL s = false -> x00 ∉ as_bytes s.
Proof.
  induction s as [|c s IH]; [intros _; apply not_elem_of_nil|]. cbn [str_contains].
  rewrite orb_false_iff. intros [Hc Hs]. specialize (IH Hs).
  change (as_bytes (String c s)) with (byte_of_ascii c :: as_bytes s).
  apply not_elem_of_cons. split; [|done]. intros E. apply Ascii.eqb_neq in Hc. apply Hc.
  rewrite <- (ascii_of_byte_of_ascii c), <- E. reflexivity.
Qed.

(** A NUL separates in one way only when the first halves are NUL-free. *)
Lemma nul_sep_inj (s1 s2 t1 t2 : bytes) :
  x00 ∉ s1 -> x00 ∉ s2 -> s1 ++ x00 :: t1 = s2 ++ x00 :: t2 -> s1 = s2 /\ t1 = t2.
Proof.
  revert s2. induction s1 as [|a s1 IH]; intros [|b s2] H1 H2 E; simpl in *; simplify_eq.
  - done.
  - set_solver.
  - set_solver.
  - destruct (IH s2) as [-> ->]; set_solver.
Qed.

Lemma bounded_nul_free_Ok s max u :
  bounded_nul_free s max = Ok u ->
  s <> "" /\ (str_len s <= max)%Z /\ str_contains NUL s = false.
Proof.
  unfold bounded_nul_free. destruct (str_is_empty s) eqn:Ee; [done|].
  destruct (Z.ltb_spec max (str_len s)); [done|].
  destruct (str_contains NUL s); [done|]. intros _. split; [|done]. by intros ->.
Qed.

Lemma parse_nul_free s max : is_ok (bounded_nul_free s max) = true -> str_contains NUL s = false.
Proof.
  destruct (bounded_nul_free s max) eqn:E; [|done].
  intros _. by apply bounded_nul_free_Ok in E as (_ & _ & ?).
Qed.

Lemma domain_message_Ok domain n c m :
  domain_message domain n c = Ok m ->
  str_contains NUL n = false /\ str_contains NUL (default "" c) = false /\
  m = as_bytes domain ++ x00 :: as_bytes n ++ x00 :: as_bytes (default "" c).
Proof.
  unfold domain_message. destruct (bounded_nul_free n _) as [[]|[]] eqn:En; try done.
  apply bounded_nul_free_Ok in En as (_ & _ & Hn).
  assert (bounded_nul_free (default "" c) MAX_CONTEXT_LEN = Err FaultEmpty -> default "" c = "") as He.
  { unfold bounded_nul_free. destruct (str_is_empty (default "" c)) eqn:Ee.
    - by destruct (default "" c).
    - destruct (_ <? _)%Z; [by intros [=]|].
      destruct (str_contains NUL (default "" c)); by intros [=]. }
  destruct (bounded_nul_free (default "" c) _) as [[]|[]] eqn:Ec; intros H; inv_res; try done.
  - apply bounded_nul_free_Ok in Ec as (_ & _ & Hc). done.
  - by rewrite He.
Qed.

Lemma statement_message_eq s :
  statement_message s =
    as_bytes (domain_str (st_domain s)) ++ x00 :: as_bytes (st_browser_label s) ++
    x00 :: as_bytes (st_action s) ++ x00 :: as_bytes (st_nonce s).
Proof.
  unfold statement_message. cbn [zip seq foldl Nat.ltb Nat.leb zip_with].
  by rewrite !app_nil_l, <- !app_assoc.
Qed.

(** * Properties *)

(** Everything a host key or an authenticator ever covers, in one type. *)
Inductive signed_content :=
| SignedChallenge (nonce context : string)
| SignedPolicy (doc_bytes : bytes)
| SignedStatement (s : Statement).

Definition signed_bytes (c : signed_content) : option bytes :=
  match c with
  | SignedChallenge n ctx => ok (challenge_message n (Some ctx))
  | SignedPolicy d => Some (policy_message d)
  | SignedStatement s => Some (statement_message s)
  end.

Definition content_ok (c : signed_content) : Prop :=
  match c with SignedStatement s => statement_ok s | _ => True end.

Definition content_domain (c : signed_content) : string :=
  match c with
  | SignedChallenge _ _ => CHALLENGE_DOMAIN
  | SignedPolicy _ => POLICY_DOMAIN
  | SignedStatement s => domain_str (st_domain s)
  end.

Definition content_tail (c : signed_content) : bytes :=
  match c with
  | SignedChallenge n ctx => as_bytes n ++ x00 :: as_bytes ctx
  | SignedPolicy d => d
  | SignedStatement s => as_bytes (st_browser_label s) ++
      x00 :: as_bytes (st_action s) ++ x00 :: as_bytes (st_nonce s)
  end.

Lemma str_nul_sep_inj d d' t t' :
  str_contains NUL d = false -> str_contains NUL d' = false ->
  as_bytes d ++ x00 :: t = as_bytes d' ++ x00 :: t' -> d = d' /\ t = t'.
Proof.
  intros Hd Hd' E.
  destruct (nul_sep_inj _ _ _ _ (nul_not_in_bytes _ Hd) (nul_not_in_bytes _ Hd') E) as [H ->].
  split; [by apply as_bytes_inj|done].
Qed.

Lemma signed_bytes_shape c m :
  signed_bytes c = Some m ->
  m = as_bytes (content_domain c) ++ x00 :: content_tail c /\
  match c with SignedChallenge n _ => str_contains NUL n = false | _ => True end.
Proof.
  destruct c as [n ctx|d|s]; cbn [signed_bytes content_domain content_tail].
  - unfold challenge_message. destruct (domain_message _ _ _) eqn:Ed; [|done].
    apply domain_message_Ok in Ed as (Hn & _ & ->). by intros [= <-].
  - by intros [= <-].
  - intros [= <-]. by rewrite statement_message_eq.
Qed.

Lemma content_domain_nul_free c : str_contains NUL (content_domain c) = false.
Proof. by destruct c as [| |[[] ? ? ?]]. Qed.

Lemma action_nul_free a b : Action_parse a = Some b -> str_contains NUL a = false.
Proof.
  unfold Action_parse. destruct (is_ok _) eqn:E; [|done]. intros _. by eapply parse_nul_free.
Qed.

Lemma statement_tail_inj s s' :
  statement_ok s -> statement_ok s' -> st_domain s = st_domain s' ->
  content_tail (SignedStatement s) = content_tail (SignedStatement s') -> s = s'.
Proof.
  destruct s as [d l a o], s' as [d' l' a' o'].
  intros (Hl & Ha%action_nul_free & _) (Hl' & Ha'%action_nul_free & _). simpl in *. intros <- Ht.
  apply validate_label_facts in Hl as (_ & Hl & _), Hl' as (_ & Hl' & _).
  apply str_nul_sep_inj in Ht as [-> Ht]; [|done..].
  by apply str_nul_sep_inj in Ht as [-> ->%as_bytes_inj].
Qed.

(** C33: the signed encodings are injective across all domains. Two contents
    that encode to the same bytes are the same content, so a challenge proof is
    never a policy signature, a presence tap never an enrollment one, and no
    field can borrow its neighbour's bytes. *)
Theorem signed_messages_are_injective (c c' : signed_content) (m : bytes) :
  content_ok c -> content_ok c' ->
  signed_bytes c = Some m -> signed_bytes c' = Some m -> c = c'.
Proof.
  intros Hok Hok' [-> Hn]%signed_bytes_shape [Hm Hn']%signed_bytes_shape.
  apply str_nul_sep_inj in Hm as [Hd Ht]; [|by apply content_domain_nul_free..].
  destruct c as [n ctx|d|s], c' as [n' ctx'|d'|s'];
    try (destruct s as [[] ? ? ?]; discriminate Hd);
    try (destruct s' as [[] ? ? ?]; discriminate Hd); try discriminate Hd.
  - by apply str_nul_sep_inj in Ht as [-> ->%as_bytes_inj].
  - simpl in Ht. by subst.
  - f_equal. apply statement_tail_inj; [done..| |done].
    destruct s as [[] ? ? ?], s' as [[] ? ? ?]; done.
Qed.

Lemma signed_messages_are_injective_witness :
  let s := mkStatement DomPresence "chrome" Action_release_kill_switch "n1" in
  statement_ok s /\ SignedStatement s = SignedStatement s.
Proof.
  intros s. assert (statement_ok s) as H by (repeat split; reflexivity).
  split; [exact H|].
  exact (signed_messages_are_injective (SignedStatement s) (SignedStatement s)
    (statement_message s) H H eq_refl eq_refl).
Defined.
