(* ===== verification/PolicyStore.v ===== *)
(** PolicyStore: the two policy write seams over the world
    (src/src/packages/core/src/policy/store.rs): the signed grant
    ([prepare_grant], then [commit] under a presence attestation), the free
    restriction ([restrict]), the history ring, and the clearing of a baseline
    whose key was disposed of. *)
From S2P Require Import Prelude RuntimeRecord Policy Identity Trust PolicyRecord PrefixCodec World Messages.
From stdpp Require Import base list sets strings.

(** * Errors *)

Inductive PolicyWriteError :=
| Invalid (m : string)
| WriteRefused (e : string)
| NoSigningKey
| KeyUnusable (e : string)
| NoBaseline
| NotARestriction
| RevisionOverflow
| Conflict
| Io (e : io_error).

(** [impl Display for PolicyWriteError]. *)
Definition write_error_display (e : PolicyWriteError) : string :=
  match e with
  | Invalid m => "invalid policy write: " +:+ m
  | WriteRefused e => "policy grant refused: " +:+ e
  | NoSigningKey => "no host key on this machine; a policy grant is a signed baseline and refuses without one (pair first)"
  | KeyUnusable e => "the host key is unusable (" +:+ e +:+ "); refusing to sign a policy grant (run `genkan pair --reset` to replace it)"
  | NoBaseline => "no policy baseline exists; there is nothing to restrict"
  | NotARestriction => "the overlay would relax the current effective policy; relaxations require a signed baseline write"
  | RevisionOverflow => "the policy revision counter would exceed the JS-safe integer bound (2^53 - 1)"
  | Conflict => "the policy store changed while this write was pending; refusing to overwrite the concurrent write"
  | Io e => "policy store: " +:+ io_msg e
  end.

Definition wire_names (fields : list PolicyField) : string :=
  str_join "," (wire_name <$> fields).

Definition is_empty {A} (l : list A) : bool := match l with [] => true | _ => false end.

Definition field_in (f : PolicyField) (l : list PolicyField) : bool := bool_decide (f ∈ l).

(** * State of a prepared grant *)

Record PrePromptObservation := mkPrePrompt {
  pp_store : option StoreObservation;
  pp_host_key_epoch : Z
}.

Record PreparedGrant := mkPrepared {
  pg_observed : PrePromptObservation;
  pg_doc_bytes : bytes;
  pg_key : EnrollmentKey;
  pg_touched : list PolicyField;
  pg_surface : Surface
}.

(** The revision a grant mints: one past the observed one, refused at the bound. *)
Definition next_revision (observed : option Z) : result PolicyWriteError Z :=
  match checked_add_u64 (default 0%Z observed) 1 with
  | Some r => if (r <=? JS_SAFE_INT_MAX)%Z then Ok r else Err RevisionOverflow
  | None => Err RevisionOverflow
  end.

Section store.
Context `{CO : PolicyCodec, DG : Digest, ST : !Sized Trust, SP : !Sized PolicyStore, SH : !Sized PolicyHistory}.

(** * File access *)

Definition load_policy : host (result io_error (option PolicyStore)) :=
  asks (fun w => slot_load w.(w_policy)).

Definition write_policy (s : PolicyStore) : host (result io_error unit) := fun e w =>
  let '(r, sl) := slot_write (e.(e_write) "policy.json") s w.(w_policy) in (r, set_policy sl w).

Definition remove_policy : host (result io_error unit) := fun e w =>
  let '(r, sl) := slot_remove (e.(e_remove) "policy.json") w.(w_policy) in (r, set_policy sl w).

Definition load_history : host (result io_error (option PolicyHistory)) :=
  asks (fun w => slot_load w.(w_history)).

Definition write_history (h : PolicyHistory) : host (result io_error unit) := fun e w =>
  let '(r, sl) := slot_write (e.(e_write) "policy-history.json") h w.(w_history) in
  (r, set_history sl w).

(** * The history ring *)

(** Drop oldest entries until the ring encodes under its cap; one step per
    entry is enough, since each step removes one. *)
Fixpoint evict_entries (l : list PolicyHistoryEntry) : list PolicyHistoryEntry :=
  match l with
  | [] => []
  | _ :: l' => if fits (mkPolicyHistory l) then l else evict_entries l'
  end.

Definition evict_to_fit (h : PolicyHistory) : PolicyHistory :=
  mkPolicyHistory (evict_entries h.(entries)).

Definition history_entry_of (prev : PolicyStore) (now : Z) : PolicyHistoryEntry :=
  mkHistoryEntry prev.(ps_baseline_b64) prev.(ps_sig_b64) prev.(ps_key_id) prev.(ps_overlay) now.

(** A damaged ring is replaced, a failed write dropped: never fatal. *)
Definition push_history_locked (prev : PolicyStore) : host unit :=
  let! loaded := load_history in
  let history := match loaded with Ok (Some h) => h | Ok None | Err _ => history_default end in
  let! now := now_unix in
  let history := evict_to_fit (mkPolicyHistory (history.(entries) ++ [history_entry_of prev now])) in
  let! _ := write_history history in
  hret tt.

(** A failed bump loses only the push. *)
Definition bump_policy_epoch_locked : host unit :=
  let! _ := mutate_locked ScopePolicy (fun t => t) in hret tt.

(** * The grant lane, before the prompt *)

Definition audit_grant_refused (surface : Surface) (touched : list PolicyField)
    (detail : string) : host unit :=
  audit_record (audit_of PolicyWrite surface "refused"
    (Some (detail +:+ "; touched=" +:+ wire_names touched))).

Definition lookup_signing_key (touched : list PolicyField) (surface : Surface) :
    host (result PolicyWriteError EnrollmentKey) :=
  let! looked := asks w_key in
  match looked with
  | Ok (Some key) => hret (Ok key)
  | Ok None =>
      let! _ := audit_grant_refused surface touched "no signing key" in
      hret (Err NoSigningKey)
  | Err e =>
      let! _ := audit_grant_refused surface touched ("host key unusable: " +:+ e) in
      hret (Err (KeyUnusable e))
  end.

(** What a grant reads of the store: the observation, the baseline and effective
    anchors, and the revision; an absent store anchors on the deny baseline. *)
Definition grant_anchors (store : option PolicyStore) :
    result PolicyWriteError (option StoreObservation * PolicyValues * PolicyValues * option Z) :=
  match store with
  | Some store =>
      doc ← map_err Io (baseline_doc store);
      anchor ← map_err Io (effective store);
      Ok (Some (observation store), doc_values doc, anchor, Some (pd_revision doc))
  | None => Ok (None, values_default, values_default, None)
  end.

(** The two direction checks and the document of a grant. *)
Definition grant_document (values : PolicyValues) (touched : list PolicyField)
    (obs : option StoreObservation) (baseline_anchor effective_anchor : PolicyValues)
    (revision : Z) : result PolicyWriteError PolicyDoc :=
  if existsb (fun f => negb (field_in f touched) && field_differs f values baseline_anchor) ALL then
    Err (Invalid "an untouched field departs from the current baseline (the signed document carries baseline values on fields it does not touch)")
  else
    let would_be_effective :=
      fold values (retained_overlay (overlay_or_default (obs ≫= ob_overlay)) touched) in
    if existsb (fun f => field_relaxes f would_be_effective effective_anchor
                         && negb (field_in f touched)) ALL then
      Err (Invalid "the touched set does not name every field this write relaxes")
    else
      let doc := doc_from_values values revision touched in
      _ ← map_err Invalid (doc_validate doc);
      Ok doc.

Definition prepare_grant (values : PolicyValues) (touched : list PolicyField)
    (surface : Surface) : host (result PolicyWriteError PreparedGrant) :=
  if is_empty touched then
    hret (Err (Invalid "the touched set is empty (a write must name the fields it edits)"))
  else
    let? trust := hmap_err Io current_trust in
    let? store := hmap_err Io load_policy in
    let? anchors := hret (grant_anchors store) in
    let '(obs, baseline_anchor, effective_anchor, observed_revision) := anchors in
    let? revision := hret (next_revision observed_revision) in
    let? doc := hret (grant_document values touched obs baseline_anchor effective_anchor revision) in
    let? key := lookup_signing_key touched surface in
    hret (Ok (mkPrepared (mkPrePrompt obs (host_key_epoch trust)) (doc_to_bytes doc)
                key touched surface)).

(** * The grant lane, after the prompt *)

Definition audit_refused (g : PreparedGrant) (detail : string) : host unit :=
  audit_grant_refused g.(pg_surface) g.(pg_touched) detail.

(** Hold a grant to the store its plan was read over. *)
Definition planned_over (g : PreparedGrant) (over : StoreObservation) :
    result PolicyWriteError PreparedGrant :=
  if bool_decide (g.(pg_observed).(pp_store) = Some over) then Ok g else Err Conflict.

(** The critical section of a grant write. *)
Definition write_baseline_locked (observed : PrePromptObservation) (doc_bytes : bytes)
    (sig_b64 key_id : string) (touched : list PolicyField) :
    host (result PolicyWriteError unit) :=
  let? trust := hmap_err Io current_trust in
  if negb (host_key_epoch trust =? observed.(pp_host_key_epoch))%Z then hret (Err Conflict)
  else
    let? prev := hmap_err Io load_policy in
    if negb (bool_decide ((observation <$> prev) = observed.(pp_store))) then hret (Err Conflict)
    else
      let overlay := retained_overlay (overlay_or_default (prev ≫= ps_overlay)) touched in
      let next := mkPolicyStore (base64_encode doc_bytes) (Some sig_b64) (Some key_id)
                    (normalize_overlay overlay) in
      let? _ := hmap_err Io (write_policy next) in
      let! _ := bump_policy_epoch_locked in
      let! _ := match prev with Some prev => push_history_locked prev | None => hret tt end in
      hret (Ok tt).

(** [with_runtime_lock(|lock| Ok(f))], its error folded into [Io]. *)
Definition locked_io (f : host (result PolicyWriteError unit)) : host (result PolicyWriteError unit) :=
  let! r := with_runtime_lock (let! inner := f in hret (Ok inner)) in
  hret (match r with Ok inner => inner | Err e => Err (Io e) end).

Definition commit_signed_baseline (observed : PrePromptObservation) (doc_bytes : bytes)
    (sig_b64 key_id : string) (touched : list PolicyField) (surface : Surface)
    (auth : PresenceAttestation) : host (result PolicyWriteError PresencePath) :=
  let rung := att_path auth in
  let! r := locked_io (write_baseline_locked observed doc_bytes sig_b64 key_id touched) in
  let detail := "auth=" +:+ audit_label rung +:+ "; touched=" +:+ wire_names touched in
  let! _ := match r with
            | Ok _ => audit_record (audit_of PolicyWrite surface "ok" (Some detail))
            | Err e => audit_record (audit_of PolicyWrite surface "error"
                (Some (detail +:+ "; write refused: " +:+ write_error_display e)))
            end in
  hret ((fun _ => rung) <$> r).

(** [PreparedGrant::commit]. *)
Definition commit (g : PreparedGrant) (auth : PresenceAttestation) :
    host (result PolicyWriteError PresencePath) :=
  match key_sign g.(pg_key) (policy_message g.(pg_doc_bytes)) with
  | Err e =>
      let! _ := audit_refused g ("signing: " +:+ e) in
      hret (Err (KeyUnusable e))
  | Ok sig =>
      commit_signed_baseline g.(pg_observed) g.(pg_doc_bytes) (base64_encode sig)
        (key_fingerprint g.(pg_key)) g.(pg_touched) g.(pg_surface) auth
  end.

(** [attest_and_commit]: the surface's prompt, a refusal as its text. *)
Definition attest_and_commit (g : PreparedGrant) (attest : host (result string PresenceAttestation)) :
    host (result PolicyWriteError PresencePath) :=
  let! auth := attest in
  match auth with
  | Err e =>
      let! _ := audit_refused g ("presence: " +:+ e) in
      hret (Err (WriteRefused e))
  | Ok auth => commit g auth
  end.

Definition set_signed (values : PolicyValues) (touched : list PolicyField) (surface : Surface)
    (attest : host (result string PresenceAttestation)) :
    host (result PolicyWriteError PresencePath) :=
  let? g := prepare_grant values touched surface in
  attest_and_commit g attest.

(** * The free lane *)

(** The tool-list bounds, on a merged overlay that carries the list. *)
Definition validate_overlay_tools (merged : PolicyOverlay) : result PolicyWriteError unit :=
  match merged.(po_disabled_tools) with
  | Some tools => map_err Invalid (validate_disabled_tools tools)
  | None => Ok tt
  end.

Definition restrict_locked (overlay : PolicyOverlay) (over : option StoreObservation) :
    host (result PolicyWriteError unit) :=
  let? loaded := hmap_err Io load_policy in
  match loaded with
  | None => hret (Err NoBaseline)
  | Some prev =>
      if match over with Some o => negb (bool_decide (o = observation prev)) | None => false end
      then hret (Err Conflict)
      else
        let? doc := hret (map_err Io (baseline_doc prev)) in
        let baseline := doc_values doc in
        let stored := overlay_or_default prev.(ps_overlay) in
        let? effective_now := hret (map_err Io (effective prev)) in
        let merged := merge_overlay stored overlay in
        let? _ := hret (validate_overlay_tools merged) in
        if negb (restricts_or_equal (fold baseline merged) effective_now)
        then hret (Err NotARestriction)
        else
          let next := mkPolicyStore prev.(ps_baseline_b64) prev.(ps_sig_b64) prev.(ps_key_id)
                        (normalize_overlay merged) in
          let? _ := hmap_err Io (write_policy next) in
          let! _ := bump_policy_epoch_locked in
          let! _ := push_history_locked prev in
          hret (Ok tt)
  end.

Definition restrict_with (overlay : PolicyOverlay) (over : option StoreObservation)
    (surface : Surface) : host (result PolicyWriteError unit) :=
  let restricted := wire_names (overlay_present_fields overlay) in
  let! r := locked_io (restrict_locked overlay over) in
  let say outcome tail :=
    audit_record (audit_of PolicyWrite surface outcome
      (Some ("auth=none; restricted=" +:+ restricted +:+ tail))) in
  let! _ := match r with
            | Ok _ => say "ok" ""
            | Err NotARestriction => say "refused" "; refused: relaxes the effective policy"
            | Err Conflict => say "refused" "; refused: the store moved since the plan"
            | Err (Io e) => say "error" ("; store: " +:+ io_msg e)
            | Err _ => hret tt
            end in
  hret r.

Definition restrict_ (overlay : PolicyOverlay) (surface : Surface) :=
  restrict_with overlay None surface.

Definition restrict_planned (overlay : PolicyOverlay) (over : StoreObservation)
    (surface : Surface) := restrict_with overlay (Some over) surface.

Definition confirm_unmoved (over : StoreObservation) : host (result PolicyWriteError unit) :=
  let? current := hmap_err Io (with_runtime_lock load_policy) in
  hret (if bool_decide ((observation <$> current) = Some over) then Ok tt else Err Conflict).

(** * Key disposal *)

Definition clear_baseline_locked : host (result io_error bool) :=
  let? loaded := load_policy in
  match loaded with
  | None => hret (Ok false)
  | Some prev =>
      let! _ := push_history_locked prev in
      let? _ := remove_policy in
      let! _ := bump_policy_epoch_locked in
      hret (Ok true)
  end.

(** * Lemmas on the critical sections *)

(** The world below the audit trail: what a refused write must leave alone. *)
Definition same_records (w w' : world) : Prop :=
  w_trust w' = w_trust w /\ w_policy w' = w_policy w /\ w_history w' = w_history w /\
  w_lang w' = w_lang w /\ w_key w' = w_key w.

(** Steps that may move the trust record and the ring, and nothing else. *)
Definition same_policy (w w' : world) : Prop :=
  w_policy w' = w_policy w /\ w_key w' = w_key w /\ w_audit w' = w_audit w /\
  w_now w' = w_now w.

Lemma bump_policy_epoch_frame e w w' u :
  bump_policy_epoch_locked e w = (u, w') -> same_policy w w'.
Proof.
  unfold bump_policy_epoch_locked, hbind.
  destruct (mutate_locked _ _ e w) as [[t|err] w1] eqn:E; intros [= _ <-].
  - apply mutate_locked_Ok in E as (_ & _ & _ & _ & _ & ->). done.
  - apply mutate_locked_Err in E as ->. done.
Qed.

Lemma push_history_frame prev e w w' u :
  push_history_locked prev e w = (u, w') -> same_policy w w'.
Proof.
  unfold push_history_locked, load_history, now_unix, asks, write_history, hbind, hret. simpl.
  destruct (slot_write _ _ (w_history w)) as [r s] eqn:E. by intros [= _ <-].
Qed.

Lemma same_policy_trans w1 w2 w3 :
  same_policy w1 w2 -> same_policy w2 w3 -> same_policy w1 w3.
Proof. unfold same_policy. intuition congruence. Qed.

(** The tail both lanes share after the store is written. *)
Lemma after_write_frame (prev : option PolicyStore) e w w' (r : result PolicyWriteError unit) :
  (let! _ := bump_policy_epoch_locked in
   let! _ := match prev with Some prev => push_history_locked prev | None => hret tt end in
   hret (Ok tt)) e w = (r, w') -> r = Ok tt /\ same_policy w w'.
Proof.
  unfold hbind. destruct (bump_policy_epoch_locked e w) as [u w1] eqn:E1.
  apply bump_policy_epoch_frame in E1.
  destruct prev as [prev|]; [destruct (push_history_locked prev e w1) as [u2 w2] eqn:E2|];
    intros [= <- <-]; split; try done.
  eapply same_policy_trans; [done|]. by eapply push_history_frame.
Qed.

Lemma write_policy_Ok s e w w' u :
  write_policy s e w = (Ok u, w') -> w' = set_policy (Stored s) w.
Proof.
  unfold write_policy. destruct (slot_write _ s (w_policy w)) as [[[]|] sl] eqn:E; [|done].
  intros [= _ <-]. by apply slot_write_Ok in E as [-> _].
Qed.

Lemma write_policy_Err s e w w' err :
  write_policy s e w = (Err err, w') -> w' = w.
Proof.
  unfold write_policy. destruct (slot_write _ s (w_policy w)) as [[[]|] sl] eqn:E; [done|].
  intros [= _ <-]. apply slot_write_Err in E as ->. by destruct w.
Qed.

(** What the grant's critical section did, if it succeeded. *)
Lemma write_baseline_locked_Ok obs b sig kid touched e w w' u :
  write_baseline_locked obs b sig kid touched e w = (Ok u, w') ->
  exists trust prev, trust_current (w_trust w) = Ok trust /\
    host_key_epoch trust = pp_host_key_epoch obs /\
    slot_load (w_policy w) = Ok prev /\ observation <$> prev = pp_store obs /\
    w_policy w' = Stored (mkPolicyStore (base64_encode b) (Some sig) (Some kid)
      (normalize_overlay (retained_overlay (overlay_or_default (prev ≫= ps_overlay)) touched))).
Proof.
  unfold write_baseline_locked, current_trust, load_policy, hmap_err, asks.
  unfold htry, hbind at 1 2 3. cbn [hret].
  destruct (trust_current (w_trust w)) as [trust|] eqn:Et; cbn [map_err]; [|done].
  destruct (host_key_epoch trust =? _)%Z eqn:Ee; cbn [negb]; [|done].
  unfold hbind at 1 2. cbn [hret].
  destruct (slot_load (w_policy w)) as [prev|] eqn:Ep; cbn [map_err]; [|done].
  case_bool_decide as Ho; cbn [negb]; [|done].
  unfold hbind at 1 2. destruct (write_policy _ e w) as [[[]|err] w1] eqn:Ew; [|done].
  apply write_policy_Ok in Ew as ->. cbn [hret map_err].
  intros Ht. apply after_write_frame in Ht as [_ (Hp & _)]. exists trust, prev.
  rewrite Hp. repeat split; auto. by apply Z.eqb_eq.
Qed.

Lemma write_baseline_locked_Err obs b sig kid touched e w w' err :
  write_baseline_locked obs b sig kid touched e w = (Err err, w') -> w' = w.
Proof.
  unfold write_baseline_locked, current_trust, load_policy, hmap_err, asks.
  unfold htry, hbind at 1 2 3. cbn [hret].
  destruct (trust_current (w_trust w)) as [trust|] eqn:Et; cbn [map_err]; [|by intros [=]].
  destruct (host_key_epoch trust =? _)%Z eqn:Ee; cbn [negb]; [|by intros [=]].
  unfold hbind at 1 2. cbn [hret].
  destruct (slot_load (w_policy w)) as [prev|] eqn:Ep; cbn [map_err]; [|by intros [=]].
  case_bool_decide as Ho; cbn [negb]; [|by intros [=]].
  unfold hbind at 1 2. destruct (write_policy _ e w) as [[[]|e1] w1] eqn:Ew.
  - apply write_policy_Ok in Ew as ->. cbn [hret map_err].
    intros Ht. by apply after_write_frame in Ht as [? _].
  - apply write_policy_Err in Ew as ->. by intros [=].
Qed.

(** The free lane's next store, as its critical section computes it. *)
Definition restricted_store (prev : PolicyStore) (overlay : PolicyOverlay) : PolicyStore :=
  mkPolicyStore prev.(ps_baseline_b64) prev.(ps_sig_b64) prev.(ps_key_id)
    (normalize_overlay (merge_overlay (overlay_or_default prev.(ps_overlay)) overlay)).

Lemma restrict_locked_Ok overlay over e w w' u :
  restrict_locked overlay over e w = (Ok u, w') ->
  exists prev doc eff, w_policy w = Stored prev /\
    baseline_doc prev = Ok doc /\ effective prev = Ok eff /\
    (forall o, over = Some o -> o = observation prev) /\
    restricts (fold (doc_values doc)
      (merge_overlay (overlay_or_default (ps_overlay prev)) overlay)) eff /\
    w_policy w' = Stored (restricted_store prev overlay).
Proof.
  unfold restrict_locked, load_policy, hmap_err, asks, htry, hbind at 1 2. cbn [hret].
  destruct (slot_load (w_policy w)) as [[prev|]|] eqn:Ep; cbn [map_err]; [|done..].
  apply slot_load_Some in Ep.
  case_match eqn:Eo; [done|].
  unfold hbind at 1. unfold hret at 1.
  destruct (baseline_doc prev) as [doc|] eqn:Ed; cbn [map_err]; [|done].
  unfold hbind at 1. unfold hret at 1.
  destruct (effective prev) as [eff|] eqn:Ee; cbn [map_err]; [|done].
  unfold hbind at 1. unfold hret at 1.
  destruct (validate_overlay_tools _) as [[]|] eqn:Em; [|done].
  destruct (restricts_or_equal _ eff) eqn:Er; cbn [negb]; [|done].
  unfold hbind at 1 2. destruct (write_policy _ e w) as [[[]|e1] w1] eqn:Ew; [|done].
  apply write_policy_Ok in Ew as ->. unfold hret at 1. cbn [map_err]. intros Ht.
  apply (after_write_frame (Some prev)) in Ht as [_ (Hp & _)].
  exists prev, doc, eff. repeat split; auto.
  - intros o ->. simpl in Eo. apply negb_false_iff, bool_decide_eq_true in Eo. done.
  - by apply restricts_or_equal_spec.
Qed.

Lemma restrict_locked_Err overlay over e w w' err :
  restrict_locked overlay over e w = (Err err, w') -> w' = w.
Proof.
  unfold restrict_locked, load_policy, hmap_err, asks, htry, hbind at 1 2. cbn [hret].
  destruct (slot_load (w_policy w)) as [[prev|]|] eqn:Ep; cbn [map_err];
    [|by intros [=]..].
  case_match eqn:Eo; [by intros [=]|].
  unfold hbind at 1. unfold hret at 1.
  destruct (baseline_doc prev) as [doc|] eqn:Ed; cbn [map_err]; [|by intros [=]].
  unfold hbind at 1. unfold hret at 1.
  destruct (effective prev) as [eff|] eqn:Ee; cbn [map_err]; [|by intros [=]].
  unfold hbind at 1. unfold hret at 1.
  destruct (validate_overlay_tools _) as [[]|] eqn:Em; [|by intros [=]].
  destruct (restricts_or_equal _ eff) eqn:Er; cbn [negb]; [|by intros [=]].
  unfold hbind at 1 2. destruct (write_policy _ e w) as [[[]|e1] w1] eqn:Ew.
  - apply write_policy_Ok in Ew as ->. unfold hret at 1. cbn [map_err].
    intros Ht. by apply (after_write_frame (Some prev)) in Ht as [? _].
  - apply write_policy_Err in Ew as ->. by intros [=].
Qed.

(** The restricted store reads Ok and its effective policy is the checked fold. *)
Lemma restricted_store_effective prev overlay doc eff :
  baseline_doc prev = Ok doc -> effective prev = Ok eff ->
  restricts (fold (doc_values doc)
    (merge_overlay (overlay_or_default (ps_overlay prev)) overlay)) eff ->
  effective (restricted_store prev overlay) = Ok (fold (doc_values doc)
    (merge_overlay (overlay_or_default (ps_overlay prev)) overlay)).
Proof.
  intros Hd He Hr. apply effective_Ok in He as (d & Hd' & -> & Hrb).
  rewrite Hd in Hd'. injection Hd' as <-.
  apply effective_Ok. exists doc. cbn [restricted_store ps_overlay]. rewrite normalize_overlay_default.
  split; [|split; [reflexivity|intros f; eapply field_relaxes_trans; [apply Hr|apply Hrb]]].
  apply baseline_doc_Ok. by apply baseline_doc_Ok in Hd.
Qed.

Lemma locked_io_cases f e w r w' :
  locked_io f e w = (r, w') ->
  f e w = (r, w') \/ (exists err, r = Err (Io err)) /\ w' = w.
Proof.
  unfold locked_io, with_runtime_lock, hbind, hret. destruct (e_lock e) as [err|].
  - intros [= <- <-]. right. eauto.
  - destruct (f e w) as [r1 w1]. intros [= <- <-]. by left.
Qed.

Lemma restrict_with_split overlay over surface e w r w' :
  restrict_with overlay over surface e w = (r, w') ->
  exists w1, locked_io (restrict_locked overlay over) e w = (r, w1) /\ same_records w1 w'.
Proof.
  unfold restrict_with. cbv zeta. generalize (wire_names (overlay_present_fields overlay)).
  intros names. unfold hbind, hret, audit_record.
  destruct (locked_io _ e w) as [r1 w1]. intros Heq. exists w1.
  destruct r1 as [[]|[]]; injection Heq as <- <-; (split; [reflexivity|]);
    unfold same_records, add_audit; repeat split; reflexivity.
Qed.

(** A restriction that landed, read back. *)
Lemma restrict_with_Ok overlay over surface e w w' u :
  restrict_with overlay over surface e w = (Ok u, w') ->
  exists prev next eff eff', w_policy w = Stored prev /\ w_policy w' = Stored next /\
    effective prev = Ok eff /\ effective next = Ok eff' /\
    restricts_or_equal eff' eff = true /\
    ps_baseline_b64 next = ps_baseline_b64 prev /\ ps_sig_b64 next = ps_sig_b64 prev /\
    (forall o, over = Some o -> o = observation prev).
Proof.
  intros H. apply restrict_with_split in H as (w1 & H & Hs).
  apply locked_io_cases in H as [H|[[err Hc] ->]]; [|discriminate Hc].
  apply restrict_locked_Ok in H as (prev & doc & eff & Hp & Hd & He & Ho & Hr & Hn).
  exists prev, (restricted_store prev overlay), eff, (fold (doc_values doc)
    (merge_overlay (overlay_or_default (ps_overlay prev)) overlay)).
  destruct Hs as (_ & -> & _). repeat split; auto.
  - by apply (restricted_store_effective _ _ _ eff).
  - by apply restricts_or_equal_spec.
Qed.

Lemma restrict_with_Err overlay over surface e w w' err :
  restrict_with overlay over surface e w = (Err err, w') -> same_records w w'.
Proof.
  intros H. apply restrict_with_split in H as (w1 & H & Hs).
  apply locked_io_cases in H as [H|[_ ->]]; [|done]. by apply restrict_locked_Err in H as ->.
Qed.

(** C2: the free lane only removes capability. A restriction that lands leaves a
    store that still reads as valid, over the same signed baseline bytes, whose
    effective policy relaxes no field of the one before it, and a planned
    restriction lands only over the store it was planned over. One that is
    refused, for whatever reason, leaves every record as it was. *)
Theorem restriction_never_relaxes (overlay : PolicyOverlay) (over : option StoreObservation)
    (surface : Surface) (e : env) (w w' : world) (r : result PolicyWriteError unit) :
  restrict_with overlay over surface e w = (r, w') ->
  match r with
  | Ok _ =>
      exists prev next eff eff',
        w_policy w = Stored prev /\ w_policy w' = Stored next /\
        effective prev = Ok eff /\ effective next = Ok eff' /\
        restricts_or_equal eff' eff = true /\
        ps_baseline_b64 next = ps_baseline_b64 prev /\ ps_sig_b64 next = ps_sig_b64 prev /\
        (forall o, over = Some o -> o = observation prev)
  | Err _ => same_records w w'
  end.
Proof.
  destruct r; [apply restrict_with_Ok|apply restrict_with_Err].
Qed.

(** ** The grant lane *)

(** What the grant anchors on: the observed store's own policies, or the deny
    baseline where there is none. *)
Definition anchored (store : option PolicyStore) (base eff : PolicyValues) (rev : Z) : Prop :=
  match store with
  | Some s => exists d, baseline_doc s = Ok d /\ effective s = Ok eff /\
                base = doc_values d /\ rev = pd_revision d
  | None => base = values_default /\ eff = values_default /\ rev = 0%Z
  end.

Lemma grant_anchors_Ok store obs base eff orev :
  grant_anchors store = Ok (obs, base, eff, orev) ->
  obs = observation <$> store /\ anchored store base eff (default 0%Z orev).
Proof.
  destruct store as [s|]; cbn; [|intros H; by inv_res].
  destruct (baseline_doc s) as [d|] eqn:Ed; cbn; [|done].
  destruct (effective s) as [ef|] eqn:Ee; cbn; [|done].
  intros H. injection H as <- <- <- <-. split; [done|]. exists d. done.
Qed.

Lemma anchored_overlay_restricts store base eff rev :
  anchored store base eff rev ->
  restricts (fold base (overlay_or_default (store ≫= ps_overlay))) base.
Proof.
  destruct store as [s|]; cbn.
  - intros (d & Hd & He & -> & _). apply effective_Ok in He as (d' & Hd' & -> & Hr).
    rewrite Hd in Hd'. by injection Hd' as <-.
  - intros (-> & _). rewrite fold_default. intros f. apply field_relaxes_refl.
Qed.

Lemma next_revision_Ok o r :
  next_revision o = Ok r -> (r = default 0 o + 1 /\ r <= JS_SAFE_INT_MAX)%Z.
Proof.
  unfold next_revision. case_match eqn:E; [|done].
  apply checked_add_u64_Some in E as [-> _].
  destruct (Z.leb_spec (default 0%Z o + 1) JS_SAFE_INT_MAX); [|done].
  intros H'. by inv_res.
Qed.

Lemma field_in_true f l : field_in f l = true <-> f ∈ l.
Proof. apply bool_decide_eq_true. Qed.

Lemma grant_document_Ok values touched obs base eff rev doc :
  grant_document values touched obs base eff rev = Ok doc ->
  doc = doc_from_values values rev touched /\ doc_validate doc = Ok tt /\
  (forall f, f ∉ touched -> field_differs f values base = false) /\
  (forall f, f ∉ touched -> field_relaxes f (fold values
     (retained_overlay (overlay_or_default (obs ≫= ob_overlay)) touched)) eff = false).
Proof.
  unfold grant_document.
  destruct (existsb _ ALL) eqn:E1; [done|].
  destruct (existsb _ ALL) eqn:E2 in |- *; [done|]. cbv zeta.
  destruct (doc_validate _) as [[]|] eqn:Ev; cbn [map_err mbind result_mbind]; [|done].
  intros H. injection H as <-. split; [done|]. split; [done|].
  rewrite existsb_false_iff in E1, E2.
  split; intros f Hf; [specialize (E1 f (elem_of_ALL f))|specialize (E2 f (elem_of_ALL f))];
    (assert (field_in f touched = false) as Hn
       by (apply not_true_iff_false; by rewrite field_in_true));
    rewrite Hn in *; cbn in *; [done|by rewrite andb_true_r in E2].
Qed.

(** The overlay a grant retains still restricts the new baseline. *)
Lemma retained_restricts values base o touched :
  restricts (fold base o) base ->
  (forall f, f ∉ touched -> field_differs f values base = false) ->
  restricts (fold values (retained_overlay o touched)) values.
Proof.
  intros Hr Hd f. destruct (decide (f ∈ touched)) as [Hin|Hout].
  - rewrite (field_relaxes_ext f _ values _ values); [apply field_relaxes_refl| |done].
    by rewrite fold_get, retained_overlay_get, decide_True.
  - destruct (overlay_get o f) as [v|] eqn:Eo.
    + rewrite (field_relaxes_ext f _ (fold base o) _ values); [| |done].
      * rewrite (field_eqv_relaxes f _ (fold base o) _ base); [apply Hr| |by apply Hd].
        unfold field_differs. by rewrite field_relaxes_refl.
      * by rewrite !fold_get, retained_overlay_get, decide_False, Eo.
    + rewrite (field_relaxes_ext f _ values _ values); [apply field_relaxes_refl| |done].
      by rewrite fold_get, retained_overlay_get, decide_False, Eo.
Qed.

Lemma lookup_signing_key_Ok touched surface e w key w' :
  lookup_signing_key touched surface e w = (Ok key, w') -> w_key w = Ok (Some key) /\ w' = w.
Proof.
  unfold lookup_signing_key, hbind, asks, hret.
  destruct (w_key w) as [[k|]|]; [|done..]. intros H. by injection H as <- <-.
Qed.

(** What a prepared grant holds. *)
Lemma prepare_grant_Ok values touched surface e w g w' :
  prepare_grant values touched surface e w = (Ok g, w') ->
  exists trust store base eff orev rev doc key,
    trust_current (w_trust w) = Ok trust /\ slot_load (w_policy w) = Ok store /\
    anchored store base eff (default 0%Z orev) /\ next_revision orev = Ok rev /\
    grant_document values touched (observation <$> store) base eff rev = Ok doc /\
    w_key w = Ok (Some key) /\ w' = w /\
    g = mkPrepared (mkPrePrompt (observation <$> store) (host_key_epoch trust))
          (doc_to_bytes doc) key touched surface.
Proof.
  unfold prepare_grant. destruct (is_empty touched); [done|].
  unfold current_trust, load_policy, hmap_err, asks, htry, hbind at 1 2. cbn [hret].
  destruct (trust_current (w_trust w)) as [trust|] eqn:Et; cbn [map_err]; [|done].
  unfold hbind at 1 2. cbn [hret].
  destruct (slot_load (w_policy w)) as [store|] eqn:Es; cbn [map_err]; [|done].
  unfold hbind at 1. unfold hret at 1.
  destruct (grant_anchors store) as [[[[obs base] eff] orev]|] eqn:Ea; [|done].
  unfold hbind at 1. unfold hret at 1.
  destruct (next_revision orev) as [rev|] eqn:Er; [|done].
  unfold hbind at 1. unfold hret at 1.
  destruct (grant_document _ _ _ _ _ _) as [doc|] eqn:Ed; [|done].
  unfold hbind at 1. destruct (lookup_signing_key _ _ e w) as [[key|] w1] eqn:Ek; [|done].
  apply lookup_signing_key_Ok in Ek as [Hk ->]. intros H.
  apply grant_anchors_Ok in Ea as [-> Ha].
  exists trust, store, base, eff, orev, rev, doc, key. repeat split; auto.
  all: unfold hret in H; by injection H.
Qed.

Lemma lookup_signing_key_Err touched surface e w err w' :
  lookup_signing_key touched surface e w = (Err err, w') -> same_records w w'.
Proof.
  unfold lookup_signing_key, audit_grant_refused. generalize (wire_names touched). intros names.
  unfold hbind, asks, hret, audit_record.
  destruct (w_key w) as [[k|]|] eqn:E; [done| |]; intros H; injection H as _ <-;
    unfold same_records, add_audit; repeat split; reflexivity.
Qed.

Lemma prepare_grant_Err values touched surface e w err w' :
  prepare_grant values touched surface e w = (Err err, w') -> same_records w w'.
Proof.
  unfold prepare_grant. destruct (is_empty touched).
  { unfold hret. intros H. by injection H as _ <-. }
  unfold current_trust, load_policy, hmap_err, asks, htry, hbind at 1 2. cbn [hret].
  destruct (trust_current (w_trust w)) as [trust|] eqn:Et; cbn [map_err];
    [|intros H; by injection H as _ <-].
  unfold hbind at 1 2. cbn [hret].
  destruct (slot_load (w_policy w)) as [store|] eqn:Es; cbn [map_err];
    [|intros H; by injection H as _ <-].
  unfold hbind at 1. unfold hret at 1.
  destruct (grant_anchors store) as [[[[obs base] eff] orev]|] eqn:Ea;
    [|intros H; by injection H as _ <-].
  unfold hbind at 1. unfold hret at 1.
  destruct (next_revision orev) as [rev|] eqn:Er; [|intros H; by injection H as _ <-].
  unfold hbind at 1. unfold hret at 1.
  destruct (grant_document _ _ _ _ _ _) as [doc|] eqn:Ed; [|intros H; by injection H as _ <-].
  unfold hbind at 1. destruct (lookup_signing_key _ _ e w) as [[key|e1] w1] eqn:Ek.
  - unfold hret. done.
  - apply lookup_signing_key_Err in Ek. unfold hret. intros H. by injection H as _ <-.
Qed.

Lemma commit_signed_split obs b sig kid touched surface auth e w r w' :
  commit_signed_baseline obs b sig kid touched surface auth e w = (r, w') ->
  exists r1 w1, locked_io (write_baseline_locked obs b sig kid touched) e w = (r1, w1) /\
    same_records w1 w' /\ r = ((fun _ => att_path auth) <$> r1).
Proof.
  unfold commit_signed_baseline. cbv zeta. generalize (wire_names touched). intros names.
  unfold hbind, hret, audit_record. destruct (locked_io _ e w) as [r1 w1].
  intros Heq. exists r1, w1. destruct r1 as [[]|err]; injection Heq as <- <-;
    (split; [reflexivity|]); (split; [|reflexivity]);
    unfold same_records, add_audit; repeat split; reflexivity.
Qed.

(** The store a landed grant leaves, over the store it observed. *)
Definition granted_store (b : bytes) (sig : bytes) (key : EnrollmentKey)
    (store : option PolicyStore) (touched : list PolicyField) : PolicyStore :=
  mkPolicyStore (base64_encode b) (Some (base64_encode sig)) (Some (key_fingerprint key))
    (normalize_overlay (retained_overlay (overlay_or_default (store ≫= ps_overlay)) touched)).

Lemma commit_Ok g auth e w path w' :
  commit g auth e w = (Ok path, w') ->
  exists sig trust prev, key_sign (pg_key g) (policy_message (pg_doc_bytes g)) = Ok sig /\
    trust_current (w_trust w) = Ok trust /\
    host_key_epoch trust = pp_host_key_epoch (pg_observed g) /\
    slot_load (w_policy w) = Ok prev /\ observation <$> prev = pp_store (pg_observed g) /\
    path = att_path auth /\
    w_policy w' = Stored (granted_store (pg_doc_bytes g) sig (pg_key g) prev (pg_touched g)).
Proof.
  unfold commit. destruct (key_sign _ _) as [sig|] eqn:Es; [|by unfold hbind, hret].
  intros H. apply commit_signed_split in H as (r1 & w1 & Hl & (_ & Hp & _) & Hr).
  destruct r1 as [u|]; [|done]. cbn in Hr. injection Hr as ->.
  apply locked_io_cases in Hl as [Hl|[[? Hl] _]]; [|done].
  apply write_baseline_locked_Ok in Hl as (trust & prev & Ht & Hh & Hs & Ho & Hw).
  exists sig, trust, prev. repeat split; auto. by rewrite Hp.
Qed.

Lemma commit_Err g auth e w err w' :
  commit g auth e w = (Err err, w') -> same_records w w'.
Proof.
  unfold commit. destruct (key_sign _ _) as [sig|] eqn:Es.
  - intros H. apply commit_signed_split in H as (r1 & w1 & Hl & Hs & Hr).
    destruct r1 as [u|]; [done|].
    apply locked_io_cases in Hl as [Hl|[_ ->]]; [|done].
    by apply write_baseline_locked_Err in Hl as ->.
  - unfold audit_refused, audit_grant_refused. generalize (wire_names (pg_touched g)).
    intros names. unfold hbind, hret, audit_record. intros H. injection H as _ <-.
    unfold same_records, add_audit. repeat split; reflexivity.
Qed.

Lemma observation_overlay (s s' : option PolicyStore) :
  observation <$> s = observation <$> s' -> s ≫= ps_overlay = s' ≫= ps_overlay.
Proof. destruct s, s'; cbn; intros H; by inversion H. Qed.

Lemma observation_ob_overlay (s : option PolicyStore) :
  (observation <$> s) ≫= ob_overlay = s ≫= ps_overlay.
Proof. by destruct s. Qed.

(** * Properties *)

Section grant.
Context `{OK : !PolicyCodecOk}.

Lemma granted_store_reads b sig key store touched doc :
  doc_of_bytes b = Ok doc -> doc_validate doc = Ok tt ->
  restricts (fold (doc_values doc)
    (retained_overlay (overlay_or_default (store ≫= ps_overlay)) touched)) (doc_values doc) ->
  let next := granted_store b sig key store touched in
  baseline_doc next = Ok doc /\
  effective next = Ok (fold (doc_values doc)
    (retained_overlay (overlay_or_default (store ≫= ps_overlay)) touched)).
Proof.
  intros Hb Hv Hr next.
  assert (baseline_doc next = Ok doc) as Hd.
  { apply baseline_doc_Ok. unfold decode_entry_doc, next, granted_store. cbn [ps_baseline_b64].
    rewrite base64_roundtrip. cbn [mbind result_mbind]. rewrite Hb. cbn [mbind result_mbind].
    by rewrite Hv. }
  split; [done|]. apply effective_Ok. exists doc. split; [done|].
  unfold next, granted_store. cbn [ps_overlay]. by rewrite normalize_overlay_default.
Qed.

Lemma anchored_revision store base eff rev :
  anchored store base eff rev -> (0 <= rev)%Z.
Proof.
  destruct store as [s|]; cbn; [|lia]. intros (d & Hd & _ & _ & ->).
  apply baseline_doc_Ok in Hd. unfold decode_entry_doc in Hd. inv_res.
  match goal with H : doc_of_bytes _ = Ok _ |- _ => apply doc_parse_ok in H as [? _] end. lia.
Qed.

(** Everything a landed grant establishes, with the effective policy explicit. *)
Lemma commit_lands values touched surface auth e e2 w w1 w2 w3 g path :
  values_ok values ->
  prepare_grant values touched surface e w = (Ok g, w1) ->
  commit g auth e2 w2 = (Ok path, w3) ->
  exists store base eff rev key sig next doc,
    slot_load (w_policy w) = Ok store /\ anchored store base eff rev /\
    w_key w = Ok (Some key) /\ path = att_path auth /\
    w_policy w3 = Stored next /\ baseline_doc next = Ok doc /\
    doc = doc_from_values values (rev + 1) touched /\
    key_sign key (policy_message (doc_to_bytes doc)) = Ok sig /\
    ps_sig_b64 next = Some (base64_encode sig) /\
    effective next = Ok (fold values
      (retained_overlay (overlay_or_default (store ≫= ps_overlay)) touched)) /\
    (forall f, f ∉ touched -> field_relaxes f (fold values
       (retained_overlay (overlay_or_default (store ≫= ps_overlay)) touched)) eff = false).
Proof.
  intros Hok Hprep Hcommit.
  apply prepare_grant_Ok in Hprep as
    (trust & store & base & eff & orev & rev & doc & key & Ht & Hs & Ha & Hrev & Hdoc & Hk & -> & ->).
  apply commit_Ok in Hcommit as (sig & trust2 & prev & Hsig & _ & _ & _ & Hobs & -> & Hp).
  cbn [pg_doc_bytes pg_key pg_observed pg_touched pp_store] in *.
  apply next_revision_Ok in Hrev as [-> Hmax].
  apply grant_document_Ok in Hdoc as (-> & Hv & Hdiff & Hrel).
  rewrite observation_ob_overlay in Hrel. apply observation_overlay in Hobs.
  pose proof (anchored_revision _ _ _ _ Ha) as Hpos.
  assert (doc_of_bytes (doc_to_bytes (doc_from_values values (default 0 orev + 1)%Z touched)) =
    Ok (doc_from_values values (default 0 orev + 1)%Z touched)) as Hround.
  { apply doc_roundtrip. split; [cbn [doc_from_values pd_revision]; lia|].
    by rewrite doc_values_from_values. }
  pose proof (retained_restricts values base _ touched
    (anchored_overlay_restricts _ _ _ _ Ha) Hdiff) as Hres.
  destruct (granted_store_reads _ sig key prev touched _ Hround Hv) as [Hb Heff].
  { by rewrite doc_values_from_values, Hobs. }
  rewrite doc_values_from_values, Hobs in Heff.
  exists store, base, eff, (default 0 orev)%Z, key, sig, (granted_store (doc_to_bytes
    (doc_from_values values (default 0 orev + 1)%Z touched)) sig key prev touched),
    (doc_from_values values (default 0 orev + 1)%Z touched).
  repeat split; auto.
Qed.

(** C1: a grant lands exactly what its prompt covered. If a prepared grant is
    committed, however much later and in whatever state the host is by then,
    the stored baseline parses back to the requested values and touched set, at
    the observed revision plus one, signed by the host key over exactly those
    bytes; the store reads as valid; every touched field takes its requested
    value, and no untouched field is more permissive than in the effective
    policy the grant was prepared over. A commit that fails leaves every record
    as it was. *)
Theorem grant_lands_what_was_approved (values : PolicyValues) (touched : list PolicyField)
    (surface : Surface) (auth : PresenceAttestation) (e e2 : env) (w w1 w2 w3 : world)
    (g : PreparedGrant) (r : result PolicyWriteError PresencePath) :
  values_ok values ->
  prepare_grant values touched surface e w = (Ok g, w1) ->
  commit g auth e2 w2 = (r, w3) ->
  match r with
  | Err _ => same_records w2 w3
  | Ok path =>
      exists store base eff rev key sig next doc eff',
        slot_load (w_policy w) = Ok store /\ anchored store base eff rev /\
        w_key w = Ok (Some key) /\ path = att_path auth /\
        w_policy w3 = Stored next /\ baseline_doc next = Ok doc /\
        doc_values doc = values /\ pd_touched doc = touched /\
        pd_revision doc = (rev + 1)%Z /\
        key_sign key (policy_message (doc_to_bytes doc)) = Ok sig /\
        ps_sig_b64 next = Some (base64_encode sig) /\
        effective next = Ok eff' /\
        (forall f, f ∈ touched -> field_get eff' f = field_get values f) /\
        (forall f, f ∉ touched -> field_relaxes f eff' eff = false)
  end.
Proof.
  intros Hok Hprep Hcommit.
  destruct r as [path|err]; [|by eapply commit_Err].
  destruct (commit_lands _ _ _ _ _ _ _ _ _ _ _ _ Hok Hprep Hcommit) as
    (store & base & eff & rev & key & sig & next & doc & Hs & Ha & Hk & Hp & Hn & Hb & Hd & Hsig
     & Hsg & Heff & Hrel).
  exists store, base, eff, rev, key, sig, next, doc, (fold values
    (retained_overlay (overlay_or_default (store ≫= ps_overlay)) touched)).
  subst doc. repeat split; auto; [apply doc_values_from_values|].
  intros f Hf. by rewrite fold_get, retained_overlay_get, decide_True.
Qed.
End grant.

(** The conflict guard. A prepared grant lands only over the store it was
    prepared over: if the baseline bytes, the overlay or the host-key epoch
    moved while the prompt was up, the commit does not succeed. *)
Theorem grant_refuses_a_moved_store (values : PolicyValues) (touched : list PolicyField)
    (surface : Surface) (auth : PresenceAttestation) (e e2 : env) (w w1 w2 w3 : world)
    (g : PreparedGrant) (path : PresencePath) :
  prepare_grant values touched surface e w = (Ok g, w1) ->
  commit g auth e2 w2 = (Ok path, w3) ->
  exists s s2 t t2,
    slot_load (w_policy w) = Ok s /\ slot_load (w_policy w2) = Ok s2 /\
    observation <$> s2 = observation <$> s /\
    trust_current (w_trust w) = Ok t /\ trust_current (w_trust w2) = Ok t2 /\
    host_key_epoch t2 = host_key_epoch t.
Proof.
  intros Hprep Hcommit.
  apply prepare_grant_Ok in Hprep as
    (trust & store & base & eff & orev & rev & doc & key & Ht & Hs & Ha & Hrev & Hdoc & Hk & -> & ->).
  apply commit_Ok in Hcommit as (sig & trust2 & prev & Hsig & Ht2 & Hep & Hs2 & Hobs & -> & Hp).
  exists store, prev, trust, trust2. repeat split; auto.
Qed.

(** A grant exists only with a host key and a presence attestation. A signed
    write that succeeds found a key before its prompt and reports the path of
    the attestation its prompt returned; where the machine has no usable key the
    prompt is never run (every prompt gives the same run) and no record moves. *)
Theorem grant_needs_key_and_presence (values : PolicyValues) (touched : list PolicyField)
    (surface : Surface) (attest : host (result string PresenceAttestation))
    (e : env) (w w' : world) (r : result PolicyWriteError PresencePath) :
  set_signed values touched surface attest e w = (r, w') ->
  (forall path, r = Ok path -> exists key auth w1, w_key w = Ok (Some key) /\
     attest e w = (Ok auth, w1) /\ path = att_path auth) /\
  ((forall key, w_key w <> Ok (Some key)) ->
     is_ok r = false /\ same_records w w' /\
     forall attest', set_signed values touched surface attest' e w = (r, w')).
Proof.
  intros H. split.
  - intros path ->. unfold set_signed, htry, hbind in H.
    destruct (prepare_grant values touched surface e w) as [[g|] w1] eqn:Eg; [|done].
    apply prepare_grant_Ok in Eg as
      (trust & store & base & eff & orev & rev & doc & key & _ & _ & _ & _ & _ & Hk & -> & ->).
    unfold attest_and_commit, hbind at 1 in H.
    destruct (attest e w) as [[auth|] w2]; [|by unfold hbind, hret in H].
    apply commit_Ok in H as (sig & trust2 & prev & _ & _ & _ & _ & _ & -> & _). eauto 10.
  - intros Hn. unfold set_signed, htry, hbind in *.
    destruct (prepare_grant values touched surface e w) as [[g|err] w1] eqn:Eg.
    + apply prepare_grant_Ok in Eg as
        (trust & store & base & eff & orev & rev & doc & key & _ & _ & _ & _ & _ & Hk & _).
      by destruct (Hn key).
    + unfold hret in H. injection H as <- <-. split; [done|]. split; [|done].
      by apply prepare_grant_Err in Eg.
Qed.

(** ** The ring *)

Lemma evict_entries_spec l :
  evict_entries l `suffix_of` l /\
  (evict_entries l = [] \/ fits (mkPolicyHistory (evict_entries l)) = true) /\
  (forall l', l' `suffix_of` l -> length (evict_entries l) < length l' ->
     fits (mkPolicyHistory l') = false).
Proof.
  induction l as [|x l (IH1 & IH2 & IH3)]; cbn.
  - split; [done|]. split; [by left|]. intros l' Hl' Hlen.
    apply suffix_nil_inv in Hl' as ->. cbn in Hlen. lia.
  - destruct (fits (mkPolicyHistory (x :: l))) eqn:E.
    + split; [done|]. split; [by right|]. intros l' Hl' Hlen.
      apply suffix_length in Hl'. lia.
    + split; [by apply suffix_cons_r|]. split; [done|]. intros l' Hl' Hlen.
      destruct l' as [|y l']; [cbn in Hlen; lia|].
      apply suffix_cons_inv in Hl' as [->|Hl']; [done|]. by apply IH3.
Qed.

(** The rollback ring keeps the newest entries that fit its read cap. After
    a push, the stored ring is the longest suffix of the old ring and the
    superseded record that encodes under the cap (a damaged ring starts fresh),
    and it is readable; nothing but the ring moves. *)
Theorem ring_keeps_the_longest_fitting_suffix (prev : PolicyStore) (e : env) (w : world) :
  e_write e "policy-history.json" = None ->
  fits (mkPolicyHistory []) = true ->
  let old := match slot_load (w_history w) with Ok (Some h) => entries h | _ => [] end in
  let pushed := old ++ [history_entry_of prev (w_now w)] in
  exists kept,
    push_history_locked prev e w = (tt, set_history (Stored (mkPolicyHistory kept)) w) /\
    kept `suffix_of` pushed /\
    (forall l', l' `suffix_of` pushed -> fits (mkPolicyHistory l') = true ->
       length l' <= length kept).
Proof.
  intros Hw H0 old pushed. exists (evict_entries pushed).
  destruct (evict_entries_spec pushed) as (H1 & H2 & H3).
  assert (fits (mkPolicyHistory (evict_entries pushed)) = true) as Hf
    by (destruct H2 as [->|]; done).
  split; [|split; [done|]].
  - unfold push_history_locked, load_history, now_unix, asks, write_history, hbind, hret, evict_to_fit.
    subst old. replace (entries _ ++ _) with pushed
      by (unfold pushed; by destruct (slot_load (w_history w)) as [[]|]).
    unfold slot_write. cbn [entries]. by rewrite Hf, Hw.
  - intros l' Hl' Hfit. destruct (decide (length (evict_entries pushed) < length l')) as [Hlt|];
      [|lia]. by rewrite H3 in Hfit.
Qed.

(** The revision counter moves by exactly one, from 1, and never past the
    JS-safe bound: it is refused there rather than wrapped or saturated. *)
Theorem revision_is_refused_at_the_bound (observed : option Z) :
  (0 <= default 0 observed <= u64_max)%Z ->
  next_revision observed =
    if (default 0 observed <? JS_SAFE_INT_MAX)%Z then Ok (default 0 observed + 1)%Z
    else Err RevisionOverflow.
Proof.
  intros Hb. unfold next_revision, checked_add_u64.
  destruct (Z.leb_spec (default 0 observed + 1)%Z u64_max),
    (Z.ltb_spec (default 0 observed)%Z JS_SAFE_INT_MAX);
    try (destruct (Z.leb_spec (default 0 observed + 1)%Z JS_SAFE_INT_MAX));
    unfold JS_SAFE_INT_MAX, u64_max in *; try lia; done.
Qed.
End store.

(** ** A concrete host for the witnesses *)

Module PolicyExample.
#[export] Instance digest : Digest := {| sha256 := id; hex_encode := String.string_of_list_byte |}.
#[export] Instance trust_sized : Sized Trust := {| fits _ := true; too_large _ := invalid_data "" |}.
#[export] Instance policy_sized : Sized PolicyStore :=
  {| fits _ := true; too_large _ := invalid_data "" |}.
#[export] Instance history_sized : Sized PolicyHistory :=
  {| fits h := (length (entries h) <=? 2)%nat; too_large _ := invalid_data "" |}.

Definition key : EnrollmentKey := mkKey "fp" (fun b => Ok (Byte.x01 :: b)).
Definition w0 : world :=
  mkWorld Absent Absent Absent Absent (Ok (Some key)) [] 1000.

Definition grants : PolicyValues :=
  set_bool (set_bool values_default BF_CdpMode true) BF_PageEvalEnabled true.
Definition tap : PresenceAttestation := mkAttestation PathTty.
Definition tap_ok : host (result string PresenceAttestation) := hret (Ok tap).

(** The host after a first grant. *)
Definition w_granted : world :=
  (set_signed grants [CdpMode; PageEvalEnabled] SurfCli tap_ok calm w0).2.

Definition no_eval : PolicyOverlay :=
  overlay_set_from overlay_default PageEvalEnabled values_default.
End PolicyExample.
#[local] Existing Instances PolicyExample.digest PolicyExample.trust_sized
  PolicyExample.policy_sized PolicyExample.history_sized.

Definition prepared_or (r : result PolicyWriteError PreparedGrant * world) : PreparedGrant :=
  match r.1 with
  | Ok g => g
  | Err _ => mkPrepared (mkPrePrompt None 0) [] PolicyExample.key [] SurfCli
  end.

Definition ex_grant : PreparedGrant :=
  Eval vm_compute in
  prepared_or (prepare_grant PolicyExample.grants [CdpMode; PageEvalEnabled] SurfCli calm
    PolicyExample.w0).
Definition ex_w0 : world := PolicyExample.w0.

Lemma grant_lands_what_was_approved_witness :
  exists w3 eff', commit ex_grant PolicyExample.tap calm ex_w0 = (Ok PathTty, w3) /\
    (exists next, w_policy w3 = Stored next /\ effective next = Ok eff') /\
    field_get eff' PageEvalEnabled = VBool true /\
    field_relaxes FileUploadEnabled eff' values_default = false.
Proof.
  destruct (commit ex_grant PolicyExample.tap calm ex_w0) as [r w3] eqn:E.
  assert (r = Ok PathTty) as ->.
  { transitivity (commit ex_grant PolicyExample.tap calm ex_w0).1;
      [by rewrite E|vm_compute; reflexivity]. }
  destruct (grant_lands_what_was_approved PolicyExample.grants [CdpMode; PageEvalEnabled] SurfCli
    PolicyExample.tap calm calm ex_w0 ex_w0 ex_w0 w3 ex_grant (Ok PathTty))
    as (store & base & eff & rev & key & sig & next & doc & eff' & Hs & Ha & _ & _ & Hn & _ & _
        & _ & _ & _ & _ & He & Hin & Hout).
  - intros []; vm_compute; split; discriminate.
  - vm_compute. reflexivity.
  - exact E.
  - exists w3, eff'. split; [reflexivity|]. split; [exists next; split; assumption|]. split.
    + apply Hin. set_solver.
    + injection Hs as <-. destruct Ha as (_ & -> & _). apply Hout. set_solver.
Defined.

Lemma grant_refuses_a_moved_store_witness :
  exists s s2, slot_load (w_policy ex_w0) = Ok s /\ slot_load (w_policy ex_w0) = Ok s2 /\
    observation <$> s2 = observation <$> s.
Proof.
  destruct (commit ex_grant PolicyExample.tap calm ex_w0) as [r w3] eqn:E.
  assert (r = Ok PathTty) as ->.
  { transitivity (commit ex_grant PolicyExample.tap calm ex_w0).1;
      [by rewrite E|vm_compute; reflexivity]. }
  destruct (grant_refuses_a_moved_store PolicyExample.grants [CdpMode; PageEvalEnabled] SurfCli
    PolicyExample.tap calm calm ex_w0 ex_w0 ex_w0 w3 ex_grant PathTty)
    as (s & s2 & t & t2 & H1 & H2 & H3 & _).
  - vm_compute. reflexivity.
  - exact E.
  - exists s, s2. repeat split; assumption.
Defined.

Lemma grant_needs_key_and_presence_witness :
  exists key auth w1, w_key ex_w0 = Ok (Some key) /\
    PolicyExample.tap_ok calm ex_w0 = (Ok auth, w1) /\ PathTty = att_path auth.
Proof.
  destruct (set_signed PolicyExample.grants [CdpMode; PageEvalEnabled] SurfCli
    PolicyExample.tap_ok calm ex_w0) as [r2 w2] eqn:E2.
  refine (proj1 (grant_needs_key_and_presence PolicyExample.grants [CdpMode; PageEvalEnabled]
    SurfCli PolicyExample.tap_ok calm ex_w0 w2 r2 E2) PathTty _).
  transitivity (set_signed PolicyExample.grants [CdpMode; PageEvalEnabled] SurfCli
    PolicyExample.tap_ok calm ex_w0).1; [by rewrite E2|vm_compute; reflexivity].
Defined.

Definition ex_granted : world := Eval vm_compute in
  mkWorld (w_trust PolicyExample.w_granted) (w_policy PolicyExample.w_granted)
    (w_history PolicyExample.w_granted) Absent (Ok None) [] 2000.

Lemma restriction_never_relaxes_witness :
  exists prev next eff eff', w_policy ex_granted = Stored prev /\
    effective prev = Ok eff /\ effective next = Ok eff' /\
    restricts_or_equal eff' eff = true.
Proof.
  destruct (restrict_ PolicyExample.no_eval SurfExtension calm ex_granted) as [r w'] eqn:E.
  assert (r = Ok tt) as ->.
  { transitivity (restrict_ PolicyExample.no_eval SurfExtension calm ex_granted).1;
      [by rewrite E|vm_compute; reflexivity]. }
  destruct (restriction_never_relaxes PolicyExample.no_eval None SurfExtension calm
    ex_granted w' (Ok tt) E) as (prev & next & eff & eff' & H1 & _ & H2 & H3 & H4 & _).
  exists prev, next, eff, eff'. repeat split; assumption.
Defined.

Lemma ring_keeps_the_longest_fitting_suffix_witness :
  exists kept, push_history_locked (mkPolicyStore "b" None None None) calm ex_w0 =
    (tt, set_history (Stored (mkPolicyHistory kept)) ex_w0).
Proof.
  destruct (ring_keeps_the_longest_fitting_suffix (mkPolicyStore "b" None None None) calm ex_w0)
    as (kept & H & _); [reflexivity|reflexivity|].
  exists kept. exact H.
Defined.

Lemma revision_is_refused_at_the_bound_witness :
  next_revision (Some JS_SAFE_INT_MAX) = Err RevisionOverflow /\ next_revision None = Ok 1%Z.
Proof.
  split.
  - rewrite (revision_is_refused_at_the_bound (Some JS_SAFE_INT_MAX));
      [vm_compute; reflexivity|vm_compute; split; discriminate].
  - rewrite (revision_is_refused_at_the_bound None);
      [vm_compute; reflexivity|vm_compute; split; discriminate].
Defined.
