(* ===== verification/PolicyPlan.v ===== *)
(** PolicyPlan: what a policy request would write, decided before any prompt
    (src/src/packages/core/src/policy/plan.rs): the plan of a set, the plan of a
    rollback, and the reads of the history ring they are made over. *)
From S2P Require Import Prelude RuntimeRecord Policy Identity Trust PolicyRecord PrefixCodec World Messages PolicyStore.
From stdpp Require Import base list sets strings pretty.

Record Grant := mkGrant { g_values : PolicyValues; g_touched : list PolicyField }.

(** One field as a presence prompt spells it. *)
Definition summarize_field (values : PolicyValues) (field : PolicyField) : string :=
  let value := match kind field with
               | KBool f => if get_bool values f then "on" else "off"
               | KMs f => pretty (get_ms values f)
               | KToolSet f => "[" +:+ str_join "," (get_tools values f) +:+ "]"
               end in
  wire_name field +:+ "=" +:+ value.

Definition summarize (values : PolicyValues) (fields : list PolicyField) : string :=
  str_join "," (summarize_field values <$> fields).

Definition grant_summary (g : Grant) : string := summarize g.(g_values) g.(g_touched).

(** What a ring entry held. *)
Record HeldPolicy := mkHeld { hp_revision : Z; hp_effective : PolicyValues }.

Definition touched_fields (overlay : PolicyOverlay) : list PolicyField :=
  List.filter (overlay_has overlay) ALL.

Inductive RollbackPlan :=
| NoChange
| Tighten (overlay : PolicyOverlay) (fields : list PolicyField)
| Relax (g : Grant).

(** The overlay and the fields on which [target] differs from [current]. *)
Definition diff_overlay (target current : PolicyValues) : PolicyOverlay * list PolicyField :=
  foldl (fun '(overlay, fields) field => (overlay_set_from overlay field target, fields ++ [field]))
    (overlay_default, []) (List.filter (fun f => field_differs f target current) ALL).

Definition plan_rollback (target current baseline : PolicyValues) : RollbackPlan :=
  let '(overlay, fields) := diff_overlay target current in
  if is_empty fields then NoChange
  else if restricts_or_equal target current then Tighten overlay fields
  else Relax (mkGrant (foldl (fun values field => copy_field values field target) baseline fields)
                fields).

Record RollbackInputs := mkInputs {
  ri_target : PolicyValues;
  ri_current : PolicyValues;
  ri_baseline : PolicyValues;
  ri_over : StoreObservation
}.

Definition inputs_plan (i : RollbackInputs) : RollbackPlan :=
  plan_rollback i.(ri_target) i.(ri_current) i.(ri_baseline).

Section plan.
Context `{CO : PolicyCodec, DG : Digest}.

Definition entry_state (entry : PolicyHistoryEntry) : option HeldPolicy :=
  doc ← ok (decode_entry_doc entry.(he_baseline_b64));
  let eff := fold (doc_values doc) (overlay_or_default entry.(he_overlay)) in
  _ ← ok (validate_disabled_tools eff.(pv_disabled_tools));
  Some (mkHeld doc.(pd_revision) eff).

Definition plan_grant (overlay : PolicyOverlay) : host (result string Grant) :=
  let! loaded := load_policy in
  hret (base ← match loaded with
               | Ok (Some store) =>
                   map_err (fun e => "the current baseline is unreadable (" +:+ io_msg e
                                     +:+ "); refusing")
                     (doc_values <$> baseline_doc store)
               | Ok None => Ok values_default
               | Err e => Err ("the policy store is unreadable (" +:+ io_msg e +:+ "); refusing")
               end;
        Ok (mkGrant (fold base overlay) (touched_fields overlay))).

(** The refusal a presence gate earns, audited. *)
Definition refused_grant (surface : Surface) (touched : list PolicyField) (e : string) :
    host string :=
  let! _ := audit_grant_refused surface touched ("presence: " +:+ e) in
  hret (write_error_display (WriteRefused e)).

(** The revisions on offer, each once, in ring order. *)
Definition available_revisions (held : list HeldPolicy) : list Z :=
  foldl (fun acc h => if existsb (Z.eqb h.(hp_revision)) acc then acc
                      else acc ++ [h.(hp_revision)]) [] held.

Definition find_history_effective (history : PolicyHistory) (revision : Z) :
    result string PolicyValues :=
  let held := omap entry_state history.(entries) in
  let matches := hp_effective <$> List.filter (fun h => Z.eqb h.(hp_revision) revision) held in
  match matches with
  | [] => Err ("no history entry at revision " +:+ pretty revision +:+ "; available revisions: ["
               +:+ str_join ", " (pretty <$> available_revisions held) +:+ "]")
  | first :: _ =>
      if forallb (fun m => values_eq m first) matches then Ok first
      else Err ("revision " +:+ pretty revision +:+ " appears " +:+ pretty (length matches)
                +:+ " times in the history with different effective policies (its restrictions changed while it was current), so rolling back "
                +:+ dquote +:+ "to revision " +:+ pretty revision +:+ dquote
                +:+ " is ambiguous; run `genkan policy history`, pick the record to restore by its `entry=` id, and retry with `policy rollback --revision "
                +:+ pretty revision +:+ " --entry <id>`.")
  end.

Definition GONE : string :=
  "the policy history no longer holds that record; refresh it and choose again".

Definition find_history_entry (history : PolicyHistory) (revision : Z) (id : string) :
    result string PolicyValues :=
  record ← ok_or (List.find (fun e => String.eqb (entry_id e) id) history.(entries)) GONE;
  doc ← map_err (fun e => "the history entry is unreadable (" +:+ e +:+ ")")
          (decode_entry_doc record.(he_baseline_b64));
  if negb (doc.(pd_revision) =? revision)%Z then Err GONE
  else Ok (fold (doc_values doc) (overlay_or_default record.(he_overlay))).

Definition rollback_current (store : result io_error (option PolicyStore)) :
    result string (PolicyValues * PolicyValues * StoreObservation) :=
  match store with
  | Ok (Some store) =>
      match effective store, baseline_doc store with
      | Ok eff, Ok doc => Ok (eff, doc_values doc, observation store)
      | Err e, _ | _, Err e =>
          Err ("the current baseline is unreadable (" +:+ io_msg e +:+ "); refusing")
      end
  | Ok None => Err "there is no current policy baseline to roll back from; sign one first with `genkan policy set`."
  | Err e => Err ("the policy store is unreadable (" +:+ io_msg e +:+ "); refusing")
  end.

(** The ring and the store in one hold of the runtime lock. *)
Definition rollback_inputs (revision : Z) (entry : option string) :
    host (result string RollbackInputs) :=
  let! read := with_runtime_lock (let! h := load_history in let! s := load_policy in
                                  hret (Ok (h, s))) in
  hret (match read with
        | Err e => Err ("the policy store is unreadable (" +:+ io_msg e +:+ "); refusing")
        | Ok (history, store) =>
            history ← match history with
                      | Ok (Some h) => Ok h
                      | Ok None => Err "there is no policy history on this machine."
                      | Err e => Err ("the policy history is unreadable (" +:+ io_msg e +:+ ").")
                      end;
            target ← match entry with
                     | Some id => find_history_entry history revision id
                     | None => find_history_effective history revision
                     end;
            '(current, baseline, over) ← rollback_current store;
            Ok (mkInputs target current baseline over)
        end).
End plan.

(** * Lemmas *)

Definition diff_fields (target current : PolicyValues) : list PolicyField :=
  List.filter (fun f => field_differs f target current) ALL.

Lemma elem_of_diff_fields target current f :
  f ∈ diff_fields target current <-> field_differs f target current = true.
Proof. unfold diff_fields. rewrite elem_of_bfilter. split; [tauto|]. auto using elem_of_ALL. Qed.

Lemma diff_overlay_fold target l o fs :
  foldl (fun '(overlay, fields) field => (overlay_set_from overlay field target, fields ++ [field]))
    (o, fs) l = (foldl (fun overlay field => overlay_set_from overlay field target) o l, fs ++ l).
Proof.
  revert o fs. induction l as [|f l IH]; intros o fs; cbn; [by rewrite app_nil_r|].
  rewrite IH. by rewrite <- app_assoc.
Qed.

Lemma diff_overlay_eq target current :
  diff_overlay target current =
    (foldl (fun overlay field => overlay_set_from overlay field target) overlay_default
       (diff_fields target current), diff_fields target current).
Proof. unfold diff_overlay. apply diff_overlay_fold. Qed.

Lemma diff_overlay_get target current f :
  overlay_get (diff_overlay target current).1 f =
    if field_differs f target current then Some (field_get target f) else None.
Proof.
  rewrite diff_overlay_eq. cbn [fst].
  assert (forall l o, overlay_get (foldl (fun overlay field =>
      overlay_set_from overlay field target) o l) f =
    if decide (f ∈ l) then Some (field_get target f) else overlay_get o f) as H.
  { induction l as [|g l IH]; intros o; cbn; [done|]. rewrite IH, overlay_get_set_from.
    destruct (decide (f = g)) as [->|Hn].
    - rewrite (decide_True (P := g ∈ g :: l)) by set_solver. by case_decide.
    - destruct (decide (f ∈ l)); [rewrite decide_True by set_solver|
        rewrite decide_False by set_solver]; done. }
  rewrite H, overlay_get_default. destruct (field_differs f target current) eqn:E.
  - by rewrite decide_True by (by apply elem_of_diff_fields).
  - rewrite decide_False; [done|]. rewrite elem_of_diff_fields. congruence.
Qed.

Lemma copy_fields_get target base l f :
  field_get (foldl (fun values field => copy_field values field target) base l) f =
    if decide (f ∈ l) then field_get target f else field_get base f.
Proof.
  revert base. induction l as [|g l IH]; intros base; cbn; [done|].
  rewrite IH, field_get_copy_field. destruct (decide (f = g)) as [->|Hn].
  - rewrite (decide_True (P := g ∈ g :: l)) by set_solver. by case_decide.
  - destruct (decide (f ∈ l)); [rewrite decide_True by set_solver|
      rewrite decide_False by set_solver]; done.
Qed.

(** A rollback plan lands the effective policy on its target, by whichever lane. *)
Lemma tighten_lands target baseline stored ov fs :
  plan_rollback target (fold baseline stored) baseline = Tighten ov fs ->
  restricts target (fold baseline stored) /\
  values_eqv (fold baseline (merge_overlay stored ov)) target.
Proof.
  unfold plan_rollback. destruct (diff_overlay target (fold baseline stored)) as [o l] eqn:E.
  destruct (is_empty l); [done|].
  destruct (restricts_or_equal target _) eqn:Er; [|done]. intros H. injection H as <- _.
  split; [by apply restricts_or_equal_spec|]. intros f.
  pose proof (diff_overlay_get target (fold baseline stored) f) as Hg. rewrite E in Hg.
  cbn [fst] in Hg. destruct (field_differs f target (fold baseline stored)) eqn:Ed.
  - rewrite (field_differs_ext f _ target _ target); [|by rewrite fold_get, merge_overlay_get, Hg|done].
    unfold field_differs. by rewrite field_relaxes_refl.
  - rewrite (field_differs_ext f _ (fold baseline stored) _ target);
      [|by rewrite !fold_get, merge_overlay_get, Hg|done].
    unfold field_differs in *. by rewrite orb_comm.
Qed.

Lemma relax_lands target baseline stored g :
  plan_rollback target (fold baseline stored) baseline = Relax g ->
  values_eqv (fold (g_values g) (retained_overlay stored (g_touched g))) target /\
  g_touched g <> [] /\
  (forall f, f ∉ g_touched g -> field_get (g_values g) f = field_get baseline f).
Proof.
  unfold plan_rollback. rewrite diff_overlay_eq. set (l := diff_fields _ _).
  destruct (is_empty l) eqn:El; [done|].
  destruct (restricts_or_equal target _) eqn:Er; [done|]. intros H. injection H as <-.
  cbn [g_values g_touched].
  assert (forall f, f ∈ l <-> field_differs f target (fold baseline stored) = true) as Hl
    by apply elem_of_diff_fields.
  split; [|split; [by destruct l|]].
  - intros f. destruct (decide (f ∈ l)) as [Hin|Hout].
    + rewrite (field_differs_ext f _ target _ target); [| |done].
      * unfold field_differs. by rewrite field_relaxes_refl.
      * by rewrite fold_get, retained_overlay_get, copy_fields_get, !decide_True.
    + rewrite (field_differs_ext f _ (fold baseline stored) _ target); [| |done].
      * rewrite Hl in Hout. apply not_true_iff_false in Hout.
        unfold field_differs in *. by rewrite orb_comm.
      * by rewrite !fold_get, retained_overlay_get, copy_fields_get, !decide_False.
  - intros f Hf. by rewrite copy_fields_get, decide_False.
Qed.

Lemma nochange_spec target current baseline :
  plan_rollback target current baseline = NoChange <-> values_eqv target current.
Proof.
  unfold plan_rollback. rewrite diff_overlay_eq. split.
  - destruct (diff_fields target current) eqn:E; cbn [is_empty].
    + intros _ f. apply not_true_iff_false. rewrite <- elem_of_diff_fields, E. set_solver.
    + by destruct (restricts_or_equal _ _).
  - intros H. destruct (diff_fields target current) as [|f l] eqn:E; [done|].
    assert (field_differs f target current = true) as Hf
      by (apply elem_of_diff_fields; rewrite E; set_solver).
    by rewrite H in Hf.
Qed.

(** * Properties *)

(** The rollback decision. Over any baseline and stored overlay, a rollback
    is a no-op exactly when the target equals the current policy; otherwise it
    takes the free lane exactly when the target restricts the current policy.
    Either lane's write lands the effective policy on the target, and a signed
    rollback passes the direction checks of the grant lane. *)
Theorem rollback_plan_lands_on_its_target (target baseline : PolicyValues)
    (stored : PolicyOverlay) (obs : StoreObservation) (revision : Z) :
  let current := fold baseline stored in
  ob_overlay obs = Some stored ->
  match plan_rollback target current baseline with
  | NoChange => values_eq target current = true
  | Tighten overlay _ =>
      restricts_or_equal target current = true /\
      values_eq (fold baseline (merge_overlay stored overlay)) target = true
  | Relax g =>
      restricts_or_equal target current = false /\
      values_eq (fold (g_values g) (retained_overlay stored (g_touched g))) target = true /\
      grant_document (g_values g) (g_touched g) (Some obs) baseline current revision =
        map_err Invalid (_ ← doc_validate (doc_from_values (g_values g) revision (g_touched g));
                         Ok (doc_from_values (g_values g) revision (g_touched g)))
  end.
Proof.
  intros current Hobs. destruct (plan_rollback target current baseline) as [|ov fs|g] eqn:E.
  - apply values_eq_spec. by apply nochange_spec in E.
  - apply tighten_lands in E as [H1 H2].
    by rewrite restricts_or_equal_spec, values_eq_spec.
  - assert (restricts_or_equal target current = false) as Hn.
    { unfold plan_rollback in E. destruct (diff_overlay _ _). destruct (is_empty _); [done|].
      by destruct (restricts_or_equal target current). }
    apply relax_lands in E as (H1 & H2 & H3). split; [done|]. split; [by apply values_eq_spec|].
    unfold grant_document. cbn [mbind option_bind]. rewrite Hobs. cbn [overlay_or_default default].
    rewrite (proj2 (existsb_false_iff _ ALL)), (proj2 (existsb_false_iff _ ALL)).
    + cbv zeta. by destruct (doc_validate _).
    + intros f _. destruct (field_in f (g_touched g)) eqn:Ef; [by rewrite andb_false_r|].
      rewrite andb_true_r. apply not_true_iff_false in Ef. rewrite field_in_true in Ef.
      rewrite (field_relaxes_ext f _ current _ current); [apply field_relaxes_refl| |done].
      unfold current. by rewrite !fold_get, retained_overlay_get, decide_False, H3.
    + intros f _. destruct (field_in f (g_touched g)) eqn:Ef; [done|]. cbn.
      apply not_true_iff_false in Ef. rewrite field_in_true in Ef.
      rewrite (field_differs_ext f _ baseline _ baseline); [|by apply H3|done].
      unfold field_differs. by rewrite field_relaxes_refl.
Qed.

Lemma rollback_plan_lands_on_its_target_witness :
  exists g,
    plan_rollback PolicyExample.grants (fold values_default overlay_default) values_default
      = Relax g /\
    values_eq (fold (g_values g) (retained_overlay overlay_default (g_touched g)))
      PolicyExample.grants = true.
Proof.
  pose proof (rollback_plan_lands_on_its_target PolicyExample.grants values_default
    overlay_default (mkObservation "b" (Some overlay_default)) 7 eq_refl) as H.
  destruct (plan_rollback PolicyExample.grants (fold values_default overlay_default) values_default)
    as [|ov fs|g] eqn:E; [vm_compute in E; discriminate E|vm_compute in E; discriminate E|].
  exists g. split; [reflexivity|exact (proj1 (proj2 H))].
Defined.

(** ** Rollbacks end to end *)

Section rollback.
Context `{CO : PolicyCodec, DG : Digest, OK : !PolicyCodecOk}.
Context `{ST : !Sized Trust, SP : !Sized PolicyStore, SH : !Sized PolicyHistory}.

Lemma rollback_inputs_Ok revision entry e w i w1 :
  rollback_inputs revision entry e w = (Ok i, w1) ->
  exists store doc, w_policy w = Stored store /\ baseline_doc store = Ok doc /\
    effective store = Ok (ri_current i) /\ ri_baseline i = doc_values doc /\
    ri_over i = observation store /\
    ri_current i = fold (ri_baseline i) (overlay_or_default (ps_overlay store)).
Proof.
  unfold rollback_inputs, with_runtime_lock, load_history, load_policy, asks, hbind, hret.
  destruct (e_lock e); [done|]. intros H. injection H as H _.
  inv_res. destruct a1 as [[current baseline] over]. inv_res. cbn [ri_current ri_baseline ri_over].
  unfold rollback_current in *.
  destruct (slot_load (w_policy w)) as [[store|]|] eqn:Es; try done.
  apply slot_load_Some in Es.
  match goal with H : match effective store with _ => _ end = Ok _ |- _ => rename H into Hc end.
  destruct (effective store) as [eff|] eqn:Ee; [|done].
  destruct (baseline_doc store) as [doc|] eqn:Ed; [|done]. injection Hc as <- <- <-.
  exists store, doc. repeat split; auto.
  apply effective_Ok in Ee as (d & Hd & -> & _). rewrite Ed in Hd. by injection Hd as <-.
Qed.

Lemma planned_over_Ok g over g' :
  planned_over g over = Ok g' -> g' = g /\ pp_store (pg_observed g) = Some over.
Proof. unfold planned_over. case_bool_decide; [|done]. intros H'. by injection H' as <-. Qed.

(** Two stores one observation covers read alike. *)
Lemma observation_reads s s' :
  observation s = observation s' ->
  baseline_doc s = baseline_doc s' /\ ps_overlay s = ps_overlay s'.
Proof.
  intros H. injection H as Hb Ho. split; [|done]. unfold baseline_doc. by rewrite Hb.
Qed.

(** A planned restriction, and a planned and committed grant, land on the target. *)
Lemma restrict_planned_lands revision entry surface e e2 w w1 w2 w2' i ov fs :
  rollback_inputs revision entry e w = (Ok i, w1) -> inputs_plan i = Tighten ov fs ->
  restrict_planned ov (ri_over i) surface e2 w2 = (Ok tt, w2') ->
  exists next eff, w_policy w2' = Stored next /\ effective next = Ok eff /\
    values_eq eff (ri_target i) = true.
Proof.
  intros (store & doc & Hs & Hd & He & Hb & Ho & Hcur)%rollback_inputs_Ok Hplan Hr.
  unfold inputs_plan in Hplan. rewrite Hcur in Hplan.
  apply tighten_lands in Hplan as [_ Hland].
  apply restrict_with_split in Hr as (wm & Hr & (_ & Hp & _)).
  apply locked_io_cases in Hr as [Hr|[[? Hr] _]]; [|done].
  apply restrict_locked_Ok in Hr as (prev & d & eff & _ & Hd' & He' & Hov & Hres & Hn).
  specialize (Hov _ eq_refl). rewrite Ho in Hov. apply observation_reads in Hov as [Hbd Hol].
  exists (restricted_store prev ov), (fold (doc_values d)
    (merge_overlay (overlay_or_default (ps_overlay prev)) ov)).
  split; [by rewrite Hp|]. split; [by apply (restricted_store_effective _ _ _ eff)|].
  rewrite Hd, Hd' in Hbd. injection Hbd as <-. rewrite <- Hol, <- Hb. by apply values_eq_spec.
Qed.

Lemma planned_grant_lands revision entry surface auth e e2 e3 w w1 w2 w2' w3 w3' i g p p' path :
  rollback_inputs revision entry e w = (Ok i, w1) -> inputs_plan i = Relax g ->
  values_ok (g_values g) ->
  prepare_grant (g_values g) (g_touched g) surface e2 w2 = (Ok p, w2') ->
  planned_over p (ri_over i) = Ok p' ->
  commit p' auth e3 w3 = (Ok path, w3') ->
  exists next eff, w_policy w3' = Stored next /\ effective next = Ok eff /\
    values_eq eff (ri_target i) = true.
Proof.
  intros (store & doc & Hs & Hd & He & Hb & Ho & Hcur)%rollback_inputs_Ok Hplan Hok Hprep Hpl Hcommit.
  unfold inputs_plan in Hplan. rewrite Hcur in Hplan. apply relax_lands in Hplan as (Hland & _ & _).
  apply planned_over_Ok in Hpl as [-> Hobs].
  destruct (commit_lands _ _ _ _ _ _ _ _ _ _ _ _ Hok Hprep Hcommit) as
    (st & base & eff & rev & key & sig & next & dc & Hst & _ & _ & _ & Hn & _ & _ & _ & _
     & Heff & _).
  apply prepare_grant_Ok in Hprep as (? & st' & ? & ? & ? & ? & ? & ? & _ & Hst' & _ & _ & _
    & _ & _ & ->).
  rewrite Hst in Hst'. injection Hst' as <-. cbn [pg_observed pp_store] in Hobs.
  destruct st as [st|]; [|done]. cbn in Hobs. injection Hobs as Hobs. rewrite Ho in Hobs.
  apply (observation_reads st store) in Hobs as [_ Hol].
  eexists _, _. split; [done|]. split; [done|]. cbn [mbind option_bind]. rewrite Hol.
  by apply values_eq_spec.
Qed.

Lemma nochange_reads revision entry e w w1 i :
  rollback_inputs revision entry e w = (Ok i, w1) -> inputs_plan i = NoChange ->
  values_eq (ri_current i) (ri_target i) = true.
Proof.
  intros (store & doc & Hs & Hd & He & Hb & Ho & Hcur)%rollback_inputs_Ok Hplan.
  unfold inputs_plan in Hplan. rewrite Hcur in Hplan.
  apply values_eq_spec. symmetry. rewrite Hcur. by apply nochange_spec in Hplan.
Qed.

(** A rollback that lands, lands on the policy it was asked for. Whatever
    happened between the read and the write, if the planned restriction or the
    planned and attested grant succeeds, the effective policy of the store it
    leaves equals the target the rollback read from the ring. *)
Theorem rollback_lands_end_to_end (revision : Z) (entry : option string) (surface : Surface)
    (auth : PresenceAttestation) (e e2 e3 : env) (w w1 w2 w2' w3 w3' : world)
    (i : RollbackInputs) :
  rollback_inputs revision entry e w = (Ok i, w1) ->
  match inputs_plan i with
  | NoChange => values_eq (ri_current i) (ri_target i) = true
  | Tighten overlay _ =>
      restrict_planned overlay (ri_over i) surface e2 w2 = (Ok tt, w2') ->
      exists next eff, w_policy w2' = Stored next /\ effective next = Ok eff /\
        values_eq eff (ri_target i) = true
  | Relax g =>
      forall p p' path, values_ok (g_values g) ->
        prepare_grant (g_values g) (g_touched g) surface e2 w2 = (Ok p, w2') ->
        planned_over p (ri_over i) = Ok p' ->
        commit p' auth e3 w3 = (Ok path, w3') ->
        exists next eff, w_policy w3' = Stored next /\ effective next = Ok eff /\
          values_eq eff (ri_target i) = true
  end.
Proof.
  intros Hi. destruct (inputs_plan i) as [|ov fs|g] eqn:Hplan.
  - by eapply nochange_reads.
  - by eapply restrict_planned_lands.
  - intros p p' path Hok Hprep Hpl Hcommit. by eapply planned_grant_lands.
Qed.
End rollback.

#[local] Existing Instances PolicyExample.digest PolicyExample.trust_sized
  PolicyExample.policy_sized PolicyExample.history_sized.

(** The granted host after one restriction, its key back in place. *)
Definition ex_restricted : world := Eval vm_compute in
  let w := (restrict_ PolicyExample.no_eval SurfExtension calm ex_granted).2 in
  mkWorld (w_trust w) (w_policy w) (w_history w) Absent (Ok (Some PolicyExample.key)) [] 3000.

Definition ok_or_default {E A} (d : A) (r : result E A) : A :=
  match r with Ok a => a | Err _ => d end.

Definition ex_inputs : RollbackInputs := Eval vm_compute in
  ok_or_default (mkInputs values_default values_default values_default (mkObservation "" None))
    (rollback_inputs 1 None calm ex_restricted).1.
Definition ex_rollback : Grant := Eval vm_compute in
  match inputs_plan ex_inputs with Relax g => g | _ => mkGrant values_default [] end.
Definition ex_rollback_grant : PreparedGrant := Eval vm_compute in
  prepared_or (prepare_grant (g_values ex_rollback) (g_touched ex_rollback) SurfCli calm
    ex_restricted).

Lemma rollback_lands_end_to_end_witness :
  exists w' next eff,
    commit ex_rollback_grant PolicyExample.tap calm ex_restricted = (Ok PathTty, w') /\
    w_policy w' = Stored next /\ effective next = Ok eff /\
    values_eq eff (ri_target ex_inputs) = true.
Proof.
  destruct (commit ex_rollback_grant PolicyExample.tap calm ex_restricted) as [r w'] eqn:E.
  assert (r = Ok PathTty) as ->.
  { transitivity (commit ex_rollback_grant PolicyExample.tap calm ex_restricted).1;
      [by rewrite E|vm_compute; reflexivity]. }
  assert (rollback_inputs 1 None calm ex_restricted = (Ok ex_inputs, ex_restricted)) as Hi
    by (vm_compute; reflexivity).
  pose proof (rollback_lands_end_to_end 1 None SurfCli PolicyExample.tap calm calm calm
    ex_restricted ex_restricted ex_restricted ex_restricted ex_restricted w' ex_inputs Hi) as H.
  assert (inputs_plan ex_inputs = Relax ex_rollback) as Hp by (vm_compute; reflexivity).
  rewrite Hp in H.
  destruct (H ex_rollback_grant ex_rollback_grant PathTty) as (next & eff & H1 & H2 & H3).
  - intros []; vm_compute; split; discriminate.
  - vm_compute. reflexivity.
  - vm_compute. reflexivity.
  - exact E.
  - exists w', next, eff. repeat split; assumption.
Defined.

(** Naming a past revision is exact. A rollback by revision alone reads a
    policy only if some readable ring entry held it at that revision and every
    readable entry at that revision held an equal policy; with no entry, or
    entries that differ, it refuses rather than picks. *)
Theorem revision_names_one_state `{CO : PolicyCodec} (history : PolicyHistory) (revision : Z) :
  let at_revision v := exists en, en ∈ entries history /\ entry_state en = Some (mkHeld revision v) in
  match find_history_effective history revision with
  | Ok v => at_revision v /\ forall v', at_revision v' -> values_eq v' v = true
  | Err _ => forall v, at_revision v -> exists v', at_revision v' /\ values_eq v' v = false
  end.
Proof.
  intros at_revision. unfold find_history_effective.
  set (ms := hp_effective <$> _).
  assert (forall v, v ∈ ms <-> at_revision v) as Hms.
  { intros v. unfold ms, at_revision. rewrite list_elem_of_fmap. split.
    - intros ([r v'] & -> & Hin). apply elem_of_bfilter in Hin as [Hin Hr].
      cbn in Hr. apply Z.eqb_eq in Hr as ->. apply list_elem_of_omap in Hin as (en & ? & ?). eauto.
    - intros (en & Hen & Hst). exists (mkHeld revision v). split; [done|].
      apply elem_of_bfilter. split; [|apply Z.eqb_refl]. apply list_elem_of_omap. eauto. }
  clearbody ms. destruct ms as [|first rest].
  - intros v Hv. apply Hms in Hv. set_solver.
  - destruct (forallb _ _) eqn:E.
    + rewrite forallb_true_iff in E. split; [apply Hms; set_solver|].
      intros v' Hv'. by apply E, Hms.
    + intros v Hv. destruct (values_eq first v) eqn:Ev.
      * apply not_true_iff_false in E. rewrite forallb_true_iff in E.
        destruct (decide (Forall (fun m => values_eq m first = true) (first :: rest))) as [Hall|Hex].
        -- destruct E. intros x Hx. rewrite Forall_forall in Hall. by apply Hall.
        -- apply not_Forall_Exists in Hex; [|solve_decision]. apply Exists_exists in Hex as (m & Hm & Hd).
           exists m. split; [by apply Hms|]. apply not_true_iff_false. intros Hmv. apply Hd.
           rewrite values_eq_spec in *. by etrans.
      * exists first. split; [apply Hms; set_solver|done].
Qed.
