(* ===== verification/Errors.v ===== *)
(** Errors: the typed errors of the tool-call path and the stable taxonomy they
    map into (src/src/packages/core/src/error.rs). *)
From S2P Require Import Prelude.
From stdpp Require Import base list sets strings pretty.

(** * Durations *)

(** A [std::time::Duration] as its nanoseconds. *)
Abbreviation Duration := Z (only parsing).

Definition NANOS_PER_SEC : Z := 1000000000.

(** The decimal digits of [n] padded to [width], trailing zeros dropped. *)
Fixpoint frac_digits (width : nat) (n : Z) : string :=
  match width with
  | O => ""
  | S w => let unit := (10 ^ Z.of_nat w)%Z in
           if (n =? 0)%Z then "" else pretty (n / unit)%Z +:+ frac_digits w (n mod unit)%Z
  end.

Definition decimal (int frac : Z) (width : nat) (suffix : string) : string :=
  pretty int +:+ (if (frac =? 0)%Z then "" else "." +:+ frac_digits width frac) +:+ suffix.

(** [impl Debug for Duration]: the largest unit that gives an integer part. *)
Definition duration_debug (d : Duration) : string :=
  if (NANOS_PER_SEC <=? d)%Z then decimal (d / NANOS_PER_SEC) (d mod NANOS_PER_SEC) 9 "s"
  else if (1000000 <=? d)%Z then decimal (d / 1000000) (d mod 1000000) 6 "ms"
  else if (1000 <=? d)%Z then decimal (d / 1000) (d mod 1000) 3 "µs"
  else decimal d 0 0 "ns".

(** * The errors *)

Inductive ToolDisabledReason :=
| GrantOff (grant : string)
| InDisabledList
| StoreUnreadable (err : string).

Definition reason_display (r : ToolDisabledReason) : string :=
  match r with
  | GrantOff grant => "the '" +:+ grant +:+ "' capability grant is off in the host policy"
  | InDisabledList => "it is in the host policy's disabled-tools list"
  | StoreUnreadable err =>
      "the host policy store could not be read (" +:+ err +:+ "); failing closed"
  end.

Inductive CallError :=
| NotConnected
| Write (e : io_error)
| Timeout (d : Duration)
| Disconnected
| UnknownTool (name : string)
| InvalidArgument (m : string)
| InvalidBrowserArg (m : string)
| AmbiguousBrowser (labels : string)
| BrowserNotFound (label live : string)
| Extension (m : string)
| ToolDisabled (tool : string) (reason : ToolDisabledReason)
| Killed
| KillStateUnknown (e : string)
| Internal (m : string).

(** The [#[error]] texts. *)
Definition call_error_display (e : CallError) : string :=
  match e with
  | NotConnected => "browser extension not connected - is the extension loaded and Chrome running?"
  | Write e => "write to extension failed: " +:+ io_msg e
  | Timeout d => "extension did not respond within " +:+ duration_debug d
  | Disconnected => "extension connection lost while waiting for response"
  | UnknownTool name => "unknown tool: " +:+ name
  | InvalidArgument m => "invalid tool arguments: " +:+ m
  | InvalidBrowserArg m =>
      "invalid `browser` argument " +:+ m +:+ ": must be a string label from list_browsers"
  | AmbiguousBrowser labels =>
      "multiple browsers are connected (" +:+ labels
      +:+ ") - pass the `browser` argument to pick one (see list_browsers)"
  | BrowserNotFound label live =>
      "no connected browser is labeled '" +:+ label +:+ "' (connected: " +:+ live
      +:+ ") - see list_browsers"
  | Extension m => m
  | ToolDisabled tool reason =>
      "tool '" +:+ tool +:+ "' is disabled by host policy: " +:+ reason_display reason
  | Killed =>
      "the bridge kill switch is engaged - all bridge activity is refused until it is explicitly released (`genkan unkill`)"
  | KillStateUnknown e =>
      "the bridge kill state could not be read (" +:+ e
      +:+ "); failing closed - see `genkan doctor` and docs/troubleshooting.md for recovery"
  | Internal m => "internal bridge error: " +:+ m
  end.

(** * The taxonomy *)

Inductive ErrorCategory := CatProtocol | CatConnection | CatPermission | CatUser | CatExecution | CatInternal.

Definition category_as_str (c : ErrorCategory) : string :=
  match c with
  | CatProtocol => "protocol"
  | CatConnection => "connection"
  | CatPermission => "permission"
  | CatUser => "user"
  | CatExecution => "execution"
  | CatInternal => "internal"
  end.

Record ErrorSpec := mkSpec {
  es_code : string; es_category : ErrorCategory; es_retryable : bool; es_message : string }.

#[export] Instance ErrorCategory_eq_dec : EqDecision ErrorCategory.
Proof. solve_decision. Defined.
#[export] Instance ErrorSpec_eq_dec : EqDecision ErrorSpec.
Proof. solve_decision. Defined.

Module specs.
Definition INVALID_ARGUMENT := mkSpec "INVALID_ARGUMENT" CatProtocol false
  "The tool arguments were missing or invalid.".
Definition NOT_CONNECTED := mkSpec "NOT_CONNECTED" CatConnection true
  "The browser extension is not connected (is it loaded and Chrome running?).".
Definition PROTOCOL_MISMATCH := mkSpec "PROTOCOL_MISMATCH" CatProtocol false
  "The extension and server protocol versions are incompatible; reload or upgrade the extension.".
Definition EXTENSION_NOT_READY := mkSpec "EXTENSION_NOT_READY" CatConnection true
  "The extension service worker is not ready yet; retry shortly.".
Definition SITE_NOT_ALLOWED := mkSpec "SITE_NOT_ALLOWED" CatPermission false
  "The target origin is not in the user's allowlist.".
Definition HOST_PERMISSION_MISSING := mkSpec "HOST_PERMISSION_MISSING" CatPermission false
  "The extension lacks host permission for the target origin.".
Definition TOOL_DISABLED := mkSpec "TOOL_DISABLED" CatPermission false
  "This tool is disabled by the host policy (a capability grant is off, the tool is in the disabled list, or the policy store is unreadable).".
Definition USER_DENIED := mkSpec "USER_DENIED" CatUser false "The user rejected the action.".
Definition CONFIRMATION_TIMEOUT := mkSpec "CONFIRMATION_TIMEOUT" CatUser true
  "The confirmation prompt timed out without a decision.".
Definition TAB_NOT_FOUND := mkSpec "TAB_NOT_FOUND" CatExecution false
  "The target tab could not be found.".
Definition UNSUPPORTED_PAGE := mkSpec "UNSUPPORTED_PAGE" CatExecution false
  "The tool cannot run on this page (e.g. chrome://, the Web Store, or a DevTools-attached tab).".
Definition EXECUTION_FAILED := mkSpec "EXECUTION_FAILED" CatExecution false
  "The extension executed the operation but it failed.".
Definition PAYLOAD_TOO_LARGE := mkSpec "PAYLOAD_TOO_LARGE" CatProtocol false
  "The message exceeded the native-messaging size limit.".
Definition RESPONSE_TIMEOUT := mkSpec "RESPONSE_TIMEOUT" CatConnection true
  "The extension did not respond in time.".
Definition CONNECTION_LOST := mkSpec "CONNECTION_LOST" CatConnection true
  "The bridge connection was lost while awaiting a response.".
Definition BROWSER_AMBIGUOUS := mkSpec "BROWSER_AMBIGUOUS" CatProtocol false
  "More than one browser is connected; pass the `browser` argument to pick one (see list_browsers).".
Definition BROWSER_NOT_FOUND := mkSpec "BROWSER_NOT_FOUND" CatConnection true
  "No connected browser has that label (see list_browsers).".
Definition BRIDGE_KILLED := mkSpec "BRIDGE_KILLED" CatPermission false
  "The bridge kill switch is engaged (or its state is unreadable); all bridge activity is refused until a trusted surface explicitly releases it.".
Definition INTERNAL_ERROR := mkSpec "INTERNAL_ERROR" CatInternal false
  "An unexpected internal error occurred.".
End specs.

Definition ERROR_SPECS : list ErrorSpec :=
  [specs.INVALID_ARGUMENT; specs.NOT_CONNECTED; specs.PROTOCOL_MISMATCH;
   specs.EXTENSION_NOT_READY; specs.SITE_NOT_ALLOWED; specs.HOST_PERMISSION_MISSING;
   specs.TOOL_DISABLED; specs.USER_DENIED; specs.CONFIRMATION_TIMEOUT; specs.TAB_NOT_FOUND;
   specs.UNSUPPORTED_PAGE; specs.EXECUTION_FAILED; specs.PAYLOAD_TOO_LARGE;
   specs.RESPONSE_TIMEOUT; specs.CONNECTION_LOST; specs.BROWSER_AMBIGUOUS;
   specs.BROWSER_NOT_FOUND; specs.BRIDGE_KILLED; specs.INTERNAL_ERROR].

(** [CallError::spec]. *)
Definition spec (e : CallError) : ErrorSpec :=
  match e with
  | NotConnected => specs.NOT_CONNECTED
  | Write _ => specs.CONNECTION_LOST
  | Timeout _ => specs.RESPONSE_TIMEOUT
  | Disconnected => specs.CONNECTION_LOST
  | UnknownTool _ => specs.INVALID_ARGUMENT
  | InvalidArgument _ => specs.INVALID_ARGUMENT
  | InvalidBrowserArg _ => specs.INVALID_ARGUMENT
  | AmbiguousBrowser _ => specs.BROWSER_AMBIGUOUS
  | BrowserNotFound _ _ => specs.BROWSER_NOT_FOUND
  | Extension _ => specs.EXECUTION_FAILED
  | ToolDisabled _ _ => specs.TOOL_DISABLED
  | Killed => specs.BRIDGE_KILLED
  | KillStateUnknown _ => specs.BRIDGE_KILLED
  | Internal _ => specs.INTERNAL_ERROR
  end.

Definition code (e : CallError) : string := es_code (spec e).

(** * Lemmas *)

Lemma ERROR_SPECS_codes : NoDup (es_code <$> ERROR_SPECS).
Proof. apply (bool_decide_unpack _). by vm_compute. Qed.

(** Every error maps into the published table, and its code names one entry. *)
Lemma spec_in_taxonomy e :
  spec e ∈ ERROR_SPECS /\
  forall s, s ∈ ERROR_SPECS -> es_code s = code e -> s = spec e.
Proof.
  split; [unfold ERROR_SPECS; destruct e; set_solver|].
  intros s Hs Hc. assert (spec e ∈ ERROR_SPECS) as He by (unfold ERROR_SPECS; destruct e; set_solver).
  apply list_elem_of_lookup in Hs as [i Hi]. apply list_elem_of_lookup in He as [j Hj].
  assert (i = j) as ->; [|congruence].
  apply (NoDup_lookup _ _ _ (code e) ERROR_SPECS_codes); rewrite list_lookup_fmap.
  - by rewrite Hi, <- Hc.
  - by rewrite Hj.
Qed.

Example duration_debug_ex :
  duration_debug (120 * NANOS_PER_SEC) = "120s" /\ duration_debug 4999500000 = "4.9995s" /\
  duration_debug 12000000 = "12ms" /\ duration_debug 2010 = "2.01µs" /\ duration_debug 7 = "7ns".
Proof. repeat split; vm_compute; reflexivity. Qed.
