(* ===== verification/ToolArgs.v ===== *)
(** ToolArgs: the typed arguments of every tool
    (src/src/packages/core/src/tools/args.rs): one record per argument struct,
    with the derived deserializer ([_de]) over the members of a JSON object and
    the derived serializer ([_ser]).

    [serde_json] is read at the level the structs state: unknown members are
    refused, a required member must be present, an optional one may be absent
    but not [null], and every present member must have its type. When several
    faults hold at once, which one serde names first is not modelled. *)
From S2P Require Import Prelude Json Policy.
From Stdlib Require Import Eqdep_dec.
From stdpp Require Import base list sets strings.

Abbreviation members := (list (string * json)) (only parsing).

(** * Integers both ends read alike *)

Definition i64_min : Z := - 2 ^ 63.
Definition i64_max : Z := 2 ^ 63 - 1.

Definition JS_SAFE_INT : Z := JS_SAFE_INT_MAX.

Definition in_js_range (z : Z) : bool := (- JS_SAFE_INT <=? z)%Z && (z <=? JS_SAFE_INT)%Z.

(** [JsInt(i64)]: its field is private, so a value is inside the range. *)
Record JsInt := mkJsInt { js_get : Z; js_in_range : in_js_range js_get = true }.

Inductive OutOfJsRange : Type := OutOfJsRange_ (value : Z).

Definition JsInt_try_from (value : Z) : result OutOfJsRange JsInt :=
  match bool_dec (in_js_range value) true with
  | left H => Ok (mkJsInt value H)
  | right _ => Err (OutOfJsRange_ value)
  end.

Lemma JsInt_eq (a b : JsInt) : js_get a = js_get b -> a = b.
Proof.
  destruct a as [x Hx], b as [y Hy]. cbn. intros ->. f_equal.
  apply (eq_proofs_unicity (fun p q => match bool_dec p q with left e => or_introl e
    | right n => or_intror n end)).
Qed.

Lemma JsInt_try_from_get (a : JsInt) : JsInt_try_from (js_get a) = Ok a.
Proof.
  unfold JsInt_try_from. destruct (bool_dec _ _) as [H|H].
  - f_equal. by apply JsInt_eq.
  - destruct H. apply js_in_range.
Qed.

(** [JsUint(u64)]. *)
Definition JsUint_MAX : Z := JS_SAFE_INT_MAX.
Inductive OutOfJsUintRange : Type := OutOfJsUintRange_ (value : Z).
Definition JsUint_try_from (value : Z) : result OutOfJsUintRange Z :=
  if (value <=? JsUint_MAX)%Z then Ok value else Err (OutOfJsUintRange_ value).

(** * Fields *)

Inductive args_error :=
| UnknownField (name : string)
| MissingField (name : string)
| InvalidType (name : string)
| OutOfRange (name : string).

(** A type that can sit in an argument field: how serde reads and writes it. *)
Class Arg (T : Type) := {
  take_arg : string -> json -> result args_error T;
  put_arg : T -> json;
  take_put : forall name t, take_arg name (put_arg t) = Ok t
}.

Definition str_take (name : string) (j : json) : result args_error string :=
  match j with JStr s => Ok s | _ => Err (InvalidType name) end.
Definition bool_take (name : string) (j : json) : result args_error bool :=
  match j with JBool b => Ok b | _ => Err (InvalidType name) end.
(** [JsInt::deserialize]: an [i64], then the bound. *)
Definition JsInt_take (name : string) (j : json) : result args_error JsInt :=
  match j with
  | JInt n => if (i64_min <=? n)%Z && (n <=? i64_max)%Z
              then map_err (fun _ => OutOfRange name) (JsInt_try_from n)
              else Err (InvalidType name)
  | _ => Err (InvalidType name)
  end.

Lemma JsInt_take_put name (a : JsInt) : JsInt_take name (JInt (js_get a)) = Ok a.
Proof.
  unfold JsInt_take. pose proof (js_in_range a) as H. unfold in_js_range in H.
  apply andb_true_iff in H as [H1 H2]. rewrite Z.leb_le in H1, H2.
  assert ((i64_min <=? js_get a)%Z && (js_get a <=? i64_max)%Z = true) as ->.
  { apply andb_true_iff. rewrite !Z.leb_le.
    unfold i64_min, i64_max, JS_SAFE_INT, JS_SAFE_INT_MAX in *. lia. }
  by rewrite JsInt_try_from_get.
Qed.

#[export] Instance string_arg : Arg string :=
  {| take_arg := str_take; put_arg := JStr; take_put _ _ := eq_refl |}.
#[export] Instance bool_arg : Arg bool :=
  {| take_arg := bool_take; put_arg := JBool; take_put _ _ := eq_refl |}.
#[export] Instance JsInt_arg : Arg JsInt :=
  {| take_arg := JsInt_take; put_arg a := JInt (js_get a); take_put := JsInt_take_put |}.

(** [#[serde(deny_unknown_fields)]]. *)
Definition deny_unknown_fields (names : list string) (m : members) : result args_error unit :=
  match List.find (fun kv => negb (str_mem kv.1 names)) m with
  | Some (k, _) => Err (UnknownField k)
  | None => Ok tt
  end.

Definition required `{Arg T} (name : string) (m : members) : result args_error T :=
  match member name m with
  | Some j => take_arg name j
  | None => Err (MissingField name)
  end.

(** [default] with [deserialize_with = "present_and_typed"]: absent is [None],
    present must have the type. *)
Definition present_and_typed `{Arg T} (name : string) (m : members) :
    result args_error (option T) :=
  match member name m with
  | Some j => Some <$> take_arg name j
  | None => Ok None
  end.

(** [skip_serializing_if = "Option::is_none"]. *)
Definition opt_member `{Arg T} (name : string) (o : option T) : members :=
  match o with Some t => [(name, put_arg t)] | None => [] end.

(** * The argument structs *)

Record NoArgs := mkNoArgs { }.

Definition NoArgs_de (m : members) : result args_error NoArgs :=
  _ ← deny_unknown_fields [] m;
  Ok (mkNoArgs).

Definition NoArgs_ser (a : NoArgs) : members := [].

Record TabTargetArgs := mkTabTargetArgs {
  tt_tab_id : JsInt }.

Definition TabTargetArgs_de (m : members) : result args_error TabTargetArgs :=
  _ ← deny_unknown_fields ["tabId"] m;
  tab_id_ ← required "tabId" m;
  Ok (mkTabTargetArgs tab_id_).

Definition TabTargetArgs_ser (a : TabTargetArgs) : members :=
  [("tabId", put_arg a.(tt_tab_id))].

Record TabOpenArgs := mkTabOpenArgs {
  to_url : string }.

Definition TabOpenArgs_de (m : members) : result args_error TabOpenArgs :=
  _ ← deny_unknown_fields ["url"] m;
  url_ ← required "url" m;
  Ok (mkTabOpenArgs url_).

Definition TabOpenArgs_ser (a : TabOpenArgs) : members :=
  [("url", put_arg a.(to_url))].

Record ElementTargetArgs := mkElementTargetArgs {
  et_ref : option string;
  et_selector : option string }.

Definition ElementTargetArgs_de (m : members) : result args_error ElementTargetArgs :=
  _ ← deny_unknown_fields ["ref"; "selector"] m;
  ref_ ← present_and_typed "ref" m;
  selector_ ← present_and_typed "selector" m;
  Ok (mkElementTargetArgs ref_ selector_).

Definition ElementTargetArgs_ser (a : ElementTargetArgs) : members :=
  opt_member "ref" a.(et_ref) ++
  opt_member "selector" a.(et_selector).

Record PageFillArgs := mkPageFillArgs {
  pf_ref : option string;
  pf_selector : option string;
  pf_value : string }.

Definition PageFillArgs_de (m : members) : result args_error PageFillArgs :=
  _ ← deny_unknown_fields ["ref"; "selector"; "value"] m;
  ref_ ← present_and_typed "ref" m;
  selector_ ← present_and_typed "selector" m;
  value_ ← required "value" m;
  Ok (mkPageFillArgs ref_ selector_ value_).

Definition PageFillArgs_ser (a : PageFillArgs) : members :=
  opt_member "ref" a.(pf_ref) ++
  opt_member "selector" a.(pf_selector) ++
  [("value", put_arg a.(pf_value))].

Record PageScrollArgs := mkPageScrollArgs {
  sc_direction : option string;
  sc_pixels : option JsInt }.

Definition PageScrollArgs_de (m : members) : result args_error PageScrollArgs :=
  _ ← deny_unknown_fields ["direction"; "pixels"] m;
  direction_ ← present_and_typed "direction" m;
  pixels_ ← present_and_typed "pixels" m;
  Ok (mkPageScrollArgs direction_ pixels_).

Definition PageScrollArgs_ser (a : PageScrollArgs) : members :=
  opt_member "direction" a.(sc_direction) ++
  opt_member "pixels" a.(sc_pixels).

Record PageWaitForArgs := mkPageWaitForArgs {
  wf_selector : option string;
  wf_text : option string;
  wf_nav : option bool;
  wf_timeout_ms : option JsInt }.

Definition PageWaitForArgs_de (m : members) : result args_error PageWaitForArgs :=
  _ ← deny_unknown_fields ["selector"; "text"; "nav"; "timeoutMs"] m;
  selector_ ← present_and_typed "selector" m;
  text_ ← present_and_typed "text" m;
  nav_ ← present_and_typed "nav" m;
  timeout_ms_ ← present_and_typed "timeoutMs" m;
  Ok (mkPageWaitForArgs selector_ text_ nav_ timeout_ms_).

Definition PageWaitForArgs_ser (a : PageWaitForArgs) : members :=
  opt_member "selector" a.(wf_selector) ++
  opt_member "text" a.(wf_text) ++
  opt_member "nav" a.(wf_nav) ++
  opt_member "timeoutMs" a.(wf_timeout_ms).

Record PageEvalArgs := mkPageEvalArgs {
  ev_code : string }.

Definition PageEvalArgs_de (m : members) : result args_error PageEvalArgs :=
  _ ← deny_unknown_fields ["code"] m;
  code_ ← required "code" m;
  Ok (mkPageEvalArgs code_).

Definition PageEvalArgs_ser (a : PageEvalArgs) : members :=
  [("code", put_arg a.(ev_code))].

Record PageSnapshotPreciseArgs := mkPageSnapshotPreciseArgs {
  sp_frame_id : option string }.

Definition PageSnapshotPreciseArgs_de (m : members) : result args_error PageSnapshotPreciseArgs :=
  _ ← deny_unknown_fields ["frameId"] m;
  frame_id_ ← present_and_typed "frameId" m;
  Ok (mkPageSnapshotPreciseArgs frame_id_).

Definition PageSnapshotPreciseArgs_ser (a : PageSnapshotPreciseArgs) : members :=
  opt_member "frameId" a.(sp_frame_id).

Record CookieGetArgs := mkCookieGetArgs {
  ck_url : option string;
  ck_domain : option string;
  ck_name : option string }.

Definition CookieGetArgs_de (m : members) : result args_error CookieGetArgs :=
  _ ← deny_unknown_fields ["url"; "domain"; "name"] m;
  url_ ← present_and_typed "url" m;
  domain_ ← present_and_typed "domain" m;
  name_ ← present_and_typed "name" m;
  Ok (mkCookieGetArgs url_ domain_ name_).

Definition CookieGetArgs_ser (a : CookieGetArgs) : members :=
  opt_member "url" a.(ck_url) ++
  opt_member "domain" a.(ck_domain) ++
  opt_member "name" a.(ck_name).

Record StorageGetArgs := mkStorageGetArgs {
  sg_type : option string;
  sg_key : option string }.

Definition StorageGetArgs_de (m : members) : result args_error StorageGetArgs :=
  _ ← deny_unknown_fields ["type"; "key"] m;
  type_ ← present_and_typed "type" m;
  key_ ← present_and_typed "key" m;
  Ok (mkStorageGetArgs type_ key_).

Definition StorageGetArgs_ser (a : StorageGetArgs) : members :=
  opt_member "type" a.(sg_type) ++
  opt_member "key" a.(sg_key).

Record PageNavigateArgs := mkPageNavigateArgs {
  nv_url : string }.

Definition PageNavigateArgs_de (m : members) : result args_error PageNavigateArgs :=
  _ ← deny_unknown_fields ["url"] m;
  url_ ← required "url" m;
  Ok (mkPageNavigateArgs url_).

Definition PageNavigateArgs_ser (a : PageNavigateArgs) : members :=
  [("url", put_arg a.(nv_url))].

Record PagePressArgs := mkPagePressArgs {
  pr_keys : string }.

Definition PagePressArgs_de (m : members) : result args_error PagePressArgs :=
  _ ← deny_unknown_fields ["keys"] m;
  keys_ ← required "keys" m;
  Ok (mkPagePressArgs keys_).

Definition PagePressArgs_ser (a : PagePressArgs) : members :=
  [("keys", put_arg a.(pr_keys))].

Record PageSelectArgs := mkPageSelectArgs {
  se_ref : option string;
  se_selector : option string;
  se_value : string }.

Definition PageSelectArgs_de (m : members) : result args_error PageSelectArgs :=
  _ ← deny_unknown_fields ["ref"; "selector"; "value"] m;
  ref_ ← present_and_typed "ref" m;
  selector_ ← present_and_typed "selector" m;
  value_ ← required "value" m;
  Ok (mkPageSelectArgs ref_ selector_ value_).

Definition PageSelectArgs_ser (a : PageSelectArgs) : members :=
  opt_member "ref" a.(se_ref) ++
  opt_member "selector" a.(se_selector) ++
  [("value", put_arg a.(se_value))].

Record ConsoleGetArgs := mkConsoleGetArgs {
  cg_limit : option JsInt }.

Definition ConsoleGetArgs_de (m : members) : result args_error ConsoleGetArgs :=
  _ ← deny_unknown_fields ["limit"] m;
  limit_ ← present_and_typed "limit" m;
  Ok (mkConsoleGetArgs limit_).

Definition ConsoleGetArgs_ser (a : ConsoleGetArgs) : members :=
  opt_member "limit" a.(cg_limit).

Record PageHandleDialogArgs := mkPageHandleDialogArgs {
  hd_action : string;
  hd_prompt_text : option string }.

Definition PageHandleDialogArgs_de (m : members) : result args_error PageHandleDialogArgs :=
  _ ← deny_unknown_fields ["action"; "promptText"] m;
  action_ ← required "action" m;
  prompt_text_ ← present_and_typed "promptText" m;
  Ok (mkPageHandleDialogArgs action_ prompt_text_).

Definition PageHandleDialogArgs_ser (a : PageHandleDialogArgs) : members :=
  [("action", put_arg a.(hd_action))] ++
  opt_member "promptText" a.(hd_prompt_text).

Record PageUploadArgs := mkPageUploadArgs {
  up_selector : string;
  up_path : string }.

Definition PageUploadArgs_de (m : members) : result args_error PageUploadArgs :=
  _ ← deny_unknown_fields ["selector"; "path"] m;
  selector_ ← required "selector" m;
  path_ ← required "path" m;
  Ok (mkPageUploadArgs selector_ path_).

Definition PageUploadArgs_ser (a : PageUploadArgs) : members :=
  [("selector", put_arg a.(up_selector))] ++
  [("path", put_arg a.(up_path))].

(** * Structs as one interface *)

(** What the catalogue relies on of every argument struct: the derived pair
    round-trips, and only declared members are accepted. *)
Class ArgStruct (T : Type) := {
  arg_names : list string;
  de : members -> result args_error T;
  ser : T -> members;
  de_ser : forall t, de (ser t) = Ok t;
  de_declared : forall m t, de m = Ok t -> m.*1 ⊆ arg_names
}.

Lemma deny_unknown_Ok names m u :
  deny_unknown_fields names m = Ok u -> m.*1 ⊆ names.
Proof.
  unfold deny_unknown_fields. destruct (List.find _ m) as [[k v]|] eqn:E; [done|].
  intros _ k Hk. apply list_elem_of_fmap in Hk as ([k' v] & -> & Hin).
  rewrite find_None_iff in E. specialize (E _ Hin). apply negb_false_iff in E.
  by apply str_mem_true.
Qed.

(** Each struct's round trip is a case split on its options. *)
Ltac solve_de_ser :=
  let t := fresh "t" in intros t; destruct t;
  repeat match goal with o : option _ |- _ => destruct o end;
  cbv [ser de]; cbv -[JsInt_take js_get]; rewrite ?JsInt_take_put; reflexivity.

Ltac solve_declared :=
  let m := fresh "m" in let t := fresh "t" in let H := fresh "H" in
  intros m t H; apply bind_Ok in H as (? & H & _); by apply deny_unknown_Ok in H.

#[export] Instance NoArgs_struct : ArgStruct NoArgs.
Proof. refine {| arg_names := []; de := NoArgs_de; ser := NoArgs_ser |}; [solve_de_ser|solve_declared]. Defined.
#[export] Instance TabTargetArgs_struct : ArgStruct TabTargetArgs.
Proof. refine {| arg_names := ["tabId"]; de := TabTargetArgs_de; ser := TabTargetArgs_ser |}; [solve_de_ser|solve_declared]. Defined.
#[export] Instance TabOpenArgs_struct : ArgStruct TabOpenArgs.
Proof. refine {| arg_names := ["url"]; de := TabOpenArgs_de; ser := TabOpenArgs_ser |}; [solve_de_ser|solve_declared]. Defined.
#[export] Instance ElementTargetArgs_struct : ArgStruct ElementTargetArgs.
Proof. refine {| arg_names := ["ref"; "selector"]; de := ElementTargetArgs_de; ser := ElementTargetArgs_ser |}; [solve_de_ser|solve_declared]. Defined.
#[export] Instance PageFillArgs_struct : ArgStruct PageFillArgs.
Proof. refine {| arg_names := ["ref"; "selector"; "value"]; de := PageFillArgs_de; ser := PageFillArgs_ser |}; [solve_de_ser|solve_declared]. Defined.
#[export] Instance PageScrollArgs_struct : ArgStruct PageScrollArgs.
Proof. refine {| arg_names := ["direction"; "pixels"]; de := PageScrollArgs_de; ser := PageScrollArgs_ser |}; [solve_de_ser|solve_declared]. Defined.
#[export] Instance PageWaitForArgs_struct : ArgStruct PageWaitForArgs.
Proof. refine {| arg_names := ["selector"; "text"; "nav"; "timeoutMs"]; de := PageWaitForArgs_de; ser := PageWaitForArgs_ser |}; [solve_de_ser|solve_declared]. Defined.
#[export] Instance PageEvalArgs_struct : ArgStruct PageEvalArgs.
Proof. refine {| arg_names := ["code"]; de := PageEvalArgs_de; ser := PageEvalArgs_ser |}; [solve_de_ser|solve_declared]. Defined.
#[export] Instance PageSnapshotPreciseArgs_struct : ArgStruct PageSnapshotPreciseArgs.
Proof. refine {| arg_names := ["frameId"]; de := PageSnapshotPreciseArgs_de; ser := PageSnapshotPreciseArgs_ser |}; [solve_de_ser|solve_declared]. Defined.
#[export] Instance CookieGetArgs_struct : ArgStruct CookieGetArgs.
Proof. refine {| arg_names := ["url"; "domain"; "name"]; de := CookieGetArgs_de; ser := CookieGetArgs_ser |}; [solve_de_ser|solve_declared]. Defined.
#[export] Instance StorageGetArgs_struct : ArgStruct StorageGetArgs.
Proof. refine {| arg_names := ["type"; "key"]; de := StorageGetArgs_de; ser := StorageGetArgs_ser |}; [solve_de_ser|solve_declared]. Defined.
#[export] Instance PageNavigateArgs_struct : ArgStruct PageNavigateArgs.
Proof. refine {| arg_names := ["url"]; de := PageNavigateArgs_de; ser := PageNavigateArgs_ser |}; [solve_de_ser|solve_declared]. Defined.
#[export] Instance PagePressArgs_struct : ArgStruct PagePressArgs.
Proof. refine {| arg_names := ["keys"]; de := PagePressArgs_de; ser := PagePressArgs_ser |}; [solve_de_ser|solve_declared]. Defined.
#[export] Instance PageSelectArgs_struct : ArgStruct PageSelectArgs.
Proof. refine {| arg_names := ["ref"; "selector"; "value"]; de := PageSelectArgs_de; ser := PageSelectArgs_ser |}; [solve_de_ser|solve_declared]. Defined.
#[export] Instance ConsoleGetArgs_struct : ArgStruct ConsoleGetArgs.
Proof. refine {| arg_names := ["limit"]; de := ConsoleGetArgs_de; ser := ConsoleGetArgs_ser |}; [solve_de_ser|solve_declared]. Defined.
#[export] Instance PageHandleDialogArgs_struct : ArgStruct PageHandleDialogArgs.
Proof. refine {| arg_names := ["action"; "promptText"]; de := PageHandleDialogArgs_de; ser := PageHandleDialogArgs_ser |}; [solve_de_ser|solve_declared]. Defined.
#[export] Instance PageUploadArgs_struct : ArgStruct PageUploadArgs.
Proof. refine {| arg_names := ["selector"; "path"]; de := PageUploadArgs_de; ser := PageUploadArgs_ser |}; [solve_de_ser|solve_declared]. Defined.
