(* ===== verification/Catalogue.v ===== *)
(** Catalogue: the tool catalogue and what reads it
    (src/src/packages/core/src/tools/catalogue.rs, tools/capabilities.rs,
    [ToolCall::parse] of tools/mod.rs, [Grant] of policy/gating.rs). The
    [catalogue!] macro is written out: one constructor of [ToolId], one of
    [BridgeCommand] and one [Tool] record per row. The JSON Schemas the rows
    derive (schemars) are not modelled; the fields they declare are the
    [arg_names] of each argument struct. *)
From S2P Require Import Prelude Json Policy Errors ToolArgs.
From stdpp Require Import base list sets strings.

(** * Records *)

Inductive Risk := Low | Medium | High | Critical.
Definition risk_as_str (r : Risk) : string :=
  match r with Low => "low" | Medium => "medium" | High => "high" | Critical => "critical" end.

Inductive Scope := ScopeTab | ScopePage.
Definition scope_as_str (s : Scope) : string :=
  match s with ScopeTab => "tab" | ScopePage => "page" end.

Inductive Permission := Tabs | Scripting | Debugger | Cookies.
Definition permission_as_str (p : Permission) : string :=
  match p with
  | Tabs => "tabs" | Scripting => "scripting" | Debugger => "debugger" | Cookies => "cookies"
  end.

Inductive Confirmation := ConfirmNone | ConfirmWarn | ConfirmHighRisk | ConfirmEveryCall.
Definition confirmation_as_str (c : Confirmation) : string :=
  match c with
  | ConfirmNone => "none" | ConfirmWarn => "warn"
  | ConfirmHighRisk => "high-risk" | ConfirmEveryCall => "every-call"
  end.

Inductive ResultKind := ResultText | ResultImage.

Inductive CapabilityId :=
| CapTabControl | CapPageSnapshot | CapPageSnapshotPrecise | CapPageInteract | CapPageRead
| CapPageEval | CapCookieRead | CapStorageRead | CapConsoleRead | CapDialogControl
| CapFileUpload.

(** Where a tool runs; the one server-local handler is [list_browsers]. *)
Inductive Dispatch :=
| ServerLocal
| Bridge (scope : Scope) (capability : CapabilityId) (result : ResultKind).

(** A capability grant: the four fields whose permissive pole grants. *)
Inductive Grant := G_CdpMode | G_FileUpload | G_HandleDialog | G_PageEval.

Definition grant_field (g : Grant) : PolicyField :=
  match g with
  | G_CdpMode => CdpMode
  | G_FileUpload => FileUploadEnabled
  | G_HandleDialog => HandleDialogEnabled
  | G_PageEval => PageEvalEnabled
  end.

Definition grant_is_on (g : Grant) (p : PolicyValues) : bool :=
  match g with
  | G_CdpMode => p.(pv_cdp_mode)
  | G_FileUpload => p.(pv_file_upload_enabled)
  | G_HandleDialog => p.(pv_handle_dialog_enabled)
  | G_PageEval => p.(pv_page_eval_enabled)
  end.

Record Tool := mkTool {
  t_name : string;
  t_risk : Risk;
  t_permission : Permission;
  t_confirmation : Confirmation;
  t_grants : list Grant;
  t_dispatch : Dispatch;
  t_description : string
}.

#[export] Instance Permission_eq_dec : EqDecision Permission.
Proof. solve_decision. Defined.
#[export] Instance CapabilityId_eq_dec : EqDecision CapabilityId.
Proof. solve_decision. Defined.
#[export] Instance Grant_eq_dec : EqDecision Grant.
Proof. solve_decision. Defined.

(** [Tool::scope_name], [Tool::capability]. *)
Definition scope_name (t : Tool) : string :=
  match t.(t_dispatch) with ServerLocal => "server" | Bridge s _ _ => scope_as_str s end.
Definition tool_capability (t : Tool) : option CapabilityId :=
  match t.(t_dispatch) with ServerLocal => None | Bridge _ c _ => Some c end.

(** [Tool::required_grants]: the debugger master grant, then the tool's own. *)
Definition required_grants (t : Tool) : list Grant :=
  (if bool_decide (t.(t_permission) = Debugger) then [G_CdpMode] else []) ++ t.(t_grants).

(** * The rows *)

Definition row_list_browsers : Tool :=
  mkTool "list_browsers" Low Tabs ConfirmNone [] ServerLocal
    ("List the browsers currently connected to the bridge. Returns each browser's label and its open-tab count. When more than one browser is connected, every other tool needs a `browser` argument set to one of these labels.").
Definition row_tab_list : Tool :=
  mkTool "tab_list" Low Tabs ConfirmNone [] (Bridge ScopeTab CapTabControl ResultText)
    ("List all open browser tabs. Returns id, title, url, and which is active.").
Definition row_tab_focus : Tool :=
  mkTool "tab_focus" Low Tabs ConfirmNone [] (Bridge ScopeTab CapTabControl ResultText)
    ("Bring a tab to the foreground (make it active).").
Definition row_tab_open : Tool :=
  mkTool "tab_open" Medium Tabs ConfirmNone [] (Bridge ScopeTab CapTabControl ResultText)
    ("Open a URL in a new tab. The host domain must be in the user's allowlist.").
Definition row_tab_close : Tool :=
  mkTool "tab_close" High Tabs ConfirmEveryCall [] (Bridge ScopeTab CapTabControl ResultText)
    ("Close an http(s) tab after the user approves it in the extension's confirmation window.").
Definition row_page_snapshot : Tool :=
  mkTool "page_snapshot" Low Scripting ConfirmNone [] (Bridge ScopePage CapPageSnapshot ResultText)
    ("Capture the active tab's interactive elements as an accessibility-style tree. Each node has a stable `ref` (e.g. " +:+ dquote +:+ "e3" +:+ dquote +:+ "), a role, an accessible name, and a fallback CSS selector. Use the `ref` in page_click/page_fill when possible.").
Definition row_page_click : Tool :=
  mkTool "page_click" High Scripting ConfirmHighRisk [] (Bridge ScopePage CapPageInteract ResultText)
    ("Click an element on the active tab. Prefer passing `ref` (from page_snapshot); fall back to `selector`. Clicking a submit button or a link triggers a user-confirmation prompt.").
Definition row_page_fill : Tool :=
  mkTool "page_fill" High Scripting ConfirmNone [] (Bridge ScopePage CapPageInteract ResultText)
    ("Type a value into a form field on the active tab. Prefer `ref`; fall back to `selector`. Password fields are masked in logs/history.").
Definition row_page_text : Tool :=
  mkTool "page_text" Medium Scripting ConfirmNone [] (Bridge ScopePage CapPageRead ResultText)
    ("Return the visible text content of the active tab (sensitive fields masked).").
Definition row_page_screenshot : Tool :=
  mkTool "page_screenshot" Medium Tabs ConfirmNone [] (Bridge ScopePage CapTabControl ResultImage)
    ("Capture the visible viewport of the active tab as a PNG (base64).").
Definition row_page_scroll : Tool :=
  mkTool "page_scroll" Low Scripting ConfirmNone [] (Bridge ScopePage CapPageInteract ResultText)
    ("Scroll the active tab. Pass `direction` (up|down|top|bottom) or `pixels`.").
Definition row_page_wait_for : Tool :=
  mkTool "page_wait_for" Low Scripting ConfirmNone [] (Bridge ScopePage CapPageInteract ResultText)
    ("Wait until a condition is met on the active tab, or until timeout. One of: `selector` exists, `text` appears, or `nav` waits for page load completion.").
Definition row_page_eval : Tool :=
  mkTool "page_eval" Critical Scripting ConfirmEveryCall [G_PageEval] (Bridge ScopePage CapPageEval ResultText)
    ("HIGH RISK - execute arbitrary JavaScript on the active tab. EVERY call shows the user the full code in a confirmation prompt and waits for approval; there is no silent same-origin grace window for eval, so every page_eval re-prompts. The return value is masked (JWT / long hex / long numbers / token-like strings) by default. This is the most powerful tool: prefer page_click / page_fill / page_snapshot whenever possible, and only use page_eval when those cannot achieve the goal (custom events, reading framework state, SPA routing, canvas/WebGL, etc.). Code runs in the page's global scope, wrapped as `async`, so you can `await` and `return` a value. Async results are awaited. Errors are returned as {name, message}.").
Definition row_page_snapshot_precise : Tool :=
  mkTool "page_snapshot_precise" Medium Debugger ConfirmWarn [] (Bridge ScopePage CapPageSnapshotPrecise ResultText)
    ("Like page_snapshot, but uses Chrome's debugger (CDP Accessibility.getFullAXTree) to capture the AUTHORITATIVE accessibility tree - accurate for shadow DOM and complex ARIA where the content-script approximation misses. The user is warned first (a brief on-page notice); Chrome then shows a 'Started debugging this browser' banner on all tabs for ~1 second while the snapshot is taken, then it disappears. Cannot run on chrome:// / web store pages, or tabs with DevTools open. Refs use a 'p' prefix (p1, p2...) and work with page_click / page_fill unchanged. Use this when page_snapshot misses elements or roles look wrong.").
Definition row_cookie_get : Tool :=
  mkTool "cookie_get" High Cookies ConfirmNone [] (Bridge ScopeTab CapCookieRead ResultText)
    ("Read cookies for the active tab (or a url/domain you specify). Includes httpOnly cookies (the main reason to use this over document.cookie). Scoped to hosts in the user's allowlist - unauthorized hosts silently return nothing. Read-only; there is no cookie_set (writing httpOnly cookies is a session-fixation risk). Values are masked (JWT / long hex / long numbers) before being returned. If you omit url/domain/name, cookies for the active tab's URL are returned.").
Definition row_storage_get : Tool :=
  mkTool "storage_get" High Scripting ConfirmNone [] (Bridge ScopePage CapStorageRead ResultText)
    ("Read the page's localStorage or sessionStorage (where frameworks like Auth0 / NextAuth / Firebase store tokens). Must run on the active tab; same-origin only (cross-origin iframes are not readable). Pass `key` to fetch one entry, or omit it to dump all entries (capped at 500). Values are ALWAYS masked (JWT / long hex / long numbers) - this masking is not toggleable. Read-only.").
Definition row_page_navigate : Tool :=
  mkTool "page_navigate" Medium Tabs ConfirmNone [] (Bridge ScopeTab CapTabControl ResultText)
    ("Navigate the active tab to an http(s) URL. The host domain must be in the user's allowlist. This loads in the CURRENT tab (use tab_open to open a new tab instead).").
Definition row_page_back : Tool :=
  mkTool "page_back" Low Tabs ConfirmNone [] (Bridge ScopeTab CapTabControl ResultText)
    ("Navigate the active tab back one step in its session history (the browser Back button). Errors if there is nothing to go back to.").
Definition row_page_forward : Tool :=
  mkTool "page_forward" Low Tabs ConfirmNone [] (Bridge ScopeTab CapTabControl ResultText)
    ("Navigate the active tab forward one step in its session history (the browser Forward button). Errors if there is nothing to go forward to.").
Definition row_page_reload : Tool :=
  mkTool "page_reload" Low Tabs ConfirmNone [] (Bridge ScopeTab CapTabControl ResultText)
    ("Reload the active tab (the browser Reload button).").
Definition row_page_press : Tool :=
  mkTool "page_press" High Scripting ConfirmEveryCall [] (Bridge ScopePage CapPageInteract ResultText)
    ("Send a keyboard key or combo to the active tab, e.g. " +:+ dquote +:+ "Enter" +:+ dquote +:+ ", " +:+ dquote +:+ "Escape" +:+ dquote +:+ ", or " +:+ dquote +:+ "Control+A" +:+ dquote +:+ ". Dispatched as a synthetic keyboard event to the focused element, so page JavaScript handlers see it; the event is not trusted, so it may not trigger a native default action such as submitting a form (use page_click on the submit control for that). Every press shows a user-confirmation prompt (in the extension's own window), because a keypress can submit or trigger an action.").
Definition row_page_hover : Tool :=
  mkTool "page_hover" Low Scripting ConfirmNone [] (Bridge ScopePage CapPageInteract ResultText)
    ("Move the pointer over an element on the active tab (dispatches pointerover / mouseover / mouseenter / mousemove), revealing hover menus or tooltips. Prefer `ref` (from page_snapshot); fall back to `selector`.").
Definition row_page_select : Tool :=
  mkTool "page_select" High Scripting ConfirmEveryCall [] (Bridge ScopePage CapPageInteract ResultText)
    ("Choose an option in a <select> drop-down on the active tab. Prefer `ref` (from page_snapshot); fall back to `selector`. `value` matches an option by its value attribute, or by its visible text when no value matches. Fires input and change events so frameworks react. Shows a user-confirmation prompt (in the extension's own window), because it changes form state.").
Definition row_console_get : Tool :=
  mkTool "console_get" Medium Debugger ConfirmWarn [] (Bridge ScopePage CapConsoleRead ResultText)
    ("Return recent console output from the active tab, captured via Chrome's debugger. Includes browser-logged entries (network, security, and deprecation warnings, which the debugger replays on attach) plus any console.* calls and uncaught errors during the short capture window; console.* output produced before this call is generally not available. Values are masked (JWT / long hex / long numbers / token-like strings), because console lines can carry tokens. Attaching briefly shows the 'Started debugging this browser' banner. `limit` caps the number of entries returned (default 100).").
Definition row_page_handle_dialog : Tool :=
  mkTool "page_handle_dialog" High Debugger ConfirmWarn [G_HandleDialog] (Bridge ScopePage CapDialogControl ResultText)
    ("Respond to a JavaScript dialog (alert / confirm / prompt) on the active tab: `action` is " +:+ dquote +:+ "accept" +:+ dquote +:+ " or " +:+ dquote +:+ "dismiss" +:+ dquote +:+ ", with optional `promptText` for a prompt(). Uses Chrome's debugger (CDP Page.handleJavaScriptDialog). HIGH RISK, because accepting a dialog can confirm a destructive action, so this tool is OFF by default and must be enabled in the extension settings. A dialog blocks the page, so the confirmation cannot be shown in-page; the settings opt-in is the gate. Chrome needs the debugger attached when the dialog opens for it to be handleable (turn on CDP mode), otherwise the dialog may not be capturable.").
Definition row_page_upload : Tool :=
  mkTool "page_upload" Critical Debugger ConfirmEveryCall [G_FileUpload] (Bridge ScopePage CapFileUpload ResultText)
    ("CRITICAL RISK - attach a LOCAL file from the user's disk to a file input (<input type=file>) on the active tab so the page can upload it. `selector` targets the file input; `path` is the absolute local file path. This can exfiltrate private local files to a web page, so it is OFF by default (enable in the extension settings) and EVERY call shows a user-confirmation prompt (in the extension's own window) displaying the exact file path before it proceeds. Uses Chrome's debugger (CDP DOM.setFileInputFiles); the 'Started debugging this browser' banner flashes while it runs. Do not use this unless the user explicitly asked to upload that specific file.").

(** * The macro's enums and tables *)

Inductive ToolId :=
| ListBrowsers
| TabList
| TabFocus
| TabOpen
| TabClose
| PageSnapshot
| PageClick
| PageFill
| PageText
| PageScreenshot
| PageScroll
| PageWaitFor
| PageEval
| PageSnapshotPrecise
| CookieGet
| StorageGet
| PageNavigate
| PageBack
| PageForward
| PageReload
| PagePress
| PageHover
| PageSelect
| ConsoleGet
| PageHandleDialog
| PageUpload.

Inductive BridgeCommand :=
| CmdListBrowsers (a : NoArgs)
| CmdTabList (a : NoArgs)
| CmdTabFocus (a : TabTargetArgs)
| CmdTabOpen (a : TabOpenArgs)
| CmdTabClose (a : TabTargetArgs)
| CmdPageSnapshot (a : NoArgs)
| CmdPageClick (a : ElementTargetArgs)
| CmdPageFill (a : PageFillArgs)
| CmdPageText (a : NoArgs)
| CmdPageScreenshot (a : NoArgs)
| CmdPageScroll (a : PageScrollArgs)
| CmdPageWaitFor (a : PageWaitForArgs)
| CmdPageEval (a : PageEvalArgs)
| CmdPageSnapshotPrecise (a : PageSnapshotPreciseArgs)
| CmdCookieGet (a : CookieGetArgs)
| CmdStorageGet (a : StorageGetArgs)
| CmdPageNavigate (a : PageNavigateArgs)
| CmdPageBack (a : NoArgs)
| CmdPageForward (a : NoArgs)
| CmdPageReload (a : NoArgs)
| CmdPagePress (a : PagePressArgs)
| CmdPageHover (a : ElementTargetArgs)
| CmdPageSelect (a : PageSelectArgs)
| CmdConsoleGet (a : ConsoleGetArgs)
| CmdPageHandleDialog (a : PageHandleDialogArgs)
| CmdPageUpload (a : PageUploadArgs).

#[export] Instance ToolId_eq_dec : EqDecision ToolId.
Proof. solve_decision. Defined.

(** Every tool, in catalogue order. *)
Definition TOOL_IDS : list ToolId :=
  [ListBrowsers;
   TabList;
   TabFocus;
   TabOpen;
   TabClose;
   PageSnapshot;
   PageClick;
   PageFill;
   PageText;
   PageScreenshot;
   PageScroll;
   PageWaitFor;
   PageEval;
   PageSnapshotPrecise;
   CookieGet;
   StorageGet;
   PageNavigate;
   PageBack;
   PageForward;
   PageReload;
   PagePress;
   PageHover;
   PageSelect;
   ConsoleGet;
   PageHandleDialog;
   PageUpload].

(** [ToolId::tool]. *)
Definition tool (id : ToolId) : Tool :=
  match id with
  | ListBrowsers => row_list_browsers
  | TabList => row_tab_list
  | TabFocus => row_tab_focus
  | TabOpen => row_tab_open
  | TabClose => row_tab_close
  | PageSnapshot => row_page_snapshot
  | PageClick => row_page_click
  | PageFill => row_page_fill
  | PageText => row_page_text
  | PageScreenshot => row_page_screenshot
  | PageScroll => row_page_scroll
  | PageWaitFor => row_page_wait_for
  | PageEval => row_page_eval
  | PageSnapshotPrecise => row_page_snapshot_precise
  | CookieGet => row_cookie_get
  | StorageGet => row_storage_get
  | PageNavigate => row_page_navigate
  | PageBack => row_page_back
  | PageForward => row_page_forward
  | PageReload => row_page_reload
  | PagePress => row_page_press
  | PageHover => row_page_hover
  | PageSelect => row_page_select
  | ConsoleGet => row_console_get
  | PageHandleDialog => row_page_handle_dialog
  | PageUpload => row_page_upload
  end.

(** [ToolId::from_name]: the rows in order, by name. *)
Definition from_name (name : string) : option ToolId :=
  if String.eqb name "list_browsers" then Some ListBrowsers else
  if String.eqb name "tab_list" then Some TabList else
  if String.eqb name "tab_focus" then Some TabFocus else
  if String.eqb name "tab_open" then Some TabOpen else
  if String.eqb name "tab_close" then Some TabClose else
  if String.eqb name "page_snapshot" then Some PageSnapshot else
  if String.eqb name "page_click" then Some PageClick else
  if String.eqb name "page_fill" then Some PageFill else
  if String.eqb name "page_text" then Some PageText else
  if String.eqb name "page_screenshot" then Some PageScreenshot else
  if String.eqb name "page_scroll" then Some PageScroll else
  if String.eqb name "page_wait_for" then Some PageWaitFor else
  if String.eqb name "page_eval" then Some PageEval else
  if String.eqb name "page_snapshot_precise" then Some PageSnapshotPrecise else
  if String.eqb name "cookie_get" then Some CookieGet else
  if String.eqb name "storage_get" then Some StorageGet else
  if String.eqb name "page_navigate" then Some PageNavigate else
  if String.eqb name "page_back" then Some PageBack else
  if String.eqb name "page_forward" then Some PageForward else
  if String.eqb name "page_reload" then Some PageReload else
  if String.eqb name "page_press" then Some PagePress else
  if String.eqb name "page_hover" then Some PageHover else
  if String.eqb name "page_select" then Some PageSelect else
  if String.eqb name "console_get" then Some ConsoleGet else
  if String.eqb name "page_handle_dialog" then Some PageHandleDialog else
  if String.eqb name "page_upload" then Some PageUpload else
  None.

(** [ToolId::parse_args]. *)
Definition parse_args (id : ToolId) (m : members) : result args_error BridgeCommand :=
  match id with
  | ListBrowsers => CmdListBrowsers <$> de m
  | TabList => CmdTabList <$> de m
  | TabFocus => CmdTabFocus <$> de m
  | TabOpen => CmdTabOpen <$> de m
  | TabClose => CmdTabClose <$> de m
  | PageSnapshot => CmdPageSnapshot <$> de m
  | PageClick => CmdPageClick <$> de m
  | PageFill => CmdPageFill <$> de m
  | PageText => CmdPageText <$> de m
  | PageScreenshot => CmdPageScreenshot <$> de m
  | PageScroll => CmdPageScroll <$> de m
  | PageWaitFor => CmdPageWaitFor <$> de m
  | PageEval => CmdPageEval <$> de m
  | PageSnapshotPrecise => CmdPageSnapshotPrecise <$> de m
  | CookieGet => CmdCookieGet <$> de m
  | StorageGet => CmdStorageGet <$> de m
  | PageNavigate => CmdPageNavigate <$> de m
  | PageBack => CmdPageBack <$> de m
  | PageForward => CmdPageForward <$> de m
  | PageReload => CmdPageReload <$> de m
  | PagePress => CmdPagePress <$> de m
  | PageHover => CmdPageHover <$> de m
  | PageSelect => CmdPageSelect <$> de m
  | ConsoleGet => CmdConsoleGet <$> de m
  | PageHandleDialog => CmdPageHandleDialog <$> de m
  | PageUpload => CmdPageUpload <$> de m
  end.

(** [BridgeCommand::id], and its [args] on the wire. *)
Definition command_id (c : BridgeCommand) : ToolId :=
  match c with
  | CmdListBrowsers _ => ListBrowsers
  | CmdTabList _ => TabList
  | CmdTabFocus _ => TabFocus
  | CmdTabOpen _ => TabOpen
  | CmdTabClose _ => TabClose
  | CmdPageSnapshot _ => PageSnapshot
  | CmdPageClick _ => PageClick
  | CmdPageFill _ => PageFill
  | CmdPageText _ => PageText
  | CmdPageScreenshot _ => PageScreenshot
  | CmdPageScroll _ => PageScroll
  | CmdPageWaitFor _ => PageWaitFor
  | CmdPageEval _ => PageEval
  | CmdPageSnapshotPrecise _ => PageSnapshotPrecise
  | CmdCookieGet _ => CookieGet
  | CmdStorageGet _ => StorageGet
  | CmdPageNavigate _ => PageNavigate
  | CmdPageBack _ => PageBack
  | CmdPageForward _ => PageForward
  | CmdPageReload _ => PageReload
  | CmdPagePress _ => PagePress
  | CmdPageHover _ => PageHover
  | CmdPageSelect _ => PageSelect
  | CmdConsoleGet _ => ConsoleGet
  | CmdPageHandleDialog _ => PageHandleDialog
  | CmdPageUpload _ => PageUpload
  end.

Definition command_args (c : BridgeCommand) : members :=
  match c with
  | CmdListBrowsers a => ser a
  | CmdTabList a => ser a
  | CmdTabFocus a => ser a
  | CmdTabOpen a => ser a
  | CmdTabClose a => ser a
  | CmdPageSnapshot a => ser a
  | CmdPageClick a => ser a
  | CmdPageFill a => ser a
  | CmdPageText a => ser a
  | CmdPageScreenshot a => ser a
  | CmdPageScroll a => ser a
  | CmdPageWaitFor a => ser a
  | CmdPageEval a => ser a
  | CmdPageSnapshotPrecise a => ser a
  | CmdCookieGet a => ser a
  | CmdStorageGet a => ser a
  | CmdPageNavigate a => ser a
  | CmdPageBack a => ser a
  | CmdPageForward a => ser a
  | CmdPageReload a => ser a
  | CmdPagePress a => ser a
  | CmdPageHover a => ser a
  | CmdPageSelect a => ser a
  | CmdConsoleGet a => ser a
  | CmdPageHandleDialog a => ser a
  | CmdPageUpload a => ser a
  end.

(** The declared argument names of a tool. *)
Definition tool_arg_names (id : ToolId) : list string :=
  match id with
  | ListBrowsers => arg_names (T := NoArgs)
  | TabList => arg_names (T := NoArgs)
  | TabFocus => arg_names (T := TabTargetArgs)
  | TabOpen => arg_names (T := TabOpenArgs)
  | TabClose => arg_names (T := TabTargetArgs)
  | PageSnapshot => arg_names (T := NoArgs)
  | PageClick => arg_names (T := ElementTargetArgs)
  | PageFill => arg_names (T := PageFillArgs)
  | PageText => arg_names (T := NoArgs)
  | PageScreenshot => arg_names (T := NoArgs)
  | PageScroll => arg_names (T := PageScrollArgs)
  | PageWaitFor => arg_names (T := PageWaitForArgs)
  | PageEval => arg_names (T := PageEvalArgs)
  | PageSnapshotPrecise => arg_names (T := PageSnapshotPreciseArgs)
  | CookieGet => arg_names (T := CookieGetArgs)
  | StorageGet => arg_names (T := StorageGetArgs)
  | PageNavigate => arg_names (T := PageNavigateArgs)
  | PageBack => arg_names (T := NoArgs)
  | PageForward => arg_names (T := NoArgs)
  | PageReload => arg_names (T := NoArgs)
  | PagePress => arg_names (T := PagePressArgs)
  | PageHover => arg_names (T := ElementTargetArgs)
  | PageSelect => arg_names (T := PageSelectArgs)
  | ConsoleGet => arg_names (T := ConsoleGetArgs)
  | PageHandleDialog => arg_names (T := PageHandleDialogArgs)
  | PageUpload => arg_names (T := PageUploadArgs)
  end.

Definition all_tools : list Tool := tool <$> TOOL_IDS.

(** * Capabilities (tools/capabilities.rs) *)

Record Capability := mkCapability {
  cap_id : CapabilityId; cap_description : string; cap_permissions : list Permission }.

Definition capability_as_str (c : CapabilityId) : string :=
  match c with
  | CapTabControl => "tab_control"
  | CapPageSnapshot => "page_snapshot"
  | CapPageSnapshotPrecise => "page_snapshot_precise"
  | CapPageInteract => "page_interact"
  | CapPageRead => "page_read"
  | CapPageEval => "page_eval"
  | CapCookieRead => "cookie_read"
  | CapStorageRead => "storage_read"
  | CapConsoleRead => "console_read"
  | CapDialogControl => "dialog_control"
  | CapFileUpload => "file_upload"
  end.

(** [CapabilityId::capability]. *)
Definition capability (c : CapabilityId) : Capability :=
  match c with
  | CapTabControl => mkCapability c
      "Enumerate, focus, open, close browser tabs, navigate history (back/forward/reload), navigate the active tab to a URL, and capture the visible viewport. Opening, navigating, and history moves are gated by the allowlist; closing a tab is confirmed in-page."
      [Tabs]
  | CapPageSnapshot => mkCapability c
      "Capture the active tab's interactive elements as an accessibility-style tree via the content script (fast approximation, ~90% coverage)."
      [Scripting]
  | CapPageSnapshotPrecise => mkCapability c
      "Capture the authoritative accessibility tree via Chrome's debugger (CDP Accessibility.getFullAXTree). Requires the debugger permission and briefly shows the 'Started debugging this browser' banner."
      [Debugger]
  | CapPageInteract => mkCapability c
      "Drive the page: click elements, fill form fields, press keys, hover, choose <select> options, scroll, and wait for conditions. High-risk clicks, key presses, and selections trigger an on-page confirmation Toast."
      [Scripting]
  | CapPageRead => mkCapability c
      "Read the active tab's visible text content (sensitive fields masked)."
      [Scripting]
  | CapPageEval => mkCapability c
      "Execute arbitrary JavaScript on the active tab. Highest-risk capability: every call requires explicit user approval and return values are masked by default."
      [Scripting]
  | CapCookieRead => mkCapability c
      "Read cookies (including httpOnly) for allowlisted hosts. Read-only; values are masked. Backed by chrome.cookies in the service worker."
      [Cookies]
  | CapStorageRead => mkCapability c
      "Read the active tab's localStorage / sessionStorage (same-origin only). Read-only; values are always masked."
      [Scripting]
  | CapConsoleRead => mkCapability c
      "Read recent console output from the active tab via Chrome's debugger. Values are masked. Briefly shows the 'Started debugging this browser' banner."
      [Debugger]
  | CapDialogControl => mkCapability c
      "Accept or dismiss JavaScript dialogs (alert / confirm / prompt) via Chrome's debugger. High-risk and OFF by default (must be enabled in settings)."
      [Debugger]
  | CapFileUpload => mkCapability c
      "Attach a local file to a page file input via Chrome's debugger (DOM.setFileInputFiles). Critical-risk local-file egress vector: OFF by default and confirmed on every call."
      [Debugger]
  end.

(** [CapabilityId::tools]. *)
Definition capability_tools (c : CapabilityId) : list Tool :=
  List.filter (fun t => bool_decide (tool_capability t = Some c)) all_tools.

(** Every capability some tool is negotiated under, in order of first appearance. *)
Definition capabilities : list Capability :=
  capability <$> foldl (fun seen t => match tool_capability t with
                                      | Some id => if bool_decide (id ∈ seen) then seen else seen ++ [id]
                                      | None => seen
                                      end) [] all_tools.

(** * The boundary parse (tools/mod.rs) *)

(** How serde_json prints a value and words a refusal. *)
Class SerdeText := { json_text : json -> string; args_error_text : args_error -> string }.

Record ToolCall := mkToolCall { tc_command : BridgeCommand; tc_browser : option string }.

Definition call_tool (c : ToolCall) : Tool := tool (command_id c.(tc_command)).

(** [Map::remove]: the member's value and the map without it. *)
Definition map_remove (key : string) (m : members) : option json * members :=
  (member key m, List.filter (fun kv => negb (String.eqb kv.1 key)) m).

(** [ToolCall::parse]. *)
Definition ToolCall_parse `{SerdeText} (name : string) (args : members) :
    result CallError ToolCall :=
  id ← ok_or (from_name name) (UnknownTool name);
  '(browser, args) ←
    match t_dispatch (tool id) with
    | ServerLocal => Ok (None, args)
    | Bridge _ _ _ =>
        let '(removed, args) := map_remove "browser" args in
        match removed with
        | None | Some JNull => Ok (None, args)
        | Some (JStr label) => Ok (Some label, args)
        | Some other => Err (InvalidBrowserArg (json_text other))
        end
    end;
  command ← map_err (fun e => InvalidArgument (name +:+ ": " +:+ args_error_text e))
              (parse_args id args);
  Ok (mkToolCall command browser).

(** * Lemmas *)

Lemma elem_of_TOOL_IDS id : id ∈ TOOL_IDS.
Proof. unfold TOOL_IDS. destruct id; set_solver. Qed.

Lemma from_name_tool id : from_name (t_name (tool id)) = Some id.
Proof. by destruct id. Qed.

Lemma from_name_Some name id : from_name name = Some id -> name = t_name (tool id).
Proof.
  unfold from_name. repeat (case_match eqn:E; [intros H; injection H as <-; by apply String.eqb_eq in E|clear E]).
  done.
Qed.

Lemma parse_args_id id m c : parse_args id m = Ok c -> command_id c = id.
Proof. destruct id; cbn [parse_args]; intros H; inv_res; subst; done. Qed.

Lemma parse_args_declared id m c : parse_args id m = Ok c -> m.*1 ⊆ tool_arg_names id.
Proof. destruct id; cbn [parse_args]; intros H; inv_res; by eapply de_declared. Qed.

Lemma parse_args_ser c : parse_args (command_id c) (command_args c) = Ok c.
Proof. destruct c; cbn [parse_args command_id command_args]; by rewrite de_ser. Qed.

Lemma arg_names_no_browser id : "browser" ∉ tool_arg_names id.
Proof. apply (bool_decide_unpack _). destruct id; vm_compute; exact I. Qed.

Lemma command_args_no_browser c : "browser" ∉ (command_args c).*1.
Proof.
  intros H. apply (arg_names_no_browser (command_id c)).
  eapply parse_args_declared; [apply parse_args_ser|done].
Qed.

Lemma map_remove_absent key m : key ∉ m.*1 -> map_remove key m = (None, m).
Proof.
  intros H. unfold map_remove. f_equal; [by apply member_None|].
  apply filter_all_true. intros [k v] Hkv. cbn. apply negb_true_iff, String.eqb_neq.
  intros ->. apply H. by apply (list_elem_of_fmap_2 fst) in Hkv.
Qed.

Lemma map_remove_head key v m : key ∉ m.*1 -> map_remove key ((key, v) :: m) = (Some v, m).
Proof.
  intros H. pose proof (map_remove_absent key m H) as Hm.
  unfold map_remove in *. injection Hm as _ Hf. unfold member. cbn.
  rewrite String.eqb_refl. cbn. by rewrite Hf.
Qed.

Lemma capability_id id : cap_id (capability id) = id.
Proof. by destruct id. Qed.

Lemma advertised_capability c : c ∈ capabilities -> exists id, c = capability id.
Proof.
  unfold capabilities. generalize (foldl (fun seen t => match tool_capability t with
    | Some id => if bool_decide (id ∈ seen) then seen else seen ++ [id] | None => seen end)
    [] all_tools). intros l Hc. apply list_elem_of_fmap in Hc as (id & -> & _). by exists id.
Qed.

Lemma capability_tools_nonempty id : capability_tools id <> [].
Proof. destruct id; vm_compute; discriminate. Qed.

Lemma capability_permissions_exact id p :
  p ∈ cap_permissions (capability id) <-> p ∈ (t_permission <$> capability_tools id).
Proof. apply (bool_decide_unpack _). destruct id, p; vm_compute; exact I. Qed.

Lemma list_elem_of_fmap_flip {A B} (f : A -> B) (l : list A) y :
  y ∈ (f <$> l) <-> exists x, x ∈ l /\ f x = y.
Proof. rewrite list_elem_of_fmap. naive_solver. Qed.

Lemma all_capabilities_advertised c : c ∈ (cap_id <$> capabilities).
Proof. apply (bool_decide_unpack _). destruct c; vm_compute; exact I. Qed.

Lemma elem_of_all_tools id : tool id ∈ all_tools.
Proof. unfold all_tools. generalize (elem_of_TOOL_IDS id). generalize TOOL_IDS.
  intros l Hl. by apply list_elem_of_fmap_2. Qed.

Lemma elem_of_capability_tools id c :
  tool id ∈ capability_tools c <-> tool_capability (tool id) = Some c.
Proof.
  unfold capability_tools. rewrite elem_of_bfilter, bool_decide_eq_true.
  pose proof (elem_of_all_tools id). tauto.
Qed.

Lemma debugger_needs_cdp t : t_permission t = Debugger -> G_CdpMode ∈ required_grants t.
Proof. intros Hd. unfold required_grants. rewrite bool_decide_true by done. set_solver. Qed.

Lemma bridge_capability t :
  t_dispatch t <> ServerLocal -> exists c, tool_capability t = Some c.
Proof. unfold tool_capability. destruct (t_dispatch t); [done|]. eauto. Qed.

(** * Properties *)

(** The harness form of a command is the command. Writing any bridge
    command as a tool call (its own name, its serialized arguments, and a
    [browser] label where it is addressed) and parsing it at the boundary
    yields exactly that command and that label, so what the extension receives
    is what the harness asked for. *)
Theorem tool_call_roundtrip `{SerdeText} (c : BridgeCommand) (browser : option string) :
  (browser <> None -> t_dispatch (tool (command_id c)) <> ServerLocal) ->
  ToolCall_parse (t_name (tool (command_id c)))
    (match browser with Some b => [("browser", JStr b)] | None => [] end ++ command_args c) =
  Ok (mkToolCall c browser).
Proof.
  intros Hb. unfold ToolCall_parse. rewrite from_name_tool. cbn [ok_or mbind result_mbind].
  pose proof (command_args_no_browser c) as Hn.
  destruct (t_dispatch (tool (command_id c))) eqn:Ed.
  - destruct browser; [by destruct Hb|]. cbn [mbind result_mbind app].
    by rewrite parse_args_ser.
  - destruct browser as [b|]; cbn [app].
    + rewrite map_remove_head by done. cbn [mbind result_mbind]. by rewrite parse_args_ser.
    + rewrite map_remove_absent by done. cbn [mbind result_mbind]. by rewrite parse_args_ser.
Qed.

Module CatalogueExample.
#[export] Instance text : SerdeText :=
  {| json_text _ := "value"; args_error_text _ := "bad arguments" |}.
End CatalogueExample.

Lemma tool_call_roundtrip_witness :
  let click := CmdPageClick (mkElementTargetArgs (Some "e3") None) in
  @ToolCall_parse CatalogueExample.text "page_click" [("browser", JStr "brave"); ("ref", JStr "e3")] =
    Ok (mkToolCall click (Some "brave")).
Proof.
  exact (@tool_call_roundtrip CatalogueExample.text
    (CmdPageClick (mkElementTargetArgs (Some "e3") None)) (Some "brave")
    ltac:(intros _; discriminate)).
Defined.

(** The boundary parse fails closed. A call is accepted only under the name
    of a catalogue tool, for a command of that tool, with no member outside the
    tool's declared arguments but the routing label of a bridge tool, which must
    be a string (or null, read as unaddressed). *)
Theorem tool_call_parse_is_strict `{SerdeText} (name : string) (args : members) (call : ToolCall) :
  ToolCall_parse name args = Ok call ->
  from_name name = Some (command_id (tc_command call)) /\
  (forall k v, (k, v) ∈ args ->
     k ∈ tool_arg_names (command_id (tc_command call)) \/
     (k = "browser" /\ t_dispatch (call_tool call) <> ServerLocal)) /\
  (forall b, tc_browser call = Some b -> member "browser" args = Some (JStr b)).
Proof.
  unfold ToolCall_parse. intros Hp. inv_res. destruct a0 as [browser rest]. inv_res.
  cbn [tc_command tc_browser].
  match goal with H : parse_args ?i _ = Ok ?c |- _ => rename H into Ha; rename i into id; rename c into cmd end.
  pose proof (parse_args_id _ _ _ Ha) as Hid. apply parse_args_declared in Ha.
  unfold call_tool. cbn [tc_command]. rewrite Hid. split; [done|].
  destruct (t_dispatch (tool id)) eqn:Ed.
  - inv_res. simplify_eq. split; [|done]. intros k v Hk. left. apply Ha.
    by apply (list_elem_of_fmap_2 fst) in Hk.
  - unfold map_remove in *. split.
    + intros k v Hk. destruct (String.eqb_spec k "browser") as [->|Hne]; [by right|left].
      apply Ha. destruct (member "browser" args) as [[]|]; simplify_eq;
        (apply list_elem_of_fmap; exists (k, v); split; [done|]; apply elem_of_bfilter);
        (split; [done|]; cbn; by apply negb_true_iff, String.eqb_neq).
    + intros b. destruct (member "browser" args) as [[]|]; naive_solver.
Qed.

Lemma tool_call_parse_is_strict_witness :
  from_name "tab_focus" = Some TabFocus /\
  member "browser" [("tabId", JInt 7); ("browser", JStr "brave")] = Some (JStr "brave").
Proof.
  destruct (@ToolCall_parse CatalogueExample.text "tab_focus"
    [("tabId", JInt 7); ("browser", JStr "brave")]) as [call|e] eqn:E;
    [|vm_compute in E; discriminate E].
  destruct (@tool_call_parse_is_strict CatalogueExample.text "tab_focus"
    [("tabId", JInt 7); ("browser", JStr "brave")] call E) as (H1 & _ & H3).
  split; [reflexivity|]. apply H3. vm_compute in E. injection E as <-. reflexivity.
Defined.

(** Negotiation asks for exactly what is needed. Every advertised capability
    covers at least one tool and declares exactly the Chrome permissions its
    tools need; every bridge tool is covered by exactly one advertised
    capability; and a tool that needs the debugger always requires the
    [cdpMode] master grant. *)
Theorem capabilities_cover_the_catalogue :
  (forall c, c ∈ capabilities ->
     capability_tools (cap_id c) <> [] /\
     forall p, p ∈ cap_permissions c <->
       exists t, t ∈ capability_tools (cap_id c) /\ t_permission t = p) /\
  (forall id, t_dispatch (tool id) <> ServerLocal ->
     exists! c, c ∈ (cap_id <$> capabilities) /\ tool id ∈ capability_tools c) /\
  (forall id, t_permission (tool id) = Debugger -> G_CdpMode ∈ required_grants (tool id)).
Proof.
  split; [|split].
  - intros c Hc. apply advertised_capability in Hc as [id ->].
    rewrite capability_id. split; [apply capability_tools_nonempty|].
    intros p. etransitivity; [apply capability_permissions_exact|apply list_elem_of_fmap_flip].
  - intros id Hid. apply bridge_capability in Hid as [c Ed]. exists c. split; [split|].
    + apply all_capabilities_advertised.
    + by apply elem_of_capability_tools.
    + intros c' [_ Hc']. apply elem_of_capability_tools in Hc'. rewrite Ed in Hc'.
      injection Hc' as Hc'. exact Hc'.
  - intros id Hd. by apply debugger_needs_cdp.
Qed.
