(* ===== verification/Gating.v ===== *)
(** Gating: the two gates every tool call passes before any bridge traffic:
    the kill switch (src/src/packages/core/src/kill.rs) and the host policy gate
    (policy/gating.rs), with the operations that engage and release the switch. *)
From S2P Require Import Prelude RuntimeRecord Policy Identity Trust PolicyRecord PrefixCodec World Messages PolicyStore Errors ToolArgs Catalogue.
From stdpp Require Import base list sets strings.

(** * The policy gate *)

Definition find_off_grant (p : PolicyValues) (l : list Grant) : option Grant :=
  List.find (fun g => negb (grant_is_on g p)) l.

(** [gating::verdict]: absent allows, unreadable denies all. *)
Definition policy_verdict (t : Tool) (effective : result string (option PolicyValues)) :
    result CallError unit :=
  match effective with
  | Ok None => Ok tt
  | Err reason => Err (ToolDisabled t.(t_name) (StoreUnreadable reason))
  | Ok (Some effective) =>
      match find_off_grant effective (required_grants t) with
      | Some grant => Err (ToolDisabled t.(t_name) (GrantOff (wire_name (grant_field grant))))
      | None =>
          if existsb (fun x => String.eqb x t.(t_name)) effective.(pv_disabled_tools)
          then Err (ToolDisabled t.(t_name) InDisabledList)
          else Ok tt
      end
  end.

(** * The kill gate *)

(** [kill::verdict]. *)
Definition kill_verdict (trust : result io_error Trust) : result CallError unit :=
  match trust with
  | Ok trust => if killed trust then Err Killed else Ok tt
  | Err e => Err (KillStateUnknown (io_msg e))
  end.

Definition record_failure_sentence (e : io_error) : string :=
  "the trust record could not be read or written: " +:+ io_msg e.

Section gates.
Context `{CO : PolicyCodec, DG : Digest, ST : !Sized Trust}.

(** [gating::load_effective]. *)
Definition load_effective : host (result string (option PolicyValues)) :=
  asks (fun w => match slot_load w.(w_policy) with
                 | Ok None => Ok None
                 | Ok (Some store) => map_err io_msg (Some <$> effective store)
                 | Err e => Err (io_msg e)
                 end).

(** [gating::check]. *)
Definition policy_check (t : Tool) : host (result CallError unit) :=
  let! eff := load_effective in hret (policy_verdict t eff).

Definition is_killed : host (result io_error bool) :=
  let! t := current_trust in hret (killed <$> t).

(** [kill::check]. *)
Definition kill_check : host (result CallError unit) :=
  let! t := current_trust in hret (kill_verdict t).

(** [kill::set_killed]: flag and epoch bump in one write under the lock. *)
Definition set_killed_locked (k : bool) : host (result io_error Z) :=
  let! r := with_runtime_lock (mutate_locked ScopeKill (fun t => set_killed t k)) in
  hret (epoch <$> r).

Definition engage (surface : Surface) : host (result io_error Z) :=
  let? epoch := set_killed_locked true in
  let! _ := audit_record (audit_of KillEngage surface "ok" None) in
  hret (Ok epoch).

Definition release (surface : Surface) (auth : PresenceAttestation) : host (result io_error Z) :=
  let! result := set_killed_locked false in
  let auth_name := audit_label (att_path auth) in
  let! _ := match result with
            | Ok _ => audit_record (audit_of KillRelease surface "ok" (Some ("auth=" +:+ auth_name)))
            | Err e => audit_record (audit_of KillRelease surface "error"
                (Some ("auth=" +:+ auth_name +:+ "; write refused: " +:+ io_msg e)))
            end in
  hret result.

Definition audit_refused_release (surface : Surface) (err : string) : host unit :=
  audit_record (audit_of KillRelease surface "refused" (Some ("presence: " +:+ err))).

(** Both gates in the order the dispatcher runs them. *)
Definition gates (t : Tool) : host (result CallError unit) :=
  let? _ := kill_check in policy_check t.

(** * Lemmas *)

Lemma find_off_grant_None p l :
  find_off_grant p l = None <-> forall g, g ∈ l -> grant_is_on g p = true.
Proof.
  unfold find_off_grant. rewrite find_None_iff. setoid_rewrite negb_false_iff. done.
Qed.

(** A grant is the permissive pole of its field. *)
Lemma grant_on_monotone g p q :
  field_relaxes (grant_field g) p q = false -> grant_is_on g p = true -> grant_is_on g q = true.
Proof.
  unfold field_relaxes. destruct g; cbn; intros H Hp; rewrite Hp in H; cbn in H;
    by apply negb_false_iff in H.
Qed.

Lemma policy_verdict_Ok t p u :
  policy_verdict t (Ok (Some p)) = Ok u <->
  (forall g, g ∈ required_grants t -> grant_is_on g p = true) /\
  t_name t ∉ pv_disabled_tools p.
Proof.
  unfold policy_verdict. destruct u. rewrite <- (find_off_grant_None p).
  assert (existsb (fun x => String.eqb x (t_name t)) (pv_disabled_tools p) = false <->
    t_name t ∉ pv_disabled_tools p) as Hd.
  { rewrite <- str_mem_false. unfold str_mem. done. }
  rewrite <- Hd. destruct (find_off_grant p _); [naive_solver|].
  destruct (existsb _ _); naive_solver.
Qed.

Lemma policy_verdict_monotone t p q :
  restricts p q -> policy_verdict t (Ok (Some p)) = Ok tt -> policy_verdict t (Ok (Some q)) = Ok tt.
Proof.
  intros Hr. rewrite !policy_verdict_Ok. intros [Hg Ht]. split.
  - intros g Hin. eapply grant_on_monotone; [apply Hr|auto].
  - specialize (Hr DisabledTools). apply tools_relax_false in Hr. set_solver.
Qed.

Lemma kill_verdict_Ok r u :
  kill_verdict r = Ok u <-> exists t, r = Ok t /\ killed t = false.
Proof.
  destruct u. unfold kill_verdict. destruct r as [t|e]; [|by split; [|intros (? & [=] & _)]].
  destruct (killed t) eqn:E; split; [done| |by exists t|done].
  intros (t' & Ht & Hk). injection Ht as <-. congruence.
Qed.

Lemma set_killed_locked_Ok k e w n w' :
  set_killed_locked k e w = (Ok n, w') ->
  exists t, w_trust w' = Stored t /\ killed t = k /\ n = epoch t /\
    w_policy w' = w_policy w /\ w_audit w' = w_audit w.
Proof.
  unfold set_killed_locked, with_runtime_lock, hbind, hret. destruct (e_lock e); [done|].
  destruct (mutate_locked _ _ e w) as [[t|] w1] eqn:E; [|done]. cbn.
  intros H. injection H as <- <-. apply mutate_locked_Ok in E as (t0 & t1 & _ & _ & -> & ->).
  eexists. repeat split; done.
Qed.

Lemma set_killed_locked_Err k e w err w' :
  set_killed_locked k e w = (Err err, w') -> w' = w.
Proof.
  unfold set_killed_locked, with_runtime_lock, hbind, hret. destruct (e_lock e).
  { cbn. intros H. by injection H as _ <-. }
  destruct (mutate_locked _ _ e w) as [[t|] w1] eqn:E; [done|]. cbn.
  intros H. injection H as _ <-. by apply mutate_locked_Err in E.
Qed.

(** Only a release clears the latch. *)
Lemma bumped_killed t s t' : bumped t s = Ok t' -> killed t' = killed t.
Proof. intros H. by apply bumped_Ok in H as (_ & -> & _). Qed.

Lemma run_ops_killed t ops t' :
  run_ops t ops = Ok t' -> killed t = true -> OpKill false ∉ ops -> killed t' = true.
Proof.
  revert t. induction ops as [|op ops IH]; intros t H Hk Hno; cbn in H; inv_res; [done|].
  unfold mutate in *. inv_res. apply (IH (apply_op a0 op)); [done| |set_solver].
  match goal with H : bumped _ _ = Ok _ |- _ => apply bumped_killed in H end.
  assert (killed a0 = true) as Ha by congruence. destruct op as [[]| | | | | | | | | ];
    cbn; try done; try set_solver;
    unfold pair_entry, revoke_name, forget_pairings; by destruct (clients a0).
Qed.

(** * Properties *)

(** C28: the gates fail closed. A tool call passes both gates exactly when the
    trust record is readable with the switch off and either no policy store
    exists or the store reads as valid with every grant the tool requires on and
    the tool off the deny list. Any refusal carries [BRIDGE_KILLED] or
    [TOOL_DISABLED], the kill switch winning, and the gates write nothing. *)
Theorem gates_fail_closed (t : Tool) (e : env) (w w' : world) (r : result CallError unit) :
  gates t e w = (r, w') ->
  w' = w /\
  (r = Ok tt <->
    (exists tr, trust_current (w_trust w) = Ok tr /\ killed tr = false) /\
    (w_policy w = Absent \/
     exists s p, w_policy w = Stored s /\ effective s = Ok p /\
       (forall g, g ∈ required_grants t -> grant_is_on g p = true) /\
       t_name t ∉ pv_disabled_tools p)) /\
  (forall err, r = Err err ->
     code err = (if is_ok (kill_verdict (trust_current (w_trust w)))
                 then "TOOL_DISABLED" else "BRIDGE_KILLED")).
Proof.
  unfold gates, kill_check, policy_check, load_effective, current_trust, asks, htry, hbind, hret.
  rewrite <- (kill_verdict_Ok _ tt).
  destruct (kill_verdict (trust_current (w_trust w))) as [[]|err] eqn:Ek.
  - intros H. injection H as <- <-. split; [done|]. split; cbn [is_ok].
    + destruct (w_policy w) as [|er|s]; cbn [slot_load].
      * cbn. split; [intros _; split; [done|by left]|done].
      * split; [done|]. intros [_ [?|(? & ? & ? & _)]]; done.
      * destruct (effective s) as [p|er] eqn:Ee; cbn [map_err fmap result_fmap].
        -- rewrite policy_verdict_Ok. split.
           ++ intros H. split; [done|]. right. by exists s, p.
           ++ intros [_ [?|(s' & p' & Hs & Hp & H)]]; [done|]. injection Hs as <-.
              rewrite Ee in Hp. injection Hp as <-. exact H.
        -- split; [done|]. intros [_ [?|(s' & p' & Hs & Hp & H)]]; [done|]. injection Hs as <-.
           by rewrite Ee in Hp.
    + intros err. destruct (w_policy w) as [|er|s]; cbn; [done|by intros [= <-]|].
      destruct (effective s) as [p|er]; cbn; [|by intros [= <-]].
      destruct (find_off_grant _ _); [by intros [= <-]|].
      destruct (existsb _ _); [by intros [= <-]|done].
  - intros H. injection H as <- <-. split; [done|]. split; cbn [is_ok]; [by split; [|intros [? _]]|].
    intros err' H. injection H as <-. unfold kill_verdict in Ek.
    destruct (trust_current _) as [tr|]; [destruct (killed tr); [|done]|]; by injection Ek as <-.
Qed.

(** A restriction never re-opens a tool. After a restriction lands, every
    tool the policy gate lets through was already let through before it. *)
Theorem restriction_never_reopens_a_tool `{SP : !Sized PolicyStore, SH : !Sized PolicyHistory}
    (overlay : PolicyOverlay) (over : option StoreObservation) (surface : Surface)
    (t : Tool) (e : env) (w w' : world) :
  restrict_with overlay over surface e w = (Ok tt, w') ->
  (policy_check t e w').1 = Ok tt -> (policy_check t e w).1 = Ok tt.
Proof.
  intros Hr. apply restrict_with_split in Hr as (w1 & Hr & (_ & Hp & _)).
  apply locked_io_cases in Hr as [Hr|[[? Hr] _]]; [|done].
  apply restrict_locked_Ok in Hr as (prev & doc & eff & Hs & Hd & He & _ & Hres & Hn).
  unfold policy_check, load_effective, asks, hbind, hret. cbn [fst].
  rewrite Hp, Hn, Hs. cbn [slot_load].
  rewrite (restricted_store_effective _ _ _ _ Hd He Hres), He.
  cbn [fmap result_fmap map_err]. by apply policy_verdict_monotone.
Qed.

(** The kill latch holds. Once [engage] succeeds, every tool call is refused
    with [BRIDGE_KILLED] in that state and in every later one, whatever writes
    the trust record took, until a release is among them; an engage that fails
    changes no record. *)
Theorem kill_latch_holds (surface : Surface) (e : env) (w w' : world) (r : result io_error Z) :
  engage surface e w = (r, w') ->
  match r with
  | Err _ => w' = w
  | Ok n => exists t, w_trust w' = Stored t /\ n = epoch t /\
      forall ops t' e2 w2 tool, run_ops t ops = Ok t' -> OpKill false ∉ ops ->
        w_trust w2 = Stored t' ->
        exists err, (gates tool e2 w2).1 = Err err /\ code err = "BRIDGE_KILLED"
  end.
Proof.
  unfold engage, htry, hbind, hret, audit_record.
  destruct (set_killed_locked true e w) as [[n|err] w1] eqn:E; intros H; injection H as <- <-.
  - apply set_killed_locked_Ok in E as (t & Ht & Hk & -> & _).
    exists t. split; [done|]. split; [done|]. intros ops t' e2 w2 tool Hrun Hno Hw2.
    pose proof (run_ops_killed _ _ _ Hrun Hk Hno) as Hk'. exists Killed.
    unfold gates, kill_check, current_trust, asks, htry, hbind, hret. rewrite Hw2. cbn.
    by rewrite Hk'.
  - by apply set_killed_locked_Err in E.
Qed.
End gates.

#[local] Existing Instances PolicyExample.digest PolicyExample.trust_sized
  PolicyExample.policy_sized PolicyExample.history_sized.

Lemma gates_fail_closed_witness :
  (gates (tool PageEval) calm ex_granted).1 = Ok tt /\
  code (Killed) = "BRIDGE_KILLED" /\
  (exists tr, trust_current (w_trust ex_granted) = Ok tr /\ killed tr = false).
Proof.
  destruct (gates (tool PageEval) calm ex_granted) as [r w'] eqn:E.
  destruct (gates_fail_closed (tool PageEval) calm ex_granted w' r E) as (_ & H & _).
  assert (r = Ok tt) as Hr.
  { transitivity (gates (tool PageEval) calm ex_granted).1;
      [by rewrite E|vm_compute; reflexivity]. }
  split; [exact Hr|]. split; [reflexivity|]. exact (proj1 (proj1 H Hr)).
Defined.

Lemma restriction_never_reopens_a_tool_witness :
  exists w', restrict_ PolicyExample.no_eval SurfExtension calm ex_granted = (Ok tt, w') /\
    ((policy_check (tool PageClick) calm w').1 = Ok tt ->
     (policy_check (tool PageClick) calm ex_granted).1 = Ok tt).
Proof.
  destruct (restrict_ PolicyExample.no_eval SurfExtension calm ex_granted) as [r w'] eqn:E.
  assert (r = Ok tt) as ->.
  { transitivity (restrict_ PolicyExample.no_eval SurfExtension calm ex_granted).1;
      [by rewrite E|vm_compute; reflexivity]. }
  exists w'. split; [reflexivity|].
  exact (restriction_never_reopens_a_tool PolicyExample.no_eval None SurfExtension
    (tool PageClick) calm ex_granted w' E).
Defined.

Lemma kill_latch_holds_witness :
  exists n w' t, engage SurfCli calm ex_granted = (Ok n, w') /\ w_trust w' = Stored t /\
    n = epoch t.
Proof.
  destruct (engage SurfCli calm ex_granted) as [r w'] eqn:E.
  pose proof (kill_latch_holds SurfCli calm ex_granted w' r E) as H.
  destruct r as [n|err].
  - destruct H as (t & H1 & H2 & _). exists n, w', t. repeat split; assumption.
  - exfalso. assert ((engage SurfCli calm ex_granted).1 = Err err) as H' by (by rewrite E).
    vm_compute in H'. discriminate H'.
Defined.
