(* ===== verification/Wire.v ===== *)
(** Wire: the framings and envelopes of src/src/packages/core/src/protocol.rs:
    Chrome native-messaging frames, NDJSON lines under a length cap, and the
    bridge request and response.

    A reader is the bytes its peer will still send before closing; a read
    returns its result and what is left. A writer is the bytes it emits.
    serde_json is a parameter ([JsonCodec]) with the laws the framing relies on. *)
From S2P Require Import Prelude Json RuntimeRecord ToolArgs Catalogue.
From Stdlib Require Import Strings.Byte Ascii.
From stdpp Require Import base list sets strings pretty.

(** * Byte readers *)

(** [Read::read_exact]: all [n] bytes, or [UnexpectedEof] with the stream spent. *)
Definition read_exact (n : nat) (s : bytes) : result io_error bytes * bytes :=
  if (n <=? length s)%nat then (Ok (take n s), drop n s)
  else (Err (IoError UnexpectedEof "failed to fill whole buffer"), []).

Definition byte_Z (b : Byte.byte) : Z := Z.of_N (Byte.to_N b).
Definition Z_byte (z : Z) : Byte.byte := default Byte.x00 (Byte.of_N (Z.to_N (z mod 256))).

(** [u32::to_le_bytes] and [u32::from_le_bytes]. *)
Definition u32_to_le_bytes (n : Z) : bytes :=
  [Z_byte n; Z_byte (n / 2 ^ 8); Z_byte (n / 2 ^ 16); Z_byte (n / 2 ^ 24)].

Definition u32_from_le_bytes (b : bytes) : Z :=
  match b with
  | [b0; b1; b2; b3] => byte_Z b0 + 2 ^ 8 * byte_Z b1 + 2 ^ 16 * byte_Z b2 + 2 ^ 24 * byte_Z b3
  | _ => 0
  end.

(** * 1. Native messaging *)

Definition NM_MAX_OUTGOING : Z := 1024 * 1024.
Definition NM_MAX_INCOMING : Z := 64 * 1024 * 1024.

(** serde_json on one message type. *)
Class JsonCodec (T : Type) := {
  from_slice : bytes -> result string T;
  to_vec : T -> bytes
}.

(** The codec reads back what it printed, and a printed value is a non-empty
    line: it has no raw line feed and does not end in a carriage return. *)
Class JsonCodecOk (T : Type) `{!JsonCodec T} := {
  json_roundtrip : forall t : T, from_slice (to_vec t) = Ok t;
  json_one_line : forall t : T, Byte.x0a ∉ to_vec t;
  json_no_cr : forall t : T, last (to_vec t) <> None /\ last (to_vec t) <> Some Byte.x0d
}.

Section framing.
Context {T : Type} `{!JsonCodec T}.

(** A stream that ends inside the header reads as EOF, as one that ends before it. *)
Definition nm_read_frame (s : bytes) : result io_error (option T) * bytes :=
  match read_exact 4 s with
  | (Err _, s) => (Ok None, s)
  | (Ok header, s) =>
      let len := u32_from_le_bytes header in
      if (NM_MAX_INCOMING <? len)%Z then
        (Err (invalid_data ("native-messaging frame too large: " +:+ pretty len +:+ " bytes")), s)
      else
        match read_exact (Z.to_nat len) s with
        | (Err e, s) => (Err e, s)
        | (Ok buf, s) =>
            match from_slice buf with
            | Ok v => (Ok (Some v), s)
            | Err e => (Err (invalid_data ("nm json decode: " +:+ e)), s)
            end
        end
  end.

(** The bytes written; nothing is written for a refused frame. *)
Definition nm_write_frame (value : T) : result io_error bytes :=
  let json := to_vec value in
  let n := Z.of_nat (length json) in
  if (NM_MAX_OUTGOING <? n)%Z then
    Err (invalid_data ("native-messaging outgoing frame " +:+ pretty n +:+ " bytes exceeds 1 MB cap"))
  else if (u32_max <? n)%Z then
    Err (invalid_data "native-messaging frame length overflows the u32 prefix")
  else Ok (u32_to_le_bytes n ++ json).

(** * 2. NDJSON lines *)

Definition MCP_MAX_LINE : Z := 64 * 1024 * 1024.
Definition BRIDGE_MAX_LINE : Z := 64 * 1024 * 1024.

(** [BufRead::read_until(b'\n')] through [Read::take(cap)]: the line read, its
    delimiter included when it was reached, and the rest of the stream. *)
Fixpoint read_until (cap : nat) (s : bytes) : bytes * bytes :=
  match cap, s with
  | O, _ => ([], s)
  | S _, [] => ([], [])
  | S c, b :: s' =>
      if Byte.eqb b Byte.x0a then ([b], s')
      else let '(line, rest) := read_until c s' in (b :: line, rest)
  end.

Definition is_eol (b : Byte.byte) : bool := Byte.eqb b Byte.x0a || Byte.eqb b Byte.x0d.

(** [while line.last() == '\n' or '\r' { line.pop() }]. *)
Fixpoint drop_eols (rev_line : bytes) : bytes :=
  match rev_line with
  | b :: l => if is_eol b then drop_eols l else rev_line
  | [] => []
  end.
Definition pop_eols (line : bytes) : bytes := rev (drop_eols (rev line)).

(** The read loop. Every iteration that continues has consumed a blank line, so
    one unit of fuel per remaining byte is enough; [None] is never reached with
    that fuel ([ndjson_read_total]). *)
Fixpoint ndjson_loop (fuel : nat) (max_line : Z) (leg : string) (s : bytes) :
    option (result io_error (option T) * bytes) :=
  match fuel with
  | O => None
  | S fuel =>
      let '(line, rest) := read_until (Z.to_nat (max_line + 1)) s in
      if (length line =? 0)%nat then Some (Ok None, rest)
      else if (max_line <? Z.of_nat (length line))%Z then
        Some (Err (invalid_data (leg +:+ " frame exceeds the line-length cap")), rest)
      else
        let line := pop_eols line in
        if (length line =? 0)%nat then ndjson_loop fuel max_line leg rest
        else
          Some (match from_slice line with
                | Ok msg => Ok (Some msg)
                | Err e => Err (invalid_data (leg +:+ " json decode: " +:+ e))
                end, rest)
  end.

Definition ndjson_read_capped (max_line : Z) (leg : string) (s : bytes) :
    result io_error (option T) * bytes :=
  if (u64_max <? max_line + 1)%Z then (Err (invalid_data (leg +:+ " line cap out of range")), s)
  else default (Ok None, s) (ndjson_loop (S (length s)) max_line leg s).

Definition mcp_read (s : bytes) := ndjson_read_capped MCP_MAX_LINE "mcp" s.
Definition mcp_write (msg : T) : bytes := to_vec msg ++ [Byte.x0a].
Definition bridge_read (s : bytes) := ndjson_read_capped BRIDGE_MAX_LINE "bridge" s.
Definition bridge_write (msg : T) : bytes := to_vec msg ++ [Byte.x0a].
End framing.

(** * 3. The bridge envelope *)

Record BridgeReq := mkReq {
  rq_id : Z;
  rq_command : BridgeCommand;
  rq_browser : option string
}.

Record BridgeResp := mkResp {
  rs_id : Z;
  rs_ok : bool;
  rs_data : option json;
  rs_error : option string
}.

Definition resp_ok (id : Z) (data : json) : BridgeResp := mkResp id true (Some data) None.
Definition resp_err (id : Z) (msg : string) : BridgeResp := mkResp id false None (Some msg).

Inductive BridgeSignal := CancelSignal (id : Z).

Record ParsedResp := mkParsed { pr_id : Z; pr_outcome : result string json }.

(** [ParsedResp::try_from]: the contradictions the flat triple can spell are refused. *)
Definition ParsedResp_try_from (wire : BridgeResp) : result string ParsedResp :=
  match wire.(rs_ok), wire.(rs_data), wire.(rs_error) with
  | true, data, None => Ok (mkParsed wire.(rs_id) (Ok (default JNull data)))
  | false, None, Some error => Ok (mkParsed wire.(rs_id) (Err error))
  | true, _, Some _ =>
      Err ("contradictory bridge response (id " +:+ pretty wire.(rs_id) +:+ "): ok with an error")
  | false, Some _, _ =>
      Err ("contradictory bridge response (id " +:+ pretty wire.(rs_id)
           +:+ "): failure carrying data")
  | false, None, None =>
      Err ("bridge response (id " +:+ pretty wire.(rs_id) +:+ ") claims failure with no error")
  end.

(** * Lemmas *)

Lemma read_exact_app b rest n :
  length b = n -> read_exact n (b ++ rest) = (Ok b, rest).
Proof.
  intros <-. unfold read_exact. rewrite length_app.
  destruct (Nat.leb_spec (length b) (length b + length rest)); [|lia].
  by rewrite take_app_length, drop_app_length.
Qed.

Lemma byte_Z_range b : (0 <= byte_Z b < 256)%Z.
Proof. unfold byte_Z. pose proof (Byte.to_N_bounded b). lia. Qed.

Lemma byte_Z_byte z : byte_Z (Z_byte z) = (z mod 256)%Z.
Proof.
  unfold byte_Z, Z_byte. pose proof (Z.mod_pos_bound z 256 ltac:(lia)) as Hb.
  destruct (Byte.of_N (Z.to_N (z mod 256))) as [b|] eqn:E.
  - cbn. apply Byte.to_of_N in E. rewrite E. lia.
  - apply Byte.of_N_None_iff in E. lia.
Qed.

Lemma u32_le_roundtrip n :
  (0 <= n <= u32_max)%Z -> u32_from_le_bytes (u32_to_le_bytes n) = n.
Proof.
  intros Hn. unfold u32_to_le_bytes, u32_from_le_bytes. rewrite !byte_Z_byte.
  unfold u32_max in Hn. change (2 ^ 8)%Z with 256%Z.
  change (2 ^ 16)%Z with 65536%Z. change (2 ^ 24)%Z with 16777216%Z.
  change (2 ^ 32 - 1)%Z with 4294967295%Z in Hn.
  Z.to_euclidean_division_equations. lia.
Qed.

Section framing_lemmas.
Context {T : Type} `{!JsonCodec T}.

Lemma read_until_shape cap s line rest :
  read_until cap s = (line, rest) -> s = line ++ rest /\ (length line <= cap)%nat.
Proof.
  revert s line rest. induction cap as [|c IH]; intros s line rest; cbn.
  - intros H. injection H as <- <-. done.
  - destruct s as [|b s]; [intros H; injection H as <- <-; split; [done|cbn; lia]|].
    destruct (Byte.eqb b x0a); [intros H; injection H as <- <-; split; [done|cbn; lia]|].
    destruct (read_until c s) as [l r] eqn:E. intros H. injection H as <- <-.
    apply IH in E as [-> ?]. split; [done|cbn; lia].
Qed.

Lemma read_until_nil cap s rest : read_until (S cap) s = ([], rest) -> s = [].
Proof.
  cbn. destruct s as [|b s]; [done|]. destruct (Byte.eqb b x0a); [done|].
  by destruct (read_until cap s).
Qed.

Lemma read_until_line cap l rest :
  x0a ∉ l -> (length l < cap)%nat -> read_until cap (l ++ x0a :: rest) = (l ++ [x0a], rest).
Proof.
  revert cap. induction l as [|b l IH]; intros cap Hn Hc; destruct cap as [|c];
    try (cbn in Hc; lia); [done|].
  cbn. assert (Byte.eqb b x0a = false) as ->.
  { apply not_true_iff_false. intros H. apply Byte.byte_dec_bl in H. set_solver. }
  cbn in Hc. rewrite IH; [done|set_solver|lia].
Qed.

Lemma drop_eols_head b l : is_eol b = false -> drop_eols (b :: l) = b :: l.
Proof. intros H. cbn. by rewrite H. Qed.

Lemma pop_eols_line l :
  x0a ∉ l -> last l <> None -> last l <> Some x0d -> pop_eols (l ++ [x0a]) = l.
Proof.
  intros Hn Hne Hcr. unfold pop_eols. rewrite rev_app_distr. cbn.
  destruct (last l) as [b|] eqn:E; [|done].
  apply last_Some in E as [l' ->]. rewrite rev_app_distr. cbn.
  assert (is_eol b = false) as ->.
  { unfold is_eol. apply orb_false_iff. split; apply not_true_iff_false; intros H;
      apply Byte.byte_dec_bl in H; subst; [set_solver|congruence]. }
  cbn. by rewrite rev_involutive.
Qed.

(** The loop needs one unit of fuel per byte. *)
Lemma ndjson_loop_total fuel max_line leg s :
  (0 <= max_line)%Z -> (length s < fuel)%nat -> exists r, ndjson_loop (T := T) fuel max_line leg s = Some r.
Proof.
  intros Hm. revert s. induction fuel as [|fuel IH]; intros s Hs; [lia|]. cbn [ndjson_loop].
  destruct (read_until (Z.to_nat (max_line + 1)) s) as [line rest] eqn:E.
  destruct (Nat.eqb_spec (length line) 0) as [|Hl]; [eauto|].
  destruct (max_line <? _)%Z; [eauto|]. cbv zeta.
  destruct (length (pop_eols line) =? 0)%nat; [|eauto].
  apply IH. apply read_until_shape in E as [-> _]. rewrite length_app in Hs. lia.
Qed.

(** More fuel never changes a result. *)
Lemma ndjson_loop_mono fuel fuel' max_line leg s r :
  ndjson_loop (T := T) fuel max_line leg s = Some r -> (fuel <= fuel')%nat ->
  ndjson_loop fuel' max_line leg s = Some r.
Proof.
  revert fuel' s. induction fuel as [|fuel IH]; intros fuel' s; [done|].
  destruct fuel' as [|fuel']; [lia|]. cbn [ndjson_loop].
  destruct (read_until _ s) as [line rest]. destruct (length line =? 0)%nat; [done|].
  destruct (max_line <? _)%Z; [done|]. cbv zeta.
  destruct (length (pop_eols line) =? 0)%nat; [|done]. intros H Hle. apply IH; [done|lia].
Qed.
(** A line with no line feed within the cap is refused one byte past it, and the
    rest of it stays on the stream. *)
Lemma ndjson_overlong max_line leg s :
  (0 <= max_line < u64_max)%Z -> (max_line < Z.of_nat (length s))%Z -> x0a ∉ take (Z.to_nat max_line) s ->
  ndjson_read_capped (T := T) max_line leg s =
    (Err (invalid_data (leg +:+ " frame exceeds the line-length cap")), drop (Z.to_nat (max_line + 1)) s).
Proof.
  intros Hm Hlen Hno.   unfold ndjson_read_capped. destruct (Z.ltb_spec u64_max (max_line + 1)); [lia|].
  cbn [ndjson_loop].
  assert (read_until (Z.to_nat (max_line + 1)) s =
    (take (Z.to_nat (max_line + 1)) s, drop (Z.to_nat (max_line + 1)) s)) as ->.
  { replace (Z.to_nat (max_line + 1)) with (S (Z.to_nat max_line)) by lia.
    assert (Z.to_nat max_line < length s)%nat as Hl by lia. clear -Hl Hno.
    revert s Hl Hno. induction (Z.to_nat max_line) as [|n IH]; intros [|b s] Hl Hno;
      cbn in Hl; try lia.
    - cbn. by destruct (Byte.eqb b x0a).
    - cbn [read_until]. assert (Byte.eqb b x0a = false) as ->.
      { apply not_true_iff_false. intros H. apply Byte.byte_dec_bl in H. cbn in Hno. set_solver. }
      cbn in IH. cbn. rewrite IH; [done|lia|cbn in Hno; set_solver]. }
  rewrite length_take.
  destruct (Nat.eqb_spec (Nat.min (Z.to_nat (max_line + 1)) (length s)) 0); [lia|].
  destruct (Z.ltb_spec max_line (Z.of_nat (Nat.min (Z.to_nat (max_line + 1)) (length s)))); [done|lia].
Qed.

(** Every read but the end of the stream consumes something. *)
Lemma ndjson_read_progress max_line leg s r rest :
  (0 <= max_line < u64_max)%Z -> ndjson_read_capped (T := T) max_line leg s = (r, rest) ->
  r = Ok None \/ length rest < length s.
Proof.
  intros Hm. unfold ndjson_read_capped. destruct (Z.ltb_spec u64_max (max_line + 1)); [lia|].
  assert (forall fuel s, ndjson_loop (T := T) fuel max_line leg s = Some (r, rest) ->
    r = Ok None \/ length rest < length s) as Hloop.
  { clear s. induction fuel as [|fuel IH]; intros s; cbn [ndjson_loop]; [done|].
    destruct (read_until (Z.to_nat (max_line + 1)) s) as [line rest'] eqn:E.
    destruct (Nat.eqb_spec (length line) 0) as [|Hl]; [intros [= <- <-]; by left|].
    apply read_until_shape in E as [-> _]. rewrite length_app.
    destruct (max_line <? _)%Z; [intros [= <- <-]; right; lia|]. cbv zeta.
    destruct (length (pop_eols line) =? 0)%nat.
    - intros H'. destruct (IH _ H'); [by left|right; lia].
    - intros [= <- <-]. right. lia. }
  destruct (ndjson_loop_total (S (length s)) max_line leg s) as [[r' rest'] E]; [lia..|].
  rewrite E. cbn [default]. intros [= <- <-]. by apply Hloop in E.
Qed.
(** ** One value at a time *)

(** [t] is printed as one non-empty line, and that line is read as [t]. *)
Definition rereads (t : T) : Prop :=
  (from_slice (to_vec t) = Ok t) /\ (x0a ∉ to_vec t) /\ last (to_vec t) <> None /\ last (to_vec t) <> Some x0d.

Lemma ndjson_reads_line fuel max_line leg t rest :
  rereads t -> (Z.of_nat (length (to_vec t)) < max_line)%Z ->
  ndjson_loop (S fuel) max_line leg (to_vec t ++ x0a :: rest) = Some (Ok (Some t), rest).
Proof.
  intros (Hr & Hl & Hne & Hcr) Hlen. cbn [ndjson_loop].
  rewrite read_until_line; [|done|lia].
  rewrite length_app. cbn [length].
  destruct (Nat.eqb_spec (length (to_vec t) + 1) 0); [lia|].
  destruct (Z.ltb_spec max_line (Z.of_nat (length (to_vec t) + 1))); [lia|]. cbv zeta.
  rewrite pop_eols_line by done.
  destruct (Nat.eqb_spec (length (to_vec t)) 0) as [Hz|]; [|by rewrite Hr].
  destruct (to_vec t); [|done]. by destruct Hne.
Qed.

Lemma ndjson_read_written max_line leg t rest :
  rereads t -> (Z.of_nat (length (to_vec t)) < max_line < u64_max)%Z ->
  ndjson_read_capped max_line leg (bridge_write t ++ rest) = (Ok (Some t), rest).
Proof.
  intros Ht Hlen. unfold ndjson_read_capped, bridge_write.
  destruct (Z.ltb_spec u64_max (max_line + 1)); [lia|].
  rewrite <- app_assoc. cbn [app]. by rewrite ndjson_reads_line by (done || lia).
Qed.

Lemma nm_write_cases (v : T) :
  from_slice (to_vec v) = Ok v ->
  match nm_write_frame v with
  | Ok out => (forall rest, nm_read_frame (out ++ rest) = (Ok (Some v), rest)) /\
              (Z.of_nat (length out) <= NM_MAX_OUTGOING + 4)%Z
  | Err e => io_kind e = InvalidData /\ (NM_MAX_OUTGOING < Z.of_nat (length (to_vec v)))%Z
  end.
Proof.
  intros Hv. unfold nm_write_frame. cbv zeta.
  destruct (Z.ltb_spec NM_MAX_OUTGOING (Z.of_nat (length (to_vec v)))) as [Hbig|Hsmall];
    [by split|].
  assert (NM_MAX_OUTGOING <= u32_max)%Z as Hmax by (unfold NM_MAX_OUTGOING, u32_max; lia).
  destruct (Z.ltb_spec u32_max (Z.of_nat (length (to_vec v)))) as [?|Hu]; [lia|]. split.
  - intros rest. unfold nm_read_frame. rewrite <- app_assoc, (read_exact_app _ _ 4) by done.
    rewrite u32_le_roundtrip by lia. cbv zeta.
    destruct (Z.ltb_spec NM_MAX_INCOMING (Z.of_nat (length (to_vec v))));
      [unfold NM_MAX_OUTGOING, NM_MAX_INCOMING in *; lia|].
    rewrite read_exact_app by lia. by rewrite Hv.
  - rewrite length_app. cbn [length u32_to_le_bytes]. lia.
Qed.
End framing_lemmas.

(** * Properties *)

Section framing_properties.
Context {T : Type} `{JC : !JsonCodec T, JO : !JsonCodecOk T}.

(** A native-messaging frame reads back as the value it was written from,
    whatever follows it on the stream, and a frame over Chrome's 1 MB limit is
    refused with nothing written. *)
Theorem nm_frame_roundtrip (v : T) (rest : bytes) :
  match nm_write_frame v with
  | Ok out => nm_read_frame (out ++ rest) = (Ok (Some v), rest) /\
              (Z.of_nat (length out) <= NM_MAX_OUTGOING + 4)%Z
  | Err e => io_kind e = InvalidData /\ (NM_MAX_OUTGOING < Z.of_nat (length (to_vec v)))%Z
  end.
Proof.
  pose proof (nm_write_cases v (json_roundtrip v)) as H.
  destruct (nm_write_frame v); [|done]. destruct H as [H ?]. split; [apply H|done].
Qed.

(** A blank line, with or without the carriage return. *)
Definition blank (l : bytes) : Prop := l = [x0a] \/ l = [x0d; x0a].

Lemma ndjson_skips_blank fuel max_line leg l s :
  (2 <= max_line)%Z -> blank l ->
  ndjson_loop (T := T) (S fuel) max_line leg (l ++ s) = ndjson_loop fuel max_line leg s.
Proof.
  intros Hm Hb. cbn [ndjson_loop].
  destruct (Z.to_nat (max_line + 1)) as [|[|n]] eqn:En; [lia..|].
  assert (read_until (S (S n)) (l ++ s) = (l, s)) as -> by (by destruct Hb as [-> | ->]).
  assert (0 < length l <= 2 /\ pop_eols l = []) as [Hl ->]
    by (destruct Hb as [-> | ->]; split; [cbn; lia|done|cbn; lia|done]).
  destruct (Nat.eqb_spec (length l) 0); [lia|].
  destruct (Z.ltb_spec max_line (Z.of_nat (length l))); [lia|]. done.
Qed.

Lemma codec_rereads t : rereads t.
Proof. split; [apply json_roundtrip|]. split; [apply json_one_line|apply json_no_cr]. Qed.

Lemma bridge_read_written t rest :
  (Z.of_nat (length (to_vec t)) < BRIDGE_MAX_LINE)%Z ->
  bridge_read (bridge_write t ++ rest) = (Ok (Some t), rest).
Proof.
  intros Hlen. apply ndjson_read_written; [apply codec_rereads|]. unfold BRIDGE_MAX_LINE, u64_max in *. lia.
Qed.

(** An NDJSON message reads back as it was written, past any flood of blank
    lines, and the stream is left exactly at the next message; a line the cap
    allows is never cut. The read always terminates. *)
Theorem ndjson_roundtrip (max_line : Z) (leg : string) (blanks : list bytes) (t : T)
    (rest : bytes) :
  Forall blank blanks -> (2 <= max_line < u64_max)%Z ->
  (Z.of_nat (length (to_vec t)) < max_line)%Z ->
  ndjson_read_capped max_line leg (concat blanks ++ bridge_write t ++ rest) = (Ok (Some t), rest).
Proof.
  intros Hb Hm Hlen. unfold ndjson_read_capped, bridge_write.
  destruct (Z.ltb_spec u64_max (max_line + 1)); [lia|].
  assert (forall fuel, ndjson_loop (S (length blanks + fuel)) max_line leg
    (concat blanks ++ (to_vec t ++ [x0a]) ++ rest) = Some (Ok (Some t), rest)) as Hloop.
  { intros fuel. induction Hb as [|l bl Hl _ IH]; cbn [concat app length].
    - rewrite <- app_assoc. apply ndjson_reads_line; [apply codec_rereads|done].
    - rewrite <- app_assoc. cbn [Nat.add]. rewrite ndjson_skips_blank by (done || lia). exact IH. }
  erewrite ndjson_loop_mono; [done|apply (Hloop 0)|].
  assert (length blanks <= length (concat blanks))%nat.
  { clear -Hb. induction Hb as [|l bl Hl _ IH]; cbn; [lia|]. rewrite length_app.
    destruct Hl as [-> | ->]; cbn; lia. }
  rewrite !length_app. lia.
Qed.

(** One line never costs more than the cap. When no line feed comes within
    [max_line] bytes, the read fails with [InvalidData] having taken exactly one
    byte past the cap; and every read returns (a result, with enough fuel). *)
Theorem ndjson_line_is_bounded (max_line : Z) (leg : string) (s : bytes) :
  (0 <= max_line < u64_max)%Z ->
  (exists r, ndjson_loop (T := T) (S (length s)) max_line leg s = Some r) /\
  ((max_line < Z.of_nat (length s))%Z -> x0a ∉ take (Z.to_nat max_line) s ->
   exists e, ndjson_read_capped (T := T) max_line leg s = (Err e, drop (Z.to_nat (max_line + 1)) s) /\
     io_kind e = InvalidData).
Proof.
  intros Hm. split; [apply ndjson_loop_total; lia|]. intros Hlen Hno.
  eexists. split; [by apply ndjson_overlong|done].
Qed.
End framing_properties.

(** ** A concrete codec for the witnesses *)

Module WireExample.
#[export] Instance bool_codec : JsonCodec bool := {|
  to_vec b := if b then [x74; x72; x75; x65] else [x66];
  from_slice b := match b with
                  | [x74; x72; x75; x65] => Ok true
                  | [x66] => Ok false
                  | _ => Err "expected value"
                  end
|}.
#[export] Instance bool_codec_ok : JsonCodecOk bool.
Proof.
  split.
  - by intros [].
  - intros []; cbn; set_solver.
  - intros []; split; discriminate.
Qed.
End WireExample.
#[local] Existing Instances WireExample.bool_codec WireExample.bool_codec_ok.

Lemma nm_frame_roundtrip_witness :
  nm_write_frame true = Ok [x04; x00; x00; x00; x74; x72; x75; x65] /\
  nm_read_frame [x04; x00; x00; x00; x74; x72; x75; x65; xff] = (Ok (Some true), [xff]).
Proof.
  assert (nm_write_frame true = Ok [x04; x00; x00; x00; x74; x72; x75; x65]) as E
    by (vm_compute; reflexivity).
  split; [exact E|]. pose proof (nm_frame_roundtrip true [xff]) as H. rewrite E in H.
  exact (proj1 H).
Defined.

Lemma ndjson_roundtrip_witness :
  ndjson_read_capped 16 "bridge" ([x0a; x0d; x0a] ++ [x74; x72; x75; x65; x0a] ++ [xff])
    = (Ok (Some true), [xff]).
Proof.
  refine (eq_trans eq_refl (ndjson_roundtrip 16 "bridge" [[x0a]; [x0d; x0a]] true [xff] _ _ _)).
  - constructor; [by left|constructor; [by right|constructor]].
  - vm_compute. split; [discriminate|reflexivity].
  - vm_compute. reflexivity.
Defined.

Lemma ndjson_line_is_bounded_witness :
  exists e, ndjson_read_capped (T := bool) 2 "mcp" [x74; x72; x75; x65] = (Err e, [x65]) /\
    io_kind e = InvalidData.
Proof.
  destruct (ndjson_line_is_bounded (T := bool) 2 "mcp" [x74; x72; x75; x65]) as [_ H].
  - vm_compute. split; [discriminate|reflexivity].
  - apply H; [vm_compute; reflexivity|]. cbn. set_solver.
Defined.
