(* ===== verification/LineCodec.v ===== *)
(** LineCodec: a concrete one-line codec for any type that has a prefix codec, so
    that theorems stated against [Wire.JsonCodec] and its laws have instances. Each
    byte of the prefix encoding is written as two letters, and a full stop ends
    the line. *)
From S2P Require Import Prelude Json RuntimeRecord Policy PolicyRecord PrefixCodec Wire.
From Stdlib Require Import Strings.Byte.
From stdpp Require Import countable base list sets strings.

Definition letter (n : Z) : Byte.byte := Z_byte (64 + n).
Definition letters (b : Byte.byte) : bytes := [letter (byte_Z b / 16); letter (byte_Z b mod 16)].
Definition unletters (h l : Byte.byte) : Byte.byte := Z_byte ((byte_Z h - 64) * 16 + (byte_Z l - 64)).

Fixpoint spell (b : bytes) : bytes :=
  match b with [] => [x2e] | x :: b' => letters x ++ spell b' end.

Fixpoint unspell (b : bytes) : bytes :=
  match b with h :: l :: b' => unletters h l :: unspell b' | _ => [] end.

Lemma letters_ok x :
  unletters (letter (byte_Z x / 16)) (letter (byte_Z x mod 16)) = x /\
  existsb is_eol (letters x) = false.
Proof. destruct x; vm_compute; by split. Qed.

Lemma unspell_spell b : unspell (spell b) = b.
Proof.
  induction b as [|x b IH]; [done|]. cbn [spell letters app unspell].
  by rewrite (proj1 (letters_ok x)), IH.
Qed.

Lemma spell_no_eol b x : x ∈ spell b -> is_eol x = false.
Proof.
  induction b as [|y b IH]; cbn [spell].
  - intros Hx. apply list_elem_of_singleton in Hx as ->. done.
  - intros [Hx|Hx]%elem_of_app; [|by apply IH].
    pose proof (proj2 (letters_ok y)) as H. rewrite existsb_false_iff in H. by apply H.
Qed.

Lemma spell_last b : exists x, last (spell b) = Some x /\ x ∈ spell b.
Proof.
  destruct (last (spell b)) as [x|] eqn:E.
  - exists x. split; [done|]. by apply last_Some_elem_of.
  - apply last_None in E. by destruct b.
Qed.

Section line.
Context {A : Type} (c : codec A).

Definition line_codec : JsonCodec A := {|
  to_vec a := spell (enc c a);
  from_slice b := match dec c (unspell b) with Some (a, _) => Ok a | None => Err "expected value" end
|}.

Lemma line_codec_ok : @JsonCodecOk A line_codec.
Proof.
  split; intros t; cbn [to_vec from_slice line_codec].
  - rewrite unspell_spell. rewrite <- (app_nil_r (enc c t)). by rewrite dec_enc.
  - intros H. by apply spell_no_eol in H.
  - destruct (spell_last (enc c t)) as (x & -> & Hx). split; [done|].
    intros [= ->]. by apply spell_no_eol in Hx.
Qed.
End line.

(** ** JSON values, as trees of scalars *)

Definition c_nat : codec nat := c_iso c_Z Z.to_nat Z.of_nat Nat2Z.id.

Definition scalar : Type := Z * (Z * string).
Definition token : Type := nat * nat + scalar.

Definition token_tuple (t : token) : bool * ((nat * nat) * scalar) :=
  match t with inl n => (true, (n, (0, (0, "")))%Z) | inr s => (false, ((0, 0), s)) end.
Definition tuple_token (t : bool * ((nat * nat) * scalar)) : token :=
  match t with (true, (n, _)) => inl n | (false, (_, s)) => inr s end.
Lemma token_tuple_id t : tuple_token (token_tuple t) = t.
Proof. by destruct t. Qed.
Definition c_token : codec token :=
  c_iso (c_pair c_bool (c_pair (c_pair c_nat c_nat) (c_pair c_Z (c_pair c_Z c_string))))
    tuple_token token_tuple token_tuple_id.

Fixpoint tree_of (j : json) : gen_tree scalar :=
  match j with
  | JNull => GenLeaf (0, (0, ""))%Z
  | JBool b => GenLeaf (1, (Z.b2z b, ""))%Z
  | JInt n => GenLeaf (2, (n, ""))%Z
  | JFloat s => GenLeaf (3, (0, s))%Z
  | JStr s => GenLeaf (4, (0, s))%Z
  | JArr l => GenNode 0 (map tree_of l)
  | JObj m => GenNode 1 (map (fun kv => GenNode 0 [GenLeaf (4, (0, fst kv))%Z; tree_of (snd kv)]) m)
  end.

Fixpoint of_tree (t : gen_tree scalar) : json :=
  match t with
  | GenLeaf (1, (b, _))%Z => JBool (b =? 1)%Z
  | GenLeaf (2, (n, _))%Z => JInt n
  | GenLeaf (3, (_, s))%Z => JFloat s
  | GenLeaf (4, (_, s))%Z => JStr s
  | GenLeaf _ => JNull
  | GenNode O l => JArr (map of_tree l)
  | GenNode _ l =>
      JObj (map (fun t => match t with GenNode _ [GenLeaf (_, (_, s)); v] => (s, of_tree v) | _ => ("", JNull) end) l)
  end.

Lemma of_tree_of j : of_tree (tree_of j) = j.
Proof.
  induction j as [|[]|n|s|s|l Hl|m Hm] using json_deep_ind; cbn; try done; f_equal.
  - induction Hl; cbn; congruence.
  - induction Hm as [|[s j] m]; cbn in *; congruence.
Qed.

Definition json_tokens (j : json) : list token := gen_tree_to_list (tree_of j).
Definition tokens_json (l : list token) : json :=
  match gen_tree_of_list [] l with Some t => of_tree t | None => JNull end.
Lemma tokens_json_id j : tokens_json (json_tokens j) = j.
Proof.
  unfold tokens_json, json_tokens. pose proof (gen_tree_of_to_list [] [] (tree_of j)) as H.
  rewrite app_nil_r in H. rewrite H. apply of_tree_of.
Qed.
Definition c_json : codec json := c_iso (c_list c_token) tokens_json json_tokens tokens_json_id.
