(* ===== verification/Session.v ===== *)
(** Session: the registry of authenticated browser connections and the pending
    table that correlates replies with requests
    (src/src/packages/core/src/session.rs).

    A state is what the two mutexes guard (the connections, the pending table)
    with the two atomic counters, and what lives outside them: the reader
    threads, the in-flight guards, each guard's channel, and the frames written
    to each connection. [step] is any thread running a section under its locks. Sending
    is two: the pending table is released before the socket is written, under the registry
    lock alone, and [writing] is the request in between, during which the threads that
    need only the pending table go on. In [drop_in_flight] the write follows the release of
    the pending table too, but the entry is gone by then and nothing routed meanwhile
    concerns it, so it stays one step; so do a reply's removal from the table and
    its send on the channel, which needs no lock and only its own caller reads. An id is
    taken from its counter when the registry lock is, not just before. Mutex poisoning
    is not modelled (the release profile aborts on panic). *)
From S2P Require Import Prelude Json RuntimeRecord Identity Policy Errors ToolArgs Catalogue Wire.
From stdpp Require Import base list sets strings gmap sorting.

Definition MAX_BROWSERS : nat := 16.
Definition u64_mod : Z := 2 ^ 64.

(** * Data *)

(** A connection generation, non-zero by construction. *)
Abbreviation Generation := Z (only parsing).

Inductive Delivery :=
| Reply (resp : ParsedResp)
| Severed.

Inductive RoutedResp :=
| Deliver
| Foreign (owner : Generation)
| Unknown.

(** A frame on a connection's socket, as its peer will read it. *)
Inductive Frame :=
| FReq (req : BridgeReq)
| FSignal (s : BridgeSignal).

(** What [InFlight] owns besides its channel; [fl_gen] is the connection the
    request was written to. *)
Record InFlight := mkInFlight {
  fl_label : string;
  fl_gen : Generation;
  fl_sent : Z;
  fl_deadline : Z
}.

(** A request between its entry in the pending table and its write; the sender holds the
    registry lock. *)
Record Outgoing := mkOutgoing { og_id : Z; og_flight : InFlight; og_command : BridgeCommand }.

Record session := mkSession {
  conns : gmap string Generation;
  pending : gmap Z Generation;
  next_id : Z;
  next_gen : Z;
  (** Reader threads: the label each serves, and whether its loop still runs. *)
  readers : gmap Generation (string * bool);
  guards : gmap Z InFlight;
  (** Channel contents, oldest first. *)
  inbox : gmap Z (list Delivery);
  (** Frames written, oldest first, each with the connection it went to. *)
  wire : list (Generation * Frame);
  (** How many ids and generations were ever taken from the counters. *)
  sends : Z;
  mints : Z;
  writing : option Outgoing
}.

Definition session_new : session := mkSession ∅ ∅ 1 1 ∅ ∅ ∅ [] 0 0 None.

Definition with_conns (s : session) c :=
  mkSession c s.(pending) s.(next_id) s.(next_gen) s.(readers) s.(guards) s.(inbox) s.(wire)
    s.(sends) s.(mints) s.(writing).
Definition with_pending (s : session) p :=
  mkSession s.(conns) p s.(next_id) s.(next_gen) s.(readers) s.(guards) s.(inbox) s.(wire)
    s.(sends) s.(mints) s.(writing).
Definition with_readers (s : session) r :=
  mkSession s.(conns) s.(pending) s.(next_id) s.(next_gen) r s.(guards) s.(inbox) s.(wire)
    s.(sends) s.(mints) s.(writing).
Definition with_guards (s : session) g :=
  mkSession s.(conns) s.(pending) s.(next_id) s.(next_gen) s.(readers) g s.(inbox) s.(wire)
    s.(sends) s.(mints) s.(writing).
Definition with_inbox (s : session) i :=
  mkSession s.(conns) s.(pending) s.(next_id) s.(next_gen) s.(readers) s.(guards) i s.(wire)
    s.(sends) s.(mints) s.(writing).
Definition with_wire (s : session) w :=
  mkSession s.(conns) s.(pending) s.(next_id) s.(next_gen) s.(readers) s.(guards) s.(inbox) w
    s.(sends) s.(mints) s.(writing).

Definition with_writing (s : session) o :=
  mkSession s.(conns) s.(pending) s.(next_id) s.(next_gen) s.(readers) s.(guards) s.(inbox) s.(wire)
    s.(sends) s.(mints) o.

(** [fetch_add(1)] on the two counters. *)
Definition take_id (s : session) : Z * session :=
  (s.(next_id), mkSession s.(conns) s.(pending) ((s.(next_id) + 1) mod u64_mod) s.(next_gen)
    s.(readers) s.(guards) s.(inbox) s.(wire) (s.(sends) + 1) s.(mints) s.(writing)).
Definition take_gen (s : session) : Z * session :=
  (s.(next_gen), mkSession s.(conns) s.(pending) s.(next_id) ((s.(next_gen) + 1) mod u64_mod)
    s.(readers) s.(guards) s.(inbox) s.(wire) s.(sends) (s.(mints) + 1) s.(writing)).

(** * Routing *)

Definition sort_labels (l : list string) : list string := merge_sort String.le l.

Definition resolve_target (available : list string) (want : option string) :
    result CallError string :=
  let labels := sort_labels available in
  match want with
  | Some w =>
      if str_mem w labels then Ok w
      else if (length labels =? 0)%nat then Err NotConnected
      else Err (BrowserNotFound w (str_join ", " labels))
  | None =>
      match labels with
      | [] => Err NotConnected
      | [sole] => Ok sole
      | _ => Err (AmbiguousBrowser (str_join ", " labels))
      end
  end.

Definition live_labels (s : session) : list string := (map_to_list s.(conns)).*1.

(** [Session::labels]. *)
Definition labels (s : session) : list string := sort_labels (live_labels s).

(** [Session::route_info]. *)
Definition route_info (s : session) (browser : option string) : option (string * Z) :=
  label ← ok (resolve_target (live_labels s) browser);
  generation ← s.(conns) !! label;
  Some (label, generation).

(** * Attaching *)

(** [attach_authenticated]: the cap check, the mint and the insert share one
    lock; a superseded connection is severed by its drop, which its reader sees
    as EOF. *)
Definition attach_authenticated (s : session) (label : string) (cap : option nat) :
    bool * session :=
  if match cap with
     | Some max => bool_decide (s.(conns) !! label = None) && (max <=? size s.(conns))%nat
     | None => false
     end
  then (false, s)
  else
    let '(raw_gen, s) := take_gen s in
    if (raw_gen =? 0)%Z then (false, s)
    else
      (true, with_readers (with_conns s (<[label := raw_gen]> s.(conns)))
               (<[raw_gen := (label, true)]> s.(readers))).

Definition attach_browser (s : session) (label : string) : bool * session :=
  attach_authenticated s label (Some MAX_BROWSERS).

(** * The reader thread *)

Definition push_delivery (d : Delivery) (id : Z) (i : gmap Z (list Delivery)) :
    gmap Z (list Delivery) :=
  <[id := default [] (i !! id) ++ [d]]> i.

(** One inbound response on the connection of [my_gen]. *)
Definition route_response (s : session) (my_gen : Generation) (resp : ParsedResp) :
    RoutedResp * session :=
  match s.(pending) !! resp.(pr_id) with
  | Some g =>
      if (g =? my_gen)%Z then
        (Deliver, with_inbox (with_pending s (delete resp.(pr_id) s.(pending)))
                    (push_delivery (Reply resp) resp.(pr_id) s.(inbox)))
      else (Foreign g, s)
  | None => (Unknown, s)
  end.

(** A foreign id ends the reader's loop. *)
Definition reader_response (s : session) (my_gen : Generation) (label : string)
    (resp : ParsedResp) : session :=
  let '(routed, s) := route_response s my_gen resp in
  match routed with
  | Foreign _ => with_readers s (<[my_gen := (label, false)]> s.(readers))
  | Deliver | Unknown => s
  end.

Definition should_clear_conn (current : option Generation) (my_gen : Generation) : bool :=
  bool_decide (current = Some my_gen).

(** Wake the callers of [ids]; their entries stay. *)
Definition sever (ids : list Z) (i : gmap Z (list Delivery)) : gmap Z (list Delivery) :=
  foldr (push_delivery Severed) i ids.

Definition pending_of (p : gmap Z Generation) (my_gen : Generation) : list Z :=
  (map_to_list (filter (fun kv => kv.2 = my_gen) p)).*1.

Definition sever_pending_for_generation (s : session) (my_gen : Generation) : session :=
  with_inbox s (sever (pending_of s.(pending) my_gen) s.(inbox)).

Definition sever_pending_all (s : session) : session :=
  with_inbox s (sever (map_to_list s.(pending)).*1 s.(inbox)).

(** The end of a reader thread, whatever ended its loop. *)
Definition reader_cleanup (s : session) (my_gen : Generation) (label : string) : session :=
  let s := if should_clear_conn (s.(conns) !! label) my_gen
           then with_conns s (delete label s.(conns)) else s in
  let s := sever_pending_for_generation s my_gen in
  with_readers s (delete my_gen s.(readers)).

(** [Session::shutdown_all_browsers]. *)
Definition shutdown_all_browsers (s : session) : nat * session :=
  (size s.(conns), sever_pending_all (with_conns s ∅)).

(** * Requests *)

(** [Session::send] up to the release of the pending table; [now] is the clock under
    both locks. *)
Definition send_register (s : session) (command : BridgeCommand) (browser : option string)
    (deadline now : Z) : result CallError Outgoing * session :=
  let '(id, s) := take_id s in
  match resolve_target (live_labels s) browser with
  | Err e => (Err e, s)
  | Ok label =>
      match s.(conns) !! label with
      | None => (Err (Internal "resolved browser label vanished from the registry"), s)
      | Some generation =>
          if (deadline <=? now)%Z then (Err (Timeout 0), s)
          else
            let out := mkOutgoing id (mkInFlight label generation now deadline) command in
            (Ok out, with_writing (with_pending s (<[id := generation]> s.(pending))) (Some out))
      end
  end.

(** The rest of [Session::send]; [fault] is the socket's answer to the write. *)
Definition send_write (s : session) (out : Outgoing) (fault : option io_error) : result CallError Z * session :=
  let id := og_id out in
  let s := with_writing s None in
  match fault with
  | Some e => (Err (Write e), with_pending s (delete id s.(pending)))
  | None =>
      (Ok id, with_wire (with_guards s (<[id := og_flight out]> s.(guards)))
                (s.(wire) ++ [(fl_gen (og_flight out), FReq (mkReq id (og_command out) (Some (fl_label (og_flight out)))))]))
  end.

(** [Session::send], with nothing in between. *)
Definition send (s : session) (command : BridgeCommand) (browser : option string)
    (deadline now : Z) (fault : option io_error) : result CallError Z * session :=
  match send_register s command browser deadline now with
  | (Err e, s) => (Err e, s)
  | (Ok out, s) => send_write s out fault
  end.

Definition saturating_sub (a b : Z) : Z := Z.max 0 (a - b).

(** [InFlight::wait]: what the channel holds, or the timeout if it is empty. *)
Definition wait_outcome (g : InFlight) (channel : list Delivery) : result CallError json :=
  match channel with
  | Reply resp :: _ => map_err Extension resp.(pr_outcome)
  | Severed :: _ => Err Disconnected
  | [] => Err (Timeout (saturating_sub g.(fl_deadline) g.(fl_sent)))
  end.

(** [Drop for InFlight]: cancel through whoever holds the label now, if no reply
    came; [fault] is the socket's answer to that write. *)
Definition drop_in_flight (s : session) (id : Z) (g : InFlight) (fault : option io_error) : session :=
  let still_pending := bool_decide (is_Some (s.(pending) !! id)) in
  let s := with_guards (with_pending s (delete id s.(pending))) (delete id s.(guards)) in
  if negb still_pending then s
  else
    match s.(conns) !! g.(fl_label), fault with
    | Some conn, None => with_wire s (s.(wire) ++ [(conn, FSignal (CancelSignal id))])
    | _, _ => s
    end.

(** * Interleavings *)

(** What one thread does under its locks. *)
Inductive action :=
| AAttach (label : string)
| AResponse (gen : Generation) (resp : ParsedResp)
| AReaderEnd (gen : Generation)
| AShutdown
| ASend (command : BridgeCommand) (browser : option string) (deadline now : Z)
| AWrite (fault : option io_error)
| ADrop (id : Z) (fault : option io_error).

(** A response takes only the pending table; the others take the registry, which a sender
    keeps until its request is written. *)
Inductive step : session -> action -> session -> Prop :=
| step_attach s label :
    s.(writing) = None ->
    step s (AAttach label) (attach_browser s label).2
| step_response s gen label resp :
    s.(readers) !! gen = Some (label, true) ->
    step s (AResponse gen resp) (reader_response s gen label resp)
| step_reader_end s gen label running :
    s.(writing) = None -> s.(readers) !! gen = Some (label, running) ->
    step s (AReaderEnd gen) (reader_cleanup s gen label)
| step_shutdown s :
    s.(writing) = None ->
    step s AShutdown (shutdown_all_browsers s).2
| step_send s command browser deadline now :
    s.(writing) = None ->
    step s (ASend command browser deadline now)
      (send_register s command browser deadline now).2
| step_write s out fault :
    s.(writing) = Some out ->
    step s (AWrite fault) (send_write s out fault).2
| step_drop s id g fault :
    s.(writing) = None -> s.(guards) !! id = Some g ->
    step s (ADrop id fault) (drop_in_flight s id g fault).

Definition run (s : session) : Prop := reachable step (fun s => s = session_new) s.

(** * Lemmas: routing *)

Lemma sort_labels_Permutation l : sort_labels l ≡ₚ l.
Proof. apply merge_sort_Permutation. Qed.

(** The map's iteration order cannot matter. *)
Lemma sort_labels_ext l l' : l ≡ₚ l' -> sort_labels l = sort_labels l'.
Proof.
  intros H. apply (Sorted_unique String.le); try apply (Sorted_merge_sort _); try apply _.
  by rewrite !sort_labels_Permutation.
Qed.

Lemma elem_of_sort_labels x l : x ∈ sort_labels l <-> x ∈ l.
Proof. by rewrite (sort_labels_Permutation l). Qed.

Lemma elem_of_live_labels s label : label ∈ live_labels s <-> is_Some (conns s !! label).
Proof.
  unfold live_labels. rewrite list_elem_of_fmap. split.
  - intros ([l g] & -> & H). apply elem_of_map_to_list in H. eauto.
  - intros [g H]. exists (label, g). split; [done|]. by apply elem_of_map_to_list.
Qed.

Lemma resolve_target_Ok available want label :
  resolve_target available want = Ok label ->
  label ∈ available /\ (forall w, want = Some w -> label = w) /\
  (want = None -> available = [label]).
Proof.
  unfold resolve_target. destruct want as [w|].
  - destruct (str_mem w _) eqn:E; [|by destruct (_ =? 0)%nat].
    intros H. injection H as <-. rewrite str_mem_true, elem_of_sort_labels in E.
    split; [done|]. split; [by intros ? [= <-]|done].
  - destruct (sort_labels available) as [|x [|y l]] eqn:E; [done| |done].
    intros H. injection H as <-.
    assert (available = [x]) as ->.
    { apply Permutation_singleton_r. by rewrite <- E, sort_labels_Permutation. }
    split; [set_solver|]. split; [done|done].
Qed.

(** * Lemmas: channels and the wire log *)

Definition chan (s : session) (id : Z) : list Delivery := default [] (s.(inbox) !! id).

Definition replies (ds : list Delivery) : list ParsedResp :=
  omap (fun d => match d with Reply r => Some r | Severed => None end) ds.

Definition req_ids (w : list (Generation * Frame)) : list Z :=
  omap (fun x => match x.2 with FReq r => Some (rq_id r) | FSignal _ => None end) w.

Definition cancel_ids (w : list (Generation * Frame)) : list Z :=
  omap (fun x => match x.2 with FSignal (CancelSignal id) => Some id | FReq _ => None end) w.

Lemma push_delivery_lookup d id i j :
  default [] (push_delivery d id i !! j) =
    if decide (j = id) then default [] (i !! j) ++ [d] else default [] (i !! j).
Proof.
  unfold push_delivery. case_decide as E.
  - subst. by rewrite lookup_insert_eq.
  - by rewrite lookup_insert_ne.
Qed.

Lemma sever_replies ids i j :
  replies (default [] (sever ids i !! j)) = replies (default [] (i !! j)).
Proof.
  induction ids as [|id ids IH]; [done|]. cbn [sever foldr].
  rewrite push_delivery_lookup. fold (sever ids i). case_decide; [|done].
  unfold replies in *. rewrite omap_app, IH. cbn. by rewrite app_nil_r.
Qed.

Lemma sever_woken ids i id :
  id ∈ ids -> Severed ∈ default [] (sever ids i !! id).
Proof.
  induction ids as [|k ids IH]; intros Hin; [set_solver|].
  cbn [sever foldr]. rewrite push_delivery_lookup. fold (sever ids i).
  destruct (decide (id = k)) as [->|Hn]; [set_solver|].
  apply IH. set_solver.
Qed.

Lemma req_ids_app w w' : req_ids (w ++ w') = req_ids w ++ req_ids w'.
Proof. apply omap_app. Qed.

Lemma cancel_ids_app w w' : cancel_ids (w ++ w') = cancel_ids w ++ cancel_ids w'.
Proof. apply omap_app. Qed.

Lemma NoDup_snoc {A} (l : list A) x : NoDup l -> x ∉ l -> NoDup (l ++ [x]).
Proof. intros Hl Hx. apply NoDup_app. split; [done|]. split; [set_solver|]. apply NoDup_singleton. Qed.

(** * The invariant *)

(** Fewer ids and generations taken than a [u64] can number. *)
Definition bounded (s : session) : Prop :=
  (s.(sends) < u64_mod - 1)%Z /\ (s.(mints) < u64_mod - 1)%Z.

Record inv (s : session) : Prop := {
  inv_next_id : (0 <= s.(sends) /\ s.(next_id) = s.(sends) + 1)%Z;
  inv_next_gen : (0 <= s.(mints) /\ s.(next_gen) = s.(mints) + 1)%Z;
  (** Every registered connection has its reader thread, under its own label. *)
  inv_conns : forall l g, s.(conns) !! l = Some g -> exists r, s.(readers) !! g = Some (l, r);
  inv_readers : forall g x, s.(readers) !! g = Some x -> (1 <= g <= s.(mints))%Z;
  inv_cap : (size s.(conns) <= MAX_BROWSERS)%nat;
  (** A pending entry is owned by a guard, or by the request being written, and bound to its
      connection. *)
  inv_pending : forall id g, s.(pending) !! id = Some g ->
    (exists fl, s.(guards) !! id = Some fl /\ fl_gen fl = g) \/
    (exists out, s.(writing) = Some out /\ og_id out = id /\ fl_gen (og_flight out) = g);
  (** The request being written is new to the wire. *)
  inv_writing : forall out, s.(writing) = Some out ->
    (1 <= og_id out <= s.(sends))%Z /\ s.(guards) !! og_id out = None /\
    (og_id out ∉ req_ids s.(wire)) /\ (og_id out ∉ cancel_ids s.(wire));
  (** A guard's request was written, to its connection, under its label. *)
  inv_guards : forall id fl, s.(guards) !! id = Some fl -> (1 <= id <= s.(sends))%Z /\
    exists cmd, (fl_gen fl, FReq (mkReq id cmd (Some (fl_label fl)))) ∈ s.(wire);
  (** One reply at most, and none while the request is pending. *)
  inv_replies : forall id, (length (replies (chan s id)) <= 1)%nat /\
    forall r, r ∈ replies (chan s id) ->
      pr_id r = id /\ s.(pending) !! id = None /\ (1 <= id <= s.(sends))%Z;
  inv_reqs : NoDup (req_ids s.(wire)) /\
    forall id, id ∈ req_ids s.(wire) -> (1 <= id <= s.(sends))%Z;
  (** A cancel is for a dropped request that got no reply. *)
  inv_cancels : NoDup (cancel_ids s.(wire)) /\
    forall id, id ∈ cancel_ids s.(wire) -> id ∈ req_ids s.(wire) /\
      s.(guards) !! id = None /\ replies (chan s id) = []
}.

Lemma inv_new : inv session_new.
Proof.
  split; cbn.
  - lia.
  - lia.
  - intros l g. by rewrite lookup_empty.
  - intros g x. by rewrite lookup_empty.
  - rewrite map_size_empty. lia.
  - intros id g. by rewrite lookup_empty.
  - done.
  - intros id fl. by rewrite lookup_empty.
  - intros id. unfold chan. cbn. rewrite lookup_empty. cbn. split; [lia|set_solver].
  - split; [constructor|set_solver].
  - split; [constructor|set_solver].
Qed.

(** A dropped request is not pending. *)
Lemma inv_not_pending s id : inv s -> writing s = None -> guards s !! id = None -> pending s !! id = None.
Proof.
  intros Hi Hw Hg. destruct (pending s !! id) as [g|] eqn:E; [|done].
  destruct (inv_pending _ Hi _ _ E) as [(fl & Hfl & _)|(out & Hout & _)]; congruence.
Qed.

Lemma inv_attach s label :
  inv s -> bounded (attach_browser s label).2 -> inv (attach_browser s label).2.
Proof.
  intros Hi. unfold attach_browser, attach_authenticated.
  destruct (bool_decide _ && _) eqn:Ecap; [done|]. cbn.
  destruct (inv_next_gen _ Hi) as [Hm Hg].
  destruct (Z.eqb_spec (next_gen s) 0) as [Hz|Hz]; [lia|]. cbn.
  intros [_ Hb]. cbn in Hb.
  assert (readers s !! next_gen s = None) as Hfresh.
  { destruct (readers s !! next_gen s) eqn:E; [|done]. apply (inv_readers _ Hi) in E. lia. }
  destruct Hi. split; cbn; try done.
  - split; [lia|]. rewrite Z.mod_small; [lia|]. unfold u64_mod in *. lia.
  - intros l g Hl. apply lookup_insert_Some in Hl as [[<- <-]|[Hne Hl]].
    + exists true. by rewrite lookup_insert_eq.
    + destruct (inv_conns0 _ _ Hl) as [r Hr]. exists r. rewrite lookup_insert_ne; [done|congruence].
  - intros g x Hx. apply lookup_insert_Some in Hx as [[<- _]|[_ Hx]]; [lia|].
    apply inv_readers0 in Hx. lia.
  - destruct (conns s !! label) as [g|] eqn:E.
    + rewrite map_size_insert_Some by eauto. done.
    + rewrite map_size_insert_None by done. rewrite bool_decide_true in Ecap by done.
      rewrite andb_true_l in Ecap. apply Nat.leb_gt in Ecap. lia.
Qed.

Lemma inv_response s gen label resp :
  inv s -> readers s !! gen = Some (label, true) -> inv (reader_response s gen label resp).
Proof.
  intros Hi Hr. unfold reader_response, route_response.
  destruct (pending s !! pr_id resp) as [g|] eqn:Ep; [|done].
  destruct (Z.eqb_spec g gen) as [->|Hne].
  - assert (1 <= pr_id resp <= sends s)%Z as Hid.
    { destruct (inv_pending _ Hi _ _ Ep) as [(fl & Hfl & _)|(out & Hw & <- & _)];
        [by apply (inv_guards _ Hi) in Hfl as [? _]|by apply (inv_writing _ Hi) in Hw as [? _]]. }
    assert (pr_id resp ∉ cancel_ids (wire s)) as Hcan.
    { intros Hin. destruct (proj2 (inv_cancels _ Hi) _ Hin) as (_ & Hg & _).
      destruct (inv_pending _ Hi _ _ Ep) as [(fl & Hfl & _)|(out & Hw & E & _)]; [congruence|].
      apply (inv_writing _ Hi) in Hw as (_ & _ & _ & Hc). rewrite E in Hc. done. }
    assert (replies (chan s (pr_id resp)) = []) as Hnone.
    { destruct (replies (chan s (pr_id resp))) as [|r l] eqn:E; [done|].
      destruct (inv_replies _ Hi (pr_id resp)) as [_ H].
      destruct (H r) as (_ & Hp & _); [rewrite E; set_solver|congruence]. }
    destruct Hi. split; cbn; try done.
    + intros id g Hp. apply lookup_delete_Some in Hp as [_ Hp]. eauto.
    + intros id. unfold chan. cbn. rewrite push_delivery_lookup. fold (chan s id).
      unfold replies in *. case_decide as Hc.
      * subst id. rewrite omap_app, Hnone. cbn. split; [lia|]. intros r Hin.
        assert (r = resp) as -> by set_solver. split; [done|].
        split; [by rewrite lookup_delete_eq|done].
      * destruct (inv_replies0 id) as [Hl Hin]. split; [done|]. intros r Hr'.
        destruct (Hin r Hr') as (H1 & H2 & H3). split; [done|]. split; [|done].
        by rewrite lookup_delete_ne by done.
    + destruct inv_cancels0 as [Hnd Hc]. split; [done|]. intros id Hid'.
      destruct (Hc id Hid') as (H1 & H2 & H3). split; [done|]. split; [done|].
      unfold chan. cbn. rewrite push_delivery_lookup. fold (chan s id).
      case_decide; [by subst|done].
  - destruct Hi. split; cbn; try done.
    + intros l g' Hl. destruct (inv_conns0 _ _ Hl) as [r Hg].
      destruct (decide (g' = gen)) as [->|Hn].
      * exists false. rewrite lookup_insert_eq. rewrite Hr in Hg. by injection Hg as <- <-.
      * exists r. by rewrite lookup_insert_ne.
    + intros g' x Hx. apply lookup_insert_Some in Hx as [[<- _]|[_ Hx]]; eauto.
Qed.

(** Waking callers moves nothing the invariant reads. *)
Lemma inv_sever s ids : inv s -> inv (with_inbox s (sever ids s.(inbox))).
Proof.
  intros Hi.
  assert (forall id, replies (chan (with_inbox s (sever ids (inbox s))) id) = replies (chan s id)) as Hc.
  { intros id. unfold chan. cbn. apply sever_replies. }
  destruct Hi. split; cbn; try done.
  - intros id. rewrite Hc. apply inv_replies0.
  - split; [apply inv_cancels0|]. intros id Hid. rewrite Hc. by apply inv_cancels0.
Qed.

Lemma inv_clear_conn s label : inv s -> inv (with_conns s (delete label s.(conns))).
Proof.
  intros Hi. destruct Hi. split; cbn; try done.
  - intros l g Hl. apply lookup_delete_Some in Hl as [_ Hl]. eauto.
  - rewrite map_size_delete. destruct (conns s !! label); cbn; lia.
Qed.

(** A reader that leaves owns no registered connection. *)
Lemma inv_reader_end s gen label running :
  inv s -> readers s !! gen = Some (label, running) -> inv (reader_cleanup s gen label).
Proof.
  intros Hi Hr. unfold reader_cleanup, sever_pending_for_generation, should_clear_conn.
  set (s1 := if bool_decide (conns s !! label = Some gen)
             then with_conns s (delete label (conns s)) else s).
  assert (inv s1 /\ readers s1 = readers s /\ forall l, conns s1 !! l <> Some gen) as (H1 & H2 & H3).
  { unfold s1. case_bool_decide as Hc;
      (split; [done || by apply inv_clear_conn|]); cbn; (split; [done|]); intros l Hl.
    - apply lookup_delete_Some in Hl as [Hne Hl].
      destruct (inv_conns _ Hi _ _ Hl) as [r Hr']. rewrite Hr in Hr'. by injection Hr' as -> _.
    - destruct (inv_conns _ Hi _ _ Hl) as [r Hr']. rewrite Hr in Hr'.
      injection Hr' as -> _. done. }
  clearbody s1. apply (inv_sever _ (pending_of (pending s1) gen)) in H1.
  destruct H1. cbn in *. split; cbn; try done.
  - intros l g Hl. destruct (inv_conns0 _ _ Hl) as [r Hg]. exists r.
    rewrite lookup_delete_ne; [done|]. intros ->. by apply (H3 l).
  - intros g x Hx. apply lookup_delete_Some in Hx as [_ Hx]. eauto.
Qed.

Lemma inv_shutdown s : inv s -> inv (shutdown_all_browsers s).2.
Proof.
  intros Hi. unfold shutdown_all_browsers, sever_pending_all. cbn [snd].
  apply (inv_sever (with_conns s ∅)). destruct Hi. split; cbn; try done.
  rewrite map_size_empty. lia.
Qed.

Lemma inv_take_id s :
  inv s -> writing s = None -> bounded (take_id s).2 -> inv (take_id s).2 /\
  (guards (snd (take_id s)) !! fst (take_id s)) = None /\ (pending s !! fst (take_id s)) = None /\
  replies (chan s (take_id s).1) = [] /\ (fst (take_id s) ∉ req_ids (wire s)) /\
  (fst (take_id s) ∉ cancel_ids (wire s)) /\ (take_id s).1 = sends (take_id s).2.
Proof.
  intros Hi Hw [Hb _]. cbn in *. destruct (inv_next_id _ Hi) as [Hs Hn].
  assert (guards s !! next_id s = None) as Hg.
  { destruct (guards s !! next_id s) eqn:E; [|done]. apply (inv_guards _ Hi) in E. lia. }
  assert (next_id s ∉ req_ids (wire s)) as Hreq.
  { intros Hin. apply (inv_reqs _ Hi) in Hin. lia. }
  split; [|repeat split; try done].
  - destruct Hi. split; cbn; try done.
    + split; [lia|]. rewrite Z.mod_small; [lia|]. unfold u64_mod in *. lia.
    + intros out Hout. congruence.
    + intros id fl Hfl. destruct (inv_guards0 _ _ Hfl) as [? ?]. split; [lia|done].
    + intros id. destruct (inv_replies0 id) as [Hl Hin]. split; [done|]. intros r Hr.
      destruct (Hin r Hr) as (? & ? & ?). split; [done|]. split; [done|lia].
    + destruct inv_reqs0 as [? Hr]. split; [done|]. intros id Hid. specialize (Hr id Hid). lia.
  - by apply inv_not_pending.
  - destruct (replies (chan s (next_id s))) as [|r l] eqn:E; [done|].
    destruct (inv_replies _ Hi (next_id s)) as [_ H].
    destruct (H r) as (_ & _ & ?); [rewrite E; set_solver|lia].
  - intros Hin. apply (inv_cancels _ Hi) in Hin as [? _]. done.
Qed.

(** The entry of a request that is about to be written. *)
Lemma inv_registered s id label g now deadline cmd :
  inv s -> writing s = None -> (1 <= id <= sends s)%Z -> guards s !! id = None -> replies (chan s id) = [] ->
  id ∉ req_ids (wire s) -> id ∉ cancel_ids (wire s) ->
  inv (with_writing (with_pending s (<[id := g]> (pending s))) (Some (mkOutgoing id (mkInFlight label g now deadline) cmd))).
Proof.
  intros Hi Hw Hid Hg Hrep Hreq Hcan. destruct Hi. split; cbn; try done.
  - intros i g' Hp. apply lookup_insert_Some in Hp as [[<- <-]|[Hne Hp]]; [right; by eexists|].
    destruct (inv_pending0 _ _ Hp) as [?|(out & Hout & _)]; [by left|congruence].
  - intros out [= <-]. done.
  - intros i. destruct (inv_replies0 i) as [Hl Hin]. split; [done|]. intros r Hr.
    destruct (Hin r Hr) as (? & ? & ?). split; [done|]. split; [|done].
    rewrite lookup_insert_ne; [done|]. intros <-. unfold chan in *. cbn in Hr.
    rewrite Hrep in Hr. set_solver.
Qed.

(** The write of a request, answered already or not, or its failure. *)
Lemma inv_write s out fault : inv s -> writing s = Some out -> inv (send_write s out fault).2.
Proof.
  intros Hi Hw. destruct (inv_writing _ Hi _ Hw) as (Hid & Hg & Hreq & Hcan). unfold send_write.
  destruct fault as [e|]; cbn [snd]; destruct Hi; split; cbn; try done.
  - intros i g Hp. apply lookup_delete_Some in Hp as [Hne Hp].
    destruct (inv_pending0 _ _ Hp) as [?|(o & Ho & <- & _)]; [by left|congruence].
  - intros i. destruct (inv_replies0 i) as [Hl Hin]. split; [done|]. intros r Hr.
    destruct (Hin r Hr) as (? & ? & ?). split; [done|]. split; [|done].
    destruct (decide (i = og_id out)) as [->|]; [by rewrite lookup_delete_eq|by rewrite lookup_delete_ne].
  - intros i g Hp. left. destruct (inv_pending0 _ _ Hp) as [(fl & Hfl & ?)|(o & Ho & <- & ?)].
    + exists fl. rewrite lookup_insert_ne; [done|]. intros <-. congruence.
    + exists (og_flight out). rewrite Hw in Ho. injection Ho as <-. by rewrite lookup_insert_eq.
  - intros i fl Hfl. apply lookup_insert_Some in Hfl as [[<- <-]|[Hne Hfl]].
    + split; [done|]. exists (og_command out). set_solver.
    + destruct (inv_guards0 _ _ Hfl) as (? & c & ?). split; [done|]. exists c. set_solver.
  - rewrite req_ids_app. cbn. destruct inv_reqs0 as [Hnd Hr]. split; [by apply NoDup_snoc|].
    intros i Hin. apply elem_of_app in Hin as [?|Hin]; [auto|]. set_solver.
  - rewrite cancel_ids_app, req_ids_app. cbn. rewrite app_nil_r.
    destruct inv_cancels0 as [Hnd Hc]. split; [done|]. intros i Hin.
    destruct (Hc i Hin) as (? & ? & ?). split; [set_solver|]. split; [|done].
    rewrite lookup_insert_ne; [done|]. intros <-. done.
Qed.

Lemma register_counts s command browser deadline now :
  sends (send_register s command browser deadline now).2 = (sends s + 1)%Z /\
  mints (send_register s command browser deadline now).2 = mints s.
Proof.
  unfold send_register. cbn. destruct (resolve_target _ _) as [label|]; [|done].
  destruct (conns s !! label); [|done]. by destruct (_ <=? _)%Z.
Qed.

Lemma inv_register s command browser deadline now :
  inv s -> writing s = None -> bounded (send_register s command browser deadline now).2 ->
  inv (send_register s command browser deadline now).2.
Proof.
  intros Hi Hw Hb. destruct (register_counts s command browser deadline now) as [H1 H2].
  assert (bounded (take_id s).2) as Hb' by (unfold bounded in *; rewrite H1, H2 in Hb; done).
  destruct (inv_take_id _ Hi Hw Hb') as (Hi' & Hg & Hp & Hr & Hq & Hc & Hid).
  unfold send_register. destruct (take_id s) as [id s1] eqn:Et. cbn [fst snd] in *.
  assert (chan s1 id = chan s id /\ wire s1 = wire s /\ writing s1 = None) as (E2 & E3 & E4).
  { unfold take_id in Et. by injection Et as <- <-. }
  destruct (resolve_target _ _) as [label|]; [|done].
  destruct (conns s1 !! label) as [g|]; [|done].
  destruct (_ <=? _)%Z; [done|]. cbn [snd].
  apply inv_registered; rewrite ?E2, ?E3; auto.
  destruct (inv_next_id _ Hi'), (inv_next_id _ Hi). unfold take_id in Et. injection Et as <- <-. cbn in *. lia.
Qed.

Lemma inv_drop s id g fault :
  inv s -> writing s = None -> guards s !! id = Some g -> inv (drop_in_flight s id g fault).
Proof.
  intros Hi Hw Hg. unfold drop_in_flight.
  set (s1 := with_guards (with_pending s (delete id (pending s))) (delete id (guards s))).
  assert (inv s1) as H1.
  { destruct Hi. split; cbn; try done.
    - intros i g' Hp. apply lookup_delete_Some in Hp as [Hne Hp].
      destruct (inv_pending0 _ _ Hp) as [(fl & ? & ?)|(out & Hout & _)]; [left|congruence].
      exists fl. by rewrite lookup_delete_ne.
    - intros out Hout. congruence.
    - intros i fl Hfl. apply lookup_delete_Some in Hfl as [_ Hfl]. eauto.
    - intros i. destruct (inv_replies0 i) as [Hl Hin]. split; [done|]. intros r Hr.
      destruct (Hin r Hr) as (? & ? & ?). split; [done|]. split; [|done].
      destruct (decide (i = id)) as [->|]; [by rewrite lookup_delete_eq|by rewrite lookup_delete_ne].
    - split; [apply inv_cancels0|]. intros i Hin.
      destruct (proj2 inv_cancels0 i Hin) as (? & ? & ?). split; [done|]. split; [|done].
      destruct (decide (i = id)) as [->|]; [by rewrite lookup_delete_eq|by rewrite lookup_delete_ne]. }
  case_bool_decide as Hpend; cbn [negb]; [|done].
  destruct (conns s1 !! fl_label g) as [c|]; [|done]. destruct fault; [done|].
  assert (id ∈ req_ids (wire s)) as Hreq.
  { destruct (inv_guards _ Hi _ _ Hg) as (_ & cmd & Hwire). unfold req_ids.
    apply list_elem_of_omap. eexists. split; [exact Hwire|done]. }
  assert (id ∉ cancel_ids (wire s)) as Hcan.
  { intros Hin. apply (inv_cancels _ Hi) in Hin as (_ & ? & _). congruence. }
  assert (replies (chan s id) = []) as Hrep.
  { destruct Hpend as [gen Hpend]. destruct (replies (chan s id)) as [|r l] eqn:E; [done|].
    destruct (inv_replies _ Hi id) as [_ H]. destruct (H r) as (_ & ? & _);
      [rewrite E; set_solver|congruence]. }
  destruct H1. split; cbn in *; try done.
  - intros out Hout. congruence.
  - intros i fl Hfl. destruct (inv_guards0 _ _ Hfl) as (? & cmd & ?). split; [done|].
    exists cmd. set_solver.
  - rewrite req_ids_app. cbn. by rewrite app_nil_r.
  - rewrite cancel_ids_app, req_ids_app. cbn. rewrite app_nil_r.
    destruct inv_cancels0 as [Hnd Hc]. split; [by apply NoDup_snoc|]. intros i Hin.
    apply elem_of_app in Hin as [Hin|Hin]; [auto|].
    assert (i = id) as -> by set_solver. split; [done|]. split; [by rewrite lookup_delete_eq|done].
Qed.

Lemma step_bounded s a s' : step s a s' -> bounded s' -> bounded s.
Proof.
  intros Hstep [H1 H2]. unfold bounded.
  destruct Hstep as [s label _|s g l r _|s g l r _ _|s _|s c b d n _|s out f _|s id g f _ _].
  - unfold attach_browser, attach_authenticated in *.
    destruct (bool_decide _ && _); [done|]. cbn in *.
    destruct (_ =? 0)%Z; cbn in *; lia.
  - unfold reader_response, route_response in *.
    destruct (pending s !! pr_id r); [|done]. by destruct (_ =? _)%Z.
  - unfold reader_cleanup in *. by destruct (should_clear_conn _ _).
  - done.
  - destruct (register_counts s c b d n) as [E1 E2]. rewrite E1, E2 in *. lia.
  - by destruct f.
  - unfold drop_in_flight in *. destruct (negb _); [done|].
    cbn in *. destruct (conns s !! fl_label g); [|done]. by destruct f.
Qed.

(** Every interleaving keeps the invariant. *)
Lemma run_inv s : run s -> bounded s -> inv s.
Proof.
  intros Hrun. pattern s. revert s Hrun. apply (reachable_invariant step).
  - intros s -> _. apply inv_new.
  - intros s a s' IH Hstep Hb. specialize (IH (step_bounded _ _ _ Hstep Hb)).
    destruct Hstep; eauto using inv_attach, inv_response, inv_reader_end, inv_shutdown,
      inv_register, inv_write, inv_drop.
Qed.

(** Until its sender goes on, a request being written keeps the registry as it is; then it has a
    guard or no entry. *)
Lemma writing_kept s out a s' :
  writing s = Some out -> step s a s' ->
  (writing s' = Some out /\ conns s' = conns s) \/ is_Some (guards s' !! og_id out) \/ pending s' !! og_id out = None.
Proof.
  intros Hw Hstep. destruct Hstep as [| ? ? ? resp Hr | | | | s o fault Ho |]; try congruence.
  - left. unfold reader_response, route_response. destruct (pending s !! pr_id resp) as [g|]; [|done].
    by destruct (_ =? _)%Z.
  - right. rewrite Hw in Ho. injection Ho as <-. unfold send_write. destruct fault; cbn.
    + right. apply lookup_delete_eq.
    + left. rewrite lookup_insert_eq. by eexists.
Qed.

(** * Properties *)

(** C29: replies stay with the browser that was asked. In every interleaving, a
    response on a connection reaches a caller only if that caller's request has that id and
    was written to that same connection, or is registered for it and being written this
    moment, its sender still under the registry lock; and then only that caller's channel
    moves. A response for a request of another connection, also one being written, reaches
    nobody and ends the loop of the reader it came in on. *)
Theorem replies_reach_only_their_caller (s s' : session) (gen : Z) (resp : ParsedResp) :
  run s -> bounded s -> step s (AResponse gen resp) s' ->
  (forall id, chan s' id <> chan s id ->
     id = pr_id resp /\ chan s' id = chan s id ++ [Reply resp] /\
     ((exists fl cmd, guards s !! id = Some fl /\
         (gen, FReq (mkReq id cmd (Some (fl_label fl)))) ∈ wire s) \/
      (exists out, writing s = Some out /\ og_id out = id /\ fl_gen (og_flight out) = gen))) /\
  (forall g, pending s !! pr_id resp = Some g -> g <> gen ->
     (forall id, chan s' id = chan s id) /\
     exists label, readers s' !! gen = Some (label, false)).
Proof.
  intros Hrun Hb Hstep. pose proof (run_inv _ Hrun Hb) as Hi.
  inversion Hstep as [|? ? label ? Hr| | | | |]; subst.
  unfold reader_response, route_response.
  destruct (pending s !! pr_id resp) as [g|] eqn:Ep; [|done].
  destruct (Z.eqb_spec g gen) as [->|Hne].
  - split; [|naive_solver]. intros id. unfold chan. cbn.
    rewrite push_delivery_lookup. case_decide as Hc; [|done]. subst id.
    intros _. split; [done|]. split; [done|].
    destruct (inv_pending _ Hi _ _ Ep) as [(fl & Hfl & <-)|(out & Hw & ? & ?)]; [left; exists fl|right; by eauto].
    destruct (inv_guards _ Hi _ _ Hfl) as (_ & cmd & Hw). by exists cmd.
  - split; [done|]. intros g' _ _. split; [done|]. exists label. cbn. by rewrite lookup_insert_eq.
Qed.

(** C30: one request, one ending. In every interleaving each id is written to
    the wire at most once, its caller's channel holds at most one reply, at most
    one cancel is ever sent for it, and never for a request that was answered or
    is still awaited. *)
Theorem one_request_one_ending (s : session) (id : Z) :
  run s -> bounded s ->
  (length (List.filter (Z.eqb id) (req_ids (wire s))) <= 1)%nat /\
  (length (replies (chan s id)) <= 1)%nat /\
  (length (List.filter (Z.eqb id) (cancel_ids (wire s))) <= 1)%nat /\
  (id ∈ cancel_ids (wire s) ->
     id ∈ req_ids (wire s) /\ replies (chan s id) = [] /\ guards s !! id = None).
Proof.
  intros Hrun Hb. pose proof (run_inv _ Hrun Hb) as Hi.
  assert (forall l, NoDup l -> (length (List.filter (Z.eqb id) l) <= 1)%nat) as Hnd.
  { induction 1 as [|x l Hx _ IH]; cbn; [lia|].
    destruct (Z.eqb_spec id x) as [<-|]; [|done]. cbn.
    assert (List.filter (Z.eqb id) l = []) as ->; [|cbn; lia].
    destruct (List.filter (Z.eqb id) l) as [|y t] eqn:E; [done|].
    assert (y ∈ List.filter (Z.eqb id) l) as Hy by (rewrite E; set_solver).
    apply elem_of_bfilter in Hy as [Hy ?%Z.eqb_eq]. subst. done. }
  destruct (inv_reqs _ Hi), (inv_cancels _ Hi) as [? Hc], (inv_replies _ Hi id).
  repeat split; auto; by apply Hc.
Qed.

(** C37: the registry is bounded and every entry is one live connection: at most
    sixteen labels, no two labels share a generation, every registered
    generation has its own reader under that label, and every pending request
    still has the guard that will remove it, or is the one its sender is writing, which
    makes that guard or removes the entry before it lets go of the registry. *)
Theorem registry_is_sound (s : session) :
  run s -> bounded s ->
  (size (conns s) <= MAX_BROWSERS)%nat /\
  (forall l l' g, conns s !! l = Some g -> conns s !! l' = Some g -> l = l') /\
  (forall l g, conns s !! l = Some g -> exists r, readers s !! g = Some (l, r)) /\
  (forall id g, pending s !! id = Some g ->
     (exists fl, guards s !! id = Some fl /\ fl_gen fl = g) \/
     (exists out, writing s = Some out /\ og_id out = id /\ fl_gen (og_flight out) = g /\
        forall a s', step s a s' ->
          (writing s' = Some out /\ conns s' = conns s) \/ is_Some (guards s' !! id) \/ pending s' !! id = None)).
Proof.
  intros Hrun Hb. pose proof (run_inv _ Hrun Hb) as Hi.
  split; [apply Hi|]. split; [|split; [apply Hi|]]; cycle 1.
  { intros id g Hp. destruct (inv_pending _ Hi _ _ Hp) as [?|(out & Hw & <- & Hg)]; [by left|right].
    exists out. repeat (split; [done|]). intros a s' Hstep. by eapply (writing_kept s out). }
  intros l l' g H H'. destruct (inv_conns _ Hi _ _ H) as [r Hr], (inv_conns _ Hi _ _ H') as [r' Hr'].
  rewrite Hr in Hr'. by injection Hr'.
Qed.

Lemma pending_of_elem p g id : p !! id = Some g -> id ∈ pending_of p g.
Proof.
  intros H. unfold pending_of. apply list_elem_of_fmap. exists (id, g). split; [done|].
  apply elem_of_map_to_list. by apply map_lookup_filter_Some.
Qed.

(** A reader that ends removes its own connection and no newer one. When a
    reader thread leaves, every connection of another generation stays
    registered, its own is gone, every caller whose request went out on it is
    woken, and no pending entry is lost. *)
Theorem reader_end_spares_newer_connections (s s' : session) (gen : Z) :
  run s -> bounded s -> step s (AReaderEnd gen) s' ->
  (forall l g, g <> gen -> conns s !! l = Some g -> conns s' !! l = Some g) /\
  (forall l, conns s' !! l <> Some gen) /\
  (forall id, pending s !! id = Some gen -> Severed ∈ chan s' id) /\
  pending s' = pending s /\ wire s' = wire s.
Proof.
  intros Hrun Hb Hstep. pose proof (run_inv _ Hrun Hb) as Hi.
  inversion Hstep as [| |? ? label running Hw Hr| | | |]; subst.
  unfold reader_cleanup, should_clear_conn, sever_pending_for_generation.
  assert (forall l, conns s !! l = Some gen -> l = label) as Hown.
  { intros l Hl. destruct (inv_conns _ Hi _ _ Hl) as [r Hr']. rewrite Hr in Hr'. by injection Hr'. }
  case_bool_decide as Hc; cbn; repeat split; try done.
  - intros l g Hne Hl. rewrite lookup_delete_ne; [done|]. intros ->. congruence.
  - intros l Hl. apply lookup_delete_Some in Hl as [Hne Hl]. by apply Hown in Hl.
  - intros id Hp. by apply sever_woken, pending_of_elem.
  - intros l Hl. pose proof (Hown _ Hl). by subst.
  - intros id Hp. by apply sever_woken, pending_of_elem.
Qed.

(** The kill sweep. One sweep empties the registry, wakes every waiting
    caller including those of connections already replaced, keeps every entry
    for its guard, and reports how many connections it severed; from then until
    a browser attaches, no request can be put on the wire. *)
Theorem kill_sweep_severs_everything (s s' : session) (n : nat) :
  shutdown_all_browsers s = (n, s') ->
  n = size (conns s) /\ conns s' = ∅ /\ pending s' = pending s /\
  (forall id, is_Some (pending s !! id) -> Severed ∈ chan s' id) /\
  (forall command browser deadline now fault,
     exists s'', send s' command browser deadline now fault = (Err NotConnected, s'') /\
       wire s'' = wire s).
Proof.
  unfold shutdown_all_browsers, sever_pending_all. intros H. injection H as <- <-.
  split; [done|]. split; [done|]. split; [done|]. split.
  - intros id [g Hg]. apply sever_woken. apply list_elem_of_fmap. exists (id, g).
    split; [done|]. by apply elem_of_map_to_list.
  - intros command browser deadline now fault. unfold send, send_register, live_labels. cbn.
    rewrite map_to_list_empty. cbn. destruct browser; eexists; split; reflexivity.
Qed.

(** Routing never guesses. A target is chosen only when it is named and
    connected, or when it is the only browser connected; an unnamed target among
    several, an unknown name and an empty registry are each their own refusal;
    and the choice does not depend on the order the registry is read in. *)
Theorem routing_never_guesses (available available' : list string) (want : option string) :
  available ≡ₚ available' ->
  resolve_target available' want = resolve_target available want /\
  match resolve_target available want with
  | Ok label => label ∈ available /\ (want = Some label \/ want = None /\ available = [label])
  | Err NotConnected => available = []
  | Err (BrowserNotFound w _) => want = Some w /\ (w ∉ available) /\ available <> []
  | Err (AmbiguousBrowser _) => want = None /\ (2 <= length available)%nat
  | Err _ => False
  end.
Proof.
  intros Hp. split.
  { unfold resolve_target. by rewrite (sort_labels_ext available' available). }
  pose proof (sort_labels_Permutation available) as Hs.
  destruct (resolve_target available want) as [label|e] eqn:E.
  - apply resolve_target_Ok in E as (H1 & H2 & H3). split; [done|].
    destruct want as [w|]; [left; by rewrite (H2 w)|right; auto].
  - unfold resolve_target in E. destruct want as [w|].
    + destruct (str_mem w _) eqn:Em; [done|]. rewrite str_mem_false, elem_of_sort_labels in Em.
      destruct (sort_labels available) as [|x l] eqn:El; cbn in E; injection E as <-.
      * by apply Permutation_nil_l in Hs.
      * split; [done|]. split; [done|]. intros ->. by apply Permutation_nil_r in Hs.
    + destruct (sort_labels available) as [|x [|y l]] eqn:El; [|done|]; injection E as <-.
      * by apply Permutation_nil_l in Hs.
      * split; [done|]. rewrite <- Hs. cbn. lia.
Qed.

(** ** Concrete runs for the witnesses *)

Module SessionExample.
Definition s1 : session := (attach_browser session_new "brave").2.
Definition s2 : session := (attach_browser s1 "edge").2.
Definition s2' : session := (send_register s2 (CmdTabList mkNoArgs) (Some "brave") 100 0).2.
Definition out : Outgoing := mkOutgoing 1 (mkInFlight "brave" 1 0 100) (CmdTabList mkNoArgs).
Definition s3 : session := (send_write s2' out None).2.
Definition answer : ParsedResp := mkParsed 1 (Ok (JArr [])).

Lemma run_s3 : run s3.
Proof.
  assert (run s2') as R.
  { eapply reach_step; [|apply (step_send s2); reflexivity]. eapply reach_step; [|apply (step_attach s1); reflexivity].
    eapply reach_step; [|apply (step_attach session_new); reflexivity]. by apply reach_init. }
  eapply reach_step; [exact R|]. apply (step_write s2' out None). vm_compute. reflexivity.
Qed.

Lemma bounded_s3 : bounded s3.
Proof. split; vm_compute; reflexivity. Qed.
End SessionExample.

Lemma replies_reach_only_their_caller_witness :
  let s' := reader_response SessionExample.s3 2 "edge" SessionExample.answer in
  chan s' 1 = chan SessionExample.s3 1 /\ exists label, readers s' !! 2%Z = Some (label, false).
Proof.
  intros s'. destruct (replies_reach_only_their_caller SessionExample.s3 s' 2
    SessionExample.answer SessionExample.run_s3 SessionExample.bounded_s3) as [_ H].
  - apply step_response. vm_compute. reflexivity.
  - destruct (H 1%Z) as [H1 H2]; [vm_compute; reflexivity|discriminate|].
    split; [apply H1|exact H2].
Defined.

Lemma one_request_one_ending_witness :
  (length (replies (chan SessionExample.s3 1)) <= 1)%nat /\
  (1%Z ∈ cancel_ids (wire SessionExample.s3) -> guards SessionExample.s3 !! 1%Z = None).
Proof.
  destruct (one_request_one_ending SessionExample.s3 1 SessionExample.run_s3
    SessionExample.bounded_s3) as (_ & H1 & _ & H2).
  split; [exact H1|]. intros H. exact (proj2 (proj2 (H2 H))).
Defined.

Lemma registry_is_sound_witness :
  (size (conns SessionExample.s3) <= MAX_BROWSERS)%nat /\
  (exists fl, guards SessionExample.s3 !! 1%Z = Some fl /\ fl_gen fl = 1%Z).
Proof.
  destruct (registry_is_sound SessionExample.s3 SessionExample.run_s3 SessionExample.bounded_s3)
    as (H1 & _ & _ & H2).
  split; [exact H1|]. destruct (H2 1%Z 1%Z) as [H|(out & Hw & _)]; [vm_compute; reflexivity|exact H|discriminate Hw].
Defined.

Lemma reader_end_spares_newer_connections_witness :
  let s' := reader_cleanup SessionExample.s3 1 "brave" in
  conns s' !! "edge" = Some 2%Z /\ Severed ∈ chan s' 1.
Proof.
  intros s'. destruct (reader_end_spares_newer_connections SessionExample.s3 s' 1
    SessionExample.run_s3 SessionExample.bounded_s3) as (H1 & _ & H2 & _).
  - apply (step_reader_end _ _ _ true); vm_compute; reflexivity.
  - split; [apply (H1 "edge" 2%Z); [discriminate|vm_compute; reflexivity]|].
    apply H2. vm_compute. reflexivity.
Defined.

Lemma kill_sweep_severs_everything_witness :
  exists s', shutdown_all_browsers SessionExample.s3 = (2%nat, s') /\ conns s' = ∅ /\
    Severed ∈ chan s' 1.
Proof.
  destruct (shutdown_all_browsers SessionExample.s3) as [n s'] eqn:E.
  destruct (kill_sweep_severs_everything SessionExample.s3 s' n E) as (H1 & H2 & _ & H3 & _).
  assert (n = 2%nat) as -> by (rewrite H1; vm_compute; reflexivity).
  exists s'. split; [reflexivity|]. split; [exact H2|]. apply H3. vm_compute. eauto.
Defined.

Lemma routing_never_guesses_witness :
  resolve_target ["edge"; "brave"] None = resolve_target ["brave"; "edge"] None /\
  code (AmbiguousBrowser "brave, edge") = "BROWSER_AMBIGUOUS".
Proof.
  split; [|reflexivity].
  apply (routing_never_guesses ["brave"; "edge"] ["edge"; "brave"] None). apply perm_swap.
Defined.
