(* ===== verification/Mcp.v ===== *)
(** Mcp: the guarded execution path of one tool call
    (src/src/packages/core/src/mcp/handler.rs [execute_tool_call],
    [route_and_dispatch]; tools/mod.rs [dispatch], [error_outcome],
    [list_browsers]).

    What the session answers is an argument ([session_view]): [Session.v] is the
    model of how those answers come about. The result rendering uses serde_json's
    printer ([json_text] of [Catalogue.SerdeText]). *)
From S2P Require Import Prelude Json RuntimeRecord Policy Identity Trust PolicyRecord PrefixCodec World Messages PolicyStore Errors ToolArgs Catalogue Gating Wire.
From stdpp Require Import base list sets strings.

(** * Outcomes *)

Inductive Outcome :=
| Success (content : json)
| Error (content : json) (code : string).

Definition outcome_content (o : Outcome) : json :=
  match o with Success c => c | Error c _ => c end.
Definition is_error (o : Outcome) : bool :=
  match o with Success _ => false | Error _ _ => true end.
Definition error_code (o : Outcome) : option string :=
  match o with Success _ => None | Error _ code => Some code end.

(** One MCP text block. *)
Definition text_content (text : string) : json :=
  JArr [JObj [("type", JStr "text"); ("text", JStr text)]].

Definition error_outcome (e : CallError) : Outcome :=
  Error (text_content ("Error [" +:+ code e +:+ "]: " +:+ call_error_display e)) (code e).

(** * Dispatch *)

(** What one call observes of the session: the sorted live labels, the reply of
    a routed call, the reply of the per-browser [tab_list] round trips, and the
    routes before and after the dispatch. *)
Record session_view := mkView {
  sv_labels : list string;
  sv_call : BridgeCommand -> option string -> result CallError json;
  sv_enumerate : string -> result CallError json;
  sv_route_before : option string -> option (string * Z);
  sv_route_after : option string -> option (string * Z)
}.

Definition browser_entry (v : session_view) (label : string) : json :=
  match v.(sv_enumerate) label with
  | Ok data =>
      let count := match data with JArr tabs => JInt (Z.of_nat (length tabs)) | _ => JNull end in
      JObj [("label", JStr label); ("tabCount", count)]
  | Err e =>
      JObj [("label", JStr label); ("tabCount", JNull); ("error", JStr (call_error_display e))]
  end.

(** A browser that fails to answer stays listed, with its error. *)
Definition list_browsers (v : session_view) : result CallError json :=
  let browsers := browser_entry v <$> v.(sv_labels) in
  Ok (JObj [("count", JInt (Z.of_nat (length browsers))); ("browsers", JArr browsers)]).

(** [data.get("image").and_then(Value::as_str)]. *)
Definition image_of (data : json) : option string :=
  m ← as_object data; j ← member "image" m; as_str j.

Section dispatch.
Context `{ST : SerdeText}.

Definition dispatch (v : session_view) (call : ToolCall) : Outcome :=
  let t := call_tool call in
  let result := match t.(t_dispatch) with
                | ServerLocal => list_browsers v
                | Bridge _ _ _ => v.(sv_call) call.(tc_command) call.(tc_browser)
                end in
  match result with
  | Err e => error_outcome e
  | Ok data =>
      Success match t.(t_dispatch), image_of data with
              | Bridge _ _ ResultImage, Some png_b64 =>
                  JArr [JObj [("type", JStr "image"); ("data", JStr png_b64);
                              ("mimeType", JStr "image/png")]]
              | _, _ => text_content (json_text data)
              end
  end.

(** [route_and_dispatch]: the kill switch wins over every other refusal; the
    policy gate needs the parsed tool; the route is read again after the
    dispatch if there was none before. *)
Definition route_and_dispatch (v : session_view) (call : result CallError ToolCall)
    (kill : result CallError unit) (policy : Tool -> result CallError unit) :
    option (string * Z) * Outcome :=
  let route_now route := match call with Ok c => route c.(tc_browser) | Err _ => None end in
  let before := route_now v.(sv_route_before) in
  let out := match kill with
             | Err e => error_outcome e
             | Ok _ =>
                 match call with
                 | Err e => error_outcome e
                 | Ok call =>
                     match policy (call_tool call) with
                     | Err e => error_outcome e
                     | Ok _ => dispatch v call
                     end
                 end
             end in
  (match before with Some r => Some r | None => route_now v.(sv_route_after) end, out).

(** The audit record of a tool call. *)
Record ToolCallAudit := mkToolAudit {
  ta_req : Z;
  ta_conn : option Z;
  ta_name : option string;
  ta_tool : string;
  ta_outcome : string;
  ta_code : option string
}.

Context `{CO : PolicyCodec, ZT : !Sized Trust}.

(** [execute_tool_call]: parse, gates, dispatch, then the audit record. *)
Definition execute_tool_call (v : session_view) (req_id : Z) (name : string) (args : members) :
    host (Outcome * ToolCallAudit) :=
  let! kill := kill_check in
  let! eff := load_effective in
  let '(route, out) :=
    route_and_dispatch v (ToolCall_parse name args) kill (fun t => policy_verdict t eff) in
  hret (out, mkToolAudit req_id (snd <$> route) (fst <$> route) name
               (if is_error out then "error" else "ok") (error_code out)).

(** * Properties *)

(** No tool call reaches a browser past a closed gate. If the kill switch is
    on or unreadable, if the call does not parse, or if the policy gate refuses
    its tool, the outcome is the error of the first of these, whatever the
    session would have answered: it is not consulted. Otherwise the outcome is
    the session's. *)
Theorem gates_precede_dispatch (v v' : session_view) (call : result CallError ToolCall)
    (kill : result CallError unit) (policy : Tool -> result CallError unit) :
  let out := (route_and_dispatch v call kill policy).2 in
  match kill, call with
  | Err e, _ => out = error_outcome e /\ out = (route_and_dispatch v' call kill policy).2
  | Ok _, Err e => out = error_outcome e /\ out = (route_and_dispatch v' call kill policy).2
  | Ok _, Ok c =>
      match policy (call_tool c) with
      | Err e => out = error_outcome e /\ out = (route_and_dispatch v' call kill policy).2
      | Ok _ => out = dispatch v c
      end
  end.
Proof.
  unfold route_and_dispatch. cbn [snd].
  destruct kill as [[]|e]; [|done]. destruct call as [c|e]; [|done].
  by destruct (policy (call_tool c)).
Qed.

(** The trail tells what the harness was told. Every executed call's audit
    record says "error" exactly when the outcome is an error and carries exactly
    its code, which is an entry of the published taxonomy; a call that did not
    parse is recorded without a route. *)
Theorem audit_agrees_with_the_outcome (v : session_view) (req : Z) (name : string)
    (args : members) (e : env) (w : world) :
  let '((out, rec), w') := execute_tool_call v req name args e w in
  w' = w /\ ta_code rec = error_code out /\
  (ta_outcome rec = "error" <-> is_error out = true) /\
  (forall c, ta_code rec = Some c -> c ∈ (es_code <$> ERROR_SPECS)) /\
  (is_ok (ToolCall_parse name args) = false -> ta_name rec = None /\ ta_conn rec = None /\
     is_error out = true).
Proof.
  unfold execute_tool_call, kill_check, load_effective, current_trust, asks, hbind, hret.
  set (kill := kill_verdict _).
  destruct (route_and_dispatch v _ kill _) as [route out] eqn:E. cbn.
  split; [done|]. split; [done|]. split; [by destruct (is_error out)|]. split.
  - intros c Hc. assert (out = Error (outcome_content out) c) as Ho
      by (destruct out; cbn in *; [done|by injection Hc as ->]).
    assert (exists ce, c = code ce) as [ce ->].
    { unfold route_and_dispatch in E. injection E as _ E.
      assert (forall ce, error_outcome ce = out -> c = code ce) as Herr.
      { intros ce <-. cbn in Hc. by injection Hc as <-. }
      destruct kill as [[]|ke]; [|by eexists; apply Herr].
      destruct (ToolCall_parse name args) as [call|pe]; [|by eexists; apply Herr].
      destruct (policy_verdict (call_tool call) _) as [[]|pe]; [|by eexists; apply Herr].
      unfold dispatch in E.
      destruct (t_dispatch (call_tool call)); cbn [list_browsers] in E;
        [rewrite <- E in Hc; discriminate Hc|].
      destruct (sv_call v _ _) as [data|de]; [rewrite <- E in Hc; discriminate Hc|].
      exists de. by apply Herr. }
    exact (list_elem_of_fmap_2 es_code ERROR_SPECS _ (proj1 (spec_in_taxonomy ce))).
  - intros Hp. unfold route_and_dispatch in E.
    destruct (ToolCall_parse name args) as [call|pe]; [done|].
    injection E as <- <-. split; [done|]. split; [done|]. by destruct kill.
Qed.
End dispatch.
