(* ===== verification/Handler.v ===== *)
(** Handler: the tool surface a harness sees and the time a call may take
    (src/src/packages/core/src/mcp/handler.rs [BridgeHandler], src/src/packages/core/src/
    session.rs [Session::call]). [Mcp] is the guarded path of one call; here it is wrapped in
    the methods of the protocol engine, and the wait for a browser that [call] makes before
    it sends is unrolled.

    The engine's types are kept as far as the handler builds them; its parser of content
    blocks and the schema generator are parameters. *)
From S2P Require Import Prelude Json RuntimeRecord Policy Identity Trust PolicyRecord World PolicyStore Errors ToolArgs Catalogue Gating Mcp Session.
From stdpp Require Import base list sets strings.

(** * The methods *)

Definition MCP_PROTOCOL_VERSION : string := "2026-07-28".
Definition MCP_CACHE_TTL_MS : Z := 3600000.

Record McpTool := mkMcpTool { mt_name : string; mt_description : string; mt_input_schema : json }.

(** A listing, with the cache hints of the newer revision: the time to live, and a private
    scope. *)
Record ListToolsResult := mkListTools { lt_tools : list McpTool; lt_ttl_ms : option Z; lt_private : bool }.

Inductive McpError := MethodNotFound (method : string) | InternalError (message : string).

Section handler.
Context {ContentBlock : Type} (schema : Tool -> json).
(** [serde_json::from_value] into blocks, [ContentBlock::text], and a value's text. *)
Context (blocks_of : json -> option (list ContentBlock)) (text_block : string -> ContentBlock).
Context `{ST : SerdeText, CO : PolicyCodec, ZT : !Sized Trust}.

(** [shared_tools]: the catalogue in its static order. *)
Definition shared_tools : list McpTool :=
  (fun t => mkMcpTool (t_name t) (t_description t) (schema t)) <$> all_tools.

(** [speaks_2026]: revisions compare as texts. *)
Definition speaks_2026 (version : option string) : bool :=
  match version with Some v => String.leb MCP_PROTOCOL_VERSION v | None => false end.

Definition tools_list_result (tools : list McpTool) (cacheable : bool) : ListToolsResult :=
  if cacheable then mkListTools tools (Some MCP_CACHE_TTL_MS) true else mkListTools tools None false.

Record CallToolResult := mkCallResult { cr_blocks : list ContentBlock; cr_is_error : bool }.

Definition call_tool_result (out : Outcome) : CallToolResult :=
  mkCallResult (default [text_block (json_text (outcome_content out))] (blocks_of (outcome_content out))) (is_error out).

(** A request the engine hands over, a revision beside it. *)
Inductive HandlerRequest :=
| ReqDiscover
| ReqListTools
| ReqCallTool (name : string) (arguments : option members)
| ReqComplete
| ReqListPrompts
| ReqListResources
| ReqListResourceTemplates.

Inductive HandlerResponse :=
| RespDiscover (ttl_ms : Z)
| RespTools (tools : ListToolsResult)
| RespCall (r : CallToolResult).

(** [call_tool]: [pool] is how the blocking task ends. One that panics, or that the runtime
    ends before it ran, leaves no result and, the record being its last act, no record. *)
Definition handler_call_tool (pool : result string unit) (v : session_view) (req_id : Z) (name : string) (arguments : option members) :
    host (result McpError HandlerResponse * option ToolCallAudit) :=
  match pool with
  | Err e => hret (Err (InternalError ("tool execution task failed: " +:+ e)), None)
  | Ok _ =>
      let! r := execute_tool_call v req_id name (default [] arguments) in
      hret (Ok (RespCall (call_tool_result r.1)), Some r.2)
  end.

(** [ServerHandler] for [BridgeHandler]: tools, and no other listing. *)
Definition serve_request (version : option string) (pool : result string unit) (v : session_view) (req_id : Z) (r : HandlerRequest) :
    host (result McpError HandlerResponse * option ToolCallAudit) :=
  match r with
  | ReqDiscover => hret (Ok (RespDiscover MCP_CACHE_TTL_MS), None)
  | ReqListTools => hret (Ok (RespTools (tools_list_result shared_tools (speaks_2026 version))), None)
  | ReqCallTool name arguments => handler_call_tool pool v req_id name arguments
  | ReqComplete => hret (Err (MethodNotFound "completion/complete"), None)
  | ReqListPrompts => hret (Err (MethodNotFound "prompts/list"), None)
  | ReqListResources => hret (Err (MethodNotFound "resources/list"), None)
  | ReqListResourceTemplates => hret (Err (MethodNotFound "resources/templates/list"), None)
  end.

(** [next_request_id]: the counter of the process, and how it moves. *)
Definition next_request_id (counter : Z) : Z * Z := (counter, ((counter + 1) mod u64_mod)%Z).

(** * What a harness may call *)

Definition listed : list string := mt_name <$> shared_tools.

Lemma listed_spec n : n ∈ listed <-> is_Some (from_name n).
Proof.
  unfold listed, shared_tools. rewrite <- list_fmap_compose. split.
  - intros (t & -> & Ht)%list_elem_of_fmap. unfold all_tools in Ht.
    apply list_elem_of_fmap in Ht as (id & -> & _). cbn. rewrite from_name_tool. by eexists.
  - intros [id H]. apply from_name_Some in H as ->. apply list_elem_of_fmap. exists (tool id).
    split; [done|apply elem_of_all_tools].
Qed.

Lemma listed_distinct : NoDup listed.
Proof.
  unfold listed, shared_tools. rewrite <- list_fmap_compose.
  apply (bool_decide_unpack (NoDup (t_name <$> all_tools))). vm_compute. exact I.
Qed.

Lemma parse_unknown name args : ToolCall_parse name args = Err (UnknownTool name) <-> from_name name = None.
Proof.
  unfold ToolCall_parse. destruct (from_name name) as [id|]; cbn [ok_or mbind result_mbind]; [|done]. split; [|done].
  assert (forall a b, (command ← map_err (fun e => InvalidArgument (name +:+ ": " +:+ args_error_text e)) (parse_args id a);
            Ok (mkToolCall command b)) <> Err (UnknownTool name)) as H.
  { intros a b. by destruct (parse_args id a). }
  destruct (t_dispatch (tool id)); cbn [mbind result_mbind]; [by intros ?%H|].
  destruct (map_remove "browser" args) as [[[]|] args']; cbn [mbind result_mbind]; first [by intros ?%H|done].
Qed.

Lemma call_executes version v req name args e w :
  let '((out, rec), w') := execute_tool_call v req name (default [] args) e w in
  serve_request version (Ok tt) v req (ReqCallTool name args) e w = ((Ok (RespCall (call_tool_result out)), Some rec), w').
Proof.
  cbn [serve_request]. unfold handler_call_tool, hbind, hret.
  by destruct (execute_tool_call v req name (default [] args) e w) as [[out rec] w'].
Qed.

(** A call by an unknown name, past an open switch. *)
Lemma unknown_executes v req name args e w :
  from_name name = None -> kill_verdict (trust_current (w_trust w)) = Ok tt ->
  exists rec, execute_tool_call v req name args e w = ((error_outcome (UnknownTool name), rec), w) /\
    ta_code rec = Some (code (UnknownTool name)).
Proof.
  intros Hn Hk. apply (parse_unknown name args) in Hn.
  unfold execute_tool_call, kill_check, load_effective, current_trust, asks, hbind, hret. rewrite Hk, Hn. cbn.
  eexists. split; [reflexivity|done].
Qed.

Lemma executed_audit v req name args e w :
  exists out rec, execute_tool_call v req name args e w = ((out, rec), w) /\
    is_error out = bool_decide (ta_outcome rec = "error").
Proof.
  unfold execute_tool_call, kill_check, load_effective, current_trust, asks, hbind, hret.
  destruct (route_and_dispatch v _ _ _) as [route out]. eexists out, _. split; [reflexivity|]. by destruct out.
Qed.

(** Every tool takes some arguments. *)
Lemma every_tool_parses id : exists args call, ToolCall_parse (t_name (tool id)) args = Ok call.
Proof.
  pose ([[]; [("tabId", JInt 1)]; [("url", JStr "a")]; [("selector", JStr "a"); ("value", JStr "b")]; [("code", JStr "1")];
         [("keys", JStr "a")]; [("action", JStr "accept")]; [("selector", JStr "a"); ("path", JStr "b")]] : list members) as samples.
  assert (existsb (fun args => is_ok (ToolCall_parse (t_name (tool id)) args)) samples = true) as H by (destruct id; reflexivity).
  apply existsb_exists in H as (args & _ & H). exists args.
  destruct (ToolCall_parse (t_name (tool id)) args) as [call|]; [by exists call|done].
Qed.

Lemma listed_parses name : name ∈ listed <-> exists args call, ToolCall_parse name args = Ok call.
Proof.
  rewrite listed_spec. split.
  - intros [id Hid]. apply from_name_Some in Hid as ->. apply every_tool_parses.
  - intros (args & call & H). unfold ToolCall_parse in H. destruct (from_name name); [by eexists|done].
Qed.

(** C23: The listing and the dispatch agree. Whatever the revision, the names listed are
    distinct, and are exactly those that some arguments make a call of; every other name is
    refused as an unknown tool whatever its arguments. A call whose task runs to its end is
    answered by a result, marked an error exactly when its audit record says so, so that a
    tool's failure is no protocol error; past an open switch a call of an unlisted name is
    one with the taxonomy's code for it, which no answer of the session changes. The one
    protocol error of a call is the task that did not run to its end, and it leaves no record. *)
Theorem listed_tools_are_the_callable_ones (version : option string) (pool : result string unit) (v v' : session_view)
    (req : Z) (e : env) (w : world) :
  (exists l, serve_request version pool v req ReqListTools e w = ((Ok (RespTools l), None), w) /\
     NoDup (mt_name <$> lt_tools l) /\
     forall name, (name ∈ mt_name <$> lt_tools l <-> exists args call, ToolCall_parse name args = Ok call) /\
       (name ∉ mt_name <$> lt_tools l <-> forall args, ToolCall_parse name args = Err (UnknownTool name))) /\
  forall name args,
    match pool with
    | Err cause =>
        serve_request version pool v req (ReqCallTool name args) e w =
        ((Err (InternalError ("tool execution task failed: " +:+ cause)), None), w)
    | Ok _ =>
        exists r rec, serve_request version pool v req (ReqCallTool name args) e w = ((Ok (RespCall r), Some rec), w) /\
          cr_is_error r = bool_decide (ta_outcome rec = "error") /\
          (name ∉ listed -> kill_verdict (trust_current (w_trust w)) = Ok tt ->
             ta_code rec = Some (code (UnknownTool name)) /\
             exists rec', serve_request version pool v' req (ReqCallTool name args) e w = ((Ok (RespCall r), Some rec'), w))
    end.
Proof.
  split.
  { exists (tools_list_result shared_tools (speaks_2026 version)). split; [done|].
    assert (mt_name <$> lt_tools (tools_list_result shared_tools (speaks_2026 version)) = listed) as ->
      by (unfold tools_list_result; by destruct (speaks_2026 version)).
    split; [apply listed_distinct|]. intros name. split; [apply listed_parses|].
    rewrite listed_spec, <- eq_None_not_Some. setoid_rewrite parse_unknown. split; [done|]. intros H. apply (H []). }
  intros name args. destruct pool as [[]|cause]; [|done].
  pose proof (call_executes version v req name args e w) as Hc.
  destruct (executed_audit v req name (default [] args) e w) as (out & rec & E & Ha). rewrite E in Hc.
  exists (call_tool_result out), rec. split; [exact Hc|]. split; [exact Ha|]. intros Hn Hk.
  rewrite listed_spec, <- eq_None_not_Some in Hn.
  destruct (unknown_executes v req name (default [] args) e w Hn Hk) as (rec1 & E1 & H1).
  rewrite E in E1. injection E1 as -> ->. split; [done|].
  destruct (unknown_executes v' req name (default [] args) e w Hn Hk) as (rec2 & E2 & _).
  pose proof (call_executes version v' req name args e w) as Hc'. rewrite E2 in Hc'. eauto.
Qed.
End handler.

(** * Waiting for a browser *)

(** Durations and instants are nanoseconds. *)
Definition CONNECT_WAIT : Z := 12000000000.
Definition CONNECT_POLL : Z := 150000000.

(** [Instant::checked_add], for a clock that ends at [instant_max]. *)
Definition instant_add (instant_max now d : Z) : option Z := if (now + d <=? instant_max)%Z then Some (now + d)%Z else None.

Definition connect_deadline (instant_max now deadline : Z) : Z :=
  match instant_add instant_max now CONNECT_WAIT with Some until => Z.min until deadline | None => deadline end.

(** The sleeps of the loop in [Session::call], over what its looks at the clock and at the
    registry show; [None] while it still waits. *)
Fixpoint connect_wait (until : Z) (looks : list (Z * bool)) : option (list Z) :=
  match looks with
  | [] => None
  | (now, empty) :: looks =>
      let remaining := Z.max 0 (until - now) in
      if (remaining =? 0)%Z || negb empty then Some []
      else sleeps ← connect_wait until looks; Some (Z.min remaining CONNECT_POLL :: sleeps)
  end.

(** [Session::call] before it sends. *)
Definition call_sleeps (instant_max deadline now : Z) (empty : bool) (looks : list (Z * bool)) : option (list Z) :=
  if empty then connect_wait (connect_deadline instant_max now deadline) looks else Some [].

(** A clock that never runs backwards and gives every sleep its time. *)
Fixpoint paced (until start : Z) (looks : list (Z * bool)) : Prop :=
  match looks with
  | [] => True
  | (now, _) :: looks =>
      (start <= now)%Z /\ paced until (now + Z.min (Z.max 0 (until - now)) CONNECT_POLL) looks
  end.

Definition sum_Z (l : list Z) : Z := foldr Z.add 0%Z l.

Lemma connect_wait_bounds until looks start sleeps :
  paced until start looks -> connect_wait until looks = Some sleeps ->
  (sum_Z sleeps <= Z.max 0 (until - start))%Z /\
  (Z.of_nat (length sleeps) <= (Z.max 0 (until - start) + (CONNECT_POLL - 1)) / CONNECT_POLL)%Z /\
  Forall (fun d => 0 < d <= CONNECT_POLL)%Z sleeps.
Proof.
  assert (forall d, (0 <= d)%Z -> (0 <= (d + (CONNECT_POLL - 1)) / CONNECT_POLL)%Z) as Hpos.
  { intros d Hd. apply Z.div_pos; unfold CONNECT_POLL; lia. }
  revert start sleeps. induction looks as [|[now empty] looks IH]; intros start sleeps; cbn [paced connect_wait]; [done|].
  intros [Hs Hp]. destruct (Z.eqb_spec (Z.max 0 (until - now)) 0) as [Hz|Hz]; cbn [orb].
  { intros [= <-]. cbn. split_and!; [lia|apply Hpos; lia|constructor]. }
  destruct empty; cbn [negb]; [|intros [= <-]; cbn; split_and!; [lia|apply Hpos; lia|constructor]].
  destruct (connect_wait until looks) as [sl|] eqn:E; [|done]. intros [= <-].
  destruct (IH _ _ Hp eq_refl) as (H1 & H2 & H3). cbn [sum_Z foldr length]. fold (sum_Z sl). split_and!; [lia| |].
  - rewrite Nat2Z.inj_succ. set (next := (now + _)%Z) in *.
    assert ((Z.max 0 (until - next) + (CONNECT_POLL - 1)) / CONNECT_POLL + 1 <=
            (Z.max 0 (until - start) + (CONNECT_POLL - 1)) / CONNECT_POLL)%Z; [|lia].
    destruct (Z.le_gt_cases (until - now) CONNECT_POLL) as [Hlast|Hmany].
    + replace (Z.max 0 (until - next)) with 0%Z by (unfold next; lia).
      change ((0 + (CONNECT_POLL - 1)) / CONNECT_POLL + 1)%Z with 1%Z.
      apply Z.div_le_lower_bound; unfold CONNECT_POLL; lia.
    + rewrite <- Z.div_add by (unfold CONNECT_POLL; lia). apply Z.div_le_mono; unfold next, CONNECT_POLL in *; lia.
  - constructor; [unfold CONNECT_POLL in *; lia|done].
Qed.

(** C24: A call on an empty registry waits a bounded time and no longer than its own budget. As
    long as the clock gives each sleep its time, the loop sleeps at most eighty times, each
    sleep within the poll, and at most twelve seconds and what the deadline leaves in all; it
    is over at the first look that finds a browser or the time gone, and a call that finds a
    browser attached does not wait. *)
Theorem connect_wait_is_bounded (instant_max deadline now : Z) (empty : bool) (looks : list (Z * bool)) :
  (now + CONNECT_WAIT <= instant_max)%Z ->
  let until := connect_deadline instant_max now deadline in
  (until <= deadline)%Z /\
  (paced until now looks -> forall sleeps, call_sleeps instant_max deadline now empty looks = Some sleeps ->
     length sleeps <= 80 /\ (sum_Z sleeps <= Z.min CONNECT_WAIT (Z.max 0 (deadline - now)))%Z /\
     Forall (fun d => 0 < d <= CONNECT_POLL)%Z sleeps) /\
  (forall before t found after, looks = before ++ (t, found) :: after -> (until <= t)%Z \/ found = false ->
     exists sleeps, call_sleeps instant_max deadline now empty looks = Some sleeps /\ length sleeps <= length before) /\
  call_sleeps instant_max deadline now false looks = Some [].
Proof.
  intros Hmax until. assert (until = Z.min (now + CONNECT_WAIT) deadline) as Eu.
  { unfold until, connect_deadline, instant_add. by apply Z.leb_le in Hmax as ->. }
  split_and!; [lia| | |done].
  - intros Hp sleeps H. unfold call_sleeps in H. destruct empty; [|injection H as <-; unfold CONNECT_WAIT; cbn; split_and!; [lia|lia|constructor]].
    fold until in H. destruct (connect_wait_bounds _ _ _ _ Hp H) as (H1 & H2 & H3). split_and!; [|unfold CONNECT_WAIT in *; lia|done].
    apply Nat2Z.inj_le. etransitivity; [exact H2|]. etransitivity; [apply Z.div_le_mono with (b := (CONNECT_WAIT + (CONNECT_POLL - 1))%Z)|];
      [unfold CONNECT_POLL; lia|unfold CONNECT_WAIT in *; lia|vm_compute; discriminate].
  - intros before t found after -> Ht. unfold call_sleeps. destruct empty; [|exists []; split; [done|cbn; lia]]. fold until.
    induction before as [|[n e] before (sl & IH & Hl)]; cbn [app connect_wait].
    + exists []. split; [|cbn; lia]. destruct (Z.eqb_spec (Z.max 0 (until - t)) 0); [done|].
      destruct Ht as [?| ->]; [lia|]. by rewrite orb_true_r.
    + destruct ((Z.max 0 (until - n) =? 0)%Z || negb e); [exists []; split; [done|cbn; lia]|].
      rewrite IH. eexists. split; [done|]. cbn. lia.
Qed.

Lemma connect_wait_is_bounded_witness :
  exists sleeps, call_sleeps (2 ^ 62) 120000000000 0 true [(0%Z, true); (150000000%Z, true); (300000000%Z, false)] = Some sleeps /\
    length sleeps <= 80.
Proof.
  pose proof (connect_wait_is_bounded (2 ^ 62) 120000000000 0 true
    [(0%Z, true); (150000000%Z, true); (300000000%Z, false)] ltac:(vm_compute; discriminate)) as (_ & H & _).
  exists [150000000%Z; 150000000%Z]. split; [vm_compute; reflexivity|].
  apply H; [|vm_compute; reflexivity]. cbn. repeat split; vm_compute; discriminate.
Defined.
