(* ===== verification/AuthData.v ===== *)
(** AuthData: the WebAuthn authenticator data parser, its encoder and the COSE
    public key checks (src/src/packages/core/src/webauthn/authenticator_data.rs,
    encode.rs, credential.rs). The CBOR decoder, coset's key view and the P-256
    point check are parameters ([CoseLib]). *)
From S2P Require Import Prelude RuntimeRecord Identity Wire.
From Stdlib Require Import Strings.Byte.
From stdpp Require Import base list sets strings.

(** * COSE keys (credential.rs) *)

Inductive KeyRefusal :=
| KrCbor
| KrNotEc2
| KrAlgorithm (alg : option Z)
| KrCurve
| KrCoordinates
| KrPoint.

(** [coset::CoseKey] as [from_cose_key] reads it. *)
Inductive CoseAlg := AlgAssigned (n : Z) | AlgPrivateUse (n : Z) | AlgText (s : string).
Inductive CoseLabel := LabelInt (n : Z) | LabelText (s : string).
Record CoseKey := mkCoseKey {
  ck_is_ec2 : bool;
  ck_alg : option CoseAlg;
  (** Parameters, a value being its integer where it has one that fits an [i64]. *)
  ck_params : list (CoseLabel * option Z)
}.

Class CoseLib := {
  (** [ciborium::from_reader] then [CoseKey::from_cbor_value]: the key at the
      front and the unconsumed rest. *)
  cose_read : bytes -> option (CoseKey * bytes);
  to_sec1_octet_string : CoseKey -> option bytes;
  (** [VerifyingKey::from_sec1_bytes] accepts the point. *)
  on_curve : bytes -> bool
}.

Definition ES256 : Z := -7.
Definition P_256 : Z := 1.
Definition EC2_CRV : Z := -1.

#[export] Instance CoseLabel_eq_dec : EqDecision CoseLabel.
Proof. solve_decision. Defined.

Section cose.
Context `{CL : CoseLib}.

Definition from_sec1 (b : bytes) : result KeyRefusal CosePublicKey :=
  if on_curve b then Ok {| sec1 := b |} else Err KrPoint.

Definition from_cose_key (key : CoseKey) : result KeyRefusal CosePublicKey :=
  if negb key.(ck_is_ec2) then Err KrNotEc2
  else
    let alg := match key.(ck_alg) with
               | Some (AlgAssigned a) => Some a
               | Some (AlgPrivateUse a) => Some a
               | Some (AlgText _) | None => None
               end in
    if negb (bool_decide (alg = Some ES256)) then Err (KrAlgorithm alg)
    else
      let crv := List.find (fun p => bool_decide (p.1 = LabelInt EC2_CRV)) key.(ck_params) ≫= snd in
      if negb (bool_decide (crv = Some P_256)) then Err KrCurve
      else
        s ← ok_or (to_sec1_octet_string key) KrCoordinates;
        if negb (length s =? 65)%nat || negb (bool_decide (head s = Some x04))
        then Err KrCoordinates
        else from_sec1 s.

(** [CosePublicKey::parse_cose_prefix]. *)
Definition parse_cose_prefix (b : bytes) : result KeyRefusal (CosePublicKey * bytes) :=
  '(key, rest) ← ok_or (cose_read b) KrCbor;
  pk ← from_cose_key key;
  Ok (pk, rest).
End cose.

(** * Authenticator data *)

Definition FLAG_USER_PRESENT : Z := 0x01.
Definition FLAG_USER_VERIFIED : Z := 0x04.
Definition FLAG_BACKUP_ELIGIBLE : Z := 0x08.
Definition FLAG_BACKUP_STATE : Z := 0x10.
Definition FLAG_ATTESTED_CREDENTIAL : Z := 0x40.
Definition FLAG_EXTENSIONS : Z := 0x80.

(** The complement, in a [u8]. *)
Definition RESERVED_FLAGS : Z :=
  Z.lxor 255 (Z.lor FLAG_USER_PRESENT (Z.lor FLAG_USER_VERIFIED (Z.lor FLAG_BACKUP_ELIGIBLE
    (Z.lor FLAG_BACKUP_STATE (Z.lor FLAG_ATTESTED_CREDENTIAL FLAG_EXTENSIONS))))).

Inductive AuthDataError :=
| AdTooShort (len : nat)
| AdReservedFlags (flags : Z)
| AdExtensions
| AdBackupStateWithoutEligibility
| AdAttestedCredentialTruncated
| AdCredentialId (e : CredentialIdError)
| AdPublicKey (e : KeyRefusal)
| AdTrailingBytes (len : nat).

Inductive BackupState := NotEligible | EligibleNotBackedUp | BackedUp.

Definition eligible (b : BackupState) : bool :=
  match b with NotEligible => false | EligibleNotBackedUp | BackedUp => true end.

Record Flags := mkFlags { user_present : bool; user_verified : bool; backup : BackupState }.

Record AttestedCredential := mkAttested {
  ac_aaguid : bytes; ac_id : CredentialId; ac_public_key : CosePublicKey }.

Record AuthenticatorData := mkAuthData {
  ad_rp_id_hash : bytes;
  ad_flags : Flags;
  ad_sign_count : Z;
  ad_attested : option AttestedCredential
}.

(** [split_at_checked], and [take::<N>]. *)
Definition split_at_checked (n : nat) (b : bytes) : option (bytes * bytes) :=
  if (n <=? length b)%nat then Some (take n b, drop n b) else None.

Fixpoint from_be_bytes_acc (acc : Z) (b : bytes) : Z :=
  match b with [] => acc | x :: b' => from_be_bytes_acc (256 * acc + byte_Z x) b' end.
Definition from_be_bytes (b : bytes) : Z := from_be_bytes_acc 0 b.

Definition has_flag (flags mask : Z) : bool := negb (Z.land flags mask =? 0)%Z.

Section parse.
Context `{CL : CoseLib}.

Definition parse_attested (b : bytes) : result AuthDataError (AttestedCredential * bytes) :=
  '(aaguid, rest) ← ok_or (split_at_checked 16 b) AdAttestedCredentialTruncated;
  '(len, rest) ← ok_or (split_at_checked 2 rest) AdAttestedCredentialTruncated;
  '(id, rest) ← ok_or (split_at_checked (Z.to_nat (from_be_bytes len)) rest)
                  AdAttestedCredentialTruncated;
  id ← map_err AdCredentialId (CredentialId_parse id);
  '(public_key, rest) ← map_err AdPublicKey (parse_cose_prefix rest);
  Ok (mkAttested aaguid id public_key, rest).

(** The BE/BS pair. *)
Definition backup_state (flags : Z) : result AuthDataError BackupState :=
  match has_flag flags FLAG_BACKUP_ELIGIBLE, has_flag flags FLAG_BACKUP_STATE with
  | false, false => Ok NotEligible
  | true, false => Ok EligibleNotBackedUp
  | true, true => Ok BackedUp
  | false, true => Err AdBackupStateWithoutEligibility
  end.

Definition AuthenticatorData_parse (b : bytes) : result AuthDataError AuthenticatorData :=
  let too_short := AdTooShort (length b) in
  '(rp_id_hash, rest) ← ok_or (split_at_checked 32 b) too_short;
  '(flag_byte, rest) ← ok_or (split_at_checked 1 rest) too_short;
  '(count, rest) ← ok_or (split_at_checked 4 rest) too_short;
  let flags := from_be_bytes flag_byte in
  if has_flag flags RESERVED_FLAGS then Err (AdReservedFlags flags)
  else if has_flag flags FLAG_EXTENSIONS then Err AdExtensions
  else
    backup ← backup_state flags;
    '(attested, rest) ← (if has_flag flags FLAG_ATTESTED_CREDENTIAL
                         then '(a, rest) ← parse_attested rest; Ok (Some a, rest)
                         else Ok (None, rest));
    if negb (length rest =? 0)%nat then Err (AdTrailingBytes (length rest))
    else Ok (mkAuthData rp_id_hash
               (mkFlags (has_flag flags FLAG_USER_PRESENT) (has_flag flags FLAG_USER_VERIFIED) backup)
               (from_be_bytes count) attested).
End parse.

(** * The encoder (encode.rs) *)

Definition u16_to_be_bytes (n : Z) : bytes := [Z_byte (n / 2 ^ 8); Z_byte n].
Definition u32_to_be_bytes (n : Z) : bytes :=
  [Z_byte (n / 2 ^ 24); Z_byte (n / 2 ^ 16); Z_byte (n / 2 ^ 8); Z_byte n].

(** The attested block is written exactly when given, whatever [flags] claims. *)
Definition authenticator_data (rp_id_hash : bytes) (flags : Z) (sign_count : Z)
    (attested : option (bytes * bytes)) : bytes :=
  rp_id_hash ++ [Z_byte flags] ++ u32_to_be_bytes sign_count ++
  match attested with
  | Some (id, cose) =>
      repeat xaa 16 ++ u16_to_be_bytes (Z.min u16_max (Z.of_nat (length id))) ++ id ++ cose
  | None => []
  end.

(** The flag byte a parsed value stands for. *)
Definition flag_bits (f : Flags) (attested : bool) : Z :=
  (if user_present f then FLAG_USER_PRESENT else 0) +
  (if user_verified f then FLAG_USER_VERIFIED else 0) +
  (match backup f with
   | NotEligible => 0
   | EligibleNotBackedUp => FLAG_BACKUP_ELIGIBLE
   | BackedUp => FLAG_BACKUP_ELIGIBLE + FLAG_BACKUP_STATE
   end) +
  (if attested then FLAG_ATTESTED_CREDENTIAL else 0).

(** * Lemmas *)

Lemma split_at_app n b rest : length b = n -> split_at_checked n (b ++ rest) = Some (b, rest).
Proof.
  intros <-. unfold split_at_checked. rewrite length_app.
  destruct (Nat.leb_spec (length b) (length b + length rest)); [|lia].
  by rewrite take_app_length, drop_app_length.
Qed.

Lemma split_at_Some n b h rest :
  split_at_checked n b = Some (h, rest) <-> b = h ++ rest /\ length h = n.
Proof.
  split.
  - unfold split_at_checked. destruct (Nat.leb_spec n (length b)); [|done].
    intros H'. injection H' as <- <-. rewrite take_drop. split; [done|].
    rewrite length_take. lia.
  - intros [-> Hn]. by apply split_at_app.
Qed.

Lemma from_be_u32 n : (0 <= n <= u32_max)%Z -> from_be_bytes (u32_to_be_bytes n) = n.
Proof.
  intros Hn. unfold from_be_bytes, u32_to_be_bytes. cbn [from_be_bytes_acc].
  rewrite !byte_Z_byte. unfold u32_max in Hn. change (2 ^ 8)%Z with 256%Z.
  change (2 ^ 16)%Z with 65536%Z. change (2 ^ 24)%Z with 16777216%Z.
  change (2 ^ 32 - 1)%Z with 4294967295%Z in Hn.
  Z.to_euclidean_division_equations. lia.
Qed.

Lemma from_be_u16 n : (0 <= n <= u16_max)%Z -> from_be_bytes (u16_to_be_bytes n) = n.
Proof.
  intros Hn. unfold from_be_bytes, u16_to_be_bytes. cbn [from_be_bytes_acc].
  rewrite !byte_Z_byte. unfold u16_max in Hn. change (2 ^ 8)%Z with 256%Z.
  change (2 ^ 16 - 1)%Z with 65535%Z in Hn. Z.to_euclidean_division_equations. lia.
Qed.

Lemma flag_bits_range f a : (0 <= flag_bits f a < 256)%Z.
Proof. destruct f as [[] [] []], a; vm_compute; split; congruence. Qed.

(** Reading the flag byte back gives the flags. *)
Lemma flag_bits_read f a :
  let n := flag_bits f a in
  has_flag n RESERVED_FLAGS = false /\ has_flag n FLAG_EXTENSIONS = false /\
  backup_state n = Ok (backup f) /\ has_flag n FLAG_ATTESTED_CREDENTIAL = a /\
  has_flag n FLAG_USER_PRESENT = user_present f /\ has_flag n FLAG_USER_VERIFIED = user_verified f.
Proof. destruct f as [[] [] []], a; vm_compute; repeat split. Qed.

Lemma from_be_flag_byte n : (0 <= n < 256)%Z -> from_be_bytes [Z_byte n] = n.
Proof.
  intros Hn. unfold from_be_bytes. cbn [from_be_bytes_acc]. rewrite byte_Z_byte.
  rewrite Z.mod_small by done. lia.
Qed.


Lemma Z_byte_byte_Z x : Z_byte (byte_Z x) = x.
Proof. destruct x; reflexivity. Qed.

Lemma Z_byte_eq z x : (z mod 256 = byte_Z x)%Z -> Z_byte z = x.
Proof.
  intros H. rewrite <- (Z_byte_byte_Z x), <- H. unfold Z_byte. by rewrite Zmod_mod.
Qed.

(** A value the layout can carry. *)
Definition auth_data_ok (a : AuthenticatorData) : Prop :=
  length (ad_rp_id_hash a) = 32 /\ (0 <= ad_sign_count a <= u32_max)%Z.


(** ** The header *)

Section header.
Context `{CL : CoseLib}.

(** The rest of the parse, from the flags on. *)
Definition parse_tail (rp_id_hash : bytes) (flags count : Z) (rest : bytes) :
    result AuthDataError AuthenticatorData :=
  if has_flag flags RESERVED_FLAGS then Err (AdReservedFlags flags)
  else if has_flag flags FLAG_EXTENSIONS then Err AdExtensions
  else
    backup ← backup_state flags;
    '(attested, rest) ← (if has_flag flags FLAG_ATTESTED_CREDENTIAL
                         then '(a, rest) ← parse_attested rest; Ok (Some a, rest)
                         else Ok (None, rest));
    if negb (length rest =? 0)%nat then Err (AdTrailingBytes (length rest))
    else Ok (mkAuthData rp_id_hash
               (mkFlags (has_flag flags FLAG_USER_PRESENT) (has_flag flags FLAG_USER_VERIFIED) backup)
               count attested).

Lemma parse_split b r :
  AuthenticatorData_parse b = Ok r ->
  exists h f c rest, b = h ++ f ++ c ++ rest /\ length h = 32 /\ length f = 1 /\ length c = 4 /\
    parse_tail h (from_be_bytes f) (from_be_bytes c) rest = Ok r.
Proof.
  unfold AuthenticatorData_parse. intros H.
  destruct (split_at_checked 32 b) as [[h r1]|] eqn:E1; [|done]. cbn [ok_or mbind result_mbind] in H.
  destruct (split_at_checked 1 r1) as [[f r2]|] eqn:E2; [|done]. cbn [ok_or mbind result_mbind] in H.
  destruct (split_at_checked 4 r2) as [[c r3]|] eqn:E3; [|done]. cbn [ok_or mbind result_mbind] in H.
  apply split_at_Some in E1 as [-> ?]. apply split_at_Some in E2 as [-> ?].
  apply split_at_Some in E3 as [-> ?]. by exists h, f, c, r3.
Qed.

Lemma parse_header a attested tail :
  auth_data_ok a ->
  AuthenticatorData_parse (authenticator_data (ad_rp_id_hash a) (flag_bits (ad_flags a) attested)
    (ad_sign_count a) tail) =
  parse_tail (ad_rp_id_hash a) (flag_bits (ad_flags a) attested) (ad_sign_count a)
    (match tail with
     | Some (id, cose) =>
         repeat xaa 16 ++ u16_to_be_bytes (Z.min u16_max (Z.of_nat (length id))) ++ id ++ cose
     | None => []
     end).
Proof.
  intros [Hlen Hcount]. unfold AuthenticatorData_parse, authenticator_data.
  rewrite (split_at_app 32) by done. cbn [ok_or mbind result_mbind].
  rewrite (split_at_app 1) by done. cbn [ok_or mbind result_mbind].
  rewrite (split_at_app 4) by done. cbn [ok_or mbind result_mbind].
  rewrite from_be_flag_byte by apply flag_bits_range. rewrite from_be_u32 by done. done.
Qed.

Lemma parse_attested_encoded id cose pk :
  CredentialId_parse id = Ok id -> parse_cose_prefix cose = Ok (pk, []) ->
  parse_attested (repeat xaa 16 ++ u16_to_be_bytes (Z.min u16_max (Z.of_nat (length id))) ++ id ++ cose)
    = Ok (mkAttested (repeat xaa 16) id pk, []).
Proof.
  intros Hid Hcose.
  assert (length id <= MAX_CREDENTIAL_ID_LEN)%nat as Hlen.
  { unfold CredentialId_parse in Hid. destruct (_ && _) eqn:E; [|done].
    apply andb_true_iff in E as [_ E]. by apply Nat.leb_le. }
  unfold MAX_CREDENTIAL_ID_LEN in Hlen.
  unfold parse_attested. rewrite (split_at_app 16) by done. cbn [ok_or mbind result_mbind].
  rewrite (split_at_app 2) by done. cbn [ok_or mbind result_mbind].
  rewrite from_be_u16 by (unfold u16_max; lia).
  rewrite split_at_app by (unfold u16_max; lia). cbn [ok_or mbind result_mbind].
  rewrite Hid. cbn [map_err mbind result_mbind]. by rewrite Hcose.
Qed.

(** A byte is determined by what [has_flag] reads of it. *)
Lemma flags_of_byte x bk :
  has_flag (byte_Z x) RESERVED_FLAGS = false -> has_flag (byte_Z x) FLAG_EXTENSIONS = false ->
  has_flag (byte_Z x) FLAG_ATTESTED_CREDENTIAL = false -> backup_state (byte_Z x) = Ok bk ->
  x = Z_byte (flag_bits (mkFlags (has_flag (byte_Z x) FLAG_USER_PRESENT)
                (has_flag (byte_Z x) FLAG_USER_VERIFIED) bk) false).
Proof.
  destruct x; vm_compute; intros H1 H2 H3 H4; try discriminate; injection H4 as <-; reflexivity.
Qed.

Lemma be_bytes_u32 c : length c = 4 -> u32_to_be_bytes (from_be_bytes c) = c.
Proof.
  destruct c as [|b0 [|b1 [|b2 [|b3 [|]]]]]; try done. intros _.
  unfold from_be_bytes, u32_to_be_bytes. cbn [from_be_bytes_acc].
  pose proof (byte_Z_range b0). pose proof (byte_Z_range b1).
  pose proof (byte_Z_range b2). pose proof (byte_Z_range b3).
  change (2 ^ 8)%Z with 256%Z. change (2 ^ 16)%Z with 65536%Z. change (2 ^ 24)%Z with 16777216%Z.
  repeat f_equal; apply Z_byte_eq; Z.to_euclidean_division_equations; lia.
Qed.

(** Without an attested block, only the encoder's spelling is accepted. *)
Lemma parse_is_canonical a b :
  ad_attested a = None -> AuthenticatorData_parse b = Ok a ->
  b = authenticator_data (ad_rp_id_hash a) (flag_bits (ad_flags a) false) (ad_sign_count a) None.
Proof.
  intros Hatt H. apply parse_split in H as (h & f & c & rest & -> & Hh & Hf & Hc & H).
  destruct f as [|x [|]]; try done. change (from_be_bytes [x]) with (byte_Z x) in H.
  unfold parse_tail in H. destruct (has_flag _ RESERVED_FLAGS) eqn:E1; [done|].
  destruct (has_flag _ FLAG_EXTENSIONS) eqn:E2; [done|].
  destruct (backup_state (byte_Z x)) as [bk|] eqn:E3; [|done]. cbn [mbind result_mbind] in H.
  destruct (has_flag _ FLAG_ATTESTED_CREDENTIAL) eqn:E4.
  - destruct (parse_attested rest) as [[at_ r]|]; [|done]. cbn [mbind result_mbind] in H.
    destruct (negb _); [done|]. injection H as <-. done.
  - cbn [mbind result_mbind] in H. destruct rest; [|done]. cbn in H. injection H as <-.
    cbn [ad_rp_id_hash ad_flags ad_sign_count]. unfold authenticator_data.
    rewrite app_nil_r, be_bytes_u32 by done. rewrite app_nil_r.
    by rewrite <- (flags_of_byte x bk).
Qed.
End header.

(** * Properties *)

(** The authenticator-data layout is read exactly. What the encoder writes
    for a presence assertion parses back to the same value; conversely the
    parser accepts data without an attested credential only in that one spelling,
    so no two byte strings pass for the same assertion. With an attested block,
    what the encoder writes parses back to its id and key, provided the key bytes
    are ones the COSE reader consumes whole. *)
Theorem authenticator_data_roundtrip `{CL : CoseLib} (a : AuthenticatorData) (b : bytes)
    (id cose : bytes) (pk : CosePublicKey) :
  auth_data_ok a ->
  (ad_attested a = None ->
     AuthenticatorData_parse b = Ok a <->
     b = authenticator_data (ad_rp_id_hash a) (flag_bits (ad_flags a) false) (ad_sign_count a) None) /\
  (CredentialId_parse id = Ok id -> parse_cose_prefix cose = Ok (pk, []) ->
     AuthenticatorData_parse
       (authenticator_data (ad_rp_id_hash a) (flag_bits (ad_flags a) true) (ad_sign_count a)
          (Some (id, cose))) =
     Ok (mkAuthData (ad_rp_id_hash a) (ad_flags a) (ad_sign_count a)
           (Some (mkAttested (repeat xaa 16) id pk)))).
Proof.
  intros [Hlen Hcount]. split.
  - intros Hatt. split.
    + apply parse_is_canonical; done.
    + intros ->. rewrite parse_header by done. unfold parse_tail.
      destruct (flag_bits_read (ad_flags a) false)
        as (-> & -> & -> & -> & -> & ->). cbn. destruct a as [h [] n att]. cbn in *. by subst.
  - intros Hid Hcose. rewrite parse_header by done. unfold parse_tail.
    destruct (flag_bits_read (ad_flags a) true) as (-> & -> & -> & -> & -> & ->).
    cbn [mbind result_mbind]. rewrite (parse_attested_encoded id cose pk) by done.
    by destruct a as [h [] n att].
Qed.

(** ** A concrete COSE reader for the witnesses *)

Module CoseExample.
#[export] Instance lib : CoseLib := {|
  cose_read b := match b with
                 | xa5 :: rest => Some (mkCoseKey true (Some (AlgAssigned ES256))
                                          [(LabelInt EC2_CRV, Some P_256)], rest)
                 | _ => None
                 end;
  to_sec1_octet_string _ := Some (x04 :: repeat x07 64);
  on_curve b := (length b =? 65)%nat
|}.
Definition pk : CosePublicKey := {| sec1 := x04 :: repeat x07 64 |}.
Definition assertion : AuthenticatorData :=
  mkAuthData (repeat x01 32) (mkFlags true false BackedUp) 7 None.
End CoseExample.

Lemma authenticator_data_roundtrip_witness :
  @AuthenticatorData_parse CoseExample.lib (repeat x01 32 ++ [x19; x00; x00; x00; x07]) =
    Ok CoseExample.assertion /\
  @AuthenticatorData_parse CoseExample.lib
    (authenticator_data (repeat x01 32) 0x59 7 (Some (repeat x02 16, [xa5]))) =
    Ok (mkAuthData (repeat x01 32) (mkFlags true false BackedUp) 7
          (Some (mkAttested (repeat xaa 16) (repeat x02 16) CoseExample.pk))).
Proof.
  destruct (@authenticator_data_roundtrip CoseExample.lib CoseExample.assertion
    (repeat x01 32 ++ [x19; x00; x00; x00; x07]) (repeat x02 16) [xa5] CoseExample.pk)
    as [H1 H2]; [split; [reflexivity|vm_compute; split; discriminate]|].
  split; [apply H1; [reflexivity|vm_compute; reflexivity]|].
  apply H2; vm_compute; reflexivity.
Defined.
