(* ===== verification/WebAuthn.v ===== *)
(** WebAuthn: the relying party's checks of an assertion and of a registration
    (src/src/packages/core/src/webauthn/client_data.rs, verify.rs,
    registration.rs, refusal.rs, credential.rs [RpId], statement.rs
    [Statement::challenge], identity.rs [PINNED_EXTENSION_ID]). SHA-256 is
    [World.Digest]; JSON, CBOR, base64url and ECDSA are parameters ([Crypto]). *)
From S2P Require Import Prelude Json RuntimeRecord Policy Identity Trust PolicyRecord World Messages Wire AuthData.
From Stdlib Require Import Strings.Byte Ascii.
From stdpp Require Import base list sets strings pretty.

(** * Libraries *)

(** A CBOR item as the attestation reader distinguishes it. *)
Inductive cbor :=
| CMap (m : list (cbor * cbor))
| CText (s : string)
| CBytes (b : bytes)
| COther.

Class Crypto := {
  (** [base64::URL_SAFE_NO_PAD]. *)
  b64url_encode : bytes -> string;
  b64url_decode : string -> option bytes;
  (** serde_json's tree of a document, repeated members kept. *)
  json_of_bytes : bytes -> option json;
  (** [ciborium::from_reader]: the item at the front and the rest. *)
  cbor_read : bytes -> option (cbor * bytes);
  (** [DerSignature::from_bytes] accepts the bytes. *)
  der_signature : bytes -> bool;
  (** ECDSA P-256 verification under a SEC1 key. *)
  ecdsa_verify : bytes -> bytes -> bytes -> bool
}.

(** * Refusals *)

Inductive Refusal :=
| RfEncoding (field : string)
| RfAuthenticatorData (e : AuthDataError)
| RfUnexpectedAttestedCredential
| RfRpIdMismatch
| RfUserNotPresent
| RfSignCountNotIncreased (stored received : Z)
| RfBackupEligibilityChanged (stored received : bool)
| RfClientDataMalformed
| RfClientDataType (got want : string)
| RfChallengeMismatch
| RfOriginMismatch (got : string)
| RfCrossOrigin
| RfSignatureMalformed
| RfSignatureInvalid
| RfAttestationMalformed
| RfAttestationTrailingBytes (len : nat)
| RfAttestationFormat (got : string)
| RfAttestationStatementNotEmpty
| RfNoAttestedCredential.

Inductive RefusalCode :=
| RcEncoding | RcAuthdataTooShort | RcAuthdataReservedFlags | RcAuthdataExtensions
| RcAuthdataBackupStateWithoutEligibility | RcAuthdataAttestedTruncated
| RcAuthdataTrailingBytes | RcCredentialIdInvalid | RcPublicKeyInvalid
| RcUnexpectedAttestedCredential | RcRpIdMismatch | RcUserNotPresent
| RcSignCountNotIncreased | RcBackupEligibilityChanged | RcClientDataMalformed
| RcClientDataType | RcChallengeMismatch | RcOriginMismatch | RcCrossOrigin
| RcSignatureMalformed | RcSignatureInvalid | RcAttestationMalformed
| RcAttestationTrailingBytes | RcAttestationFormat | RcAttestationStatementNotEmpty
| RcNoAttestedCredential
| RcNotInteractive | RcDeclined | RcIoError | RcCredentialNotEnrolled | RcWrongBrowserLabel
| RcSoftwareConfirmationNotAllowed | RcRequestMismatch | RcStoreError
| RcPresenceRequired | RcNonce | RcNoRequestOutstanding | RcNoEnrollmentOutstanding
| RcMachineAlreadyEnrolled | RcNotEnrolled | RcInvalidAction | RcInvalidOrigin.

#[export] Instance RefusalCode_eq_dec : EqDecision RefusalCode.
Proof. solve_decision. Defined.

(** [Refusal::code]. *)
Definition refusal_code (r : Refusal) : RefusalCode :=
  match r with
  | RfEncoding _ => RcEncoding
  | RfAuthenticatorData (AdTooShort _) => RcAuthdataTooShort
  | RfAuthenticatorData (AdReservedFlags _) => RcAuthdataReservedFlags
  | RfAuthenticatorData AdExtensions => RcAuthdataExtensions
  | RfAuthenticatorData AdBackupStateWithoutEligibility => RcAuthdataBackupStateWithoutEligibility
  | RfAuthenticatorData AdAttestedCredentialTruncated => RcAuthdataAttestedTruncated
  | RfAuthenticatorData (AdCredentialId _) => RcCredentialIdInvalid
  | RfAuthenticatorData (AdPublicKey _) => RcPublicKeyInvalid
  | RfAuthenticatorData (AdTrailingBytes _) => RcAuthdataTrailingBytes
  | RfUnexpectedAttestedCredential => RcUnexpectedAttestedCredential
  | RfRpIdMismatch => RcRpIdMismatch
  | RfUserNotPresent => RcUserNotPresent
  | RfSignCountNotIncreased _ _ => RcSignCountNotIncreased
  | RfBackupEligibilityChanged _ _ => RcBackupEligibilityChanged
  | RfClientDataMalformed => RcClientDataMalformed
  | RfClientDataType _ _ => RcClientDataType
  | RfChallengeMismatch => RcChallengeMismatch
  | RfOriginMismatch _ => RcOriginMismatch
  | RfCrossOrigin => RcCrossOrigin
  | RfSignatureMalformed => RcSignatureMalformed
  | RfSignatureInvalid => RcSignatureInvalid
  | RfAttestationMalformed => RcAttestationMalformed
  | RfAttestationTrailingBytes _ => RcAttestationTrailingBytes
  | RfAttestationFormat _ => RcAttestationFormat
  | RfAttestationStatementNotEmpty => RcAttestationStatementNotEmpty
  | RfNoAttestedCredential => RcNoAttestedCredential
  end.

(** [strum::Display] with [serialize_all = "snake_case"]. *)
Definition refusal_code_display (c : RefusalCode) : string :=
  match c with
  | RcEncoding => "encoding"
  | RcAuthdataTooShort => "authdata_too_short"
  | RcAuthdataReservedFlags => "authdata_reserved_flags"
  | RcAuthdataExtensions => "authdata_extensions"
  | RcAuthdataBackupStateWithoutEligibility => "authdata_backup_state_without_eligibility"
  | RcAuthdataAttestedTruncated => "authdata_attested_truncated"
  | RcAuthdataTrailingBytes => "authdata_trailing_bytes"
  | RcCredentialIdInvalid => "credential_id_invalid"
  | RcPublicKeyInvalid => "public_key_invalid"
  | RcUnexpectedAttestedCredential => "unexpected_attested_credential"
  | RcRpIdMismatch => "rp_id_mismatch"
  | RcUserNotPresent => "user_not_present"
  | RcSignCountNotIncreased => "sign_count_not_increased"
  | RcBackupEligibilityChanged => "backup_eligibility_changed"
  | RcClientDataMalformed => "client_data_malformed"
  | RcClientDataType => "client_data_type"
  | RcChallengeMismatch => "challenge_mismatch"
  | RcOriginMismatch => "origin_mismatch"
  | RcCrossOrigin => "cross_origin"
  | RcSignatureMalformed => "signature_malformed"
  | RcSignatureInvalid => "signature_invalid"
  | RcAttestationMalformed => "attestation_malformed"
  | RcAttestationTrailingBytes => "attestation_trailing_bytes"
  | RcAttestationFormat => "attestation_format"
  | RcAttestationStatementNotEmpty => "attestation_statement_not_empty"
  | RcNoAttestedCredential => "no_attested_credential"
  | RcNotInteractive => "not_interactive"
  | RcDeclined => "declined"
  | RcIoError => "io_error"
  | RcCredentialNotEnrolled => "credential_not_enrolled"
  | RcWrongBrowserLabel => "wrong_browser_label"
  | RcSoftwareConfirmationNotAllowed => "software_confirmation_not_allowed"
  | RcRequestMismatch => "request_mismatch"
  | RcStoreError => "store_error"
  | RcPresenceRequired => "presence_required"
  | RcNonce => "nonce"
  | RcNoRequestOutstanding => "no_request_outstanding"
  | RcNoEnrollmentOutstanding => "no_enrollment_outstanding"
  | RcMachineAlreadyEnrolled => "machine_already_enrolled"
  | RcNotEnrolled => "not_enrolled"
  | RcInvalidAction => "invalid_action"
  | RcInvalidOrigin => "invalid_origin"
  end.

Record Reason := mkReason { re_code : RefusalCode; re_detail : option string }.

Definition detailed (c : RefusalCode) (detail : string) : Reason := mkReason c (Some detail).
Definition reason_of_code (c : RefusalCode) : Reason := mkReason c None.

(** [impl Display for Reason]. *)
Definition reason_display (r : Reason) : string :=
  match r.(re_detail) with
  | Some detail => refusal_code_display r.(re_code) +:+ ": " +:+ detail
  | None => refusal_code_display r.(re_code)
  end.

(** * The relying party *)

Definition PINNED_EXTENSION_ID : string := "mkjjlmjbcljpcfkfadfmhblmmddkdihf".

Abbreviation RpId := string (only parsing).
Definition RpId_pinned : RpId := "chrome-extension://" +:+ PINNED_EXTENSION_ID.

Section checks.
Context `{DG : Digest, CR : Crypto, CL : CoseLib}.

Definition rp_hash (r : RpId) : bytes := sha256 (as_bytes r).

(** [Statement::challenge] in the spelling client data carries. *)
Definition challenge_base64url (s : Statement) : string :=
  b64url_encode (sha256 (statement_message s)).

(** * Client data *)

(** The [Members] visitor: an object whose member names are distinct. *)
Definition members_of (b : bytes) : option (list (string * json)) :=
  j ← json_of_bytes b;
  m ← as_object j;
  if bool_decide (NoDup m.*1) then Some m else None.

Definition text_member (m : list (string * json)) (name : string) : option string :=
  member name m ≫= as_str.

(** [client_data::check]. *)
Definition client_data_check (client_data_json : bytes) (want : string) (statement : Statement)
    (rp_id : RpId) : result Refusal unit :=
  data ← ok_or (members_of client_data_json) RfClientDataMalformed;
  kind ← ok_or (text_member data "type") RfClientDataMalformed;
  _ ← refuse_if (negb (String.eqb kind want)) (RfClientDataType kind want);
  challenge ← ok_or (text_member data "challenge") RfClientDataMalformed;
  _ ← refuse_if (negb (String.eqb challenge (challenge_base64url statement))) RfChallengeMismatch;
  origin ← ok_or (text_member data "origin") RfClientDataMalformed;
  _ ← refuse_if (negb (String.eqb origin rp_id)) (RfOriginMismatch origin);
  _ ← refuse_if (bool_decide (is_Some (member "topOrigin" data))) RfCrossOrigin;
  match member "crossOrigin" data with
  | None | Some (JBool false) => Ok tt
  | Some (JBool true) => Err RfCrossOrigin
  | Some _ => Err RfClientDataMalformed
  end.

(** * Assertions *)

Record Assertion := mkAssertion {
  as_authenticator_data : bytes; as_client_data_json : bytes; as_signature : bytes }.

Definition b64_field (name value : string) : result Refusal bytes :=
  ok_or (b64url_decode value) (RfEncoding name).

Definition Assertion_from_base64url (authenticator_data client_data_json signature : string) :
    result Refusal Assertion :=
  a ← b64_field "authenticator_data" authenticator_data;
  c ← b64_field "client_data_json" client_data_json;
  s ← b64_field "signature" signature;
  Ok (mkAssertion a c s).

Record Verified := mkVerified { vf_user_verified : bool; vf_sign_count : Z }.

(** [verify_assertion]. *)
Definition verify_assertion (credential : Credential) (statement : Statement) (rp_id : RpId)
    (assertion : Assertion) : result Refusal Verified :=
  auth ← map_err RfAuthenticatorData (AuthenticatorData_parse assertion.(as_authenticator_data));
  _ ← refuse_if (bool_decide (is_Some auth.(ad_attested))) RfUnexpectedAttestedCredential;
  _ ← refuse_if (negb (bool_decide (auth.(ad_rp_id_hash) = rp_hash rp_id))) RfRpIdMismatch;
  _ ← refuse_if (negb (user_present auth.(ad_flags))) RfUserNotPresent;
  let stored := cr_backup_eligible credential in
  let received := eligible (backup auth.(ad_flags)) in
  _ ← refuse_if (negb (Bool.eqb stored received)) (RfBackupEligibilityChanged stored received);
  _ ← refuse_if (negb (counter_advances (cr_sign_count credential) auth.(ad_sign_count)))
        (RfSignCountNotIncreased (cr_sign_count credential) auth.(ad_sign_count));
  _ ← client_data_check assertion.(as_client_data_json) "webauthn.get" statement rp_id;
  _ ← refuse_if (negb (der_signature assertion.(as_signature))) RfSignatureMalformed;
  let signed := assertion.(as_authenticator_data) ++ sha256 assertion.(as_client_data_json) in
  _ ← refuse_if (negb (ecdsa_verify (sec1 (cr_public_key credential)) signed
                         assertion.(as_signature))) RfSignatureInvalid;
  Ok (mkVerified (user_verified auth.(ad_flags)) auth.(ad_sign_count)).

(** * Registrations *)

Record Registration := mkRegistration { rg_attestation_object : bytes; rg_client_data_json : bytes }.

Definition Registration_from_base64url (attestation_object client_data_json : string) :
    result Refusal Registration :=
  a ← b64_field "attestation_object" attestation_object;
  c ← b64_field "client_data_json" client_data_json;
  Ok (mkRegistration a c).

Record Registered := mkRegistered { rd_credential : Credential; rd_user_verified : bool }.

Definition cbor_text (c : cbor) : option string := match c with CText s => Some s | _ => None end.
Definition cbor_map (c : cbor) : option (list (cbor * cbor)) :=
  match c with CMap m => Some m | _ => None end.
Definition cbor_bytes (c : cbor) : option bytes := match c with CBytes b => Some b | _ => None end.

Definition map_entry (m : list (cbor * cbor)) (key : string) : result Refusal cbor :=
  ok_or (snd <$> List.find (fun kv => bool_decide (cbor_text kv.1 = Some key)) m)
    RfAttestationMalformed.

(** [attestation_none_auth_data]. *)
Definition attestation_none_auth_data (attestation_object : bytes) : result Refusal bytes :=
  '(value, cursor) ← ok_or (cbor_read attestation_object) RfAttestationMalformed;
  _ ← refuse_if (negb (length cursor =? 0)%nat) (RfAttestationTrailingBytes (length cursor));
  m ← ok_or (cbor_map value) RfAttestationMalformed;
  _ ← refuse_if (negb (length m =? 3)%nat) RfAttestationMalformed;
  fmt_entry ← map_entry m "fmt";
  fmt ← ok_or (cbor_text fmt_entry) RfAttestationMalformed;
  _ ← refuse_if (negb (String.eqb fmt "none")) (RfAttestationFormat fmt);
  st_entry ← map_entry m "attStmt";
  statement ← ok_or (cbor_map st_entry) RfAttestationMalformed;
  _ ← refuse_if (negb (length statement =? 0)%nat) RfAttestationStatementNotEmpty;
  ad_entry ← map_entry m "authData";
  ok_or (cbor_bytes ad_entry) RfAttestationMalformed.

(** [parse_registration]. *)
Definition parse_registration (statement : Statement) (rp_id : RpId) (registration : Registration) :
    result Refusal Registered :=
  _ ← client_data_check registration.(rg_client_data_json) "webauthn.create" statement rp_id;
  auth_data ← attestation_none_auth_data registration.(rg_attestation_object);
  auth ← map_err RfAuthenticatorData (AuthenticatorData_parse auth_data);
  _ ← refuse_if (negb (bool_decide (auth.(ad_rp_id_hash) = rp_hash rp_id))) RfRpIdMismatch;
  _ ← refuse_if (negb (user_present auth.(ad_flags))) RfUserNotPresent;
  attested ← ok_or auth.(ad_attested) RfNoAttestedCredential;
  Ok (mkRegistered {| cr_id := attested.(ac_id); cr_public_key := attested.(ac_public_key);
                      cr_sign_count := auth.(ad_sign_count);
                      cr_backup_eligible := eligible (backup auth.(ad_flags)) |}
        (user_verified auth.(ad_flags))).
End checks.

(** * Lemmas *)

(** What an accepted client data document says. *)
Definition client_data_ok `{DG : Digest, CR : Crypto} (b : bytes) (want : string) (s : Statement)
    (rp_id : RpId) : Prop :=
  exists m, members_of b = Some m /\
    text_member m "type" = Some want /\
    text_member m "challenge" = Some (challenge_base64url s) /\
    text_member m "origin" = Some rp_id /\
    member "topOrigin" m = None /\
    (member "crossOrigin" m = None \/ member "crossOrigin" m = Some (JBool false)).

Lemma negb_eqb_false (a b : string) : negb (String.eqb a b) = false <-> a = b.
Proof. rewrite negb_false_iff. apply String.eqb_eq. Qed.

Lemma negb_decide_false (P : Prop) `{Decision P} : negb (bool_decide P) = false <-> P.
Proof. rewrite negb_false_iff. apply bool_decide_eq_true. Qed.

Lemma decide_some_false {A} (o : option A) : bool_decide (is_Some o) = false <-> o = None.
Proof. rewrite bool_decide_eq_false. symmetry. apply eq_None_not_Some. Qed.

Section lemmas.
Context `{DG : Digest, CR : Crypto, CL : CoseLib}.

Lemma client_data_check_iff b want s rp u :
  client_data_check b want s rp = Ok u <-> client_data_ok b want s rp.
Proof.
  unfold client_data_check, client_data_ok. split.
  - intros H. apply bind_Ok in H as (m & Hm & H). exists m. inv_res.
    rewrite !negb_eqb_false, decide_some_false in *. subst.
    split_and!; try done. destruct (member "crossOrigin" m) as [[| [] | | | | |]|]; try discriminate H; tauto.
  - intros (m & -> & Hty & Hch & Ho & Ht & Hc). unfold mbind, result_mbind.
    cbn [ok_or]. rewrite Hty. cbn [ok_or]. rewrite String.eqb_refl, Hch. cbn [negb refuse_if ok_or].
    rewrite String.eqb_refl, Ho. cbn [negb refuse_if ok_or].
    rewrite String.eqb_refl, Ht. destruct u. by destruct Hc as [-> | ->].
Qed.

(** An accepted client data document answers one ceremony, one relying party
    and one challenge. *)
Lemma client_data_functional b want want' s s' rp rp' :
  client_data_ok b want s rp -> client_data_ok b want' s' rp' ->
  want = want' /\ rp = rp' /\ challenge_base64url s = challenge_base64url s'.
Proof. intros (m & Hm & H) (m' & Hm' & H'). naive_solver. Qed.

Lemma statement_message_inj s s' :
  statement_ok s -> statement_ok s' -> statement_message s = statement_message s' -> s = s'.
Proof.
  intros Hs Hs' E. rewrite !statement_message_eq in E.
  apply str_nul_sep_inj in E as [Hd Ht];
    [|by destruct s as [[] ? ? ?]|by destruct s' as [[] ? ? ?]].
  apply statement_tail_inj; [done..| |done].
  destruct s as [[] ? ? ?], s' as [[] ? ? ?]; done.
Qed.

Lemma challenge_binds s s' :
  (forall x y, b64url_encode x = b64url_encode y -> x = y) ->
  statement_ok s -> statement_ok s' -> challenge_base64url s = challenge_base64url s' ->
  s = s' \/ (statement_message s <> statement_message s' /\
             sha256 (statement_message s) = sha256 (statement_message s')).
Proof.
  intros Hb Hs Hs' E. apply Hb in E.
  destruct (decide (statement_message s = statement_message s')); [left|by right].
  by apply statement_message_inj.
Qed.

(** The checks of [verify_assertion], as a predicate. *)
Definition assertion_ok (c : Credential) (s : Statement) (rp : RpId) (a : Assertion)
    (auth : AuthenticatorData) : Prop :=
  AuthenticatorData_parse (as_authenticator_data a) = Ok auth /\
  ad_attested auth = None /\
  ad_rp_id_hash auth = rp_hash rp /\
  user_present (ad_flags auth) = true /\
  eligible (backup (ad_flags auth)) = cr_backup_eligible c /\
  counter_advances (cr_sign_count c) (ad_sign_count auth) = true /\
  client_data_ok (as_client_data_json a) "webauthn.get" s rp /\
  der_signature (as_signature a) = true /\
  ecdsa_verify (sec1 (cr_public_key c))
    (as_authenticator_data a ++ sha256 (as_client_data_json a)) (as_signature a) = true.

Lemma verify_assertion_iff c s rp a v :
  verify_assertion c s rp a = Ok v <->
  exists auth, assertion_ok c s rp a auth /\
    v = mkVerified (user_verified (ad_flags auth)) (ad_sign_count auth).
Proof.
  unfold verify_assertion, assertion_ok. split.
  - intros H. apply bind_Ok in H as (auth & Ha & H). exists auth. inv_res.
    rewrite ?negb_decide_false, ?decide_some_false, ?negb_false_iff, ?eqb_true_iff in *.
    split; [|done]. split_and!; try done. by eapply client_data_check_iff.
  - intros (auth & (-> & Hat & Hrp & Hup & Hb & Hn & Hc & Hd & Hv) & ->).
    apply (client_data_check_iff _ _ _ _ tt) in Hc.
    unfold mbind, result_mbind. cbn [map_err].
    rewrite (proj2 (decide_some_false _) Hat), (proj2 (negb_decide_false _) Hrp), Hup, Hb, Hn,
      eqb_reflx. cbn [negb refuse_if]. by rewrite Hc, Hd, Hv.
Qed.

(** What a registration that parses carries. *)
Definition registration_ok (s : Statement) (rp : RpId) (r : Registration)
    (auth : AuthenticatorData) (at_ : AttestedCredential) : Prop :=
  client_data_ok (rg_client_data_json r) "webauthn.create" s rp /\
  (exists ad, attestation_none_auth_data (rg_attestation_object r) = Ok ad /\
     AuthenticatorData_parse ad = Ok auth) /\
  ad_rp_id_hash auth = rp_hash rp /\
  user_present (ad_flags auth) = true /\
  ad_attested auth = Some at_.

Lemma parse_registration_Ok s rp r d :
  parse_registration s rp r = Ok d ->
  exists auth at_, registration_ok s rp r auth at_ /\
    rd_credential d = {| cr_id := ac_id at_; cr_public_key := ac_public_key at_;
      cr_sign_count := ad_sign_count auth;
      cr_backup_eligible := eligible (backup (ad_flags auth)) |} /\
    rd_user_verified d = user_verified (ad_flags auth).
Proof.
  unfold parse_registration, registration_ok. intros H. inv_res.
  rewrite ?negb_decide_false, ?negb_false_iff in *.
  do 2 eexists. split; [|done]. split_and!; eauto. by eapply client_data_check_iff.
Qed.

End lemmas.

(** The refusal codes are told apart by their wire spelling. *)
Lemma refusal_code_display_inj c c' : refusal_code_display c = refusal_code_display c' -> c = c'.
Proof. destruct c, c'; try reflexivity; intros H; discriminate H. Qed.

Lemma refusal_code_no_colon c : str_contains ":"%char (refusal_code_display c) = false.
Proof. by destruct c. Qed.

Lemma reason_display_inj r r' : reason_display r = reason_display r' -> r = r'.
Proof.
  destruct r as [c [d|]], r' as [c' [d'|]]; unfold reason_display; cbn [re_code re_detail]; intros H.
  - apply (str_sep_inj ":"%char _ _ (" " +:+ d) (" " +:+ d')) in H as [Hc Hd];
      [|apply refusal_code_no_colon..].
    apply refusal_code_display_inj in Hc. by simplify_eq/=.
  - pose proof (refusal_code_no_colon c') as Hc. rewrite <- H in Hc. exfalso. clear H.
    induction (refusal_code_display c) as [|a s IH]; [done|].
    rewrite str_app_cons in Hc. cbn [str_contains] in Hc. apply orb_false_iff in Hc. tauto.
  - pose proof (refusal_code_no_colon c) as Hc. rewrite H in Hc. exfalso. clear H.
    induction (refusal_code_display c') as [|a s IH]; [done|].
    rewrite str_app_cons in Hc. cbn [str_contains] in Hc. apply orb_false_iff in Hc. tauto.
  - apply refusal_code_display_inj in H. by subst.
Qed.

(** * Properties *)

(** C31: an authenticator's answer is good for one thing. An accepted
    assertion passed every check of [assertion_ok]. If it and any other accepted
    assertion or registration carry the same client data, both are assertions,
    for the same relying party, and for the same statement unless SHA-256 collided
    on two different statements. And once the store has advanced to the counter it carried, the very same assertion is
    refused, unless the authenticator keeps no counter (reports 0). *)
Theorem assertion_answers_one_statement `{DG : Digest, CR : Crypto, CL : CoseLib}
    (c : Credential) (s : Statement) (rp : RpId) (a : Assertion) (v : Verified) :
  (forall x y, b64url_encode x = b64url_encode y -> x = y) ->
  statement_ok s ->
  verify_assertion c s rp a = Ok v ->
  (exists auth, assertion_ok c s rp a auth /\
     v = mkVerified (user_verified (ad_flags auth)) (ad_sign_count auth)) /\
  (forall c' s' rp' a' v', statement_ok s' -> as_client_data_json a' = as_client_data_json a ->
     verify_assertion c' s' rp' a' = Ok v' ->
     rp' = rp /\
     (s = s' \/ (statement_message s <> statement_message s' /\
                 sha256 (statement_message s) = sha256 (statement_message s')))) /\
  (forall s' rp' r, rg_client_data_json r = as_client_data_json a ->
     is_ok (parse_registration s' rp' r) = false) /\
  (forall c' v', cr_sign_count c' = vf_sign_count v ->
     verify_assertion c' s rp a = Ok v' -> vf_sign_count v = 0%Z).
Proof.
  intros Hb Hs Hv. pose proof Hv as Hv'. apply verify_assertion_iff in Hv' as (auth & Hok & ->).
  pose proof Hok as (Hp & _ & _ & _ & _ & _ & Hc & _). split_and!.
  - by exists auth.
  - intros c' s' rp' a' v' Hs' E H. apply verify_assertion_iff in H as (? & H & _).
    destruct H as (_ & _ & _ & _ & _ & _ & Hc' & _). rewrite E in Hc'.
    destruct (client_data_functional _ _ _ _ _ _ _ Hc Hc') as (_ & -> & Hch).
    split; [done|]. by apply challenge_binds.
  - intros s' rp' r E. destruct (parse_registration s' rp' r) eqn:Er; [|done].
    apply parse_registration_Ok in Er as (? & ? & (Hc' & _) & _). rewrite E in Hc'.
    by destruct (client_data_functional _ _ _ _ _ _ _ Hc Hc') as [? _].
  - intros c' v' E H. cbn [vf_sign_count] in *.
    apply verify_assertion_iff in H as (auth' & H & _).
    destruct H as (Hp' & _ & _ & _ & _ & Hn & _). rewrite Hp in Hp'. injection Hp' as <-.
    rewrite E in Hn. unfold counter_advances in Hn. lia.
Qed.

(** ** A concrete relying party for the witnesses *)

Module WebAuthnExample.
#[export] Instance digest : Digest := {| sha256 b := firstn 32 (b ++ repeat x00 32); hex_encode b := "" |}.
Definition client_data (want : string) (s : Statement) (rp : RpId) : json :=
  JObj [("type", JStr want);
        ("challenge", JStr (String.string_of_list_byte (sha256 (statement_message s))));
        ("origin", JStr rp); ("crossOrigin", JBool false)].
Definition statement : Statement :=
  mkStatement DomPresence "chrome" Action_release_kill_switch "n1".
#[export] Instance crypto : Crypto := {|
  b64url_encode b := String.string_of_list_byte b;
  b64url_decode s := Some (as_bytes s);
  json_of_bytes b := if decide (b = [x01]) then Some (client_data "webauthn.get" statement RpId_pinned)
                     else None;
  cbor_read _ := None;
  der_signature b := negb (length b =? 0)%nat;
  ecdsa_verify k m g := bool_decide (g = firstn 4 m)
|}.
Definition auth_bytes : bytes := rp_hash RpId_pinned ++ [x19; x00; x00; x00; x07].
Definition assertion : Assertion := mkAssertion auth_bytes [x01] (firstn 4 auth_bytes).
Definition credential : Credential :=
  {| cr_id := repeat x02 16; cr_public_key := CoseExample.pk; cr_sign_count := 6;
     cr_backup_eligible := true |}.
End WebAuthnExample.

Lemma assertion_answers_one_statement_witness :
  @verify_assertion WebAuthnExample.digest WebAuthnExample.crypto CoseExample.lib
    WebAuthnExample.credential WebAuthnExample.statement RpId_pinned WebAuthnExample.assertion =
    Ok (mkVerified false 7) /\
  (forall c' v', cr_sign_count c' = 7%Z ->
     @verify_assertion WebAuthnExample.digest WebAuthnExample.crypto CoseExample.lib
       c' WebAuthnExample.statement RpId_pinned WebAuthnExample.assertion <> Ok v').
Proof.
  assert (@verify_assertion WebAuthnExample.digest WebAuthnExample.crypto CoseExample.lib
    WebAuthnExample.credential WebAuthnExample.statement RpId_pinned WebAuthnExample.assertion =
    Ok (mkVerified false 7)) as H by (vm_compute; reflexivity).
  split; [exact H|].
  refine (fun c' v' Hc Hv => _).
  destruct (@assertion_answers_one_statement WebAuthnExample.digest WebAuthnExample.crypto
    CoseExample.lib WebAuthnExample.credential WebAuthnExample.statement RpId_pinned
    WebAuthnExample.assertion (mkVerified false 7)) as (_ & _ & _ & Hr).
  - intros x y E. change (String.string_of_list_byte x = String.string_of_list_byte y) in E.
    rewrite <- (String.list_byte_of_string_of_list_byte x), E.
    apply String.list_byte_of_string_of_list_byte.
  - repeat split; reflexivity.
  - exact H.
  - discriminate (Hr c' v' Hc Hv).
Defined.
