(* ===== verification/EnrollStore.v ===== *)
(** EnrollStore: the writers of the enrollment store
    (src/src/packages/core/src/webauthn/store.rs): recording an enrolled
    credential, forgetting a browser's credentials, and persisting the sign
    counter of an accepted assertion. Each decides under the runtime lock,
    against the trust record as it stands then. *)
From S2P Require Import Prelude RuntimeRecord Policy Identity Trust PolicyRecord World.
From Stdlib Require Import Strings.Byte.
From stdpp Require Import base list sets strings.

Inductive EnrollmentAuthority :=
| FirstUse
| Approved (attestation : PresenceAttestation).

Record BrowserRevoked := mkRevoked { br_forgotten : list Enrollment; br_trust : Trust }.

Inductive RevokeBrowserError :=
| RbNotEnrolled (enrolled : list BrowserLabel)
| RbIo (e : io_error).

Inductive CounterError :=
| CeNotEnrolled
| CeStale (stored : Z)
| CeIo (e : io_error).

(** [Itertools::unique]: the first occurrence of each value, in order. *)
Fixpoint unique_from (seen l : list string) : list string :=
  match l with
  | [] => []
  | x :: l' => if str_mem x seen then unique_from seen l' else x :: unique_from (x :: seen) l'
  end.

Definition unique (l : list string) : list string := unique_from [] l.

Section store.
Context `{DG : Digest, ST : !Sized Trust}.

(** [store::record]. *)
Definition record (label : BrowserLabel) (credential : Credential) (authority : EnrollmentAuthority) :
    host (result io_error Trust) :=
  let enrollment := {| en_label := label; en_credential := credential |} in
  with_runtime_lock (
    let? _ := match authority with
              | FirstUse =>
                  let? t := current_trust in
                  hret (if (length (enrollments t) =? 0)%nat then Ok tt
                        else Err (IoError AlreadyExists
                          "another credential was enrolled first; this enrollment needs an approval"))
              | Approved _ => hret (Ok tt)
              end in
    mutate_locked ScopeEnrollments (fun t => enroll t enrollment)).

(** The body of [store::revoke_browser] under the lock. *)
Definition revoke_browser_locked (label : BrowserLabel) :
    host (result io_error (result RevokeBrowserError BrowserRevoked)) :=
  let? current := current_trust in
  if negb (existsb (fun e => String.eqb (en_label e) label) (enrollments current)) then
    hret (Ok (Err (RbNotEnrolled (unique (en_label <$> enrollments current)))))
  else
    let? r := mutate_locked_with ScopeEnrollments (fun t => revoke_browser_enrollments t label) in
    hret (Ok (Ok (mkRevoked r.2 r.1))).

(** [audit_browsers_revoked]: one record per forgotten credential. *)
Definition revoked_record (surface : Surface) (e : Enrollment) : AuditRecord :=
  audit_named RevokeBrowser surface (en_label e) "ok"
    (Some ("credential=" +:+ audit_label (PathWebAuthn (en_id e)))).

Fixpoint audit_browsers_revoked (surface : Surface) (forgotten : list Enrollment) : host unit :=
  match forgotten with
  | [] => hret tt
  | e :: rest =>
      let! _ := audit_record (revoked_record surface e) in
      audit_browsers_revoked surface rest
  end.

(** [store::revoke_browser]. *)
Definition revoke_browser (label : BrowserLabel) (surface : Surface) :
    host (result RevokeBrowserError BrowserRevoked) :=
  let? inner := hmap_err RbIo (with_runtime_lock (revoke_browser_locked label)) in
  let? revoked := hret inner in
  let! _ := audit_browsers_revoked surface (br_forgotten revoked) in
  hret (Ok revoked).

(** [store::advance_sign_count]. *)
Definition advance_sign_count (id : CredentialId) (sign_count : Z) : host (result CounterError unit) :=
  let? outcome := hmap_err CeIo (with_runtime_lock (
    let? t := current_trust in
    let verdict := counter_advance t id sign_count in
    let? _ := match verdict with
              | Advanced =>
                  let? _ := mutate_locked ScopeEnrollments (fun t => set_sign_count t id sign_count) in
                  hret (Ok tt)
              | _ => hret (Ok tt)
              end in
    hret (Ok verdict))) in
  hret (match outcome with
        | Advanced => Ok tt
        | Stale stored => Err (CeStale stored)
        | CounterNotEnrolled => Err CeNotEnrolled
        end).
End store.

(** * Lemmas *)

Lemma bumped_enrollments t s t' : bumped t s = Ok t' -> enrollments t' = enrollments t.
Proof. by intros (_ & _ & _ & ? & _)%bumped_Ok. Qed.

(** The first match of a list without the entries of one id. *)
Lemma find_enrollment_filter id id' l :
  find_enrollment id (List.filter (fun x => negb (bool_decide (en_id x = id'))) l) =
    if decide (id = id') then None else find_enrollment id l.
Proof.
  unfold find_enrollment. induction l as [|x l IH]; simpl; [by case_decide|].
  destruct (decide (en_id x = id')) as [E|E].
  - rewrite (bool_decide_true _ E). simpl. rewrite IH. case_decide; [done|].
    by rewrite bool_decide_false by congruence.
  - rewrite (bool_decide_false _ E). simpl. rewrite IH.
    destruct (decide (en_id x = id)) as [Ex|Ex].
    + rewrite (bool_decide_true _ Ex). case_decide; congruence.
    + by rewrite (bool_decide_false _ Ex).
Qed.

Lemma find_app {A} (p : A -> bool) l l' :
  List.find p (l ++ l') = match List.find p l with Some x => Some x | None => List.find p l' end.
Proof. induction l as [|x l IH]; simpl; [done|]. by destruct (p x). Qed.

Lemma find_enroll id t e :
  find_enrollment id (enrollments (enroll t e)) =
    if decide (id = en_id e) then Some e else find_enrollment id (enrollments t).
Proof.
  unfold enroll. cbn [with_enrollments enrollments].
  pose proof (find_enrollment_filter id (en_id e) (enrollments t)) as H.
  unfold find_enrollment in *. rewrite find_app, H. simpl.
  destruct (decide (id = en_id e)) as [->|D]; [by rewrite bool_decide_eq_true_2|].
  rewrite bool_decide_eq_false_2 by congruence. by destruct (List.find _ (enrollments t)).
Qed.

Lemma enroll_nonempty t e : enrollments (enroll t e) <> [].
Proof. unfold enroll. cbn [with_enrollments enrollments]. by destruct (List.filter _ _). Qed.

Section lemmas.
Context `{DG : Digest, ST : !Sized Trust}.

Lemma audit_browsers_revoked_eq surface l e w :
  audit_browsers_revoked surface l e w =
    (tt, foldl (fun w x => add_audit (revoked_record surface x) w) w l).
Proof. revert w. induction l as [|x l IH]; intros w; [done|]. apply IH. Qed.

Lemma add_audits_trust surface (l : list Enrollment) w :
  let w' := foldl (fun w x => add_audit (revoked_record surface x) w) w l in
  w_trust w' = w_trust w /\ w_audit w' = w_audit w ++ (revoked_record surface <$> l).
Proof.
  revert w. induction l as [|x l IH]; intros w; simpl; [by rewrite app_nil_r|].
  destruct (IH (add_audit (revoked_record surface x) w)) as [-> ->]. simpl.
  by rewrite <- app_assoc.
Qed.

Lemma record_cases label cred authority e w r w' :
  record label cred authority e w = (r, w') ->
  match r with
  | Err _ => w' = w
  | Ok t =>
      exists t0 t1, trust_current (w_trust w) = Ok t0 /\ bumped t0 ScopeEnrollments = Ok t1 /\
        t = enroll t1 {| en_label := label; en_credential := cred |} /\
        w' = set_trust (Stored t) w /\ (authority = FirstUse -> enrollments t0 = [])
  end.
Proof.
  unfold record, with_runtime_lock. destruct (e_lock e); [by intros [= <- <-]|].
  unfold htry at 1, hbind at 1. destruct authority as [|a].
  - unfold htry at 1, hbind at 1, current_trust at 1, asks, hret.
    destruct (trust_current (w_trust w)) as [t0|] eqn:E0; [|by intros [= <- <-]].
    destruct (length (enrollments t0) =? 0)%nat eqn:El; [|by intros [= <- <-]].
    destruct (mutate_locked _ _ e w) as [[t|] w1] eqn:Em; intros [= <- <-].
    + apply mutate_locked_Ok in Em as (t0' & t1 & Et & Hb & -> & ->).
      rewrite E0 in Et. injection Et as <-. exists t0, t1. split_and!; try done.
      intros _. apply Nat.eqb_eq in El. by destruct (enrollments t0).
    + by eapply mutate_locked_Err.
  - unfold hret. destruct (mutate_locked _ _ e w) as [[t|] w1] eqn:Em; intros [= <- <-].
    + apply mutate_locked_Ok in Em as (t0 & t1 & Et & Hb & -> & ->). exists t0, t1. by split_and!.
    + by eapply mutate_locked_Err.
Qed.

Lemma advance_cases id n e w r w' :
  advance_sign_count id n e w = (r, w') ->
  match r with
  | Err _ => w' = w
  | Ok _ =>
      exists t0 t1, trust_current (w_trust w) = Ok t0 /\ bumped t0 ScopeEnrollments = Ok t1 /\
        counter_advance t0 id n = Advanced /\
        w' = set_trust (Stored (set_sign_count t1 id n)) w
  end.
Proof.
  unfold advance_sign_count, htry at 1, hbind at 1, hmap_err, hbind at 1, with_runtime_lock, hret.
  destruct (e_lock e); [by intros [= <- <-]|].
  unfold htry at 1, hbind at 1, current_trust, asks.
  destruct (trust_current (w_trust w)) as [t0|] eqn:E0; [|by intros [= <- <-]].
  destruct (counter_advance t0 id n) eqn:Ec; [|by intros [= <- <-]..].
  unfold htry at 1 2, hbind at 1 2.
  destruct (mutate_locked _ _ e w) as [[t|] w1] eqn:Em; intros [= <- <-].
  - apply mutate_locked_Ok in Em as (t0' & t1 & Et & Hb & -> & ->).
    rewrite E0 in Et. injection Et as <-. by exists t0, t1.
  - by eapply mutate_locked_Err.
Qed.

(** A verdict against writing, computed. *)
Lemma advance_refused id n e w t0 stored :
  e_lock e = None -> trust_current (w_trust w) = Ok t0 -> counter_advance t0 id n = Stale stored ->
  advance_sign_count id n e w = (Err (CeStale stored), w).
Proof.
  intros He Et Ec. unfold advance_sign_count, htry at 1, hbind at 1, hmap_err, hbind at 1,
    with_runtime_lock, hret. rewrite He.
  unfold htry at 1, hbind at 1, current_trust, asks. by rewrite Et, Ec.
Qed.

Lemma revoke_browser_locked_cases label e w r w' :
  revoke_browser_locked label e w = (r, w') ->
  match r with
  | Err _ | Ok (Err _) => w' = w
  | Ok (Ok rv) =>
      exists t0 t1, trust_current (w_trust w) = Ok t0 /\ bumped t0 ScopeEnrollments = Ok t1 /\
        revoke_browser_enrollments t1 label = (br_forgotten rv, br_trust rv) /\
        br_forgotten rv <> [] /\ w' = set_trust (Stored (br_trust rv)) w
  end.
Proof.
  unfold revoke_browser_locked, htry at 1, hbind at 1, current_trust, asks.
  destruct (trust_current (w_trust w)) as [t0|] eqn:E0; [|by intros [= <- <-]].
  destruct (existsb _ (enrollments t0)) eqn:Ex; cbn [negb]; [|by intros [= <- <-]].
  unfold htry at 1, hbind at 1.
  destruct (mutate_locked_with _ _ e w) as [[[t out]|] w1] eqn:Em; intros [= <- <-].
  - apply mutate_locked_with_Ok in Em as (t0' & t1 & Et & Hb & Hf & ->).
    rewrite E0 in Et. injection Et as <-. exists t0, t1. split_and!; try done.
    cbn [br_forgotten snd]. intros ->. injection Hf as Hg _.
    apply existsb_true_iff in Ex as (x & Hx & Hl).
    rewrite <- (bumped_enrollments _ _ _ Hb) in Hx.
    assert (x ∈ []) as Hn; [|by apply not_elem_of_nil in Hn].
    rewrite <- Hg. by apply elem_of_bfilter.
  - by eapply mutate_locked_with_Err.
Qed.

Lemma revoke_browser_cases label surface e w r w' :
  revoke_browser label surface e w = (r, w') ->
  match r with
  | Err _ => w' = w
  | Ok rv =>
      exists t0 t1, trust_current (w_trust w) = Ok t0 /\ bumped t0 ScopeEnrollments = Ok t1 /\
        revoke_browser_enrollments t1 label = (br_forgotten rv, br_trust rv) /\
        br_forgotten rv <> [] /\ w_trust w' = Stored (br_trust rv) /\
        w_audit w' = w_audit w ++ (revoked_record surface <$> br_forgotten rv)
  end.
Proof.
  unfold revoke_browser, htry at 1, hbind at 1, hmap_err, hbind at 1, with_runtime_lock.
  destruct (e_lock e); [by intros [= <- <-]|].
  destruct (revoke_browser_locked label e w) as [[[rv|]|] w1] eqn:El;
    apply revoke_browser_locked_cases in El; cbn; [|intros [= <- <-]; done..].
  unfold hbind. rewrite audit_browsers_revoked_eq. intros [= <- <-].
  destruct El as (t0 & t1 & ? & ? & ? & ? & ->). exists t0, t1.
  destruct (add_audits_trust surface (br_forgotten rv) (set_trust (Stored (br_trust rv)) w))
    as [-> ->]. by split_and!.
Qed.
End lemmas.

(** * Properties *)

Section properties.
Context `{DG : Digest, ST : !Sized Trust}.

(** Enrollment is first-come, and exact. A first-use enrollment lands only on
    a record without enrollments, so of two first-use ceremonies at most one
    lands; an enrollment that lands makes the credential findable under its
    browser's label, replaces only the entry of the same credential id, and moves
    neither the allowlist nor the kill latch; one that is refused moves nothing. *)
Theorem enrollment_is_first_come (label : BrowserLabel) (cred : Credential)
    (authority : EnrollmentAuthority) (e : env) (w w' : world) (r : result io_error Trust) :
  record label cred authority e w = (r, w') ->
  match r with
  | Err _ => w' = w
  | Ok t =>
      w_trust w' = Stored t /\
      (exists t0, trust_current (w_trust w) = Ok t0 /\
         (authority = FirstUse -> enrollments t0 = []) /\
         clients t = clients t0 /\ killed t = killed t0 /\
         forall id, find_enrollment id (enrollments t) =
           if decide (id = cr_id cred) then Some {| en_label := label; en_credential := cred |}
           else find_enrollment id (enrollments t0)) /\
      (forall label' cred' e', is_ok (record label' cred' FirstUse e' w').1 = false)
  end.
Proof.
  intros H. apply record_cases in H. destruct r as [t|]; [|done].
  destruct H as (t0 & t1 & Et & Hb & -> & -> & Hf).
  pose proof (bumped_Ok _ _ _ Hb) as (_ & Hk & Hc & He & _). split_and!; [done| |].
  - exists t0. split_and!; [done..|]. intros id. by rewrite find_enroll, He.
  - intros label' cred' e'. destruct (record label' cred' FirstUse e' _) as [[t2|] w2] eqn:E2; [|done].
    apply record_cases in E2 as (t3 & _ & Et3 & _ & _ & _ & Hnil). injection Et3 as <-.
    by destruct (enroll_nonempty _ _ (Hnil eq_refl)).
Qed.

(** Forgetting a browser forgets exactly its credentials. When it succeeds,
    the entries under the label are gone, every other entry stays in order, at
    least one went, and the trail has one record per credential that went, in
    record order; a refusal moves nothing, and the trail is silent. *)
Theorem revoking_a_browser_is_exact (label : BrowserLabel) (surface : Surface) (e : env)
    (w w' : world) (r : result RevokeBrowserError BrowserRevoked) :
  revoke_browser label surface e w = (r, w') ->
  match r with
  | Err _ => w' = w
  | Ok rv =>
      exists t0, trust_current (w_trust w) = Ok t0 /\ w_trust w' = Stored (br_trust rv) /\
        br_forgotten rv = List.filter (fun x => String.eqb (en_label x) label) (enrollments t0) /\
        enrollments (br_trust rv) =
          List.filter (fun x => negb (String.eqb (en_label x) label)) (enrollments t0) /\
        br_forgotten rv <> [] /\
        w_audit w' = w_audit w ++ (revoked_record surface <$> br_forgotten rv)
  end.
Proof.
  intros H. apply revoke_browser_cases in H. destruct r as [rv|]; [|done].
  destruct H as (t0 & t1 & Et & Hb & [= Hg Ht] & Hne & Hw & Ha).
  exists t0. rewrite <- (bumped_enrollments _ _ _ Hb). destruct rv as [gone t]. simpl in *. by subst.
Qed.

(** A counter is spent when it is persisted. When an assertion's counter was
    accepted and written, the record holds exactly that counter for that
    credential and every other credential's entry is untouched; from then on, a
    counting authenticator's same or lower counter is refused as stale and moves
    nothing. A refusal, stale, unenrolled or failed to write, moves nothing. *)
Theorem accepted_counter_is_spent (id : CredentialId) (n : Z) (e : env) (w w' : world)
    (r : result CounterError unit) :
  advance_sign_count id n e w = (r, w') ->
  match r with
  | Err _ => w' = w
  | Ok _ =>
      (exists t0 t entry, trust_current (w_trust w) = Ok t0 /\ w_trust w' = Stored t /\
         find_enrollment id (enrollments t0) = Some entry /\
         find_enrollment id (enrollments t) = Some (with_count entry n) /\
         forall id', id' <> id ->
           find_enrollment id' (enrollments t) = find_enrollment id' (enrollments t0)) /\
      (forall n' e', (0 <= n' <= n)%Z -> (0 < n)%Z -> e_lock e' = None ->
         advance_sign_count id n' e' w' = (Err (CeStale n), w'))
  end.
Proof.
  intros H. apply advance_cases in H. destruct r as [u|]; [|done].
  destruct H as (t0 & t1 & Et & Hb & Hc & ->). pose proof (bumped_enrollments _ _ _ Hb) as He.
  assert (counter_advance t1 id n = Advanced) as Hc1 by (unfold counter_advance in *; by rewrite He).
  split.
  - unfold counter_advance in Hc. destruct (find_enrollment id (enrollments t0)) as [x|] eqn:Ef; [|done].
    exists t0, (set_sign_count t1 id n), x. unfold set_sign_count. cbn [with_enrollments enrollments].
    rewrite find_update_first, decide_True, He, Ef by done. split_and!; try done.
    intros id' Hne. by rewrite find_update_first, decide_False.
  - intros n' e' [? ?] Hn He'. eapply advance_refused; [done|reflexivity|].
    by apply accepted_counter_is_stale.
Qed.
End properties.

(** ** A concrete host for the witnesses *)

Module EnrollExample.
#[export] Instance digest : Digest := {| sha256 := id; hex_encode := String.string_of_list_byte |}.
#[export] Instance trust_sized : Sized Trust := {| fits _ := true; too_large _ := invalid_data "" |}.
Definition w0 : world := mkWorld Absent Absent Absent Absent (Ok None) [] 1000.
Definition cred (id : CredentialId) (n : Z) : Credential :=
  {| cr_id := id; cr_public_key := {| sec1 := [] |}; cr_sign_count := n; cr_backup_eligible := false |}.
Definition w1 : world := Eval vm_compute in (record "chrome" (cred [x01] 4) FirstUse calm w0).2.
Definition t1 : Trust := Eval vm_compute in default trust_default (ok (trust_current (w_trust w1))).
Definition w2 : world := Eval vm_compute in (advance_sign_count [x01] 5 calm w1).2.
Definition rv : BrowserRevoked := Eval vm_compute in
  default (mkRevoked [] trust_default) (ok (revoke_browser "chrome" SurfCli calm w1).1).
Definition w3 : world := Eval vm_compute in (revoke_browser "chrome" SurfCli calm w1).2.
End EnrollExample.

Lemma enrollment_is_first_come_witness :
  w_trust EnrollExample.w1 = Stored EnrollExample.t1 /\
  is_ok (record (ST := EnrollExample.trust_sized) "brave" (EnrollExample.cred [x02] 0) FirstUse calm
           EnrollExample.w1).1 = false.
Proof.
  destruct (enrollment_is_first_come (ST := EnrollExample.trust_sized) "chrome"
    (EnrollExample.cred [x01] 4) FirstUse calm EnrollExample.w0 EnrollExample.w1
    (Ok EnrollExample.t1)) as (H1 & _ & H2); [vm_compute; reflexivity|].
  split; [exact H1|apply H2].
Defined.

Lemma revoking_a_browser_is_exact_witness :
  exists t0, trust_current (w_trust EnrollExample.w1) = Ok t0 /\
    w_trust EnrollExample.w3 = Stored (br_trust EnrollExample.rv).
Proof.
  destruct (revoking_a_browser_is_exact (DG := EnrollExample.digest)
    (ST := EnrollExample.trust_sized) "chrome" SurfCli calm
    EnrollExample.w1 EnrollExample.w3 (Ok EnrollExample.rv)) as (t0 & H1 & H2 & _);
    [vm_compute; reflexivity|]. exists t0. split; [exact H1|exact H2].
Defined.

Lemma accepted_counter_is_spent_witness :
  advance_sign_count (ST := EnrollExample.trust_sized) [x01] 5 calm EnrollExample.w2 =
    (Err (CeStale 5), EnrollExample.w2).
Proof.
  destruct (accepted_counter_is_spent (ST := EnrollExample.trust_sized) [x01] 5 calm
    EnrollExample.w1 EnrollExample.w2 (Ok tt)) as [_ H]; [vm_compute; reflexivity|].
  apply H; [lia|lia|reflexivity].
Defined.
