(* ===== verification/Presence.v ===== *)
(** Presence: proofs of user presence
    (src/src/packages/core/src/presence/mod.rs, presence/request.rs): the
    outstanding request and the two answers that can close it, the typed phrase
    of the terminal path, and the refusals with the texts the trail carries
    (webauthn/refusal.rs, webauthn/authenticator_data.rs, webauthn/credential.rs). *)
From S2P Require Import Prelude Json RuntimeRecord Policy Identity Trust PolicyRecord World Messages Wire AuthData WebAuthn EnrollStore.
From Stdlib Require Import Strings.Byte Ascii.
From stdpp Require Import base list sets strings pretty.

(** * Texts *)

(** [format!("{:?}", s)] of a string: quoted, with the escapes of Rust's
    [str::escape_debug], which follow the Unicode tables. *)
Class StrDebug := { str_debug : string -> string }.

Definition bool_display (b : bool) : string := if b then "true" else "false".

Definition hex_digit (n : Z) : string :=
  String (ascii_of_nat (Z.to_nat (if (n <? 10)%Z then 48 + n else 87 + n)%Z)) "".

(** [{:02x}] of a byte. *)
Definition hex2 (n : Z) : string := hex_digit (n / 16) +:+ hex_digit (n mod 16).

Definition option_i64_debug (o : option Z) : string :=
  match o with Some n => "Some(" +:+ pretty n +:+ ")" | None => "None" end.

Definition key_refusal_display (k : KeyRefusal) : string :=
  match k with
  | KrCbor => "credential public key is not a CBOR COSE_Key"
  | KrNotEc2 => "credential public key is not an EC2 key"
  | KrAlgorithm alg =>
      "credential public key algorithm " +:+ option_i64_debug alg +:+ " is not ES256 (-7)"
  | KrCurve => "credential public key curve is not P-256"
  | KrCoordinates => "credential public key coordinates are not two 32-byte scalars"
  | KrPoint => "credential public key point is not on P-256"
  end.

Definition credential_id_error_display (e : CredentialIdError) : string :=
  match e with
  | CidEncoding => "credential id is not base64url"
  | CidLength len =>
      "credential id is " +:+ pretty len +:+ " bytes, outside " +:+ pretty MIN_CREDENTIAL_ID_LEN
      +:+ "..=" +:+ pretty MAX_CREDENTIAL_ID_LEN
  end.

Definition auth_data_error_display (e : AuthDataError) : string :=
  match e with
  | AdTooShort len =>
      "authenticator data is " +:+ pretty len +:+ " bytes, shorter than the 37-byte header"
  | AdReservedFlags flags => "authenticator data sets reserved flag bits 0x" +:+ hex2 flags
  | AdExtensions => "authenticator data carries extensions"
  | AdBackupStateWithoutEligibility =>
      "authenticator data claims a backed-up credential that is not backup-eligible"
  | AdAttestedCredentialTruncated => "attested credential data is truncated"
  | AdCredentialId e => credential_id_error_display e
  | AdPublicKey k => key_refusal_display k
  | AdTrailingBytes len => pretty len +:+ " unparsed bytes follow the authenticator data"
  end.

Section texts.
Context `{SD : StrDebug}.

(** [Display for Refusal]. *)
Definition refusal_display (r : Refusal) : string :=
  match r with
  | RfEncoding field => field +:+ " is not base64url"
  | RfAuthenticatorData e => auth_data_error_display e
  | RfUnexpectedAttestedCredential => "assertion carries attested credential data"
  | RfRpIdMismatch => "rpIdHash is not the hash of this extension's id"
  | RfUserNotPresent => "the UP flag is clear: no user gesture was made"
  | RfSignCountNotIncreased stored received =>
      "signCount " +:+ pretty received +:+ " did not increase past the stored " +:+ pretty stored
  | RfBackupEligibilityChanged stored received =>
      "backup eligibility " +:+ bool_display received +:+ " differs from the enrolled "
      +:+ bool_display stored
  | RfClientDataMalformed => "clientDataJSON is not the JSON object the WebAuthn client writes"
  | RfClientDataType got want =>
      "clientDataJSON.type is " +:+ str_debug got +:+ ", not " +:+ str_debug want
  | RfChallengeMismatch => "clientDataJSON.challenge is not this statement's challenge"
  | RfOriginMismatch got =>
      "clientDataJSON.origin " +:+ str_debug got +:+ " is not this extension's origin"
  | RfCrossOrigin => "clientDataJSON describes a cross-origin ceremony"
  | RfSignatureMalformed => "signature is not a DER ECDSA signature"
  | RfSignatureInvalid => "signature does not verify under the credential's public key"
  | RfAttestationMalformed => "attestationObject is not the CBOR map { fmt, attStmt, authData }"
  | RfAttestationTrailingBytes len => pretty len +:+ " unparsed bytes follow the attestation object"
  | RfAttestationFormat got =>
      "attestation format " +:+ str_debug got +:+ " is not " +:+ dquote +:+ "none" +:+ dquote
  | RfAttestationStatementNotEmpty => "attestation statement is not empty"
  | RfNoAttestedCredential => "registration carries no attested credential data"
  end.

(** * Refused presence (presence/mod.rs) *)

Inductive PresenceError :=
| NotInteractive
| Declined
| PeIo (e : io_error)
| PeRefused (r : Refusal)
| CredentialNotEnrolled
| WrongBrowser (enrolled_under : BrowserLabel)
| SoftwareConfirmationNotAllowed
| RequestMismatch
| PeStore (e : io_error).

Definition presence_error_display (e : PresenceError) : string :=
  match e with
  | NotInteractive => "stdin is not a terminal; this action restores or grants capability and requires an interactive confirmation (run it from a terminal)"
  | Declined => "the confirmation phrase was not entered; nothing was changed"
  | PeIo e => "could not read the confirmation: " +:+ io_msg e
  | PeRefused r => "assertion refused: " +:+ refusal_display r
  | CredentialNotEnrolled => "the asserting credential is not enrolled on this machine"
  | WrongBrowser l =>
      "the asserting credential is enrolled under browser '" +:+ l +:+ "', not this one"
  | SoftwareConfirmationNotAllowed => "this browser has an enrolled authenticator; a window confirmation cannot stand in for it"
  | RequestMismatch => "the confirmation names a request that is not the outstanding one"
  | PeStore e => "enrollment store: " +:+ io_msg e
  end.
End texts.

(** [PresenceError::code]. *)
Definition presence_error_code (e : PresenceError) : RefusalCode :=
  match e with
  | NotInteractive => RcNotInteractive
  | Declined => RcDeclined
  | PeIo _ => RcIoError
  | PeRefused refusal => refusal_code refusal
  | CredentialNotEnrolled => RcCredentialNotEnrolled
  | WrongBrowser _ => RcWrongBrowserLabel
  | SoftwareConfirmationNotAllowed => RcSoftwareConfirmationNotAllowed
  | RequestMismatch => RcRequestMismatch
  | PeStore _ => RcStoreError
  end.

(** * The terminal path *)

Definition CLI_CONFIRM_PHRASE : string := "release".

(** [TerminalStdin::require]. *)
Definition TerminalStdin_require (is_terminal : bool) : result PresenceError unit :=
  if is_terminal then Ok tt else Err NotInteractive.

(** [tty_verdict]; [line] is what the read would return, [None] at end of file. *)
Definition tty_verdict (still_terminal : bool) (line : result io_error (option string)) :
    result PresenceError PresenceAttestation :=
  if negb still_terminal then Err NotInteractive
  else
    match line with
    | Ok (Some line) =>
        if String.eqb (trim line) CLI_CONFIRM_PHRASE then Ok (mkAttestation PathTty)
        else Err Declined
    | Ok None => Err Declined
    | Err e => Err (PeIo e)
    end.

(** * Requests (presence/request.rs) *)

Inductive Answerers :=
| AnsBrowser (label : BrowserLabel)
| AnsAnyEnrolled.

Definition admits (a : Answerers) (enrollment : Enrollment) : bool :=
  match a with
  | AnsBrowser label => String.eqb (en_label enrollment) label
  | AnsAnyEnrolled => true
  end.

Record PresenceRequest := mkRequest {
  pq_statement : Statement;
  pq_answerers : Answerers;
  pq_hint : list CredentialId
}.

(** [PresenceRequest::new]; [nonce] is what [Nonce::fresh] returned. *)
Definition PresenceRequest_new (label : BrowserLabel) (action : string) (answerers : Answerers)
    (enrolled : list Enrollment) (nonce : result io_error string) : result io_error PresenceRequest :=
  let hint := en_id <$> List.filter (admits answerers) enrolled in
  nonce ← nonce;
  Ok (mkRequest (mkStatement DomPresence label action nonce) answerers hint).

Definition for_browser (label : BrowserLabel) (action : string) (enrolled : list Enrollment)
    (nonce : result io_error string) : result io_error PresenceRequest :=
  PresenceRequest_new label action (AnsBrowser label) enrolled nonce.

Definition for_enrollment (label : BrowserLabel) (enrolled : list Enrollment)
    (nonce : result io_error string) : result io_error PresenceRequest :=
  action ← ok_or (Action_parse ("enroll a credential for browser '" +:+ label +:+ "'"))
    (invalid_data "label too long for an action");
  PresenceRequest_new label action AnsAnyEnrolled enrolled nonce.

Section answers.
Context `{DG : Digest, CR : Crypto, CL : CoseLib, ST : !Sized Trust}.

Definition counter_error (received : Z) (e : CounterError) : PresenceError :=
  match e with
  | CeNotEnrolled => CredentialNotEnrolled
  | CeStale stored => PeRefused (RfSignCountNotIncreased stored received)
  | CeIo e => PeStore e
  end.

(** [PresenceRequest::assert]. *)
Definition assert_ (req : PresenceRequest) (enrolled : list Enrollment) (id : CredentialId)
    (assertion : Assertion) : host (result PresenceError PresenceAttestation) :=
  let? enrollment := hret (ok_or (find_enrollment id enrolled) CredentialNotEnrolled) in
  if negb (admits (pq_answerers req) enrollment) then
    hret (Err (WrongBrowser (en_label enrollment)))
  else
    let? verified := hret (map_err PeRefused
      (verify_assertion (en_credential enrollment) (pq_statement req) RpId_pinned assertion)) in
    let? _ := hmap_err (counter_error (vf_sign_count verified))
                (advance_sign_count id (vf_sign_count verified)) in
    hret (Ok (mkAttestation (PathWebAuthn id))).

(** [PresenceRequest::confirm_window]. *)
Definition confirm_window (req : PresenceRequest) (enrolled : list Enrollment) :
    result PresenceError PresenceAttestation :=
  if existsb (admits (pq_answerers req)) enrolled then Err SoftwareConfirmationNotAllowed
  else Ok (mkAttestation PathConfirmWindow).
End answers.

(** * Lemmas *)

Lemma tty_verdict_Ok still line att :
  tty_verdict still line = Ok att <->
  still = true /\ att = mkAttestation PathTty /\
  exists s, line = Ok (Some s) /\ trim s = CLI_CONFIRM_PHRASE.
Proof.
  unfold tty_verdict. destruct still; cbn [negb].
  - destruct line as [[s|]|err]; [destruct (String.eqb_spec (trim s) CLI_CONFIRM_PHRASE)|..];
      (split; [intros H; try discriminate H|intros (_ & -> & s' & Hs & Ht); try discriminate Hs]).
    + injection H as <-. eauto.
    + done.
    + injection Hs as <-. done.
  - split; [done|by intros [? _]].
Qed.

(** A request minted for a valid label and action over a usable nonce. *)
Lemma request_statement_ok label action ans enrolled nonce req :
  validate_label label = true -> Action_parse action = Some action ->
  (forall n, nonce = Ok n -> Nonce_parse n = Some n) ->
  PresenceRequest_new label action ans enrolled nonce = Ok req ->
  statement_ok (pq_statement req) /\ pq_answerers req = ans /\
  pq_hint req = en_id <$> List.filter (admits ans) enrolled.
Proof.
  unfold PresenceRequest_new. intros Hl Ha Hn H. inv_res. split; [|done].
  split; [done|]. split; [done|]. by apply Hn.
Qed.

Lemma from_be_bytes_nonneg b : (0 <= from_be_bytes b)%Z.
Proof.
  unfold from_be_bytes. generalize (Z.le_refl 0). generalize 0%Z at 2 4.
  induction b as [|x b IH]; intros acc H; cbn [from_be_bytes_acc]; [done|].
  apply IH. pose proof (byte_Z_range x). lia.
Qed.

Section lemmas.
Context `{DG : Digest, CR : Crypto, CL : CoseLib, ST : !Sized Trust}.

Lemma assert_cases req enrolled id a e w r w' :
  assert_ req enrolled id a e w = (r, w') ->
  match r with
  | Err _ => w' = w
  | Ok att =>
      exists en v, find_enrollment id enrolled = Some en /\
        admits (pq_answerers req) en = true /\
        verify_assertion (en_credential en) (pq_statement req) RpId_pinned a = Ok v /\
        advance_sign_count id (vf_sign_count v) e w = (Ok tt, w') /\
        att = mkAttestation (PathWebAuthn id)
  end.
Proof.
  unfold assert_, htry at 1, hbind at 1, hret at 1.
  destruct (find_enrollment id enrolled) as [en|] eqn:Ef; cbn [ok_or]; [|by intros [= <- <-]].
  destruct (admits (pq_answerers req) en) eqn:Ea; cbn [negb]; [|by intros [= <- <-]].
  unfold htry at 1, hbind at 1, hret at 1.
  destruct (verify_assertion _ _ _ _) as [v|] eqn:Ev; cbn [map_err]; [|by intros [= <- <-]].
  unfold htry, hbind, hmap_err, hbind, hret.
  destruct (advance_sign_count id (vf_sign_count v) e w) as [[[]|] w1] eqn:Ec; cbn [map_err];
    intros [= <- <-].
  - by exists en, v.
  - apply advance_cases in Ec. done.
Qed.

Lemma confirm_window_iff req enrolled att :
  confirm_window req enrolled = Ok att <->
  att = mkAttestation PathConfirmWindow /\
  forall en, en ∈ enrolled -> admits (pq_answerers req) en = false.
Proof.
  unfold confirm_window. destruct (existsb _ enrolled) eqn:E.
  - split; [done|]. intros [_ H]. apply existsb_true_iff in E as (x & Hx & Ha).
    rewrite (H x Hx) in Ha. discriminate Ha.
  - rewrite existsb_false_iff in E. split; [by intros [= <-]|by intros [-> _]].
Qed.

(** Both verifications of one assertion read the same counter. *)
Lemma verify_same_counter c c' s s' rp rp' a v v' :
  verify_assertion c s rp a = Ok v -> verify_assertion c' s' rp' a = Ok v' ->
  vf_sign_count v = vf_sign_count v'.
Proof.
  intros (auth & (Hp & _) & ->)%verify_assertion_iff (auth' & (Hp' & _) & ->)%verify_assertion_iff.
  rewrite Hp in Hp'. by injection Hp' as <-.
Qed.

Lemma verified_counter_nonneg c s rp a v :
  verify_assertion c s rp a = Ok v -> (0 <= vf_sign_count v)%Z.
Proof.
  intros (auth & (Hp & _) & ->)%verify_assertion_iff. cbn.
  apply parse_split in Hp as (h & f & n & rest & _ & _ & _ & Hn & Ht).
  assert (ad_sign_count auth = from_be_bytes n) as ->; [|by apply from_be_bytes_nonneg].
  unfold parse_tail in Ht. destruct (has_flag _ RESERVED_FLAGS); [done|].
  destruct (has_flag _ FLAG_EXTENSIONS); [done|].
  destruct (backup_state _); [|done]. cbn [mbind result_mbind] in Ht.
  destruct (if has_flag _ _ then _ else _) as [[at_ r]|]; [|done]. cbn [mbind result_mbind] in Ht.
  destruct (negb _); [done|]. by injection Ht as <-.
Qed.
End lemmas.

(** * Properties *)

Section properties.
Context `{DG : Digest, CR : Crypto, CL : CoseLib, ST : !Sized Trust}.

(** C7: an enrolled browser is never demoted. A browser's own request is closed by
    the confirmation window exactly when no credential is enrolled under its label
    as the answer arrives; and by an assertion only if the credential is enrolled
    under that very label now, and signed this request's action, label and nonce
    with the user present. An answer that is refused moves nothing. *)
Theorem presence_is_never_downgraded (label : BrowserLabel) (action : string)
    (minted enrolled : list Enrollment) (nonce : string) (req : PresenceRequest) :
  for_browser label action minted (Ok nonce) = Ok req ->
  (is_ok (confirm_window req enrolled) = true <->
     forall en, en ∈ enrolled -> en_label en <> label) /\
  (forall id a e w w' r, assert_ req enrolled id a e w = (r, w') ->
     match r with
     | Err _ => w' = w
     | Ok att =>
         att_path att = PathWebAuthn id /\
         exists en auth, en ∈ enrolled /\ en_id en = id /\ en_label en = label /\
           assertion_ok (en_credential en) (mkStatement DomPresence label action nonce)
             RpId_pinned a auth
     end).
Proof.
  intros [= <-]. split.
  - split.
    + destruct (confirm_window _ enrolled) as [att|] eqn:E; [|done].
      apply confirm_window_iff in E as [_ E]. intros _ en Hen. by apply String.eqb_neq, E.
    + intros H. match goal with |- is_ok ?r = true => destruct r eqn:E end; [done|].
      exfalso. rewrite (proj2 (confirm_window_iff _ _ (mkAttestation PathConfirmWindow))) in E;
        [discriminate E|].
      split; [done|]. intros en Hen. by apply String.eqb_neq, H.
  - intros id a e w w' r H. apply assert_cases in H. destruct r as [att|]; [|done].
    destruct H as (en & v & Hf & Ha & Hv & _ & ->). split; [done|].
    apply find_enrollment_Some in Hf as [Hin Hid].
    apply verify_assertion_iff in Hv as (auth & Hok & _). exists en, auth.
    apply String.eqb_eq in Ha. by split_and!.
Qed.

(** C10: one assertion authorizes one act. Start from a record of distinct credentials. Once an
    assertion vouched, let the core make any writes to the trust record, re-enrolling that
    credential with a lower counter excepted. The same assertion vouches again, for any
    request and against any snapshot of the enrollments, only if its authenticator keeps no
    counter and the second request makes the same statement, nonce included, or SHA-256
    collided. *)
Theorem one_assertion_one_act (req req' : PresenceRequest) (enrolled enrolled' : list Enrollment)
    (id : CredentialId) (a : Assertion) (e e' : env) (w w1 w2 w3 : world) (t0 t1 t2 : Trust) (ops : list trust_op)
    (att att' : PresenceAttestation) :
  (forall x y, b64url_encode x = b64url_encode y -> x = y) ->
  statement_ok (pq_statement req) -> statement_ok (pq_statement req') ->
  trust_current (w_trust w) = Ok t0 -> NoDup (en_id <$> enrollments t0) ->
  assert_ req enrolled id a e w = (Ok att, w1) ->
  trust_current (w_trust w1) = Ok t1 -> run_ops t1 ops = Ok t2 -> counters_advance t1 ops ->
  (forall en auth, OpEnroll en ∈ ops -> en_id en = id ->
     AuthenticatorData_parse (as_authenticator_data a) = Ok auth ->
     (ad_sign_count auth <= cr_sign_count (en_credential en))%Z) ->
  trust_current (w_trust w2) = Ok t2 ->
  assert_ req' enrolled' id a e' w2 = (Ok att', w3) ->
  (exists auth, AuthenticatorData_parse (as_authenticator_data a) = Ok auth /\
     ad_sign_count auth = 0%Z) /\
  (pq_statement req = pq_statement req' \/
   (statement_message (pq_statement req) <> statement_message (pq_statement req') /\
    sha256 (statement_message (pq_statement req)) = sha256 (statement_message (pq_statement req')))).
Proof.
  intros Hb Hs Hs' Ht0 Hnd H Ht1 Hrun Hops Hen Ht2 H'.
  apply assert_cases in H as (en & v & _ & _ & Hv & Hadv & _).
  apply assert_cases in H' as (en' & v' & _ & _ & Hv' & Hadv' & _).
  pose proof (verify_same_counter _ _ _ _ _ _ _ _ _ Hv Hv') as Hn.
  pose proof (verified_counter_nonneg _ _ _ _ _ Hv) as H0.
  pose proof Hv as (auth & Hok & ->)%verify_assertion_iff. cbn [vf_sign_count] in *.
  destruct Hok as (Hp & _ & _ & _ & _ & _ & Hc & _).
  apply verify_assertion_iff in Hv' as (auth' & (_ & _ & _ & _ & _ & _ & Hc' & _) & _).
  split.
  - exists auth. split; [done|]. destruct (Z.eq_dec (ad_sign_count auth) 0%Z) as [E|E]; [done|exfalso].
    apply advance_cases in Hadv as (t & tb & Et & Hbu & _ & ->). rewrite Ht0 in Et. injection Et as <-.
    injection Ht1 as <-. apply advance_cases in Hadv' as (t & _ & Et & _ & Ha2 & _). rewrite Ht2 in Et.
    injection Et as <-. rewrite <- Hn in Ha2. revert Ha2. apply spent_stale; [|lia].
    eapply run_ops_spent; [|lia| |exact Hops|exact Hrun]; [|by eauto].
    apply spent_set. by rewrite (bumped_enrollments _ _ _ Hbu).
  - destruct (client_data_functional _ _ _ _ _ _ _ Hc Hc') as (_ & _ & Hch).
    by apply challenge_binds.
Qed.
End properties.

(** ** Witnesses *)

Module PresenceExample.
Definition enrolled : list Enrollment :=
  [{| en_label := "chrome"; en_credential := WebAuthnExample.credential |}].
Definition w : world :=
  mkWorld (Stored (with_enrollments trust_default enrolled)) Absent Absent Absent (Ok None) [] 1000.
Definition req : PresenceRequest :=
  mkRequest WebAuthnExample.statement (AnsBrowser "chrome") [repeat x02 16].

(** An authenticator that does not count. *)
Definition plain : list Enrollment :=
  [{| en_label := "chrome"; en_credential :=
       {| cr_id := repeat x02 16; cr_public_key := CoseExample.pk; cr_sign_count := 0;
          cr_backup_eligible := true |} |}].
Definition plain_assertion : Assertion :=
  let b := @rp_hash WebAuthnExample.digest RpId_pinned ++ [x19; x00; x00; x00; x00] in
  mkAssertion b [x01] (firstn 4 b).
Definition plain_w : world :=
  mkWorld (Stored (with_enrollments trust_default plain)) Absent Absent Absent (Ok None) [] 1000.
Definition answer (w : world) :=
  @assert_ WebAuthnExample.digest WebAuthnExample.crypto CoseExample.lib EnrollExample.trust_sized
    req plain (repeat x02 16) plain_assertion calm w.
End PresenceExample.

Lemma presence_is_never_downgraded_witness :
  (is_ok (confirm_window PresenceExample.req PresenceExample.enrolled) = true <->
     forall en, en ∈ PresenceExample.enrolled -> en_label en <> "chrome") /\
  exists w' en auth,
    @assert_ WebAuthnExample.digest WebAuthnExample.crypto CoseExample.lib EnrollExample.trust_sized
      PresenceExample.req PresenceExample.enrolled (repeat x02 16) WebAuthnExample.assertion calm
      PresenceExample.w = (Ok (mkAttestation (PathWebAuthn (repeat x02 16))), w') /\
    en_label en = "chrome" /\
    @assertion_ok WebAuthnExample.digest WebAuthnExample.crypto CoseExample.lib (en_credential en)
      WebAuthnExample.statement RpId_pinned WebAuthnExample.assertion auth.
Proof.
  destruct (@presence_is_never_downgraded WebAuthnExample.digest WebAuthnExample.crypto
    CoseExample.lib EnrollExample.trust_sized "chrome" Action_release_kill_switch
    PresenceExample.enrolled PresenceExample.enrolled "n1" PresenceExample.req) as [H1 H2];
    [vm_compute; reflexivity|]. split; [exact H1|].
  destruct (@assert_ WebAuthnExample.digest WebAuthnExample.crypto CoseExample.lib
    EnrollExample.trust_sized PresenceExample.req PresenceExample.enrolled (repeat x02 16)
    WebAuthnExample.assertion calm PresenceExample.w) as [r w'] eqn:E.
  specialize (H2 _ _ _ _ _ _ E).
  assert (r = Ok (mkAttestation (PathWebAuthn (repeat x02 16)))) as ->.
  { transitivity (r, w').1; [reflexivity|]. rewrite <- E. vm_compute. reflexivity. }
  destruct H2 as (_ & en & auth & _ & _ & Hl & Hok). exists w', en, auth.
  split; [reflexivity|]. split; [exact Hl|exact Hok].
Defined.

Lemma one_assertion_one_act_witness :
  exists w1 t1 t2 w3 att, PresenceExample.answer PresenceExample.plain_w = (Ok att, w1) /\
    trust_current (w_trust w1) = Ok t1 /\
    run_ops t1 [OpKill true; OpRevokeBrowser "edge"; OpSignCount (repeat x02 16) 0] = Ok t2 /\
    PresenceExample.answer (set_trust (Stored t2) w1) = (Ok att, w3) /\
    exists auth, @AuthenticatorData_parse CoseExample.lib
      (as_authenticator_data PresenceExample.plain_assertion) = Ok auth /\ ad_sign_count auth = 0%Z.
Proof.
  set (ops := [OpKill true; OpRevokeBrowser "edge"; OpSignCount (repeat x02 16) 0]).
  set (w1 := (PresenceExample.answer PresenceExample.plain_w).2).
  set (t1 := default trust_default (ok (trust_current (w_trust w1)))).
  set (t2 := default trust_default (ok (run_ops t1 ops))).
  set (w3 := (PresenceExample.answer (set_trust (Stored t2) w1)).2).
  set (att := mkAttestation (PathWebAuthn (repeat x02 16))).
  assert (PresenceExample.answer PresenceExample.plain_w = (Ok att, w1)) as H1 by (vm_compute; reflexivity).
  assert (trust_current (w_trust w1) = Ok t1) as T1 by (vm_compute; reflexivity).
  assert (run_ops t1 ops = Ok t2) as R by (vm_compute; reflexivity).
  assert (PresenceExample.answer (set_trust (Stored t2) w1) = (Ok att, w3)) as H2 by (vm_compute; reflexivity).
  exists w1, t1, t2, w3, att. split; [exact H1|]. split; [exact T1|]. split; [exact R|]. split; [exact H2|].
  refine (proj1 (@one_assertion_one_act WebAuthnExample.digest WebAuthnExample.crypto
    CoseExample.lib EnrollExample.trust_sized PresenceExample.req PresenceExample.req
    PresenceExample.plain PresenceExample.plain (repeat x02 16) PresenceExample.plain_assertion
    calm calm PresenceExample.plain_w w1 (set_trust (Stored t2) w1) w3
    (with_enrollments trust_default PresenceExample.plain) t1 t2 ops att att _ _ _ eq_refl _ H1 T1 R _ _ eq_refl H2)).
  - intros x y E. change (String.string_of_list_byte x = String.string_of_list_byte y) in E.
    rewrite <- (String.list_byte_of_string_of_list_byte x), E.
    apply String.list_byte_of_string_of_list_byte.
  - repeat split; reflexivity.
  - repeat split; reflexivity.
  - apply NoDup_singleton.
  - split; [exact I|]. intros ta [= <-]. split; [exact I|]. intros tb [= <-]. split; [reflexivity|]. intros tc _. exact I.
  - intros en auth Hin. exfalso. unfold ops in Hin. rewrite !elem_of_cons, elem_of_nil in Hin. intuition discriminate.
Defined.
