(* ===== verification/Allowlist.v ===== *)
(** Allowlist: pairing and revoking trusted clients
    (src/src/packages/core/src/allowlist.rs). Pairing grants capability, so its
    only entry point runs a presence proof and audits every outcome; revoking
    removes capability and needs none. *)
From S2P Require Import Prelude RuntimeRecord Policy Identity Trust PolicyRecord World Messages AuthData WebAuthn EnrollStore Presence.
From stdpp Require Import base list sets strings.

Inductive PairClientError :=
| PcInvalid (why : string)
| PcPresence (e : PresenceError)
| PcIo (e : io_error).

Section allowlist.
Context `{SD : StrDebug, ST : !Sized Trust}.

(** [Display for PairClientError]. *)
Definition pair_client_error_display (e : PairClientError) : string :=
  match e with
  | PcInvalid e => "invalid pairing request: " +:+ e
  | PcPresence e => "user presence not attested: " +:+ presence_error_display e
  | PcIo e => "could not write the allowlist: " +:+ io_msg e
  end.

(** [pair]: the attestation is consumed as evidence. *)
Definition pair (name : ClientName) (anchor : Anchor) (auth : PresenceAttestation) :
    host (result io_error unit) :=
  let? _ := with_runtime_lock (
    let! now := now_unix in
    mutate_locked ScopeClients (fun t =>
      pair_entry t {| ce_name := name; ce_anchor := anchor; ce_added_unix := now |})) in
  hret (Ok tt).

Definition audit_client_revoked (surface : Surface) (name : string) : host unit :=
  audit_record (audit_named RevokeClient surface name "ok" None).

(** The body of [revoke] under the lock. *)
Definition revoke_locked (name : string) : host (result io_error bool) :=
  let? t := current_trust in
  match clients t with
  | NeverPaired => hret (Ok false)
  | Paired current =>
      if negb (existsb (fun c => String.eqb (ce_name c) name) current) then hret (Ok false)
      else
        let? _ := mutate_locked ScopeClients (fun t => revoke_name t name) in
        hret (Ok true)
  end.

(** [allowlist::revoke]. *)
Definition revoke (name : string) (surface : Surface) : host (result io_error bool) :=
  let? removed := with_runtime_lock (revoke_locked name) in
  let! _ := if removed then audit_client_revoked surface name else hret tt in
  hret (Ok removed).

Definition pair_reason (name : ClientName) : string :=
  "Pair '" +:+ name +:+ "' as a trusted client of genkan? A trusted client can drive your browser through this bridge.".

Definition audit_pair_refused (name : ClientName) (surface : Surface) (e : PresenceError) : host unit :=
  audit_record (audit_named PairClient surface name "refused"
    (Some ("presence: " +:+ presence_error_display e))).

(** [pair_client_with_presence]. *)
Definition pair_client_with_presence (name : ClientName) (anchor : Anchor) (surface : Surface)
    (attest : string -> host (result PresenceError PresenceAttestation)) :
    host (result PairClientError PresencePath) :=
  let! attested := attest (pair_reason name) in
  match attested with
  | Err e =>
      let! _ := audit_pair_refused name surface e in
      hret (Err (PcPresence e))
  | Ok auth =>
      let auth_path := att_path auth in
      let shown := anchor_display anchor in
      let! paired := pair name anchor auth in
      match paired with
      | Ok _ =>
          let! _ := audit_record (audit_named PairClient surface name "ok"
                      (Some (shown +:+ "; auth=" +:+ path_wire_name auth_path))) in
          hret (Ok auth_path)
      | Err e =>
          let! _ := audit_record (audit_named PairClient surface name "error"
                      (Some (shown +:+ "; auth=" +:+ path_wire_name auth_path
                             +:+ "; write refused: " +:+ io_msg e))) in
          hret (Err (PcIo e))
      end
  end.

(** * Lemmas *)

Lemma pair_cases name anchor auth e w r w' :
  pair name anchor auth e w = (r, w') ->
  match r with
  | Err _ => w' = w
  | Ok _ =>
      exists t0 t1, trust_current (w_trust w) = Ok t0 /\ bumped t0 ScopeClients = Ok t1 /\
        w' = set_trust (Stored (pair_entry t1
          {| ce_name := name; ce_anchor := anchor; ce_added_unix := w_now w |})) w
  end.
Proof.
  unfold pair, htry, hbind, with_runtime_lock, now_unix, asks, hret, hbind.
  destruct (e_lock e); [by intros [= <- <-]|].
  destruct (mutate_locked _ _ e w) as [[t|] w1] eqn:Em; intros [= <- <-].
  - apply mutate_locked_Ok in Em as (t0 & t1 & ? & ? & -> & ->). eauto.
  - by eapply mutate_locked_Err.
Qed.

Lemma revoke_locked_cases name e w r w' :
  revoke_locked name e w = (r, w') ->
  match r with
  | Err _ => w' = w
  | Ok false =>
      w' = w /\ exists t0, trust_current (w_trust w) = Ok t0 /\
        forall c, c ∈ paired_entries (clients t0) -> ce_name c <> name
  | Ok true =>
      exists t0 t1, trust_current (w_trust w) = Ok t0 /\ bumped t0 ScopeClients = Ok t1 /\
        is_paired (clients t0) = true /\ w' = set_trust (Stored (revoke_name t1 name)) w
  end.
Proof.
  unfold revoke_locked, htry at 1, hbind at 1, current_trust, asks.
  destruct (trust_current (w_trust w)) as [t0|] eqn:E0; [|by intros [= <- <-]].
  destruct (clients t0) as [|l] eqn:Ecl.
  { intros [= <- <-]. split; [done|]. exists t0. split; [done|].
    rewrite Ecl. intros c Hc. by apply not_elem_of_nil in Hc. }
  destruct (existsb _ l) eqn:Ex; cbn [negb].
  - unfold htry, hbind. destruct (mutate_locked _ _ e w) as [[t|] w1] eqn:Em; intros [= <- <-].
    + apply mutate_locked_Ok in Em as (t0' & t1 & Et & ? & -> & ->).
      rewrite E0 in Et. injection Et as <-. exists t0, t1. by rewrite Ecl.
    + by eapply mutate_locked_Err.
  - intros [= <- <-]. split; [done|]. exists t0. split; [done|].
    rewrite Ecl. intros c Hc. rewrite existsb_false_iff in Ex. specialize (Ex c Hc). by apply String.eqb_neq.
Qed.

(** A paired anchor is admitted, under some name. *)
Lemma paired_anchor_admitted t entry i :
  anchor_matches (ce_anchor entry) i = true ->
  exists name, decide_admission (pair_entry t entry) (Some i) = Admit (Trusted name).
Proof.
  intros Hm. unfold decide_admission, pair_entry. cbn [with_clients clients].
  destruct (List.find _ _) as [c|] eqn:E; [eauto|].
  rewrite find_None_iff in E. rewrite (E entry) in Hm; [discriminate Hm|].
  apply elem_of_app. right. by apply list_elem_of_singleton.
Qed.

Lemma pair_entry_others t entry c :
  c ∈ paired_entries (clients (pair_entry t entry)) <->
  c = entry \/ (c ∈ paired_entries (clients t) /\ ce_name c <> ce_name entry).
Proof.
  unfold pair_entry. cbn [with_clients clients].
  change (paired_entries (Paired ?l)) with l. cbn [paired_entries].
  rewrite elem_of_app, list_elem_of_singleton, elem_of_bfilter, negb_true_iff, String.eqb_neq.
  destruct (clients t); cbn [paired_entries]; tauto.
Qed.

(** * Properties *)

(** A client is trusted only with a presence proof, and pairing does exactly
    that. A pairing that succeeds ran its presence prompt to success first and
    reports the path that vouched; the record gains the named entry, whose anchor
    is then admitted, every other name's entry stays as it was, and the trail says
    so once. A pairing that fails, at the prompt or at the write, leaves the
    records as the prompt left them and leaves one record of the refusal. *)
Theorem pairing_needs_presence (name : ClientName) (anchor : Anchor) (surface : Surface)
    (attest : string -> host (result PresenceError PresenceAttestation)) (e : env)
    (w w1 w' : world) (ra : result PresenceError PresenceAttestation)
    (r : result PairClientError PresencePath) :
  attest (pair_reason name) e w = (ra, w1) ->
  pair_client_with_presence name anchor surface attest e w = (r, w') ->
  match r with
  | Ok path =>
      exists auth t0 t entry, ra = Ok auth /\ path = att_path auth /\
        trust_current (w_trust w1) = Ok t0 /\ w_trust w' = Stored t /\
        ce_name entry = name /\ ce_anchor entry = anchor /\
        (forall c, c ∈ paired_entries (clients t) <->
           c = entry \/ (c ∈ paired_entries (clients t0) /\ ce_name c <> name)) /\
        (forall i, anchor_matches anchor i = true ->
           exists n, decide_admission t (Some i) = Admit (Trusted n)) /\
        exists d, w_audit w' = w_audit w1 ++ [audit_named PairClient surface name "ok" (Some d)]
  | Err _ =>
      exists outcome d, outcome <> "ok" /\
        w' = add_audit (audit_named PairClient surface name outcome (Some d)) w1
  end.
Proof.
  intros Ha. unfold pair_client_with_presence, hbind at 1. rewrite Ha.
  destruct ra as [auth|err]; [|intros [= <- <-]; exists "refused"; eexists; by split].
  unfold hbind at 1. destruct (pair name anchor auth e w1) as [[[]|err] w2] eqn:Ep;
    apply pair_cases in Ep; intros [= <- <-].
  - destruct Ep as (t0 & t1 & Et & Hb & ->). pose proof (bumped_Ok _ _ _ Hb) as (_ & _ & Hc & _).
    eexists auth, t0, _, {| ce_name := name; ce_anchor := anchor; ce_added_unix := w_now w1 |}.
    split_and!; try done.
    + intros c. by rewrite pair_entry_others, Hc.
    + intros i Hi. by apply paired_anchor_admitted.
    + by eexists.
  - subst w2. exists "error". eexists. by split.
Qed.

(** Revoking a client takes effect, once, and never opens the door. When it
    removed something, no harness is admitted under that name any more, the list
    stays enforced even when it is empty, and the trail has one record; when it
    reports nothing removed, no entry of that name existed and nothing moved; an
    error moves nothing. *)
Theorem revoking_a_client_takes_effect (name : string) (surface : Surface) (e : env)
    (w w' : world) (r : result io_error bool) :
  revoke name surface e w = (r, w') ->
  match r with
  | Err _ => w' = w
  | Ok false =>
      w' = w /\ exists t0, trust_current (w_trust w) = Ok t0 /\
        forall c, c ∈ paired_entries (clients t0) -> ce_name c <> name
  | Ok true =>
      exists t, w_trust w' = Stored t /\
        (forall i, decide_admission t i <> Admit (Trusted name) /\
                   decide_admission t i <> Admit Unenrolled) /\
        w_audit w' = w_audit w ++ [audit_named RevokeClient surface name "ok" None]
  end.
Proof.
  unfold revoke, htry, hbind, with_runtime_lock. destruct (e_lock e); [by intros [= <- <-]|].
  destruct (revoke_locked name e w) as [[[]|] w1] eqn:El; apply revoke_locked_cases in El;
    intros [= <- <-]; [|done..].
  destruct El as (t0 & t1 & Et & Hb & Hp & ->). pose proof (bumped_Ok _ _ _ Hb) as (_ & _ & Hc & _).
  eexists. split; [reflexivity|]. split; [|done].
  rewrite <- Hc in Hp. unfold revoke_name. destruct (clients t1) as [|l]; [done|]. intros i. split.
  - apply name_absent_decide. split; [done|]. cbn [with_clients clients paired_entries].
    intros c Hin. apply elem_of_bfilter in Hin as [_ Hn]. by apply String.eqb_neq, negb_true_iff.
  - unfold decide_admission. cbn [with_clients clients]. destruct i; [|done]. by destruct (List.find _ _).
Qed.
End allowlist.

(** ** Witnesses *)

Module AllowlistExample.
#[export] Instance debug : StrDebug := {| str_debug s := s |}.
Definition attest (_ : string) : host (result PresenceError PresenceAttestation) :=
  hret (tty_verdict true (Ok (Some "release"))).
Definition anchor : Anchor := AnchorSigner "acme".
Definition w1 : world := Eval vm_compute in
  (pair_client_with_presence (ST := EnrollExample.trust_sized) "agent" anchor SurfCli attest calm
     EnrollExample.w0).2.
Definition w2 : world := Eval vm_compute in
  (revoke (ST := EnrollExample.trust_sized) "agent" SurfCli calm w1).2.
End AllowlistExample.

Lemma pairing_needs_presence_witness :
  exists t, w_trust AllowlistExample.w1 = Stored t /\
    exists n, decide_admission t (Some {| ci_hash := "00"; ci_signer := Some "acme" |}) =
      Admit (Trusted n).
Proof.
  destruct (pairing_needs_presence (SD := AllowlistExample.debug) (ST := EnrollExample.trust_sized)
    "agent" AllowlistExample.anchor SurfCli AllowlistExample.attest calm EnrollExample.w0
    EnrollExample.w0 AllowlistExample.w1 (Ok (mkAttestation PathTty)) (Ok PathTty))
    as (auth & t0 & t & entry & _ & _ & _ & Ht & _ & _ & _ & Hi & _).
  - reflexivity.
  - vm_compute. reflexivity.
  - exists t. split; [exact Ht|]. apply Hi. reflexivity.
Defined.

Lemma revoking_a_client_takes_effect_witness :
  exists t, w_trust AllowlistExample.w2 = Stored t /\
    forall i, decide_admission t i <> Admit (Trusted "agent").
Proof.
  destruct (revoking_a_client_takes_effect (ST := EnrollExample.trust_sized) "agent" SurfCli calm
    AllowlistExample.w1 AllowlistExample.w2 (Ok true)) as (t & Ht & Hi & _).
  - vm_compute. reflexivity.
  - exists t. split; [exact Ht|]. intros i. exact (proj1 (Hi i)).
Defined.
