(* ===== verification/Handshake.v ===== *)
(** Handshake: the bridge authentication handshake
    (src/src/packages/core/src/ipc/handshake.rs, the [Handshake] messages of
    protocol.rs): the server sends a fresh nonce, the client answers with an HMAC
    under the per-run secret of the lock file, and the browser label rides inside
    the MAC. HMAC-SHA256 and the hex decoder are parameters ([MacLib]). *)
From S2P Require Import Prelude RuntimeRecord Policy Identity Trust PolicyRecord World Messages PrefixCodec Wire LineCodec.
From Stdlib Require Import Strings.Byte.
From stdpp Require Import base list sets strings.

Inductive Handshake :=
| Challenge (nonce : string)
| Response (mac : string) (label : option string).

Class MacLib := {
  (** [HmacSha256::new_from_slice]: [None] for an unusable key, otherwise the tag
      of a message. *)
  hmac_new : bytes -> option (bytes -> bytes);
  hex_decode : string -> option bytes
}.

Section handshake.
Context `{DG : Digest, ML : MacLib, JC : !JsonCodec Handshake}.

Definition unusable_key : io_error := IoError InvalidInput "unusable hmac key".

Definition compute_mac (key msg : bytes) : result io_error string :=
  mac ← ok_or (hmac_new key) unusable_key;
  Ok (hex_encode (mac msg)).

(** The nonce, then a NUL and the label when there is one. *)
Definition handshake_mac_message (nonce : string) (label : option string) : bytes :=
  as_bytes nonce ++ match label with Some label => x00 :: as_bytes label | None => [] end.

(** [verify_slice] compares the whole tag. *)
Definition verify_mac (key msg : bytes) (provided_hex : string) : result io_error unit :=
  provided ← ok_or (hex_decode provided_hex) (invalid_data "mac is not valid hex");
  mac ← ok_or (hmac_new key) unusable_key;
  refuse_if (negb (bool_decide (provided = mac msg))) (IoError PermissionDenied "hmac mismatch").

(** What the server makes of the message it read. *)
Definition server_verdict (secret nonce : string) (msg : option Handshake) :
    result io_error (option BrowserLabel) :=
  match msg with
  | Some (Response mac label) =>
      _ ← verify_mac (as_bytes secret) (handshake_mac_message nonce label) mac;
      match label with
      | Some l =>
          match BrowserLabel_parse l with
          | Some l => Ok (Some l)
          | None => Err (invalid_data "invalid browser label in handshake (want 1-32 chars of [A-Za-z0-9._-])")
          end
      | None => Ok None
      end
  | Some (Challenge _) => Err (invalid_data "expected handshake response, got challenge")
  | None => Err (IoError UnexpectedEof "connection closed before handshake response")
  end.

(** [server_handshake_with_secret] once [generate_secret] drew [nonce]: the bytes
    written, the outcome and the rest of the input. *)
Definition server_handshake_with_secret (secret : string) (nonce : result io_error string)
    (fault : option io_error) (input : bytes) :
    result io_error (option BrowserLabel) * (bytes * bytes) :=
  match nonce with
  | Err e => (Err e, ([], input))
  | Ok nonce =>
      match fault with
      | Some e => (Err e, ([], input))
      | None =>
          let out := bridge_write (Challenge nonce) in
          match bridge_read input with
          | (Err e, rest) => (Err e, (out, rest))
          | (Ok msg, rest) => (server_verdict secret nonce msg, (out, rest))
          end
      end
  end.

(** [client_handshake_with_secret]. *)
Definition client_handshake_with_secret (secret : string) (label : option string)
    (fault : option io_error) (input : bytes) : result io_error unit * (bytes * bytes) :=
  match bridge_read input with
  | (Err e, rest) => (Err e, ([], rest))
  | (Ok (Some (Challenge nonce)), rest) =>
      match compute_mac (as_bytes secret) (handshake_mac_message nonce label) with
      | Err e => (Err e, ([], rest))
      | Ok mac =>
          match fault with
          | Some e => (Err e, ([], rest))
          | None => (Ok tt, (bridge_write (Response mac label), rest))
          end
      end
  | (Ok (Some (Response _ _)), rest) =>
      (Err (invalid_data "expected handshake challenge, got response"), ([], rest))
  | (Ok None, rest) =>
      (Err (IoError UnexpectedEof "connection closed before handshake challenge"), ([], rest))
  end.

(** * Lemmas *)

Lemma mac_message_inj nonce nonce' label label' :
  str_contains NUL nonce = false -> str_contains NUL nonce' = false ->
  handshake_mac_message nonce label = handshake_mac_message nonce' label' ->
  nonce = nonce' /\ label = label'.
Proof.
  intros Hn Hn' E. unfold handshake_mac_message in E.
  apply nul_not_in_bytes in Hn, Hn'. destruct label as [l|], label' as [l'|].
  - apply nul_sep_inj in E as [->%as_bytes_inj ->%as_bytes_inj]; done.
  - rewrite app_nil_r in E. destruct Hn'. rewrite <- E. set_solver.
  - rewrite app_nil_r in E. destruct Hn. rewrite E. set_solver.
  - rewrite !app_nil_r in E. by apply as_bytes_inj in E as ->.
Qed.

Lemma verify_mac_Ok key msg hex u :
  verify_mac key msg hex = Ok u <->
  exists mac, hmac_new key = Some mac /\ hex_decode hex = Some (mac msg).
Proof.
  unfold verify_mac. split.
  - intros H. inv_res. apply negb_false_iff, bool_decide_eq_true in H. subst. eauto.
  - intros (mac & Hm & Hh). rewrite Hh. cbn [ok_or mbind result_mbind]. rewrite Hm.
    cbn [ok_or mbind result_mbind]. rewrite bool_decide_eq_true_2 by done. by destruct u.
Qed.

Lemma server_verdict_Ok secret nonce msg l :
  server_verdict secret nonce msg = Ok l ->
  exists hex mac, msg = Some (Response hex l) /\ hmac_new (as_bytes secret) = Some mac /\
    hex_decode hex = Some (mac (handshake_mac_message nonce l)) /\
    (forall x, l = Some x -> validate_label x = true).
Proof.
  unfold server_verdict. destruct msg as [[n|hex lab]|]; [done| |done].
  intros H. apply bind_Ok in H as ([] & Hv & H). apply verify_mac_Ok in Hv as (mac & Hm & Hh).
  exists hex, mac. destruct lab as [x|]; [|injection H as <-; by split_and!].
  destruct (BrowserLabel_parse x) eqn:Ep; [|done]. injection H as <-.
  apply BrowserLabel_parse_Some in Ep as [-> Hx]. split_and!; try done. by intros ? [= <-].
Qed.

Lemma server_handshake_Ok secret nonce fault input l out rest :
  server_handshake_with_secret secret nonce fault input = (Ok l, (out, rest)) ->
  exists n msg, nonce = Ok n /\ out = bridge_write (Challenge n) /\
    bridge_read input = (Ok msg, rest) /\ server_verdict secret n msg = Ok l.
Proof.
  unfold server_handshake_with_secret. destruct nonce as [n|]; [|done].
  destruct fault; [done|]. destruct (bridge_read input) as [[msg|] r] eqn:E; [|done].
  intros H. injection H as Hv <- <-. eauto 10.
Qed.

(** * Properties *)

Context `{JO : !JsonCodecOk Handshake}.

(** A client that holds the secret answers the challenge, and its answer is accepted. *)
Lemma client_answers secret n mac label rest :
  hmac_new (as_bytes secret) = Some mac ->
  (Z.of_nat (length (to_vec (Challenge n))) < BRIDGE_MAX_LINE)%Z ->
  client_handshake_with_secret secret label None (bridge_write (Challenge n) ++ rest) =
    (Ok tt, (bridge_write (Response (hex_encode (mac (handshake_mac_message n label))) label), rest)).
Proof.
  intros Hm Hlen. unfold client_handshake_with_secret. rewrite bridge_read_written by exact Hlen.
  unfold compute_mac. by rewrite Hm.
Qed.

Lemma server_accepts secret n mac label rest :
  (forall b, hex_decode (hex_encode b) = Some b) -> hmac_new (as_bytes secret) = Some mac ->
  (forall l, label = Some l -> validate_label l = true) ->
  (Z.of_nat (length (to_vec (Response (hex_encode (mac (handshake_mac_message n label))) label)))
     < BRIDGE_MAX_LINE)%Z ->
  server_handshake_with_secret secret (Ok n) None
    (bridge_write (Response (hex_encode (mac (handshake_mac_message n label))) label) ++ rest) =
    (Ok label, (bridge_write (Challenge n), rest)).
Proof.
  intros Hhex Hm Hl Hlen. unfold server_handshake_with_secret. rewrite bridge_read_written by exact Hlen.
  unfold server_verdict. rewrite (proj2 (verify_mac_Ok _ _ _ tt)) by eauto.
  cbn [mbind result_mbind]. destruct label as [l|]; [|done]. unfold BrowserLabel_parse. by rewrite Hl.
Qed.

(** C32: the handshake admits exactly the holders of the secret. A client that
    knows the server's secret is authenticated under the label it claims, whatever
    follows on the stream; and the server accepts a label only for a response whose
    tag covers its own nonce and that very label: if the tag was computed for some
    nonce and label by a holder of the secret, they are these ones, or two different
    messages share an HMAC. Every label it accepts is a valid one. *)
Theorem handshake_authenticates_the_label (secret n : string) (mac : bytes -> bytes)
    (label : option string) (rest rest' : bytes) :
  (forall b, hex_decode (hex_encode b) = Some b) ->
  hmac_new (as_bytes secret) = Some mac -> str_contains NUL n = false ->
  (forall l, label = Some l -> validate_label l = true) ->
  (Z.of_nat (length (to_vec (Challenge n))) < BRIDGE_MAX_LINE)%Z ->
  (Z.of_nat (length (to_vec (Response (hex_encode (mac (handshake_mac_message n label))) label)))
     < BRIDGE_MAX_LINE)%Z ->
  (exists reply,
     client_handshake_with_secret secret label None (bridge_write (Challenge n) ++ rest) =
       (Ok tt, (reply, rest)) /\
     server_handshake_with_secret secret (Ok n) None (reply ++ rest') =
       (Ok label, (bridge_write (Challenge n), rest'))) /\
  (forall input out l r,
     server_handshake_with_secret secret (Ok n) None input = (Ok l, (out, r)) ->
     (forall x, l = Some x -> validate_label x = true) /\
     exists hex, bridge_read input = (Ok (Some (Response hex l)), r) /\
       forall n' l', str_contains NUL n' = false ->
         hex_decode hex = Some (mac (handshake_mac_message n' l')) ->
         (n' = n /\ l' = l) \/
         (handshake_mac_message n' l' <> handshake_mac_message n l /\
          mac (handshake_mac_message n' l') = mac (handshake_mac_message n l))).
Proof.
  intros Hhex Hm Hn Hl Hlen Hlen'. split.
  - eexists. split; [by apply client_answers|by apply server_accepts].
  - intros input out l r H. apply server_handshake_Ok in H as (n0 & msg & [= <-] & -> & Hr & Hv).
    apply server_verdict_Ok in Hv as (hex & mac' & -> & Hm' & Hh & Hval).
    rewrite Hm in Hm'. injection Hm' as <-. split; [done|]. exists hex. split; [done|].
    intros n' l' Hn' Hh'. rewrite Hh in Hh'. injection Hh' as E.
    destruct (decide (handshake_mac_message n' l' = handshake_mac_message n l)) as [Em|Em];
      [|by right].
    left. by apply mac_message_inj.
Qed.
End handshake.

(** ** A concrete codec and MAC for the witness *)

Module HandshakeExample.
#[export] Instance digest : Digest := {| sha256 := id; hex_encode := String.string_of_list_byte |}.
#[export] Instance mac_lib : MacLib := {|
  hmac_new k := Some (fun m => firstn 8 (k ++ m));
  hex_decode s := Some (as_bytes s)
|}.
Definition to_tuple (h : Handshake) : bool * (string * list string) :=
  match h with
  | Challenge n => (true, (n, []))
  | Response m l => (false, (m, match l with Some l => [l] | None => [] end))
  end.
Definition of_tuple (t : bool * (string * list string)) : Handshake :=
  match t with
  | (true, (n, _)) => Challenge n
  | (false, (m, l)) => Response m (head l)
  end.
Lemma of_to_tuple h : of_tuple (to_tuple h) = h.
Proof. by destruct h as [|? []]. Qed.
Definition c_handshake : codec Handshake :=
  c_iso (c_pair c_bool (c_pair c_string (c_list c_string))) of_tuple to_tuple of_to_tuple.
Definition json : JsonCodec Handshake := line_codec c_handshake.
Definition json_ok : @JsonCodecOk Handshake json := line_codec_ok c_handshake.
Definition mac (m : bytes) : bytes := firstn 8 (as_bytes "s3cr" ++ m).
End HandshakeExample.

Lemma handshake_authenticates_the_label_witness :
  exists reply,
    @client_handshake_with_secret HandshakeExample.digest HandshakeExample.mac_lib
      HandshakeExample.json "s3cr" (Some "chrome") None
      (@bridge_write _ HandshakeExample.json (Challenge "a1") ++ []) = (Ok tt, (reply, [])) /\
    @server_handshake_with_secret HandshakeExample.mac_lib HandshakeExample.json
      "s3cr" (Ok "a1") None (reply ++ []) =
      (Ok (Some "chrome"), (@bridge_write _ HandshakeExample.json (Challenge "a1"), [])).
Proof.
  refine (proj1 (@handshake_authenticates_the_label HandshakeExample.digest
    HandshakeExample.mac_lib HandshakeExample.json HandshakeExample.json_ok "s3cr" "a1"
    HandshakeExample.mac (Some "chrome") [] [] _ _ _ _ _ _)).
  - intros b. change (Some (as_bytes (String.string_of_list_byte b)) = Some b). f_equal.
    apply String.list_byte_of_string_of_list_byte.
  - reflexivity.
  - reflexivity.
  - intros l [= <-]. reflexivity.
  - vm_compute. reflexivity.
  - vm_compute. reflexivity.
Defined.
