(* ===== verification/Lang.v ===== *)
(** Lang: the shared display language (src/src/packages/core/src/lang.rs): one
    record with a sequence number, changed under the runtime lock, whose change
    moves the language epoch so that connected hosts push it. *)
From S2P Require Import Prelude RuntimeRecord Policy Identity Trust PolicyRecord World.
From stdpp Require Import base list sets strings.

Definition UI_LANGUAGES : list string := ["auto"; "en"; "zh_CN"; "zh_TW"].
Definition DEFAULT_LANG : string := "en".

Abbreviation UiLang := string (only parsing).

(** [UiLang::parse]. *)
Definition UiLang_parse (value : string) : option UiLang :=
  List.find (fun l => String.eqb l value) UI_LANGUAGES.

Section lang.
Context `{ST : !Sized Trust, SL : !Sized LangStore}.

Definition load_lang : host (result io_error (option LangStore)) :=
  asks (fun w => slot_load w.(w_lang)).

Definition write_lang (t : LangStore) : host (result io_error unit) := fun e w =>
  let '(r, s) := slot_write (e.(e_write) "lang.json") t w.(w_lang) in (r, set_lang s w).

(** The record's value and sequence, the absent record reading as the default. *)
Definition lang_or_default (store : option LangStore) : string * Z :=
  match store with
  | Some store => (lang_value store, lang_seq store)
  | None => (DEFAULT_LANG, 0%Z)
  end.

Definition load_current : host (result io_error (string * Z)) :=
  let! r := load_lang in hret (lang_or_default <$> r).

Definition SEQ_OVERFLOW : io_error :=
  invalid_data "language sequence counter would exceed the JS-safe integer bound (2^53 - 1)".

Definition set_locked (value : string) : host (result io_error (string * Z)) :=
  let? store := load_lang in
  let '(current_value, current_seq) := lang_or_default store in
  if String.eqb current_value value then hret (Ok (current_value, current_seq))
  else
    let? seq := hret (ok_or (s ← checked_add_u64 current_seq 1;
                             if (s <=? JS_SAFE_INT_MAX)%Z then Some s else None) SEQ_OVERFLOW) in
    let? _ := write_lang (mkLang value seq) in
    let! _ := mutate_locked ScopeLang (fun t => t) in
    hret (Ok (value, seq)).

Definition set (value : UiLang) : host (result io_error (string * Z)) :=
  with_runtime_lock (set_locked value).

(** * Lemmas *)

(** Only a no-op leaves the sequence; every other success is one step of it, read
    back by the next load, and failures move nothing. *)
Lemma lang_set_cases value e w r w' :
  set value e w = (r, w') ->
  match r with
  | Err _ => w' = w
  | Ok (v, seq) =>
      v = value /\ (load_current calm w').1 = Ok (value, seq) /\
      exists v0 seq0, (load_current calm w).1 = Ok (v0, seq0) /\
        (v0 = value -> w' = w /\ seq = seq0) /\
        (v0 <> value -> seq = (seq0 + 1)%Z /\ (seq <= JS_SAFE_INT_MAX)%Z)
  end.
Proof.
  unfold set, with_runtime_lock. destruct (e_lock e); [by intros [= <- <-]|].
  unfold set_locked, htry at 1, hbind at 1, load_lang, asks.
  destruct (slot_load (w_lang w)) as [store|] eqn:El; [|by intros [= <- <-]].
  assert ((load_current calm w).1 = Ok (lang_or_default store)) as Hcur.
  { unfold load_current, hbind, load_lang, asks. by rewrite El. }
  destruct (lang_or_default store) as [v0 seq0].
  destruct (String.eqb_spec v0 value) as [->|Hne].
  { intros [= <- <-]. split; [done|]. split; [done|]. by exists value, seq0. }
  unfold htry at 1, hbind at 1, hret at 1.
  destruct (checked_add_u64 seq0 1) as [s|] eqn:Ec; [|by intros [= <- <-]].
  apply checked_add_u64_Some in Ec as [-> _]. cbn [mbind option_bind].
  destruct (Z.leb_spec (seq0 + 1) JS_SAFE_INT_MAX) as [Hle|]; [|by intros [= <- <-]].
  cbn [ok_or]. unfold htry at 1, hbind at 1, write_lang.
  destruct (slot_write _ _ (w_lang w)) as [[[]|] s] eqn:Es; cycle 1.
  { intros [= <- <-]. apply slot_write_Err in Es as ->. by destruct w. }
  apply slot_write_Ok in Es as [-> _]. unfold hbind.
  destruct (mutate_locked ScopeLang _ e _) as [rm w2] eqn:Em. intros [= <- <-].
  assert (w_lang w2 = Stored (mkLang value (seq0 + 1))) as Hw.
  { destruct rm; [apply mutate_locked_Ok in Em as (? & ? & _ & _ & _ & ->); done|].
    by apply mutate_locked_Err in Em as ->. }
  split; [done|]. split.
  - unfold load_current, hbind, load_lang, asks. by rewrite Hw.
  - exists v0, seq0. split; [done|]. by split; [intros ->|].
Qed.
End lang.
