(* ===== verification/Frames.v ===== *)
(** Frames: the host-to-extension side of the control channel
    (src/src/packages/core/src/protocol/control.rs): the reply frames of the four
    wire enums, the typed outcomes that flatten onto them, the frame tags with
    their directions, and what a malformed frame of each tag is owed. The frames
    an extension sends are in [Control]. *)
From S2P Require Import Prelude Policy Identity PolicyRecord PolicyPlan.
From stdpp Require Import base list sets strings.

(** * Rows *)

Record DoctorRow := mkDoctorRow { dr_value : string; dr_details : list string }.

Record HealthReport := mkHealth {
  hr_version : string;
  hr_platform : string;
  hr_lock_file : DoctorRow;
  hr_mcp_server : DoctorRow;
  hr_kill_switch : DoctorRow;
  hr_policy_baseline : DoctorRow;
  hr_host_key : string;
  hr_summary : string;
  hr_healthy : bool
}.

Inductive AuditTrailEntry :=
| TrailRecord (ts_ms : Z) (kind fields : string)
| TrailUnrecognized (text : string).

Inductive RegistrationState :=
| RsMissing
| RsOk
| RsStale (detail : string)
| RsForeign (detail : string)
| RsUnreadable (detail : string).

Record RegistrationRow := mkRegRow {
  rr_browser : string; rr_detected : bool; rr_state : RegistrationState; rr_location : string }.

Record PolicyHistoryRow := mkHistoryRow {
  hw_id : string;
  hw_signed : bool;
  hw_overlay_active : bool;
  hw_superseded_unix : option Z;
  hw_held : option HeldPolicy
}.

(** * Reply frames *)

(** The host-to-extension variants of [EnclaveControl], [AdminControl],
    [PolicyControl] and [WebAuthnControl]. *)
Inductive HostReply :=
| EnclaveProof (sig key_id pubkey : string)
| EnclaveError_ (reason : string)
| EnclaveRevoked
| ClientListResult (ok enrolled : bool) (clients : list ClientEntry) (error : option string)
| ClientRevokeResult (ok : bool) (error : option string)
| ClientPairResult (ok : bool) (error : option string)
| KillStatusResult (ok : bool) (killed : option bool) (error : option string)
| DoctorReportResult (ok : bool) (report : option HealthReport) (error : option string)
| AuditReadResult (ok : bool) (entries : option (list AuditTrailEntry)) (older : option Z)
    (path error : option string)
| RegistrationStatusResult (ok : bool) (browsers : option (list RegistrationRow))
    (error : option string)
| PolicyCurrent (ok : bool) (baseline sig : option string) (overlay : option PolicyOverlay)
    (error : option string)
| PolicyRestrictResult (ok : bool) (error : option string)
| PolicySetResult (ok : bool) (error : option string)
| PolicyHistoryResult (ok : bool) (entries : option (list PolicyHistoryRow)) (error : option string)
| PolicyRollbackResult (ok : bool) (error : option string)
| LangCurrent (value : string) (seq : Z)
| EnrollOptions (challenge nonce user_id user_name : string) (exclude_credential_ids : list string)
| EnrollResult (ok : bool) (credential_id reason : option string)
| PresenceRequestFrame (challenge nonce action : string) (allowed_credential_ids : list string)
| PresenceResult (ok : bool) (reason : option string)
| BrowserRevokeResult (ok : bool) (reason : option string).

(** * Typed outcomes *)

Inductive DoctorOutcome := DoctorReported (report : HealthReport) | DoctorUnavailable (error : string).

Definition doctor_into_frame (o : DoctorOutcome) : HostReply :=
  match o with
  | DoctorReported report => DoctorReportResult true (Some report) None
  | DoctorUnavailable error => DoctorReportResult false None (Some error)
  end.

Inductive AuditReport :=
| AuditPageReport (entries : list AuditTrailEntry) (older : Z) (path : string)
| AuditUnavailable (error : string).

Definition audit_into_frame (o : AuditReport) : HostReply :=
  match o with
  | AuditPageReport entries older path =>
      AuditReadResult true (Some entries) (Some older) (Some path) None
  | AuditUnavailable error => AuditReadResult false None None None (Some error)
  end.

Inductive RegistrationReport :=
| RegRows (rows : list RegistrationRow)
| RegUnavailable (error : string).

Definition registration_into_frame (o : RegistrationReport) : HostReply :=
  match o with
  | RegRows rows => RegistrationStatusResult true (Some rows) None
  | RegUnavailable error => RegistrationStatusResult false None (Some error)
  end.

Inductive KillStatus := KillRead (killed : bool) | KillUnreadable (error : string).

Definition kill_into_frame (o : KillStatus) : HostReply :=
  match o with
  | KillRead killed => KillStatusResult true (Some killed) None
  | KillUnreadable error => KillStatusResult false None (Some error)
  end.

Inductive PolicyStatus :=
| PolicyPresent (baseline_b64 : string) (sig_b64 : option string) (overlay : option PolicyOverlay)
| PolicyUnavailable (error : string).

Definition policy_into_frame (o : PolicyStatus) : HostReply :=
  match o with
  | PolicyPresent baseline_b64 sig_b64 overlay =>
      PolicyCurrent true (Some baseline_b64) sig_b64 overlay None
  | PolicyUnavailable error => PolicyCurrent false None None None (Some error)
  end.

Inductive WriteVerdict := Applied | VerdictRefused (error : string).

Inductive WriteLane := LanePolicyRestrict | LanePolicySet | LanePolicyRollback | LaneClientPair.

Definition write_into_frame (v : WriteVerdict) (lane : WriteLane) : HostReply :=
  let '(ok, error) := match v with
                      | Applied => (true, None)
                      | VerdictRefused error => (false, Some error)
                      end in
  match lane with
  | LanePolicyRestrict => PolicyRestrictResult ok error
  | LanePolicySet => PolicySetResult ok error
  | LanePolicyRollback => PolicyRollbackResult ok error
  | LaneClientPair => ClientPairResult ok error
  end.

Inductive HistoryReport :=
| HistoryEntries (entries : list PolicyHistoryRow)
| HistoryUnavailable (error : string).

Definition history_into_frame (o : HistoryReport) : HostReply :=
  match o with
  | HistoryEntries entries => PolicyHistoryResult true (Some entries) None
  | HistoryUnavailable error => PolicyHistoryResult false None (Some error)
  end.

Inductive EnrollOutcome := Enrolled (credential_id : string) | EnrollRefused (reason : string).

Definition enroll_into_frame (o : EnrollOutcome) : HostReply :=
  match o with
  | Enrolled credential_id => EnrollResult true (Some credential_id) None
  | EnrollRefused reason => EnrollResult false None (Some reason)
  end.

Inductive PresenceOutcome := PresenceApproved | PresenceRefused (reason : string).

Definition presence_into_frame (o : PresenceOutcome) : HostReply :=
  match o with
  | PresenceApproved => PresenceResult true None
  | PresenceRefused reason => PresenceResult false (Some reason)
  end.

Inductive RevokeOutcome := Forgotten | RevokeRefused (reason : string).

Definition revoke_into_frame (o : RevokeOutcome) : HostReply :=
  match o with
  | Forgotten => BrowserRevokeResult true None
  | RevokeRefused reason => BrowserRevokeResult false (Some reason)
  end.

(** * Tags *)

Inductive HostControlTag :=
| T_EnclaveChallenge | T_EnclaveProof | T_EnclaveError | T_EnclaveRevoke | T_EnclaveRevoked
| T_ClientList | T_ClientListResult | T_ClientRevoke | T_ClientRevokeResult
| T_ClientPair | T_ClientPairResult
| T_KillStatus | T_KillEngage | T_KillRelease | T_KillStatusResult
| T_AuditEvent | T_DoctorReport | T_DoctorReportResult | T_AuditRead | T_AuditReadResult
| T_RegistrationStatus | T_RegistrationRepair | T_RegistrationStatusResult
| T_PolicyGet | T_PolicyCurrent | T_PolicyRestrict | T_PolicyRestrictResult
| T_PolicySet | T_PolicySetResult | T_PolicyHistory | T_PolicyHistoryResult
| T_PolicyRollback | T_PolicyRollbackResult | T_LangGet | T_LangSet | T_LangCurrent
| T_EnrollBegin | T_EnrollOptions | T_EnrollFinish | T_EnrollResult
| T_PresenceBegin | T_PresenceRequest | T_PresenceAssert | T_PresenceConfirm | T_PresenceResult
| T_BrowserRevoke | T_BrowserRevokeResult.

#[export] Instance HostControlTag_eq_dec : EqDecision HostControlTag.
Proof. solve_decision. Defined.

Definition ALL_TAGS : list HostControlTag :=
  [T_EnclaveChallenge; T_EnclaveProof; T_EnclaveError; T_EnclaveRevoke; T_EnclaveRevoked;
   T_ClientList; T_ClientListResult; T_ClientRevoke; T_ClientRevokeResult;
   T_ClientPair; T_ClientPairResult;
   T_KillStatus; T_KillEngage; T_KillRelease; T_KillStatusResult;
   T_AuditEvent; T_DoctorReport; T_DoctorReportResult; T_AuditRead; T_AuditReadResult;
   T_RegistrationStatus; T_RegistrationRepair; T_RegistrationStatusResult;
   T_PolicyGet; T_PolicyCurrent; T_PolicyRestrict; T_PolicyRestrictResult;
   T_PolicySet; T_PolicySetResult; T_PolicyHistory; T_PolicyHistoryResult;
   T_PolicyRollback; T_PolicyRollbackResult; T_LangGet; T_LangSet; T_LangCurrent;
   T_EnrollBegin; T_EnrollOptions; T_EnrollFinish; T_EnrollResult;
   T_PresenceBegin; T_PresenceRequest; T_PresenceAssert; T_PresenceConfirm; T_PresenceResult;
   T_BrowserRevoke; T_BrowserRevokeResult].

(** serde's snake_case spelling, which [Display for HostControlTag] prints. *)
Definition tag_name (t : HostControlTag) : string :=
  match t with
  | T_EnclaveChallenge => "enclave_challenge"
  | T_EnclaveProof => "enclave_proof"
  | T_EnclaveError => "enclave_error"
  | T_EnclaveRevoke => "enclave_revoke"
  | T_EnclaveRevoked => "enclave_revoked"
  | T_ClientList => "client_list"
  | T_ClientListResult => "client_list_result"
  | T_ClientRevoke => "client_revoke"
  | T_ClientRevokeResult => "client_revoke_result"
  | T_ClientPair => "client_pair"
  | T_ClientPairResult => "client_pair_result"
  | T_KillStatus => "kill_status"
  | T_KillEngage => "kill_engage"
  | T_KillRelease => "kill_release"
  | T_KillStatusResult => "kill_status_result"
  | T_AuditEvent => "audit_event"
  | T_DoctorReport => "doctor_report"
  | T_DoctorReportResult => "doctor_report_result"
  | T_AuditRead => "audit_read"
  | T_AuditReadResult => "audit_read_result"
  | T_RegistrationStatus => "registration_status"
  | T_RegistrationRepair => "registration_repair"
  | T_RegistrationStatusResult => "registration_status_result"
  | T_PolicyGet => "policy_get"
  | T_PolicyCurrent => "policy_current"
  | T_PolicyRestrict => "policy_restrict"
  | T_PolicyRestrictResult => "policy_restrict_result"
  | T_PolicySet => "policy_set"
  | T_PolicySetResult => "policy_set_result"
  | T_PolicyHistory => "policy_history"
  | T_PolicyHistoryResult => "policy_history_result"
  | T_PolicyRollback => "policy_rollback"
  | T_PolicyRollbackResult => "policy_rollback_result"
  | T_LangGet => "lang_get"
  | T_LangSet => "lang_set"
  | T_LangCurrent => "lang_current"
  | T_EnrollBegin => "enroll_begin"
  | T_EnrollOptions => "enroll_options"
  | T_EnrollFinish => "enroll_finish"
  | T_EnrollResult => "enroll_result"
  | T_PresenceBegin => "presence_begin"
  | T_PresenceRequest => "presence_request"
  | T_PresenceAssert => "presence_assert"
  | T_PresenceConfirm => "presence_confirm"
  | T_PresenceResult => "presence_result"
  | T_BrowserRevoke => "browser_revoke"
  | T_BrowserRevokeResult => "browser_revoke_result"
  end.

Inductive FrameDirection := BrowserToHost | HostToBrowser.

(** [HostControlTag::direction]. *)
Definition tag_direction (t : HostControlTag) : FrameDirection :=
  match t with
  | T_EnclaveChallenge | T_EnclaveRevoke | T_ClientList | T_ClientRevoke | T_ClientPair
  | T_KillStatus | T_KillEngage | T_KillRelease | T_AuditEvent | T_DoctorReport | T_AuditRead
  | T_RegistrationStatus | T_RegistrationRepair | T_PolicyGet | T_PolicyRestrict | T_PolicySet
  | T_PolicyHistory | T_PolicyRollback | T_LangGet | T_LangSet | T_EnrollBegin | T_EnrollFinish
  | T_PresenceBegin | T_PresenceAssert | T_PresenceConfirm | T_BrowserRevoke => BrowserToHost
  | T_EnclaveProof | T_EnclaveError | T_EnclaveRevoked | T_ClientListResult
  | T_ClientRevokeResult | T_ClientPairResult | T_KillStatusResult | T_DoctorReportResult
  | T_AuditReadResult | T_RegistrationStatusResult | T_PolicyCurrent | T_PolicyRestrictResult
  | T_PolicySetResult | T_PolicyHistoryResult | T_PolicyRollbackResult | T_LangCurrent
  | T_EnrollOptions | T_EnrollResult | T_PresenceRequest | T_PresenceResult
  | T_BrowserRevokeResult => HostToBrowser
  end.

(** The tag a reply frame is serialized under. *)
Definition reply_tag (r : HostReply) : HostControlTag :=
  match r with
  | EnclaveProof _ _ _ => T_EnclaveProof
  | EnclaveError_ _ => T_EnclaveError
  | EnclaveRevoked => T_EnclaveRevoked
  | ClientListResult _ _ _ _ => T_ClientListResult
  | ClientRevokeResult _ _ => T_ClientRevokeResult
  | ClientPairResult _ _ => T_ClientPairResult
  | KillStatusResult _ _ _ => T_KillStatusResult
  | DoctorReportResult _ _ _ => T_DoctorReportResult
  | AuditReadResult _ _ _ _ _ => T_AuditReadResult
  | RegistrationStatusResult _ _ _ => T_RegistrationStatusResult
  | PolicyCurrent _ _ _ _ _ => T_PolicyCurrent
  | PolicyRestrictResult _ _ => T_PolicyRestrictResult
  | PolicySetResult _ _ => T_PolicySetResult
  | PolicyHistoryResult _ _ _ => T_PolicyHistoryResult
  | PolicyRollbackResult _ _ => T_PolicyRollbackResult
  | LangCurrent _ _ => T_LangCurrent
  | EnrollOptions _ _ _ _ _ => T_EnrollOptions
  | EnrollResult _ _ _ => T_EnrollResult
  | PresenceRequestFrame _ _ _ _ => T_PresenceRequest
  | PresenceResult _ _ => T_PresenceResult
  | BrowserRevokeResult _ _ => T_BrowserRevokeResult
  end.

Inductive MalformedReply :=
| MalformedDrop
| MalformedSend (r : HostReply)
| MalformedLangCurrent.

Definition malformed_text (t : HostControlTag) : string := "malformed " +:+ tag_name t +:+ " frame".

Definition malformed_write (t : HostControlTag) (lane : WriteLane) : MalformedReply :=
  MalformedSend (write_into_frame (VerdictRefused (malformed_text t)) lane).

(** [HostControlTag::malformed_reply]. *)
Definition malformed_reply (t : HostControlTag) : MalformedReply :=
  match t with
  | T_EnclaveChallenge => MalformedSend (EnclaveError_ "invalid_challenge")
  | T_ClientList => MalformedSend (ClientListResult false false [] (Some "malformed client_list frame"))
  | T_ClientRevoke => MalformedSend (ClientRevokeResult false (Some "malformed client_revoke frame"))
  | T_KillStatus | T_KillEngage | T_KillRelease =>
      MalformedSend (kill_into_frame (KillUnreadable (malformed_text t)))
  | T_PolicyGet => MalformedSend (policy_into_frame (PolicyUnavailable "malformed policy_get frame"))
  | T_RegistrationStatus | T_RegistrationRepair =>
      MalformedSend (registration_into_frame (RegUnavailable (malformed_text t)))
  | T_DoctorReport =>
      MalformedSend (doctor_into_frame (DoctorUnavailable "malformed doctor_report frame"))
  | T_AuditRead => MalformedSend (audit_into_frame (AuditUnavailable "malformed audit_read frame"))
  | T_PolicyRestrict => malformed_write t LanePolicyRestrict
  | T_PolicySet => malformed_write t LanePolicySet
  | T_PolicyRollback => malformed_write t LanePolicyRollback
  | T_ClientPair => malformed_write t LaneClientPair
  | T_PolicyHistory =>
      MalformedSend (history_into_frame (HistoryUnavailable "malformed policy_history frame"))
  | T_LangGet | T_LangSet => MalformedLangCurrent
  | T_EnrollBegin | T_EnrollFinish =>
      MalformedSend (enroll_into_frame (EnrollRefused (malformed_text t)))
  | T_PresenceBegin =>
      MalformedSend (presence_into_frame (PresenceRefused "malformed presence_begin frame"))
  | T_PresenceAssert =>
      MalformedSend (presence_into_frame (PresenceRefused "malformed presence_assert frame"))
  | T_BrowserRevoke =>
      MalformedSend (revoke_into_frame (RevokeRefused "malformed browser_revoke frame"))
  | T_PresenceConfirm =>
      MalformedSend (presence_into_frame (PresenceRefused "malformed presence_confirm frame"))
  | T_EnclaveRevoke | T_AuditEvent => MalformedDrop
  | T_EnclaveProof | T_EnclaveError | T_EnclaveRevoked | T_ClientListResult
  | T_ClientRevokeResult | T_ClientPairResult | T_KillStatusResult | T_DoctorReportResult
  | T_AuditReadResult | T_RegistrationStatusResult | T_PolicyCurrent | T_PolicyRestrictResult
  | T_PolicySetResult | T_PolicyHistoryResult | T_PolicyRollbackResult | T_LangCurrent
  | T_EnrollOptions | T_EnrollResult | T_PresenceRequest | T_PresenceResult
  | T_BrowserRevokeResult => MalformedDrop
  end.

(** * Lemmas *)

(** A frame says yes without an error or no with one, and claims nothing more when
    it says no. *)
Definition frame_consistent (r : HostReply) : bool :=
  match r with
  | ClientRevokeResult ok e | ClientPairResult ok e | PolicyRestrictResult ok e
  | PolicySetResult ok e | PolicyRollbackResult ok e | PresenceResult ok e
  | BrowserRevokeResult ok e => Bool.eqb ok (negb (bool_decide (is_Some e)))
  | KillStatusResult ok k e =>
      Bool.eqb ok (negb (bool_decide (is_Some e))) && Bool.eqb ok (bool_decide (is_Some k))
  | EnrollResult ok c e =>
      Bool.eqb ok (negb (bool_decide (is_Some e))) && Bool.eqb ok (bool_decide (is_Some c))
  | PolicyCurrent ok b s o e =>
      Bool.eqb ok (negb (bool_decide (is_Some e))) && Bool.eqb ok (bool_decide (is_Some b))
      && (ok || negb (bool_decide (is_Some s) || bool_decide (is_Some o)))
  | _ => true
  end.

(** The verdict a frame carries, for the frames that carry one. *)
Definition frame_ok (r : HostReply) : bool :=
  match r with
  | ClientListResult ok _ _ _ | ClientRevokeResult ok _ | ClientPairResult ok _
  | KillStatusResult ok _ _ | DoctorReportResult ok _ _ | AuditReadResult ok _ _ _ _
  | RegistrationStatusResult ok _ _ | PolicyCurrent ok _ _ _ _ | PolicyRestrictResult ok _
  | PolicySetResult ok _ | PolicyHistoryResult ok _ _ | PolicyRollbackResult ok _
  | EnrollResult ok _ _ | PresenceResult ok _ | BrowserRevokeResult ok _ => ok
  | EnclaveError_ _ | EnclaveRevoked => false
  | EnclaveProof _ _ _ | LangCurrent _ _ | EnrollOptions _ _ _ _ _
  | PresenceRequestFrame _ _ _ _ => true
  end.

Lemma tag_name_inj t t' : tag_name t = tag_name t' -> t = t'.
Proof. destruct t, t'; try reflexivity; intros H; discriminate H. Qed.

Lemma all_tags_complete t : t ∈ ALL_TAGS.
Proof. apply list_elem_of_In. destruct t; cbn; tauto. Qed.

Lemma outcomes_are_consistent :
  (forall o, frame_consistent (kill_into_frame o) = true) /\
  (forall o, frame_consistent (policy_into_frame o) = true) /\
  (forall v l, frame_consistent (write_into_frame v l) = true) /\
  (forall o, frame_consistent (enroll_into_frame o) = true) /\
  (forall o, frame_consistent (presence_into_frame o) = true) /\
  (forall o, frame_consistent (revoke_into_frame o) = true).
Proof. split_and!; intros []; try done; by intros []. Qed.
