(* ===== verification/Control.v ===== *)
(** Control: the extension-to-host side of the control channel
    (src/src/packages/core/src/protocol/control.rs): the requests the native host
    answers itself, their strict parse, and the classification of an inbound
    native-messaging frame. [browsers.rs] lends the browser keys, [audit.rs] the
    kinds an extension may report.

    As in [ToolArgs], serde is read at the level the structs state: unknown
    members are refused, a required member must be present and typed, an optional
    one may be absent or [null]; which of several faults serde names first is not
    modelled. *)
From S2P Require Import Prelude Json RuntimeRecord Policy Identity PolicyRecord World PolicyPlan ToolArgs Frames.
From stdpp Require Import base list sets strings.

(** * Typed members *)

(** [Option<T>]: absent and [null] are [None]. *)
Definition optional {T} (take : string -> json -> result args_error T) (name : string)
    (m : members) : result args_error (option T) :=
  match member name m with
  | None | Some JNull => Ok None
  | Some j => Some <$> take name j
  end.

Definition needed {T} (take : string -> json -> result args_error T) (name : string)
    (m : members) : result args_error T :=
  match member name m with Some j => take name j | None => Err (MissingField name) end.

Definition u64_take (name : string) (j : json) : result args_error Z :=
  match j with
  | JInt n => if (0 <=? n)%Z && (n <=? u64_max)%Z then Ok n else Err (InvalidType name)
  | _ => Err (InvalidType name)
  end.

(** [Ms::deserialize]. *)
Definition ms_take (name : string) (j : json) : result args_error Ms :=
  n ← u64_take name j; map_err (fun _ => OutOfRange name) (Ms_try_from n).

Fixpoint strs_of (name : string) (l : list json) : result args_error (list string) :=
  match l with
  | [] => Ok []
  | j :: l' => s ← str_take name j; rest ← strs_of name l'; Ok (s :: rest)
  end.

Definition strs_take (name : string) (j : json) : result args_error (list string) :=
  match j with JArr l => strs_of name l | _ => Err (InvalidType name) end.

Definition name_take (name : string) (j : json) : result args_error ClientName :=
  s ← str_take name j; map_err (fun _ => OutOfRange name) (ClientName_try_from s).

(** [Anchor]: adjacently tagged, [kind] and [value], or the two as an array. *)
Definition anchor_de (name : string) (m : members) : result args_error Anchor :=
  _ ← deny_unknown_fields ["kind"; "value"] m;
  k ← needed str_take "kind" m;
  v ← needed str_take "value" m;
  if String.eqb k "hash" then
    AnchorHash <$> map_err (fun _ => OutOfRange name) (HashDigest_try_from v)
  else if String.eqb k "signer" then
    AnchorSigner <$> map_err (fun _ => OutOfRange name) (SignerId_try_from v)
  else Err (InvalidType name).

Definition anchor_take (name : string) (j : json) : result args_error Anchor :=
  match j with
  | JObj m => anchor_de name m
  | JArr [k; v] => anchor_de name [("kind", k); ("value", v)]
  | _ => Err (InvalidType name)
  end.

Definition anchor_put (a : Anchor) : json :=
  match a with
  | AnchorHash h => JObj [("kind", JStr "hash"); ("value", JStr h)]
  | AnchorSigner s => JObj [("kind", JStr "signer"); ("value", JStr s)]
  end.

(** ** The overlay *)

Definition overlay_put (o : PolicyOverlay) (f : PolicyField) : option json :=
  match kind f with
  | KBool g => JBool <$> oget_bool o g
  | KMs g => JInt <$> oget_ms o g
  | KToolSet g => (fun l => JArr (JStr <$> l)) <$> oget_tools o g
  end.

Definition overlay_ser (o : PolicyOverlay) : members :=
  omap (fun f => (wire_name f,.) <$> overlay_put o f) ALL.

Definition overlay_take_field (m : members) (acc : result args_error PolicyOverlay)
    (f : PolicyField) : result args_error PolicyOverlay :=
  o ← acc;
  match kind f with
  | KBool g => oset_bool o g <$> optional bool_take (wire_name f) m
  | KMs g => oset_ms o g <$> optional ms_take (wire_name f) m
  | KToolSet g => oset_tools o g <$> optional strs_take (wire_name f) m
  end.

Definition overlay_de (m : members) : result args_error PolicyOverlay :=
  _ ← deny_unknown_fields (wire_name <$> ALL) m;
  foldl (overlay_take_field m) (Ok overlay_default) ALL.

(** An object, or every field in the order of the declaration. *)
Definition overlay_take (name : string) (j : json) : result args_error PolicyOverlay :=
  match j with
  | JObj m => overlay_de m
  | JArr l => if (length l =? length ALL)%nat then overlay_de (zip (wire_name <$> ALL) l)
              else Err (InvalidType name)
  | _ => Err (InvalidType name)
  end.

(** ** Browsers (browsers.rs) and extension audit kinds (audit.rs) *)

Inductive Browser := Chrome | Chromium | Brave | Edge | Vivaldi | Opera.

#[export] Instance Browser_eq_dec : EqDecision Browser.
Proof. solve_decision. Defined.

Definition ALL_BROWSERS : list Browser := [Chrome; Chromium; Brave; Edge; Vivaldi; Opera].

Definition browser_key (b : Browser) : string :=
  match b with
  | Chrome => "chrome" | Chromium => "chromium" | Brave => "brave"
  | Edge => "edge" | Vivaldi => "vivaldi" | Opera => "opera"
  end.

Definition browser_from_key (key : string) : option Browser :=
  List.find (fun b => String.eqb (browser_key b) key) ALL_BROWSERS.

Fixpoint unique_browsers (seen l : list Browser) : list Browser :=
  match l with
  | [] => []
  | b :: l' => if bool_decide (b ∈ seen) then unique_browsers seen l'
               else b :: unique_browsers (b :: seen) l'
  end.

(** [RepairBrowsers::deserialize]. *)
Definition repair_take (name : string) (j : json) : result args_error (list Browser) :=
  keys ← strs_take name j;
  if (length keys =? 0)%nat then Err (OutOfRange name)
  else
    browsers ← ok_or (mapM browser_from_key keys) (OutOfRange name);
    Ok (unique_browsers [] browsers).

Definition MAX_AUDIT_READ_LIMIT : Z := 1000.

(** [AuditReadLimit::deserialize]. *)
Definition limit_take (name : string) (j : json) : result args_error Z :=
  n ← u64_take name j;
  if (1 <=? n)%Z && (n <=? MAX_AUDIT_READ_LIMIT)%Z then Ok n else Err (OutOfRange name).

(** [serde_variant_name]: the kind's snake_case spelling. *)
Definition audit_kind_name (k : AuditKind) : string :=
  match k with
  | ToolCall => "tool_call"
  | HarnessAdmit => "harness_admit"
  | HarnessRefuse => "harness_refuse"
  | AttachRefuse => "attach_refuse"
  | BrowserAttach => "browser_attach"
  | BrowserRefuse => "browser_refuse"
  | PairClient => "pair_client"
  | RevokeClient => "revoke_client"
  | HostKeyRevoke => "host_key_revoke"
  | HostKeyPair => "host_key_pair"
  | KillEngage => "kill_engage"
  | KillRelease => "kill_release"
  | PresenceAssert => "presence_assert"
  | AuditEnroll => "enroll"
  | RevokeBrowser => "revoke_browser"
  | PolicyWrite => "policy_write"
  | ConfirmShown => "confirm_shown"
  | ConfirmAllowed => "confirm_allowed"
  | ConfirmDenied => "confirm_denied"
  | EnrollApproved => "enroll_approved"
  | EnrollRejected => "enroll_rejected"
  | EnrollRevoked => "enroll_revoked"
  end.

Definition EXTENSION_AUDIT_KINDS : list AuditKind :=
  [ConfirmShown; ConfirmAllowed; ConfirmDenied; EnrollApproved; EnrollRejected; EnrollRevoked].

Definition extension_kind (kind : string) : option AuditKind :=
  List.find (fun k => String.eqb (audit_kind_name k) kind) EXTENSION_AUDIT_KINDS.

(** [ExtensionAuditKind::deserialize]. *)
Definition extension_kind_take (name : string) (j : json) : result args_error AuditKind :=
  s ← str_take name j; ok_or (extension_kind s) (OutOfRange name).

Definition entry_ref_take (name : string) (j : json) : result args_error string :=
  match j with
  | JObj m => _ ← deny_unknown_fields ["id"] m; needed str_take "id" m
  | _ => Err (InvalidType name)
  end.

(** * Requests *)

(** [PolicyRollback]'s [entry] is the id of a [HistoryEntryRef]. *)
Inductive HostRequest :=
| RqEnclaveChallenge (nonce : string) (context : option string)
| RqEnclaveRevoke
| RqClientList
| RqClientRevoke (name : string)
| RqClientPair (name : ClientName) (anchor : Anchor)
| RqKillStatus
| RqKillEngage
| RqKillRelease
| RqAuditEvent (kind : AuditKind) (outcome tool name detail cid : option string)
| RqDoctorReport
| RqAuditRead (limit : option Z)
| RqRegistrationStatus
| RqRegistrationRepair (browsers : option (list Browser))
| RqPolicyGet
| RqPolicyRestrict (overlay : PolicyOverlay)
| RqPolicySet (overlay : PolicyOverlay)
| RqPolicyHistory
| RqPolicyRollback (revision : Z) (entry : option string)
| RqLangGet
| RqLangSet (value : string)
| RqEnrollBegin
| RqEnrollFinish (attestation_object client_data_json : string)
| RqPresenceBegin (action origin : string)
| RqPresenceAssert (credential_id authenticator_data client_data_json signature : string)
| RqPresenceConfirm (nonce : string)
| RqBrowserRevoke.

Definition request_tag (r : HostRequest) : HostControlTag :=
  match r with
  | RqEnclaveChallenge _ _ => T_EnclaveChallenge
  | RqEnclaveRevoke => T_EnclaveRevoke
  | RqClientList => T_ClientList
  | RqClientRevoke _ => T_ClientRevoke
  | RqClientPair _ _ => T_ClientPair
  | RqKillStatus => T_KillStatus
  | RqKillEngage => T_KillEngage
  | RqKillRelease => T_KillRelease
  | RqAuditEvent _ _ _ _ _ _ => T_AuditEvent
  | RqDoctorReport => T_DoctorReport
  | RqAuditRead _ => T_AuditRead
  | RqRegistrationStatus => T_RegistrationStatus
  | RqRegistrationRepair _ => T_RegistrationRepair
  | RqPolicyGet => T_PolicyGet
  | RqPolicyRestrict _ => T_PolicyRestrict
  | RqPolicySet _ => T_PolicySet
  | RqPolicyHistory => T_PolicyHistory
  | RqPolicyRollback _ _ => T_PolicyRollback
  | RqLangGet => T_LangGet
  | RqLangSet _ => T_LangSet
  | RqEnrollBegin => T_EnrollBegin
  | RqEnrollFinish _ _ => T_EnrollFinish
  | RqPresenceBegin _ _ => T_PresenceBegin
  | RqPresenceAssert _ _ _ _ => T_PresenceAssert
  | RqPresenceConfirm _ => T_PresenceConfirm
  | RqBrowserRevoke => T_BrowserRevoke
  end.

Definition empty_request (r : HostRequest) (m : members) : result args_error HostRequest :=
  _ ← deny_unknown_fields [] m; Ok r.

(** The variant's own fields, the tag removed. *)
Definition request_de (t : HostControlTag) (m : members) : result args_error HostRequest :=
  match t with
  | T_EnclaveChallenge =>
      _ ← deny_unknown_fields ["nonce"; "context"] m;
      nonce ← needed str_take "nonce" m; context ← optional str_take "context" m;
      Ok (RqEnclaveChallenge nonce context)
  | T_EnclaveRevoke => empty_request RqEnclaveRevoke m
  | T_ClientList => empty_request RqClientList m
  | T_ClientRevoke =>
      _ ← deny_unknown_fields ["name"] m; name ← needed str_take "name" m; Ok (RqClientRevoke name)
  | T_ClientPair =>
      _ ← deny_unknown_fields ["name"; "anchor"] m;
      name ← needed name_take "name" m; anchor ← needed anchor_take "anchor" m;
      Ok (RqClientPair name anchor)
  | T_KillStatus => empty_request RqKillStatus m
  | T_KillEngage => empty_request RqKillEngage m
  | T_KillRelease => empty_request RqKillRelease m
  | T_AuditEvent =>
      _ ← deny_unknown_fields ["kind"; "outcome"; "tool"; "name"; "detail"; "cid"] m;
      kind ← needed extension_kind_take "kind" m; outcome ← optional str_take "outcome" m;
      tool ← optional str_take "tool" m; name ← optional str_take "name" m;
      detail ← optional str_take "detail" m; cid ← optional str_take "cid" m;
      Ok (RqAuditEvent kind outcome tool name detail cid)
  | T_DoctorReport => empty_request RqDoctorReport m
  | T_AuditRead =>
      _ ← deny_unknown_fields ["limit"] m; limit ← optional limit_take "limit" m; Ok (RqAuditRead limit)
  | T_RegistrationStatus => empty_request RqRegistrationStatus m
  | T_RegistrationRepair =>
      _ ← deny_unknown_fields ["browsers"] m; browsers ← optional repair_take "browsers" m;
      Ok (RqRegistrationRepair browsers)
  | T_PolicyGet => empty_request RqPolicyGet m
  | T_PolicyRestrict =>
      _ ← deny_unknown_fields ["overlay"] m; o ← needed overlay_take "overlay" m; Ok (RqPolicyRestrict o)
  | T_PolicySet =>
      _ ← deny_unknown_fields ["overlay"] m; o ← needed overlay_take "overlay" m; Ok (RqPolicySet o)
  | T_PolicyHistory => empty_request RqPolicyHistory m
  | T_PolicyRollback =>
      _ ← deny_unknown_fields ["revision"; "entry"] m;
      revision ← needed u64_take "revision" m; entry ← optional entry_ref_take "entry" m;
      Ok (RqPolicyRollback revision entry)
  | T_LangGet => empty_request RqLangGet m
  | T_LangSet => _ ← deny_unknown_fields ["value"] m; value ← needed str_take "value" m; Ok (RqLangSet value)
  | T_EnrollBegin => empty_request RqEnrollBegin m
  | T_EnrollFinish =>
      _ ← deny_unknown_fields ["attestation_object"; "client_data_json"] m;
      a ← needed str_take "attestation_object" m; c ← needed str_take "client_data_json" m;
      Ok (RqEnrollFinish a c)
  | T_PresenceBegin =>
      _ ← deny_unknown_fields ["action"; "origin"] m;
      action ← needed str_take "action" m; origin ← needed str_take "origin" m;
      Ok (RqPresenceBegin action origin)
  | T_PresenceAssert =>
      _ ← deny_unknown_fields ["credential_id"; "authenticator_data"; "client_data_json"; "signature"] m;
      i ← needed str_take "credential_id" m; a ← needed str_take "authenticator_data" m;
      c ← needed str_take "client_data_json" m; s ← needed str_take "signature" m;
      Ok (RqPresenceAssert i a c s)
  | T_PresenceConfirm =>
      _ ← deny_unknown_fields ["nonce"] m; nonce ← needed str_take "nonce" m; Ok (RqPresenceConfirm nonce)
  | T_BrowserRevoke => empty_request RqBrowserRevoke m
  | _ => Err (InvalidType "type")
  end.

(** * Classification *)

(** [HostControlTag::deserialize] of a string. *)
Definition tag_of_name (s : string) : option HostControlTag :=
  List.find (fun t => String.eqb (tag_name t) s) ALL_TAGS.

Definition host_control_type (frame : json) : option HostControlTag :=
  m ← as_object frame; j ← member "type" m; s ← as_str j; tag_of_name s.

(** [HostRequest::deserialize]: the tag is taken out of the object, the rest are
    the variant's members. *)
Definition HostRequest_de (frame : json) : result args_error HostRequest :=
  match frame with
  | JObj m =>
      s ← needed str_take "type" m;
      t ← ok_or (tag_of_name s) (InvalidType "type");
      request_de t (List.filter (fun kv => negb (String.eqb kv.1 "type")) m)
  | _ => Err (InvalidType "type")
  end.

Inductive FrameDisposition :=
| Forward
| Handle (request : HostRequest)
| Malformed (tag : HostControlTag) (error : args_error).

Definition classify_nm_frame (frame : json) : FrameDisposition :=
  match host_control_type frame with
  | None => Forward
  | Some tag =>
      match HostRequest_de frame with
      | Ok request => Handle request
      | Err error => Malformed tag error
      end
  end.

(** * The extension's writer *)

Definition opt_put {T} (name : string) (put : T -> json) (o : option T) : members :=
  match o with Some t => [(name, put t)] | None => [] end.

(** [Serialize for HostRequest]. *)
Definition request_ser (r : HostRequest) : members :=
  ("type", JStr (tag_name (request_tag r))) ::
  match r with
  | RqEnclaveChallenge nonce context => ("nonce", JStr nonce) :: opt_put "context" JStr context
  | RqClientRevoke name => [("name", JStr name)]
  | RqClientPair name anchor => [("name", JStr name); ("anchor", anchor_put anchor)]
  | RqAuditEvent kind outcome tool name detail cid =>
      ("kind", JStr (audit_kind_name kind)) :: opt_put "outcome" JStr outcome ++ opt_put "tool" JStr tool ++
      opt_put "name" JStr name ++ opt_put "detail" JStr detail ++ opt_put "cid" JStr cid
  | RqAuditRead limit => opt_put "limit" JInt limit
  | RqRegistrationRepair browsers =>
      opt_put "browsers" (fun l => JArr ((fun b => JStr (browser_key b)) <$> l)) browsers
  | RqPolicyRestrict o | RqPolicySet o => [("overlay", JObj (overlay_ser o))]
  | RqPolicyRollback revision entry =>
      [("revision", JInt revision);
       ("entry", match entry with Some id => JObj [("id", JStr id)] | None => JNull end)]
  | RqLangSet value => [("value", JStr value)]
  | RqEnrollFinish a c => [("attestation_object", JStr a); ("client_data_json", JStr c)]
  | RqPresenceBegin action origin => [("action", JStr action); ("origin", JStr origin)]
  | RqPresenceAssert i a c s =>
      [("credential_id", JStr i); ("authenticator_data", JStr a); ("client_data_json", JStr c);
       ("signature", JStr s)]
  | RqPresenceConfirm nonce => [("nonce", JStr nonce)]
  | _ => []
  end.

(** * Lemmas *)

Lemma tag_of_name_name t : tag_of_name (tag_name t) = Some t.
Proof. by destruct t. Qed.

Lemma tag_of_name_Some s t : tag_of_name s = Some t <-> s = tag_name t.
Proof.
  split; [|by intros ->; apply tag_of_name_name].
  intros H. apply find_Some_iff in H as [_ H]. by apply String.eqb_eq in H.
Qed.

(** A tag's parse yields a request of that tag, and only an extension's own tags
    have one. *)
Lemma request_de_tag t m r :
  request_de t m = Ok r -> request_tag r = t /\ tag_direction t = BrowserToHost.
Proof.
  destruct t; unfold request_de, empty_request; intros H; try discriminate H; by inv_res.
Qed.

(** ** The overlay round trip *)

Lemma member_omap {A} (f : A -> string) (g : A -> option json) (l : list A) (a : A) :
  NoDup (f <$> l) -> a ∈ l ->
  member (f a) (omap (fun x => (f x,.) <$> g x) l) = g a.
Proof.
  unfold member. induction l as [|x l IH]; intros Hnd Ha; [by apply not_elem_of_nil in Ha|].
  rewrite fmap_cons in Hnd. apply NoDup_cons in Hnd as [Hx Hnd].
  apply elem_of_cons in Ha as [->|Ha].
  - simpl. destruct (g x) as [j|]; simpl; [by rewrite String.eqb_refl|].
    apply fmap_None, find_None_iff. intros [k v] Hk.
    apply list_elem_of_omap in Hk as (y & Hy & Hg). destruct (g y); simplify_eq/=.
    apply String.eqb_neq. intros E. apply Hx. rewrite <- E. by apply list_elem_of_fmap_2.
  - simpl. destruct (g x) as [j|]; simpl; [|by apply IH].
    destruct (String.eqb_spec (f x) (f a)) as [E|E]; [|by apply IH].
    destruct Hx. rewrite E. by apply list_elem_of_fmap_2.
Qed.

Lemma wire_names_NoDup : NoDup (wire_name <$> ALL).
Proof. apply (bool_decide_unpack _). by vm_compute. Qed.

Definition overlay_ok (o : PolicyOverlay) : Prop :=
  forall g z, oget_ms o g = Some z -> (0 <= z <= JS_SAFE_INT_MAX)%Z.

Lemma ms_take_JInt name z : (0 <= z <= JS_SAFE_INT_MAX)%Z -> ms_take name (JInt z) = Ok z.
Proof.
  intros Hz. unfold ms_take, u64_take.
  assert (JS_SAFE_INT_MAX <= u64_max)%Z by (unfold JS_SAFE_INT_MAX, u64_max; lia).
  destruct (Z.leb_spec 0 z); [|lia]. destruct (Z.leb_spec z u64_max); [|lia].
  cbn [andb mbind result_mbind]. unfold Ms_try_from.
  destruct (Z.ltb_spec JS_SAFE_INT_MAX z); [lia|]. done.
Qed.

Lemma strs_of_JStr name l : strs_of name (JStr <$> l) = Ok l.
Proof. induction l as [|s l IH]; [done|]. cbn. by rewrite IH. Qed.

Lemma overlay_take_field_put o m acc f :
  overlay_ok o -> member (wire_name f) m = overlay_put o f ->
  overlay_take_field m (Ok acc) f = Ok (overlay_copy_entry acc f o).
Proof.
  intros Ho Hm. unfold overlay_take_field, overlay_copy_entry, optional. cbn [mbind result_mbind].
  rewrite Hm. unfold overlay_put. destruct (kind f) as [g|g|g].
  - by destruct (oget_bool o g).
  - destruct (oget_ms o g) as [z|] eqn:E; [|done]. cbn [fmap option_fmap option_map].
    rewrite ms_take_JInt by by apply Ho in E. done.
  - destruct (oget_tools o g) as [l|]; [|done]. cbn [fmap option_fmap option_map strs_take].
    by rewrite strs_of_JStr.
Qed.

Lemma overlay_fold_put o m l acc :
  overlay_ok o -> (forall f, f ∈ l -> member (wire_name f) m = overlay_put o f) ->
  foldl (overlay_take_field m) (Ok acc) l = Ok (foldl (fun a f => overlay_copy_entry a f o) acc l).
Proof.
  intros Ho. revert acc. induction l as [|f l IH]; intros acc Hm; [done|]. cbn [foldl].
  rewrite (overlay_take_field_put o) by (done || apply Hm; set_solver). apply IH. set_solver.
Qed.

Lemma copy_entries_get o l acc f :
  overlay_get (foldl (fun a f => overlay_copy_entry a f o) acc l) f =
    if decide (f ∈ l) then overlay_get o f else overlay_get acc f.
Proof.
  revert acc. induction l as [|g l IH]; intros acc; cbn [foldl].
  - by rewrite decide_False by apply not_elem_of_nil.
  - rewrite IH, overlay_get_copy_entry. repeat case_decide; set_solver.
Qed.

Lemma overlay_ser_declared o : deny_unknown_fields (wire_name <$> ALL) (overlay_ser o) = Ok tt.
Proof.
  unfold deny_unknown_fields. destruct (List.find _ _) as [[k v]|] eqn:E; [|done].
  apply find_Some_iff in E as [Hin Hn]. apply negb_true_iff, str_mem_false in Hn.
  destruct Hn. apply list_elem_of_omap in Hin as (f & Hf & Hp).
  destruct (overlay_put o f); [|discriminate Hp]. injection Hp as <- _.
  by apply (list_elem_of_fmap_2 wire_name).
Qed.

Lemma overlay_de_ser o : overlay_ok o -> overlay_de (overlay_ser o) = Ok o.
Proof.
  intros Ho. unfold overlay_de. rewrite overlay_ser_declared. cbn [mbind result_mbind].
  rewrite (overlay_fold_put o).
  - f_equal. apply overlay_ext. intros f. rewrite copy_entries_get.
    by rewrite decide_True by apply elem_of_ALL.
  - done.
  - intros f Hf. apply (member_omap wire_name); [apply wire_names_NoDup|done].
Qed.

(** ** The other members *)

Lemma unique_browsers_NoDup seen l :
  NoDup l -> (forall b, b ∈ l -> b ∉ seen) -> unique_browsers seen l = l.
Proof.
  intros Hnd. revert seen. induction Hnd as [|b l Hb _ IH]; intros seen Hs; [done|].
  cbn [unique_browsers]. rewrite bool_decide_eq_false_2 by (apply Hs; set_solver).
  f_equal. apply IH. intros b' Hb'. apply not_elem_of_cons. split; [|apply Hs; set_solver].
  by intros ->.
Qed.

Lemma browsers_of_keys l : mapM browser_from_key (browser_key <$> l) = Some l.
Proof.
  induction l as [|b l IH]; [done|].
  assert (browser_from_key (browser_key b) = Some b) as Hb by by destruct b.
  rewrite fmap_cons. unfold mapM in *. rewrite Hb. cbn [mbind option_bind]. by rewrite IH.
Qed.

(** What the typed request guarantees of its fields. *)
Definition request_ok (r : HostRequest) : Prop :=
  match r with
  | RqClientPair name anchor =>
      ClientName_try_from name = Ok name /\
      match anchor with
      | AnchorHash h => HashDigest_try_from h = Ok h
      | AnchorSigner s => SignerId_try_from s = Ok s
      end
  | RqAuditEvent kind _ _ _ _ _ => kind ∈ EXTENSION_AUDIT_KINDS
  | RqAuditRead (Some n) => (1 <= n <= MAX_AUDIT_READ_LIMIT)%Z
  | RqRegistrationRepair (Some l) => l <> [] /\ NoDup l
  | RqPolicyRestrict o | RqPolicySet o => overlay_ok o
  | RqPolicyRollback revision _ => (0 <= revision <= u64_max)%Z
  | _ => True
  end.

Lemma u64_take_JInt name z : (0 <= z <= u64_max)%Z -> u64_take name (JInt z) = Ok z.
Proof.
  intros Hz. unfold u64_take. destruct (Z.leb_spec 0 z); [|lia].
  destruct (Z.leb_spec z u64_max); [done|lia].
Qed.

Lemma limit_take_JInt name z : (1 <= z <= MAX_AUDIT_READ_LIMIT)%Z -> limit_take name (JInt z) = Ok z.
Proof.
  intros Hz. unfold limit_take. assert (MAX_AUDIT_READ_LIMIT <= u64_max)%Z
    by (unfold MAX_AUDIT_READ_LIMIT, u64_max; lia).
  rewrite u64_take_JInt by lia. cbn [mbind result_mbind].
  destruct (Z.leb_spec 1 z); [|lia]. destruct (Z.leb_spec z MAX_AUDIT_READ_LIMIT); [done|lia].
Qed.

Lemma repair_take_keys name l :
  l <> [] -> NoDup l -> repair_take name (JArr ((fun b => JStr (browser_key b)) <$> l)) = Ok l.
Proof.
  intros Hne Hnd. unfold repair_take, strs_take.
  rewrite (list_fmap_compose browser_key JStr), strs_of_JStr. cbn [mbind result_mbind].
  rewrite length_fmap. destruct (Nat.eqb_spec (length l) 0) as [E|]; [by destruct l|].
  rewrite browsers_of_keys. cbn [ok_or mbind result_mbind].
  rewrite unique_browsers_NoDup; [done|done|]. intros b _. apply not_elem_of_nil.
Qed.

Lemma anchor_take_put name a :
  match a with
  | AnchorHash h => HashDigest_try_from h = Ok h
  | AnchorSigner s => SignerId_try_from s = Ok s
  end -> anchor_take name (anchor_put a) = Ok a.
Proof. destruct a; intros H; cbn; by rewrite H. Qed.

Lemma extension_kind_put name k :
  k ∈ EXTENSION_AUDIT_KINDS -> extension_kind_take name (JStr (audit_kind_name k)) = Ok k.
Proof.
  intros H. apply list_elem_of_In in H. cbn [In EXTENSION_AUDIT_KINDS] in H.
  destruct_or! H; subst; done.
Qed.

Lemma request_de_ser r : request_ok r -> request_de (request_tag r) (tail (request_ser r)) = Ok r.
Proof.
  destruct r as [n [c|]| | |n|n a| | | |k o t n d c| |[l|]| |[l|]| |o|o| |v [e|]| |v| |a c|a o
    |i a c s|n|]; intros Hok; try reflexivity; cbn [request_ser request_tag tail request_de].
  - destruct Hok as [Hn Ha]. cbn. unfold name_take. cbn. rewrite Hn. cbn.
    by rewrite anchor_take_put.
  - unfold needed. cbn [member List.find String.eqb Ascii.eqb Bool.eqb fst snd fmap option_fmap option_map].
    destruct o, t, n, d, c; cbn -[extension_kind_take]; by rewrite extension_kind_put.
  - cbn -[limit_take]. by rewrite limit_take_JInt.
  - destruct Hok. cbn -[repair_take]. by rewrite repair_take_keys.
  - cbn -[overlay_de overlay_ser]. by rewrite overlay_de_ser.
  - cbn -[overlay_de overlay_ser]. by rewrite overlay_de_ser.
  - cbn -[u64_take]. by rewrite u64_take_JInt.
  - cbn -[u64_take]. by rewrite u64_take_JInt.
Qed.

(** No request has a member called [type] but its tag. *)
Lemma request_ser_untyped r :
  List.filter (fun kv : string * json => negb (String.eqb kv.1 "type")) (tail (request_ser r)) =
    tail (request_ser r).
Proof.
  destruct r as [n [c|]| | |n|n a| | | |k o t n d c| |[l|]| |[l|]| |o|o| |v [e|]| |v| |a c|a o
    |i a c s|n|]; try reflexivity. by destruct o, t, n, d, c.
Qed.

Lemma HostRequest_de_ser r : request_ok r -> HostRequest_de (JObj (request_ser r)) = Ok r.
Proof.
  intros Hok. destruct (request_ser r) as [|kv rest] eqn:E; [done|].
  pose proof (request_ser_untyped r) as Hu. pose proof (request_de_ser r Hok) as Hd.
  rewrite E in Hu, Hd. injection E as <- _. cbn [tail] in *. unfold HostRequest_de, needed.
  cbn [member List.find fst snd String.eqb Ascii.eqb Bool.eqb fmap option_fmap option_map
    str_take mbind result_mbind].
  rewrite tag_of_name_name. cbn [ok_or mbind result_mbind List.filter fst].
  replace (negb ("type" =? "type")%string) with false by done. by rewrite Hu.
Qed.

Lemma host_control_type_Some m t :
  host_control_type (JObj m) = Some t <-> member "type" m = Some (JStr (tag_name t)).
Proof.
  unfold host_control_type. cbn [as_object mbind option_bind]. split.
  - destruct (member "type" m) as [[]|]; try done. cbn [mbind option_bind as_str].
    intros H. by apply tag_of_name_Some in H as ->.
  - intros ->. cbn [mbind option_bind as_str]. apply tag_of_name_name.
Qed.

Lemma classify_request r : request_ok r -> classify_nm_frame (JObj (request_ser r)) = Handle r.
Proof.
  intros Hok. unfold classify_nm_frame.
  assert (host_control_type (JObj (request_ser r)) = Some (request_tag r)) as ->.
  { apply host_control_type_Some. by destruct r. }
  by rewrite HostRequest_de_ser.
Qed.

(** * Properties *)

(** The relay is decided by the tag alone, and control frames never cross it.
    A frame is forwarded to the server exactly when its [type] member is not the
    name of a control tag; a frame that is handled is a request of the very tag it
    wears, which is one that only an extension sends; and a frame wearing a
    host-to-extension tag is never handled and is owed no reply. *)
Theorem control_frames_never_cross (frame : json) :
  (classify_nm_frame frame = Forward <->
     forall m t, frame = JObj m -> member "type" m <> Some (JStr (tag_name t))) /\
  (forall r, classify_nm_frame frame = Handle r ->
     host_control_type frame = Some (request_tag r) /\
     tag_direction (request_tag r) = BrowserToHost) /\
  (forall t, host_control_type frame = Some t -> tag_direction t = HostToBrowser ->
     exists e, classify_nm_frame frame = Malformed t e /\ malformed_reply t = MalformedDrop).
Proof.
  unfold classify_nm_frame. split_and!.
  - destruct (host_control_type frame) as [t|] eqn:E.
    + split; [by destruct (HostRequest_de frame)|]. intros H. exfalso.
      destruct frame as [| | | | | |m]; try discriminate E.
      apply host_control_type_Some in E. by eapply H.
    + split; [|done]. intros _ m t -> H. apply host_control_type_Some in H. congruence.
  - intros r. destruct (host_control_type frame) as [t|] eqn:E; [|done].
    destruct frame as [| | | | | |m]; try discriminate E. apply host_control_type_Some in E.
    destruct (HostRequest_de (JObj m)) eqn:Er; intros [= <-].
    unfold HostRequest_de, needed in Er. rewrite E in Er. cbn [str_take mbind result_mbind] in Er.
    rewrite tag_of_name_name in Er. cbn [ok_or mbind result_mbind] in Er.
    by apply request_de_tag in Er as [-> ?].
  - intros t Ht Hd. rewrite Ht. destruct (HostRequest_de frame) as [r|e] eqn:Er.
    + exfalso. destruct frame as [| | | | | |m]; try discriminate Ht.
      apply host_control_type_Some in Ht. unfold HostRequest_de, needed in Er. rewrite Ht in Er.
      cbn [str_take mbind result_mbind] in Er. rewrite tag_of_name_name in Er.
      cbn [ok_or mbind result_mbind] in Er. apply request_de_tag in Er as [_ ?]. congruence.
    + exists e. split; [done|]. by destruct t.
Qed.

(** Every request the extension can write is read back as itself, and one that
    does not parse still gets an answer: for a tag of the extension's own, the reply
    owed is a consistent refusal of a host-to-extension tag or the unchanged
    language; only [enclave_revoke] and [audit_event], which have no reply
    contract, are dropped. *)
Theorem host_requests_roundtrip (r : HostRequest) :
  request_ok r ->
  classify_nm_frame (JObj (request_ser r)) = Handle r /\
  match malformed_reply (request_tag r) with
  | MalformedSend reply =>
      tag_direction (reply_tag reply) = HostToBrowser /\ frame_ok reply = false /\
      frame_consistent reply = true
  | MalformedLangCurrent => request_tag r = T_LangGet \/ request_tag r = T_LangSet
  | MalformedDrop => request_tag r = T_EnclaveRevoke \/ request_tag r = T_AuditEvent
  end.
Proof.
  intros Hok. split.
  - by apply classify_request.
  - clear Hok. destruct r; cbn; auto.
Qed.

Lemma host_requests_roundtrip_witness :
  let r := RqPolicyRestrict (overlay_set_from overlay_default CdpMode values_default) in
  request_ok r /\ classify_nm_frame (JObj (request_ser r)) = Handle r.
Proof.
  intros r. assert (request_ok r) as H.
  { intros [] z Hz; vm_compute in Hz; discriminate Hz. }
  split; [exact H|]. exact (proj1 (host_requests_roundtrip r H)).
Defined.
