(* ===== verification/Replies.v ===== *)
(** Replies: the JSON of the host's frames (src/src/packages/core/src/protocol/control.rs,
    with [ClientEntry] of allowlist.rs, [HeldPolicy] of policy/plan.rs and [PolicyValues] of
    policy/mod.rs): what serde's derived implementations write for each reply and for the rows
    it carries, and what the derived readers of the same types accept.

    A member type is a [member_codec]: how it is written, how it is read, which values are in
    range, and that reading undoes writing. A struct writes its members in order, an optional
    one only when it is there; an enum writes its tag first. *)
From S2P Require Import Prelude Json RuntimeRecord Policy Identity PolicyRecord World PolicyPlan ToolArgs Frames Control.
From stdpp Require Import base list sets strings.

(** No [null] at any depth: the extension's readers refuse one at every optional member. *)
Fixpoint null_free (j : json) : bool :=
  match j with
  | JNull => false
  | JBool _ | JInt _ | JFloat _ | JStr _ => true
  | JArr l => (fix items l := match l with [] => true | x :: l' => null_free x && items l' end) l
  | JObj m => (fix items m := match m with [] => true | (_, x) :: m' => null_free x && items m' end) m
  end.
Definition null_free_members (m : members) : bool := forallb (fun kv => null_free kv.2) m.

Lemma null_free_JArr l : null_free (JArr l) = forallb null_free l.
Proof. by induction l as [|x l IH]; cbn in *; rewrite ?IH. Qed.
Lemma null_free_JObj m : null_free (JObj m) = null_free_members m.
Proof. by induction m as [|[k x] m IH]; cbn in *; rewrite ?IH. Qed.

Record member_codec (T : Type) := MemberCodec {
  mc_put : T -> json;
  mc_take : string -> json -> result args_error T;
  mc_fit : T -> Prop;
  mc_law : forall name t, mc_fit t -> mc_take name (mc_put t) = Ok t;
  mc_null_free : forall t, null_free (mc_put t) = true
}.
Arguments MemberCodec {T}.
Arguments mc_put {T} : simpl never.
Arguments mc_take {T} : simpl never.
Arguments mc_fit {T} : simpl never.
Arguments mc_law {T}.
Arguments mc_null_free {T}.

(** An optional member is left out when it is [None]. *)
Definition opt {T} (c : member_codec T) (name : string) (o : option T) : members :=
  match o with Some v => [(name, mc_put c v)] | None => [] end.
Definition req {T} (c : member_codec T) (name : string) (v : T) : members := [(name, mc_put c v)].

Definition opt_fit {T} (c : member_codec T) (o : option T) : Prop := forall v, o = Some v -> mc_fit c v.

(** What a struct or a variant writes holds no [null]. *)
Ltac written_clean :=
  match goal with |- null_free ?p = _ => let p' := eval hnf in p in change p with p' end;
  rewrite null_free_JObj; unfold null_free_members; cbn; rewrite ?mc_null_free; done.

Section fields.
Context {T : Type} (c : member_codec T).

Lemma needed_put name v m : member name m = Some (mc_put c v) -> mc_fit c v -> needed (mc_take c) name m = Ok v.
Proof. intros Hm Hf. unfold needed. by rewrite Hm, mc_law. Qed.

Lemma optional_put name v m :
  member name m = Some (mc_put c v) -> mc_fit c v -> optional (mc_take c) name m = Ok (Some v).
Proof.
  intros Hm Hf. unfold optional. rewrite Hm. pose proof (mc_null_free c v) as Hn. pose proof (mc_law c name v Hf) as Hl.
  destruct (mc_put c v); try (by rewrite Hl). done.
Qed.

Lemma optional_absent name m : member name m = None -> optional (mc_take c) name m = Ok None.
Proof. intros Hm. unfold optional. by rewrite Hm. Qed.

Fixpoint vec_of (name : string) (l : list json) : result args_error (list T) :=
  match l with
  | [] => Ok []
  | j :: l' => v ← mc_take c name j; rest ← vec_of name l'; Ok (v :: rest)
  end.
End fields.

(** ** Member types *)

Program Definition c_str : member_codec string := MemberCodec JStr str_take (fun _ => True) _ _.
Solve Obligations with done.

Program Definition c_flag : member_codec bool := MemberCodec JBool bool_take (fun _ => True) _ _.
Solve Obligations with done.

Program Definition c_u64 : member_codec Z := MemberCodec JInt u64_take (fun n => (0 <= n <= u64_max)%Z) _ _.
Next Obligation.
  intros name n [H1 H2]. unfold u64_take. apply Z.leb_le in H1 as ->. by apply Z.leb_le in H2 as ->.
Qed.
Next Obligation. done. Qed.

(** [JsUint]: a [u64] within what a JavaScript number holds. *)
Definition JsUint_member (name : string) (j : json) : result args_error Z :=
  n ← u64_take name j; map_err (fun _ => OutOfRange name) (JsUint_try_from n).

Program Definition c_jsuint : member_codec Z := MemberCodec JInt JsUint_member (fun n => (0 <= n <= JS_SAFE_INT_MAX)%Z) _ _.
Next Obligation.
  intros name n [H1 H2]. unfold JsUint_member, u64_take, JsUint_try_from, JsUint_MAX.
  assert (n <= u64_max)%Z as H3 by (unfold JS_SAFE_INT_MAX, u64_max in *; lia).
  apply Z.leb_le in H1 as ->. apply Z.leb_le in H3 as ->. cbn. by apply Z.leb_le in H2 as ->.
Qed.
Next Obligation. done. Qed.

Definition vec_take {T} (c : member_codec T) (name : string) (j : json) : result args_error (list T) :=
  match j with JArr l => vec_of c name l | _ => Err (InvalidType name) end.

Program Definition c_vec {T} (c : member_codec T) : member_codec (list T) :=
  MemberCodec (fun l => JArr (mc_put c <$> l)) (vec_take c) (Forall (mc_fit c)) _ _.
Next Obligation.
  intros T c name l Hl. cbn. induction Hl as [|v l Hv Hl IH]; [done|]. cbn. by rewrite mc_law, IH.
Qed.
Next Obligation.
  intros T c l. cbv beta. rewrite null_free_JArr. induction l as [|v l IH]; [done|]. cbn. by rewrite mc_null_free.
Qed.

Program Definition c_anchor : member_codec Anchor :=
  MemberCodec anchor_put anchor_take
    (fun a => match a with
              | AnchorHash h => is_ok (HashDigest_try_from h) = true
              | AnchorSigner s => is_ok (SignerId_try_from s) = true
              end) _ _.
Next Obligation.
  intros name [h|s] H; cbn.
  - unfold HashDigest_try_from in *. by destruct (_ && _).
  - unfold SignerId_try_from in *. destruct (str_is_empty s); [done|]. by destruct (str_contains NUL s).
Qed.
Next Obligation. by intros []. Qed.

Program Definition c_name : member_codec ClientName :=
  MemberCodec JStr name_take (fun n => validate_label n = true) _ _.
Next Obligation. intros name n H. unfold name_take, ClientName_try_from. cbn. by rewrite H. Qed.
Next Obligation. done. Qed.

Program Definition c_overlay : member_codec PolicyOverlay :=
  MemberCodec (fun o => JObj (overlay_ser o)) overlay_take overlay_ok _ _.
Next Obligation. intros name o Ho. by apply overlay_de_ser. Qed.
Next Obligation.
  intros o. cbv beta. rewrite null_free_JObj. apply forallb_forall. intros [k j] Hj. apply list_elem_of_In in Hj.
  apply list_elem_of_omap in Hj as (f & _ & Hf). unfold overlay_put in Hf.
  destruct (kind f) as [g|g|g]; cbn in Hf;
    [destruct (oget_bool o g)|destruct (oget_ms o g)|destruct (oget_tools o g) as [l|]]; cbn in Hf; simplify_eq/=; [done|done|].
  by induction l.
Qed.

(** [Ms]: a [u64] read under the same bound. *)
Program Definition c_ms : member_codec Ms := MemberCodec JInt ms_take (fun n => (0 <= n <= JS_SAFE_INT_MAX)%Z) _ _.
Next Obligation. intros name n H. by apply ms_take_JInt. Qed.
Next Obligation. done. Qed.

(** A struct with [deny_unknown_fields]: an object of declared members. *)
Definition struct_take {T} (fields : list string) (de : members -> result args_error T) (name : string) (j : json) :
    result args_error T :=
  match j with JObj m => _ ← deny_unknown_fields fields m; de m | _ => Err (InvalidType name) end.

Lemma struct_take_ok {T} fields de name m (v : T) :
  deny_unknown_fields fields m = Ok tt -> de m = Ok v -> struct_take fields de name (JObj m) = Ok v.
Proof. intros Hd Hv. unfold struct_take. by rewrite Hd. Qed.

Ltac read_members :=
  repeat (first
    [ erewrite needed_put by (first [reflexivity | eassumption | exact I])
    | erewrite optional_put by (first [reflexivity | eassumption | exact I])
    | rewrite optional_absent by reflexivity ]; cbn [mbind result_mbind]).

(** ** Rows *)

Definition row_put (r : DoctorRow) : json :=
  JObj (req c_str "value" r.(dr_value) ++ req (c_vec c_str) "details" r.(dr_details)).
Definition row_take : string -> json -> result args_error DoctorRow :=
  struct_take ["value"; "details"] (fun m =>
    value ← needed (mc_take c_str) "value" m; details ← needed (mc_take (c_vec c_str)) "details" m;
    Ok (mkDoctorRow value details)).

Lemma strs_fit (l : list string) : mc_fit (c_vec c_str) l.
Proof. by apply Forall_forall. Qed.

Program Definition c_row : member_codec DoctorRow := MemberCodec row_put row_take (fun _ => True) _ _.
Next Obligation.
  intros name [v d] _. pose proof (strs_fit d). apply struct_take_ok; [reflexivity|]. by read_members.
Qed.
Next Obligation. intros []. written_clean. Qed.

Definition health_put (h : HealthReport) : json :=
  JObj (req c_str "version" h.(hr_version) ++ req c_str "platform" h.(hr_platform) ++
        req c_row "lock_file" h.(hr_lock_file) ++ req c_row "mcp_server" h.(hr_mcp_server) ++
        req c_row "kill_switch" h.(hr_kill_switch) ++ req c_row "policy_baseline" h.(hr_policy_baseline) ++
        req c_str "host_key" h.(hr_host_key) ++ req c_str "summary" h.(hr_summary) ++
        req c_flag "healthy" h.(hr_healthy)).
Definition health_take : string -> json -> result args_error HealthReport :=
  struct_take ["version"; "platform"; "lock_file"; "mcp_server"; "kill_switch"; "policy_baseline"; "host_key";
               "summary"; "healthy"] (fun m =>
    version ← needed (mc_take c_str) "version" m; platform ← needed (mc_take c_str) "platform" m;
    lock_file ← needed (mc_take c_row) "lock_file" m; mcp_server ← needed (mc_take c_row) "mcp_server" m;
    kill_switch ← needed (mc_take c_row) "kill_switch" m; baseline ← needed (mc_take c_row) "policy_baseline" m;
    host_key ← needed (mc_take c_str) "host_key" m; summary ← needed (mc_take c_str) "summary" m;
    healthy ← needed (mc_take c_flag) "healthy" m;
    Ok (mkHealth version platform lock_file mcp_server kill_switch baseline host_key summary healthy)).

Program Definition c_health : member_codec HealthReport := MemberCodec health_put health_take (fun _ => True) _ _.
Next Obligation. intros name [] _. apply struct_take_ok; [reflexivity|]. by read_members. Qed.
Next Obligation. intros []. written_clean. Qed.

Definition client_put (c : ClientEntry) : json :=
  JObj (req c_name "name" c.(ce_name) ++ req c_anchor "anchor" c.(ce_anchor) ++
        req c_u64 "added_unix" c.(ce_added_unix)).
Definition client_take : string -> json -> result args_error ClientEntry :=
  struct_take ["name"; "anchor"; "added_unix"] (fun m =>
    name ← needed (mc_take c_name) "name" m; anchor ← needed (mc_take c_anchor) "anchor" m;
    added ← needed (mc_take c_u64) "added_unix" m;
    Ok {| ce_name := name; ce_anchor := anchor; ce_added_unix := added |}).

Program Definition c_client : member_codec ClientEntry :=
  MemberCodec client_put client_take
    (fun c => mc_fit c_name c.(ce_name) /\ mc_fit c_anchor c.(ce_anchor) /\ mc_fit c_u64 c.(ce_added_unix)) _ _.
Next Obligation. intros name [] (? & ? & ?). apply struct_take_ok; [reflexivity|]. by read_members. Qed.
Next Obligation. intros []. written_clean. Qed.

(** Internally tagged: the tag is a member of its own, and names the fields that may follow. *)
Definition tagged_take {T} (tag : string) (de : string -> members -> result args_error T) (name : string)
    (j : json) : result args_error T :=
  match j with
  | JObj m => t ← needed str_take tag m; de t (List.filter (fun kv => negb (String.eqb kv.1 tag)) m)
  | _ => Err (InvalidType name)
  end.

Lemma tagged_take_ok {T} tag de name t m (v : T) :
  List.filter (fun kv => negb (String.eqb kv.1 tag)) m = m -> de t m = Ok v ->
  tagged_take tag de name (JObj ((tag, JStr t) :: m)) = Ok v.
Proof.
  intros Hf Hv. unfold tagged_take, needed, member. cbn. rewrite String.eqb_refl. cbn. by rewrite Hf.
Qed.

(** A variant's members are read once none is unknown. *)
Lemma tagged_fields {T} fields (m : members) (k : result args_error T) v :
  deny_unknown_fields fields m = Ok tt -> k = Ok v -> (_ ← deny_unknown_fields fields m; k) = Ok v.
Proof. by intros -> ->. Qed.

Definition trail_put (e : AuditTrailEntry) : json :=
  match e with
  | TrailRecord ts_ms kind fields =>
      JObj (("entry", JStr "record") :: req c_jsuint "ts_ms" ts_ms ++ req c_str "kind" kind ++ req c_str "fields" fields)
  | TrailUnrecognized text => JObj (("entry", JStr "unrecognized") :: req c_str "text" text)
  end.
Definition trail_de (t : string) (m : members) : result args_error AuditTrailEntry :=
  if String.eqb t "record" then
    _ ← deny_unknown_fields ["ts_ms"; "kind"; "fields"] m;
    ts_ms ← needed (mc_take c_jsuint) "ts_ms" m; kind ← needed (mc_take c_str) "kind" m;
    fields ← needed (mc_take c_str) "fields" m; Ok (TrailRecord ts_ms kind fields)
  else if String.eqb t "unrecognized" then
    _ ← deny_unknown_fields ["text"] m; text ← needed (mc_take c_str) "text" m; Ok (TrailUnrecognized text)
  else Err (InvalidType "entry").

Program Definition c_trail : member_codec AuditTrailEntry :=
  MemberCodec trail_put (tagged_take "entry" trail_de)
    (fun e => match e with TrailRecord ts_ms _ _ => mc_fit c_jsuint ts_ms | TrailUnrecognized _ => True end) _ _.
Next Obligation.
  intros name [ts k f|t] H; (eapply tagged_take_ok; [reflexivity|]; apply tagged_fields; [reflexivity|]; by read_members).
Qed.
Next Obligation. intros []; written_clean. Qed.

Definition reg_state_put (s : RegistrationState) : json :=
  match s with
  | RsMissing => JObj [("kind", JStr "missing")]
  | RsOk => JObj [("kind", JStr "ok")]
  | RsStale detail => JObj (("kind", JStr "stale") :: req c_str "detail" detail)
  | RsForeign detail => JObj (("kind", JStr "foreign") :: req c_str "detail" detail)
  | RsUnreadable detail => JObj (("kind", JStr "unreadable") :: req c_str "detail" detail)
  end.
Definition detail_de (k : string -> RegistrationState) (m : members) : result args_error RegistrationState :=
  _ ← deny_unknown_fields ["detail"] m; detail ← needed (mc_take c_str) "detail" m; Ok (k detail).
Definition reg_state_de (t : string) (m : members) : result args_error RegistrationState :=
  if String.eqb t "missing" then _ ← deny_unknown_fields [] m; Ok RsMissing
  else if String.eqb t "ok" then _ ← deny_unknown_fields [] m; Ok RsOk
  else if String.eqb t "stale" then detail_de RsStale m
  else if String.eqb t "foreign" then detail_de RsForeign m
  else if String.eqb t "unreadable" then detail_de RsUnreadable m
  else Err (InvalidType "kind").

Program Definition c_reg_state : member_codec RegistrationState :=
  MemberCodec reg_state_put (tagged_take "kind" reg_state_de) (fun _ => True) _ _.
Next Obligation.
  intros name [] _; (eapply tagged_take_ok; [reflexivity|]);
    (apply tagged_fields; [reflexivity|]); by read_members.
Qed.
Next Obligation. intros []; written_clean. Qed.

Definition reg_row_put (r : RegistrationRow) : json :=
  JObj (req c_str "browser" r.(rr_browser) ++ req c_flag "detected" r.(rr_detected) ++
        req c_reg_state "state" r.(rr_state) ++ req c_str "location" r.(rr_location)).
Definition reg_row_take : string -> json -> result args_error RegistrationRow :=
  struct_take ["browser"; "detected"; "state"; "location"] (fun m =>
    browser ← needed (mc_take c_str) "browser" m; detected ← needed (mc_take c_flag) "detected" m;
    state ← needed (mc_take c_reg_state) "state" m; location ← needed (mc_take c_str) "location" m;
    Ok (mkRegRow browser detected state location)).

Program Definition c_reg_row : member_codec RegistrationRow :=
  MemberCodec reg_row_put reg_row_take (fun _ => True) _ _.
Next Obligation. intros name [] _. apply struct_take_ok; [reflexivity|]. by read_members. Qed.
Next Obligation. intros []. written_clean. Qed.

(** [PolicyValues]: every field of the catalogue under its wire name. *)
Definition values_put (v : PolicyValues) : json :=
  JObj ((fun f => (wire_name f,
           match kind f with
           | KBool g => mc_put c_flag (get_bool v g)
           | KMs g => mc_put c_ms (get_ms v g)
           | KToolSet g => mc_put (c_vec c_str) (get_tools v g)
           end)) <$> ALL).
Definition values_take : string -> json -> result args_error PolicyValues :=
  struct_take (wire_name <$> ALL) (fun m =>
    let flag f := needed (mc_take c_flag) (wire_name f) m in
    let ms f := needed (mc_take c_ms) (wire_name f) m in
    cdp ← flag CdpMode; upload ← flag FileUploadEnabled; dialog ← flag HandleDialogEnabled;
    eval ← flag PageEvalEnabled; click ← flag ConfirmHighRiskClick; ceval ← flag ConfirmPageEval;
    pres ← flag PresenceConfirm; tab ← flag ConfirmTabClose; warn ← flag WarnPreciseSnapshot; mask ← flag EvalMask;
    reverify ← ms HostReverifyMs; grace ← ms ConfirmGraceMs; ctoast ← ms ClickToastTimeoutMs;
    etoast ← ms EvalToastTimeoutMs;
    tools ← needed (mc_take (c_vec c_str)) (wire_name DisabledTools) m;
    Ok (mkPolicyValues cdp upload dialog eval click ceval pres tab warn mask reverify grace ctoast etoast tools)).

Program Definition c_values : member_codec PolicyValues :=
  MemberCodec values_put values_take (fun v => forall f, mc_fit c_ms (get_ms v f)) _ _.
Next Obligation.
  intros name v H. pose proof (strs_fit v.(pv_disabled_tools)).
  pose proof (H MF_HostReverifyMs). pose proof (H MF_ConfirmGraceMs). pose proof (H MF_ClickToastTimeoutMs).
  pose proof (H MF_EvalToastTimeoutMs). destruct v. apply struct_take_ok; [reflexivity|]. by read_members.
Qed.
Next Obligation.
  intros v. unfold values_put. rewrite null_free_JObj. apply forallb_forall. intros [k j] Hj.
  apply list_elem_of_In, list_elem_of_fmap in Hj as (f & [= -> ->] & _).
  destruct (kind f); apply mc_null_free.
Qed.

Definition held_put (h : HeldPolicy) : json :=
  JObj (req c_u64 "revision" h.(hp_revision) ++ req c_values "effective" h.(hp_effective)).
Definition held_take : string -> json -> result args_error HeldPolicy :=
  struct_take ["revision"; "effective"] (fun m =>
    revision ← needed (mc_take c_u64) "revision" m; effective ← needed (mc_take c_values) "effective" m;
    Ok (mkHeld revision effective)).

Program Definition c_held : member_codec HeldPolicy :=
  MemberCodec held_put held_take (fun h => mc_fit c_u64 h.(hp_revision) /\ mc_fit c_values h.(hp_effective)) _ _.
Next Obligation. intros name [] [? ?]. apply struct_take_ok; [reflexivity|]. by read_members. Qed.
Next Obligation. intros []. written_clean. Qed.

Definition history_put (r : PolicyHistoryRow) : json :=
  JObj (req c_str "id" r.(hw_id) ++ req c_flag "signed" r.(hw_signed) ++
        req c_flag "overlay_active" r.(hw_overlay_active) ++ opt c_jsuint "superseded_unix" r.(hw_superseded_unix) ++
        opt c_held "held" r.(hw_held)).
Definition history_take : string -> json -> result args_error PolicyHistoryRow :=
  struct_take ["id"; "signed"; "overlay_active"; "superseded_unix"; "held"] (fun m =>
    id ← needed (mc_take c_str) "id" m; signed ← needed (mc_take c_flag) "signed" m;
    active ← needed (mc_take c_flag) "overlay_active" m;
    superseded ← optional (mc_take c_jsuint) "superseded_unix" m; held ← optional (mc_take c_held) "held" m;
    Ok (mkHistoryRow id signed active superseded held)).

Ltac split_options :=
  repeat match goal with
         | H : opt_fit ?c ?o |- _ => destruct o as [?|]; [specialize (H _ eq_refl)|clear H]
         | o : option _ |- _ => destruct o
         | H : _ /\ _ |- _ => destruct H
         end.

Program Definition c_history : member_codec PolicyHistoryRow :=
  MemberCodec history_put history_take
    (fun r => opt_fit c_jsuint r.(hw_superseded_unix) /\ opt_fit c_held r.(hw_held)) _ _.
Next Obligation.
  intros name [id sg ac su he] [H1 H2]. cbn in H1, H2.
  split_options; (apply struct_take_ok; [reflexivity|]); by read_members.
Qed.
Next Obligation. intros []. split_options; written_clean. Qed.

(** * Replies *)

(** The members of each enum's host-to-extension variants, in the declared order:
    [EnclaveControl], [AdminControl], [PolicyControl], [WebAuthnControl]. *)
Definition verdict_ser (why : string) (ok : bool) (error : option string) : members :=
  req c_flag "ok" ok ++ opt c_str why error.

Definition enclave_ser (r : HostReply) : members :=
  match r with
  | EnclaveProof sig key_id pubkey => req c_str "sig" sig ++ req c_str "key_id" key_id ++ req c_str "pubkey" pubkey
  | EnclaveError_ reason => req c_str "reason" reason
  | _ => []
  end.

Definition admin_ser (r : HostReply) : members :=
  match r with
  | ClientListResult ok enrolled clients error =>
      req c_flag "ok" ok ++ req c_flag "enrolled" enrolled ++ req (c_vec c_client) "clients" clients ++
      opt c_str "error" error
  | ClientRevokeResult ok error | ClientPairResult ok error => verdict_ser "error" ok error
  | KillStatusResult ok killed error => req c_flag "ok" ok ++ opt c_flag "killed" killed ++ opt c_str "error" error
  | DoctorReportResult ok report error =>
      req c_flag "ok" ok ++ opt c_health "report" report ++ opt c_str "error" error
  | AuditReadResult ok entries older path error =>
      req c_flag "ok" ok ++ opt (c_vec c_trail) "entries" entries ++ opt c_u64 "older" older ++
      opt c_str "path" path ++ opt c_str "error" error
  | RegistrationStatusResult ok browsers error =>
      req c_flag "ok" ok ++ opt (c_vec c_reg_row) "browsers" browsers ++ opt c_str "error" error
  | _ => []
  end.

Definition policy_ser (r : HostReply) : members :=
  match r with
  | PolicyCurrent ok baseline sig overlay error =>
      req c_flag "ok" ok ++ opt c_str "baseline" baseline ++ opt c_str "sig" sig ++ opt c_overlay "overlay" overlay ++
      opt c_str "error" error
  | PolicyRestrictResult ok error | PolicySetResult ok error | PolicyRollbackResult ok error =>
      verdict_ser "error" ok error
  | PolicyHistoryResult ok entries error =>
      req c_flag "ok" ok ++ opt (c_vec c_history) "entries" entries ++ opt c_str "error" error
  | LangCurrent value seq => req c_str "value" value ++ req c_u64 "seq" seq
  | _ => []
  end.

Definition webauthn_ser (r : HostReply) : members :=
  match r with
  | EnrollOptions challenge nonce user_id user_name exclude =>
      req c_str "challenge" challenge ++ req c_str "nonce" nonce ++ req c_str "user_id" user_id ++
      req c_str "user_name" user_name ++ req (c_vec c_str) "exclude_credential_ids" exclude
  | EnrollResult ok credential_id reason =>
      req c_flag "ok" ok ++ opt c_str "credential_id" credential_id ++ opt c_str "reason" reason
  | PresenceRequestFrame challenge nonce action allowed =>
      req c_str "challenge" challenge ++ req c_str "nonce" nonce ++ req c_str "action" action ++
      req (c_vec c_str) "allowed_credential_ids" allowed
  | PresenceResult ok reason | BrowserRevokeResult ok reason => verdict_ser "reason" ok reason
  | _ => []
  end.

(** The enum a reply is a frame of. *)
Definition reply_ser (r : HostReply) : members :=
  match r with
  | EnclaveProof _ _ _ | EnclaveError_ _ | EnclaveRevoked => enclave_ser r
  | ClientListResult _ _ _ _ | ClientRevokeResult _ _ | ClientPairResult _ _ | KillStatusResult _ _ _
  | DoctorReportResult _ _ _ | AuditReadResult _ _ _ _ _ | RegistrationStatusResult _ _ _ => admin_ser r
  | PolicyCurrent _ _ _ _ _ | PolicyRestrictResult _ _ | PolicySetResult _ _ | PolicyHistoryResult _ _ _
  | PolicyRollbackResult _ _ | LangCurrent _ _ => policy_ser r
  | EnrollOptions _ _ _ _ _ | EnrollResult _ _ _ | PresenceRequestFrame _ _ _ _ | PresenceResult _ _
  | BrowserRevokeResult _ _ => webauthn_ser r
  end.

(** [Serialize for HostReply] (untagged): the frame of the enum it holds, its tag first. *)
Definition reply_json (r : HostReply) : json := JObj (("type", JStr (tag_name (reply_tag r))) :: reply_ser r).

(** The derived readers of the four enums, on the variants a host sends. *)
Definition verdict_de (k : bool -> option string -> HostReply) (why : string) (m : members) :
    result args_error HostReply :=
  _ ← deny_unknown_fields ["ok"; why] m;
  ok ← needed (mc_take c_flag) "ok" m; error ← optional (mc_take c_str) why m; Ok (k ok error).

Definition enclave_de (t : HostControlTag) (m : members) : result args_error HostReply :=
  let str name := needed (mc_take c_str) name m in
  match t with
  | T_EnclaveProof =>
      _ ← deny_unknown_fields ["sig"; "key_id"; "pubkey"] m;
      sig ← str "sig"; key_id ← str "key_id"; pubkey ← str "pubkey"; Ok (EnclaveProof sig key_id pubkey)
  | T_EnclaveError => _ ← deny_unknown_fields ["reason"] m; reason ← str "reason"; Ok (EnclaveError_ reason)
  | T_EnclaveRevoked => _ ← deny_unknown_fields [] m; Ok EnclaveRevoked
  | _ => Err (InvalidType "type")
  end.

Definition admin_de (t : HostControlTag) (m : members) : result args_error HostReply :=
  let flag name := needed (mc_take c_flag) name m in
  let maybe name := optional (mc_take c_str) name m in
  match t with
  | T_ClientListResult =>
      _ ← deny_unknown_fields ["ok"; "enrolled"; "clients"; "error"] m;
      ok ← flag "ok"; enrolled ← flag "enrolled"; clients ← needed (mc_take (c_vec c_client)) "clients" m;
      error ← maybe "error"; Ok (ClientListResult ok enrolled clients error)
  | T_ClientRevokeResult => verdict_de ClientRevokeResult "error" m
  | T_ClientPairResult => verdict_de ClientPairResult "error" m
  | T_KillStatusResult =>
      _ ← deny_unknown_fields ["ok"; "killed"; "error"] m;
      ok ← flag "ok"; killed ← optional (mc_take c_flag) "killed" m; error ← maybe "error";
      Ok (KillStatusResult ok killed error)
  | T_DoctorReportResult =>
      _ ← deny_unknown_fields ["ok"; "report"; "error"] m;
      ok ← flag "ok"; report ← optional (mc_take c_health) "report" m; error ← maybe "error";
      Ok (DoctorReportResult ok report error)
  | T_AuditReadResult =>
      _ ← deny_unknown_fields ["ok"; "entries"; "older"; "path"; "error"] m;
      ok ← flag "ok"; entries ← optional (mc_take (c_vec c_trail)) "entries" m;
      older ← optional (mc_take c_u64) "older" m; path ← maybe "path"; error ← maybe "error";
      Ok (AuditReadResult ok entries older path error)
  | T_RegistrationStatusResult =>
      _ ← deny_unknown_fields ["ok"; "browsers"; "error"] m;
      ok ← flag "ok"; browsers ← optional (mc_take (c_vec c_reg_row)) "browsers" m; error ← maybe "error";
      Ok (RegistrationStatusResult ok browsers error)
  | _ => Err (InvalidType "type")
  end.

Definition policy_de (t : HostControlTag) (m : members) : result args_error HostReply :=
  let str name := needed (mc_take c_str) name m in
  let flag name := needed (mc_take c_flag) name m in
  let maybe name := optional (mc_take c_str) name m in
  match t with
  | T_PolicyCurrent =>
      _ ← deny_unknown_fields ["ok"; "baseline"; "sig"; "overlay"; "error"] m;
      ok ← flag "ok"; baseline ← maybe "baseline"; sig ← maybe "sig";
      overlay ← optional (mc_take c_overlay) "overlay" m; error ← maybe "error";
      Ok (PolicyCurrent ok baseline sig overlay error)
  | T_PolicyRestrictResult => verdict_de PolicyRestrictResult "error" m
  | T_PolicySetResult => verdict_de PolicySetResult "error" m
  | T_PolicyHistoryResult =>
      _ ← deny_unknown_fields ["ok"; "entries"; "error"] m;
      ok ← flag "ok"; entries ← optional (mc_take (c_vec c_history)) "entries" m; error ← maybe "error";
      Ok (PolicyHistoryResult ok entries error)
  | T_PolicyRollbackResult => verdict_de PolicyRollbackResult "error" m
  | T_LangCurrent =>
      _ ← deny_unknown_fields ["value"; "seq"] m;
      value ← str "value"; seq ← needed (mc_take c_u64) "seq" m; Ok (LangCurrent value seq)
  | _ => Err (InvalidType "type")
  end.

Definition webauthn_de (t : HostControlTag) (m : members) : result args_error HostReply :=
  let str name := needed (mc_take c_str) name m in
  let flag name := needed (mc_take c_flag) name m in
  let maybe name := optional (mc_take c_str) name m in
  match t with
  | T_EnrollOptions =>
      _ ← deny_unknown_fields ["challenge"; "nonce"; "user_id"; "user_name"; "exclude_credential_ids"] m;
      challenge ← str "challenge"; nonce ← str "nonce"; user_id ← str "user_id"; user_name ← str "user_name";
      exclude ← needed (mc_take (c_vec c_str)) "exclude_credential_ids" m;
      Ok (EnrollOptions challenge nonce user_id user_name exclude)
  | T_EnrollResult =>
      _ ← deny_unknown_fields ["ok"; "credential_id"; "reason"] m;
      ok ← flag "ok"; credential_id ← maybe "credential_id"; reason ← maybe "reason";
      Ok (EnrollResult ok credential_id reason)
  | T_PresenceRequest =>
      _ ← deny_unknown_fields ["challenge"; "nonce"; "action"; "allowed_credential_ids"] m;
      challenge ← str "challenge"; nonce ← str "nonce"; action ← str "action";
      allowed ← needed (mc_take (c_vec c_str)) "allowed_credential_ids" m;
      Ok (PresenceRequestFrame challenge nonce action allowed)
  | T_PresenceResult => verdict_de PresenceResult "reason" m
  | T_BrowserRevokeResult => verdict_de BrowserRevokeResult "reason" m
  | _ => Err (InvalidType "type")
  end.

Definition reply_de (t : HostControlTag) (m : members) : result args_error HostReply :=
  match t with
  | T_EnclaveProof | T_EnclaveError | T_EnclaveRevoked => enclave_de t m
  | T_ClientListResult | T_ClientRevokeResult | T_ClientPairResult | T_KillStatusResult | T_DoctorReportResult | T_AuditReadResult | T_RegistrationStatusResult => admin_de t m
  | T_PolicyCurrent | T_PolicyRestrictResult | T_PolicySetResult | T_PolicyHistoryResult | T_PolicyRollbackResult | T_LangCurrent => policy_de t m
  | T_EnrollOptions | T_EnrollResult | T_PresenceRequest | T_PresenceResult | T_BrowserRevokeResult => webauthn_de t m
  | _ => Err (InvalidType "type")
  end.

Definition HostReply_de : json -> result args_error HostReply :=
  tagged_take "type" (fun s m => t ← ok_or (tag_of_name s) (InvalidType "type"); reply_de t m) "type".

(** What the types of a reply's fields guarantee. *)
Definition reply_fit (r : HostReply) : Prop :=
  match r with
  | ClientListResult _ _ clients _ => mc_fit (c_vec c_client) clients
  | AuditReadResult _ entries older _ _ => opt_fit (c_vec c_trail) entries /\ opt_fit c_u64 older
  | RegistrationStatusResult _ browsers _ => opt_fit (c_vec c_reg_row) browsers
  | PolicyCurrent _ _ _ overlay _ => opt_fit c_overlay overlay
  | PolicyHistoryResult _ entries _ => opt_fit (c_vec c_history) entries
  | LangCurrent _ seq => mc_fit c_u64 seq
  | _ => True
  end.

Lemma reply_de_ser (r : HostReply) : reply_fit r -> reply_de (reply_tag r) (reply_ser r) = Ok r.
Proof.
  intros H. destruct r; cbn [reply_fit] in H;
    try match goal with l : list string |- _ => pose proof (strs_fit l) end;
    split_options; (apply tagged_fields; [reflexivity|]); by read_members.
Qed.

(** A reply has no member of its own named like its tag. *)
Lemma reply_ser_untyped (r : HostReply) :
  List.filter (fun kv => negb (String.eqb kv.1 "type")) (reply_ser r) = reply_ser r.
Proof. destruct r; split_options; reflexivity. Qed.

Lemma reply_typed (r : HostReply) : host_control_type (reply_json r) = Some (reply_tag r).
Proof. by apply host_control_type_Some. Qed.

Lemma reply_null_free (r : HostReply) : null_free (reply_json r) = true.
Proof. destruct r; split_options; written_clean. Qed.

Lemma reply_de_json (r : HostReply) : reply_fit r -> HostReply_de (reply_json r) = Ok r.
Proof.
  intros H. apply tagged_take_ok; [apply reply_ser_untyped|]. rewrite tag_of_name_name. by apply reply_de_ser.
Qed.

(** A reply is no request: a host that is sent one drops it. *)
Lemma reply_refused (r : HostReply) :
  exists error, classify_nm_frame (reply_json r) = Malformed (reply_tag r) error /\ malformed_reply (reply_tag r) = MalformedDrop.
Proof.
  unfold classify_nm_frame. rewrite reply_typed. unfold HostRequest_de, reply_json.
  replace (needed str_take "type" _) with (@Ok args_error _ (tag_name (reply_tag r))) by done.
  cbn [mbind result_mbind]. rewrite tag_of_name_name. cbn [ok_or mbind result_mbind].
  destruct r; eexists; split; reflexivity.
Qed.

(** * Properties *)

(** C35: The frames of both directions survive the wire, and neither passes for the other.
    A request the extension writes is handled as that request. A reply the host writes is
    read back, by the strict reader of its own enum, as that reply, under the tag the reply
    has, whatever optional members it carries; it holds no [null] at any depth, which the
    extension's readers would refuse. And a host that is sent a reply, by an extension or by
    anyone in its place, neither handles nor answers it. *)
Theorem control_frames_roundtrip (q : HostRequest) (r : HostReply) :
  request_ok q -> reply_fit r ->
  classify_nm_frame (JObj (request_ser q)) = Handle q /\
  HostReply_de (reply_json r) = Ok r /\
  host_control_type (reply_json r) = Some (reply_tag r) /\
  null_free (reply_json r) = true /\
  (exists error, classify_nm_frame (reply_json r) = Malformed (reply_tag r) error) /\
  malformed_reply (reply_tag r) = MalformedDrop.
Proof.
  intros Hq Hr. destruct (reply_refused r) as (error & He & Hd).
  split; [by apply classify_request|]. split; [by apply reply_de_json|]. split; [apply reply_typed|].
  split; [apply reply_null_free|]. split; [by exists error|exact Hd].
Qed.

(** The ring with a damaged record, and one that still holds its policy. *)
Module ReplyExample.
Definition q : HostRequest := RqPolicyRestrict (overlay_set_from overlay_default CdpMode values_default).
Definition r : HostReply :=
  PolicyHistoryResult true
    (Some [mkHistoryRow "r1" true false None None;
           mkHistoryRow "r2" true true (Some 1700000000%Z) (Some (mkHeld 7 values_default))]) None.
End ReplyExample.

Lemma control_frames_roundtrip_witness :
  classify_nm_frame (JObj (request_ser ReplyExample.q)) = Handle ReplyExample.q /\
  HostReply_de (reply_json ReplyExample.r) = Ok ReplyExample.r /\
  classify_nm_frame (reply_json ReplyExample.r) <> Forward.
Proof.
  destruct (control_frames_roundtrip ReplyExample.q ReplyExample.r) as (H1 & H2 & _ & _ & (error & He) & _).
  - intros [] z Hz; vm_compute in Hz; discriminate Hz.
  - intros l [= <-]. repeat apply Forall_cons_2; [| |apply Forall_nil_2].
    + by split.
    + split; intros v [= <-]; [by vm_compute|]. split; [by vm_compute|]. intros []; by vm_compute.
  - split; [exact H1|]. split; [exact H2|]. rewrite He. discriminate.
Defined.
