(* ===== verification/Connection.v ===== *)
(** Connection: the seam between the serve loop and the protocol engine of one
    harness connection (src/src/packages/core/src/mcp/connection.rs), and the
    JSON-RPC frames it carries (protocol.rs [JsonRpc]).

    The engine (rmcp on tokio) is not in the repository: its message types and
    the conversions serde derives for them are the class [Rmcp], and what each
    wait on its channels yields is an argument ([Waits]), so a theorem about
    [handle] holds whatever the engine does. *)
From S2P Require Import Prelude Json RuntimeRecord.
From stdpp Require Import base list strings.

(** * JSON-RPC frames *)

Record RpcError := mkRpcError { re_code : Z; re_message : string; re_data : option json }.

Record JsonRpc := mkRpc {
  jsonrpc : option string;
  rpc_id : option json;
  rpc_method : option string;
  rpc_params : option json;
  rpc_result : option json;
  rpc_error : option RpcError
}.

Definition rpc_ok (id result : json) : JsonRpc :=
  mkRpc (Some "2.0") (Some id) None None (Some result) None.

Definition rpc_err (id : json) (code : Z) (message : string) : JsonRpc :=
  mkRpc (Some "2.0") (Some id) None None None (Some (mkRpcError code message None)).

(** * The engine *)

(** [rmcp::model::JsonRpcMessage]'s variants, as far as the seam tells them apart. *)
Inductive MessageKind := KRequest | KNotification | KResponse | KError.

#[export] Instance MessageKind_eq_dec : EqDecision MessageKind.
Proof. solve_decision. Defined.

Class Rmcp := {
  ClientMessage : Type;
  client_kind : ClientMessage -> MessageKind;
  ServerMessage : Type;
  server_kind : ServerMessage -> MessageKind;
  (** serde_json's [to_value] then [from_value]. *)
  to_client_message : JsonRpc -> result string ClientMessage;
  reserialize : ServerMessage -> result string JsonRpc
}.

(** The service lifecycle. The opener's verdict and the service task are handles
    of the engine; only which state holds them matters here. *)
Inductive Service := Opening | Open | Spent.

#[export] Instance Service_eq_dec : EqDecision Service.
Proof. solve_decision. Defined.

Section connection.
Context `{RM : Rmcp}.

(** What a [select] on the outbound channel and another future yields first. *)
Inductive Race (A : Type) :=
| RaceReply (reply : option ServerMessage)
| RaceOther (a : A).
Arguments RaceReply {A} reply.
Arguments RaceOther {A} a.

(** The outcomes of the waits of one call of [handle], in the order it may make
    them: the send, the opener's verdict ([true] accepted, [false] canceled), the
    race of a reply with the verdict, and the race of a reply with the end of the
    service task. *)
Record Waits := mkWaits {
  wt_sent : bool;
  wt_verdict : bool;
  wt_ping : Race bool;
  wt_reply : Race unit
}.

Definition other (msg : string) : io_error := IoError Other msg.
Definition ENDED : io_error := other "mcp service already ended".
Definition REFUSED_OPENER : io_error :=
  other "mcp service refused the opener (drop the connection unanswered)".

Definition to_wire (reply : ServerMessage) : result io_error JsonRpc :=
  map_err (fun e => other ("mcp reply could not be reserialized: " +:+ e)) (reserialize reply).

Definition check_reply (reply : ServerMessage) (msg : JsonRpc) : result io_error JsonRpc :=
  match server_kind reply with
  | KResponse | KError =>
      wire ← to_wire reply;
      _ ← refuse_if (negb (bool_decide (rpc_id wire = rpc_id msg)))
            (other "mcp reply id does not match the request");
      Ok wire
  | KRequest | KNotification => Err (other "mcp service emitted non-reply traffic mid-request")
  end.

(** The taken service is [Spent] until a whole exchange restores it. *)
Definition next_reply (w : Waits) (msg : JsonRpc) : result io_error JsonRpc * Service :=
  match wt_reply w with
  | RaceReply (Some reply) =>
      match check_reply reply msg with
      | Ok wire => (Ok wire, Open)
      | Err e => (Err e, Spent)
      end
  | RaceReply None => (Err (other "mcp service ended without replying"), Spent)
  | RaceOther _ => (Err (other "mcp service died mid-request"), Spent)
  end.

Definition first_reply (w : Waits) (msg : JsonRpc) : result io_error JsonRpc * Service :=
  if negb (bool_decide (rpc_method msg = Some "ping")) then
    if wt_verdict w then next_reply w msg else (Err REFUSED_OPENER, Spent)
  else
    match wt_ping w with
    | RaceReply (Some reply) =>
        if bool_decide (server_kind reply = KError) then (Err REFUSED_OPENER, Spent)
        else
          match check_reply reply msg with
          | Ok wire => (Ok wire, Opening)
          | Err e => (Err e, Spent)
          end
    | RaceReply None => (Err (other "mcp service ended without replying"), Spent)
    | RaceOther true => next_reply w msg
    | RaceOther false => (Err REFUSED_OPENER, Spent)
    end.

(** A refusal for a frame that never reaches the service; only a frame with an id
    is answered. *)
Definition invalid_frame (msg : JsonRpc) (detail : string) : option JsonRpc :=
  (fun id => rpc_err id (-32600) ("invalid request: " +:+ detail)) <$> rpc_id msg.

Definition handle (w : Waits) (msg : JsonRpc) (service : Service) :
    result io_error (option JsonRpc) * Service :=
  if bool_decide (service = Spent) then (Err ENDED, service)
  else
    match to_client_message msg with
    | Err e => (Ok (invalid_frame msg e), service)
    | Ok inbound =>
        let expects_reply := bool_decide (client_kind inbound = KRequest) in
        if bool_decide (is_Some (rpc_id msg)) && negb expects_reply then
          (Ok (invalid_frame msg "a frame carrying an id must be a well-formed request"), service)
        else if negb (wt_sent w) then
          (Err (other "mcp service ended (inbound channel closed)"), service)
        else if negb expects_reply then (Ok None, service)
        else
          let '(wire, service) :=
            match service with
            | Spent => (Err ENDED, Spent)
            | Opening => first_reply w msg
            | Open => next_reply w msg
            end in
          (Some <$> wire, service)
    end.

(** A connection serves until its first error: [serve_jsonrpc] drops it there. *)
Fixpoint handle_all (calls : list (Waits * JsonRpc)) (service : Service) :
    list (result io_error (option JsonRpc)) * Service :=
  match calls with
  | [] => ([], service)
  | (w, msg) :: calls =>
      let '(r, service) := handle w msg service in
      let '(rs, service) := handle_all calls service in (r :: rs, service)
  end.

(** * Lemmas *)

(** The frame was handed to the engine, and the engine owes a reply to it. *)
Definition forwarded (w : Waits) (msg : JsonRpc) : Prop :=
  wt_sent w = true /\ exists inbound, to_client_message msg = Ok inbound /\ client_kind inbound = KRequest.

Lemma check_reply_Ok reply msg wire :
  check_reply reply msg = Ok wire ->
  reserialize reply = Ok wire /\ rpc_id wire = rpc_id msg /\
  (server_kind reply = KResponse \/ server_kind reply = KError).
Proof.
  unfold check_reply, to_wire. intros H. destruct (server_kind reply) eqn:Ek; try done.
  all: apply bind_Ok in H as (wire' & Hw & H); apply bind_Ok in H as (u & Hi & H);
    injection H as <-; apply map_err_Ok in Hw;
    apply refuse_if_Ok, negb_false_iff, bool_decide_eq_true in Hi; eauto.
Qed.

Lemma next_reply_cases w msg r s :
  next_reply w msg = (r, s) ->
  (exists e, r = Err e /\ s = Spent) \/
  exists reply wire, wt_reply w = RaceReply (Some reply) /\ check_reply reply msg = Ok wire /\
    r = Ok wire /\ s = Open.
Proof.
  unfold next_reply. destruct (wt_reply w) as [[reply|]|[]]; [|naive_solver..].
  destruct (check_reply reply msg) as [wire|e] eqn:Ec; intros [= <- <-]; [right|left]; naive_solver.
Qed.

Lemma first_reply_cases w msg r s :
  first_reply w msg = (r, s) ->
  (exists e, r = Err e /\ s = Spent) \/
  (exists reply wire, check_reply reply msg = Ok wire /\ r = Ok wire /\
    ((s = Open /\ wt_reply w = RaceReply (Some reply) /\
      (if bool_decide (rpc_method msg = Some "ping") then wt_ping w = RaceOther true else wt_verdict w = true)) \/
     (s = Opening /\ rpc_method msg = Some "ping" /\ server_kind reply = KResponse))).
Proof.
  unfold first_reply. destruct (bool_decide (rpc_method msg = Some "ping")) eqn:Ep; cbn [negb].
  - destruct (wt_ping w) as [[reply|]|[]]; try naive_solver.
    + destruct (bool_decide (server_kind reply = KError)) eqn:Hk; [intros [= <- <-]; left; eauto|].
      apply bool_decide_eq_false in Hk.
      destruct (check_reply reply msg) as [wire|e] eqn:Ec; intros [= <- <-]; [right|left; eauto].
      apply bool_decide_eq_true in Ep. exists reply, wire. split_and!; [done..|right].
      apply check_reply_Ok in Ec as (_ & _ & [?|?]); done.
    + intros H. apply next_reply_cases in H as [H|(reply & wire & ? & ? & ? & ?)]; [by left|right].
      exists reply, wire. naive_solver.
  - destruct (wt_verdict w); [|naive_solver].
    intros H. apply next_reply_cases in H as [H|(reply & wire & ? & ? & ? & ?)]; [by left|right].
    exists reply, wire. naive_solver.
Qed.

(** Every outcome of one call. *)
Lemma handle_cases w msg s r s' :
  handle w msg s = (r, s') ->
  (s = Spent /\ r = Err ENDED /\ s' = Spent) \/
  (s <> Spent /\ s' = s /\ (exists detail, r = Ok (invalid_frame msg detail))) \/
  (s <> Spent /\ s' = s /\ wt_sent w = false /\
    r = Err (other "mcp service ended (inbound channel closed)")) \/
  (s <> Spent /\ s' = s /\ rpc_id msg = None /\ r = Ok None) \/
  (s <> Spent /\ forwarded w msg /\
    ((exists e, r = Err e /\ s' = Spent) \/
     exists reply wire, r = Ok (Some wire) /\ check_reply reply msg = Ok wire /\
      ((s' = Open /\ wt_reply w = RaceReply (Some reply) /\
        (s = Opening -> if bool_decide (rpc_method msg = Some "ping") then wt_ping w = RaceOther true
                        else wt_verdict w = true)) \/
       (s = Opening /\ s' = Opening /\ rpc_method msg = Some "ping" /\ server_kind reply = KResponse)))).
Proof.
  unfold handle. case_bool_decide as Hs; [intros [= <- <-]; naive_solver|].
  destruct (to_client_message msg) as [inbound|e] eqn:Em; [|intros [= <- <-]; right; left; eauto].
  destruct (bool_decide (is_Some (rpc_id msg)) && _) eqn:Ei; [intros [= <- <-]; right; left; eauto|].
  destruct (wt_sent w) eqn:Es; cbn [negb]; [|intros [= <- <-]; naive_solver].
  destruct (bool_decide (client_kind inbound = KRequest)) eqn:Hk; cbn [negb].
  2:{ intros [= <- <-]. do 3 right. left. split_and!; try done.
      rewrite andb_true_r in Ei. apply bool_decide_eq_false in Ei. by apply eq_None_not_Some. }
  apply bool_decide_eq_true in Hk. intros H. do 4 right. split_and!; [done|by split; eauto|]. destruct s; [| |done].
  - destruct (first_reply w msg) as [wire s1] eqn:E. injection H as <- <-.
    apply first_reply_cases in E as [(e & -> & ->)|(reply & wire' & Hc & -> & H)]; [left; eauto|right].
    exists reply, wire'. split_and!; [done..|]. destruct H as [(-> & ? & ?)|(-> & ? & ?)]; naive_solver.
  - destruct (next_reply w msg) as [wire s1] eqn:E. injection H as <- <-.
    apply next_reply_cases in E as [(e & -> & ->)|(reply & wire' & ? & ? & -> & ->)]; [left; eauto|right].
    exists reply, wire'. naive_solver.
Qed.

Lemma invalid_frame_id msg detail reply :
  invalid_frame msg detail = Some reply ->
  rpc_id reply = rpc_id msg /\ re_code <$> rpc_error reply = Some (-32600)%Z.
Proof. unfold invalid_frame. destruct (rpc_id msg); [|done]. by intros [= <-]. Qed.

Lemma invalid_frame_None msg detail : invalid_frame msg detail = None -> rpc_id msg = None.
Proof. unfold invalid_frame. by destruct (rpc_id msg). Qed.

Lemma spent_stays_spent calls : handle_all calls Spent = ((fun _ => Err ENDED) <$> calls, Spent).
Proof.
  induction calls as [|[w msg] calls IH]; [done|].
  assert (handle w msg Spent = (Err ENDED, Spent)) as E by done.
  cbn [handle_all]. by rewrite E, IH.
Qed.

(** * Properties *)

(** A harness connection fails closed, whatever the engine does. If a call
    answers, the answer carries the request's id; if it answers nothing, the frame
    carried no id; a request the engine was handed and did not answer properly ends
    the connection, and then every later call errs. Before the opener is accepted the
    only reply of the engine that crosses is a ping's, never the engine's refusal. *)
Theorem connection_fails_closed (w : Waits) (msg : JsonRpc) (service service' : Service)
    (r : result io_error (option JsonRpc)) :
  handle w msg service = (r, service') ->
  (forall reply, r = Ok (Some reply) -> rpc_id reply = rpc_id msg) /\
  (r = Ok None -> rpc_id msg = None) /\
  (forall e, r = Err e -> forwarded w msg \/ service = Spent ->
     service' = Spent /\
     forall calls, handle_all calls service' = ((fun _ => Err ENDED) <$> calls, Spent)) /\
  (forall reply, service = Opening -> service' = Opening -> r = Ok (Some reply) ->
     re_code <$> rpc_error reply = Some (-32600)%Z \/
     rpc_method msg = Some "ping" /\
     exists m, server_kind m = KResponse /\ reserialize m = Ok reply) /\
  (service = Opening -> service' = Open ->
     if bool_decide (rpc_method msg = Some "ping") then wt_ping w = RaceOther true
     else wt_verdict w = true).
Proof.
  intros H. apply handle_cases in H.
  destruct H as [(-> & -> & ->)|[(Hs & -> & detail & ->)|[(Hs & -> & Hw & ->)|[(Hs & -> & Hi & ->)|(Hs & Hf & H)]]]].
  - split_and!; try done. intros e _ _. split; [done|apply spent_stays_spent].
  - split_and!; try done; try congruence.
    + intros reply [= Hd]. by apply invalid_frame_id in Hd as [? _].
    + intros [= Hd]. by apply invalid_frame_None in Hd.
    + intros reply _ _ [= Hd]. left. by apply invalid_frame_id in Hd as [_ ?].
  - split_and!; try done; try congruence. intros e _ [[Hw' _]|?]; congruence.
  - split_and!; try done; try congruence.
  - destruct H as [(e & -> & ->)|(reply & wire & -> & Hc & H)].
    + split_and!; try done. intros e' _ _. split; [done|apply spent_stays_spent].
    + apply check_reply_Ok in Hc as (Hr & Hi & Hk). split_and!; try done.
      * by intros ? [= <-].
      * intros reply' -> -> [= <-]. destruct H as [(? & _)|(_ & _ & Hm & Hk')]; [done|]. right. eauto.
      * intros -> ->. destruct H as [(_ & _ & H)|(_ & ? & _)]; [by apply H|done].
Qed.

(** A send the engine refuses errs but leaves the service as it was, also for a
    request that expects a reply: not every error leaves the connection [Spent]. *)
Theorem failed_send_is_not_spent (w : Waits) (msg : JsonRpc) (service : Service) (inbound : ClientMessage) :
  service <> Spent -> to_client_message msg = Ok inbound -> client_kind inbound = KRequest ->
  wt_sent w = false ->
  handle w msg service = (Err (other "mcp service ended (inbound channel closed)"), service).
Proof.
  intros Hs Hm Hk Hw. unfold handle. rewrite bool_decide_eq_false_2 by done.
  rewrite Hm, Hk, (bool_decide_eq_true_2 (KRequest = KRequest)) by done. cbn [negb]. by rewrite andb_false_r, Hw.
Qed.
End connection.

Arguments RaceReply {_ _} reply.
Arguments RaceOther {_ _} a.

(** An engine whose messages are the wire frames themselves. *)
Module ConnectionExample.

#[export] Instance rmcp : Rmcp := {|
  ClientMessage := JsonRpc;
  client_kind m := if bool_decide (is_Some (rpc_id m)) then KRequest else KNotification;
  ServerMessage := JsonRpc;
  server_kind m := if bool_decide (is_Some (rpc_error m)) then KError else KResponse;
  to_client_message := Ok;
  reserialize := Ok
|}.

Definition ping : JsonRpc := mkRpc (Some "2.0") (Some (JInt 1)) (Some "ping") None None None.
Definition call : JsonRpc := mkRpc (Some "2.0") (Some (JInt 2)) (Some "tools/list") None None None.
Definition pong : JsonRpc := rpc_ok (JInt 1) (JObj []).
Definition ping_waits : Waits := mkWaits true false (RaceReply (Some pong)) (RaceOther tt).
(** The engine refuses the opener after flushing an error reply. *)
Definition refusing : Waits :=
  mkWaits true false (RaceReply None) (RaceReply (Some (rpc_err (JInt 2) (-32602) "not an opener"))).
Definition closed : Waits := mkWaits false true (RaceReply None) (RaceOther tt).

Example pre_open_ping : handle ping_waits ping Opening = (Ok (Some pong), Opening).
Proof. vm_compute. reflexivity. Qed.
Example bare_opener_drops : handle refusing call Opening = (Err REFUSED_OPENER, Spent).
Proof. vm_compute. reflexivity. Qed.
End ConnectionExample.

#[local] Existing Instance ConnectionExample.rmcp.

Lemma connection_fails_closed_witness :
  exists e, (handle ConnectionExample.refusing ConnectionExample.call Opening).1 = Err e /\
  forall calls, handle_all calls (handle ConnectionExample.refusing ConnectionExample.call Opening).2
    = ((fun _ => Err ENDED) <$> calls, Spent).
Proof.
  destruct (connection_fails_closed ConnectionExample.refusing ConnectionExample.call Opening Spent
    (Err REFUSED_OPENER)) as (_ & _ & H & _); [vm_compute; reflexivity|].
  exists REFUSED_OPENER. split; [vm_compute; reflexivity|].
  destruct (H REFUSED_OPENER eq_refl) as [_ Hall].
  - left. split; [reflexivity|]. by exists ConnectionExample.call.
  - exact Hall.
Defined.

Lemma failed_send_is_not_spent_witness :
  (handle ConnectionExample.closed ConnectionExample.call Open).2 = Open.
Proof.
  rewrite (failed_send_is_not_spent ConnectionExample.closed ConnectionExample.call Open
    ConnectionExample.call); done.
Defined.
