(* ===== verification/Broker.v ===== *)
(** Broker: the harness ref-count, the admission of relays, the revocation
    registry with its sweep, and the life of the broker process
    (src/src/packages/core/src/broker.rs; [Admission::announce] of trust.rs).

    The process is a step relation over the critical sections of its threads: the
    own harness, the accept loop, one worker per accepted connection and the trust
    watcher. [exec] is executable: a label names the thread that moves and what its
    environment (socket, engine, other processes) answers. *)
From S2P Require Import Prelude RuntimeRecord Policy Identity Trust PolicyRecord World Errors Wire Catalogue Session Gating.
From stdpp Require Import base list gmap sets strings pretty.

(** * The ref-count *)

Definition MAX_HARNESS_CLIENTS : Z := 8.
Definition MAX_PENDING_ATTACH : Z := 32.

Record CountState := mkCount { live : Z; terminal : bool }.

Definition RefCount_new : CountState := mkCount 0 false.

(** [RefCount::try_acquire] over a counter of capacity [max]: [None] refuses and
    changes nothing. *)
Definition try_acquire (max : Z) (g : CountState) : option CountState :=
  if terminal g || (max <=? live g)%Z then None
  else live ← checked_add_u64 (live g) 1; Some (mkCount live (terminal g)).

(** [RefCount::decr], the drop of a [HarnessSlot]. *)
Definition decr (g : CountState) : CountState := mkCount (Z.max 0 (live g - 1)) (terminal g).

(** [RefCount::wait_zero], once it may return; [None] while it blocks. *)
Definition wait_zero (g : CountState) : option CountState :=
  if (live g =? 0)%Z then Some (mkCount (live g) true) else None.

(** * Admission enforcement *)

Inductive Refusal := RefusalRevoked | BootstrapReverted.

Definition Refusal_display (r : Refusal) : string :=
  match r with
  | RefusalRevoked => "was revoked"
  | BootstrapReverted => "was admitted under an enforced record that now reads as the open bootstrap"
  end.

(** The one continued-service rule. *)
Definition refusal (trust : Trust) (identity : option ClientIdentity) (posture : Posture) : option Refusal :=
  match posture, decide_admission trust identity with
  | _, Refused => Some RefusalRevoked
  | Trusted _, Admit Unenrolled => Some BootstrapReverted
  | Unenrolled, Admit _ | Trusted _, Admit (Trusted _) => None
  end.

Definition request_admission (who : string) (identity : option ClientIdentity) (posture : Posture)
    (trust : result io_error Trust) : result io_error unit :=
  match trust with
  | Err e => Err (invalid_data ("trust record unreadable (" +:+ io_msg e +:+ "); failing closed"))
  | Ok trust =>
      match refusal trust identity posture with
      | None => Ok tt
      | Some why =>
          Err (IoError PermissionDenied
                 (who +:+ " " +:+ Refusal_display why +:+ " (trust epoch " +:+ pretty (epoch trust) +:+ ")"))
      end
  end.

(** * Announcing a verdict (trust.rs) *)

Inductive AdmittingSurface := RelaySurface | StdioSurface.

Definition admitting_audit (s : AdmittingSurface) : Surface :=
  match s with RelaySurface => SurfBroker | StdioSurface => SurfHost end.

(** The audit record [Admission::announce] leaves. *)
Definition announce_record (a : Admission) (surface : AdmittingSurface) (reported_name : option string) :
    AuditRecord :=
  match a with
  | Refused => audit_named HarnessRefuse (admitting_audit surface) (default "-" reported_name) "refused"
                 (Some "not in the trusted-client allowlist")
  | Admit Unenrolled =>
      audit_named HarnessAdmit (admitting_audit surface) (default "-" reported_name) "unenrolled" None
  | Admit (Trusted name) => audit_named HarnessAdmit (admitting_audit surface) name "ok" None
  end.

Definition announce (a : Admission) (surface : AdmittingSurface) (reported_name : option string) : host unit :=
  audit_record (announce_record a surface reported_name).

(** * The revocation registry *)

(** A stream is named by the connection that owns it. *)
Record RegisteredClient := mkRegistered {
  rc_identity : option ClientIdentity;
  rc_posture : Posture;
  rc_stream : nat
}.

Record RegistryInner := mkRegistry {
  reg_next_id : Z;
  reg_clients : gmap Z RegisteredClient
}.

Definition ClientRegistry_new : RegistryInner := mkRegistry 1 ∅.

Definition register (inner : RegistryInner) (client : RegisteredClient) : option (Z * RegistryInner) :=
  let id := reg_next_id inner in
  next ← checked_add_u64 id 1;
  Some (id, mkRegistry next (<[id := client]> (reg_clients inner))).

Definition deregister (inner : RegistryInner) (id : Z) : RegistryInner :=
  mkRegistry (reg_next_id inner) (delete id (reg_clients inner)).

(** The streams [ClientRegistry::sweep] shuts down. *)
Definition sweep (inner : RegistryInner) (refuse : option ClientIdentity -> Posture -> bool) : list nat :=
  rc_stream <$> List.filter (fun c => refuse (rc_identity c) (rc_posture c)) (map_to_list (reg_clients inner)).*2.

(** [watch_tick] over what the watcher read: the streams it shuts down, the
    session after it, and the epoch its caller keeps. *)
Definition watch_tick (inner : RegistryInner) (trust : result io_error Trust) (ses : session) :
    list nat * session * option Z :=
  match trust with
  | Err _ => (sweep inner (fun _ _ => true), (shutdown_all_browsers ses).2, None)
  | Ok trust =>
      let ses := if killed trust then (shutdown_all_browsers ses).2 else ses in
      (sweep inner (fun identity posture => bool_decide (is_Some (refusal trust identity posture))),
       ses, Some (epoch trust))
  end.

(** Whether the tick takes the session's registry, which a request being written holds. *)
Definition sweeps_browsers (trust : result io_error Trust) : bool :=
  match trust with Err _ => true | Ok trust => killed trust end.

(** * The process *)

(** Where a connection's worker is. A number is the id of its [RegistrySlot]. *)
Inductive Pc :=
| PcAdmit                     (* authenticating, or deciding *)
| PcDecided                   (* admitted by the record, not yet registered *)
| PcRegistered (slot : Z)     (* registered, not yet counted *)
| PcUnavailable (slot : Z)    (* refused by the ref-count, its guard not yet dropped *)
| PcAdmitted (slot : Z)       (* a [RelayAdmission] is held *)
| PcServing (slot : Z)
| PcClosing (slot : Z)        (* dropping the [RelayAdmission]: the registry slot first *)
| PcReleasing                 (* then the [HarnessSlot] *)
| PcBrowser
| PcDone.

Record Conn := mkConn {
  cn_pc : Pc;
  cn_identity : option ClientIdentity;
  cn_posture : Posture;
  cn_pending : bool   (* its [PendingSlot] is held *)
}.

(** The own harness: served, gone (its slot dropped), or past [wait_zero]. *)
Inductive OwnPc := OwnServing | OwnGone | OwnExited.

#[export] Instance OwnPc_eq_dec : EqDecision OwnPc.
Proof. solve_decision. Defined.

Record Broker := mkBroker {
  b_session : session;
  b_count : CountState;
  b_pending : Z;
  b_registry : RegistryInner;
  b_conns : list Conn;
  b_shut : gset nat;                          (* streams shut down by a sweep *)
  b_over : bool;                              (* the accept loop between its add and its sub *)
  b_own : OwnPc;
  b_trust : result io_error Trust;            (* the record as a read finds it now *)
  b_watch : option (result io_error Trust)    (* what the watcher read for the tick it is in *)
}.

(** [run_broker] up to its threads: the own harness holds the first slot. *)
Definition broker_start (trust : result io_error Trust) : Broker :=
  mkBroker session_new (default RefCount_new (try_acquire MAX_HARNESS_CLIENTS RefCount_new)) 0
    ClientRegistry_new [] ∅ false OwnServing trust None.

Definition set_session (b : Broker) s := mkBroker s (b_count b) (b_pending b) (b_registry b) (b_conns b)
  (b_shut b) (b_over b) (b_own b) (b_trust b) (b_watch b).
Definition set_count (b : Broker) c := mkBroker (b_session b) c (b_pending b) (b_registry b) (b_conns b)
  (b_shut b) (b_over b) (b_own b) (b_trust b) (b_watch b).
Definition set_pending (b : Broker) n over := mkBroker (b_session b) (b_count b) n (b_registry b)
  (b_conns b) (b_shut b) over (b_own b) (b_trust b) (b_watch b).
Definition set_registry (b : Broker) r := mkBroker (b_session b) (b_count b) (b_pending b) r (b_conns b)
  (b_shut b) (b_over b) (b_own b) (b_trust b) (b_watch b).
Definition set_conns (b : Broker) l := mkBroker (b_session b) (b_count b) (b_pending b) (b_registry b) l
  (b_shut b) (b_over b) (b_own b) (b_trust b) (b_watch b).
Definition set_shut (b : Broker) s := mkBroker (b_session b) (b_count b) (b_pending b) (b_registry b)
  (b_conns b) s (b_over b) (b_own b) (b_trust b) (b_watch b).
Definition set_own (b : Broker) o := mkBroker (b_session b) (b_count b) (b_pending b) (b_registry b)
  (b_conns b) (b_shut b) (b_over b) o (b_trust b) (b_watch b).
Definition set_record (b : Broker) t := mkBroker (b_session b) (b_count b) (b_pending b) (b_registry b)
  (b_conns b) (b_shut b) (b_over b) (b_own b) t (b_watch b).
Definition set_watch (b : Broker) w := mkBroker (b_session b) (b_count b) (b_pending b) (b_registry b)
  (b_conns b) (b_shut b) (b_over b) (b_own b) (b_trust b) w.

(** Worker [i] moves to [pc]. *)
Definition goto (b : Broker) (i : nat) (c : Conn) (pc : Pc) : Broker :=
  set_conns b (<[i := mkConn pc (cn_identity c) (cn_posture c) (cn_pending c)]> (b_conns b)).

(** [PendingSlot::try_acquire] of the accept loop: the add, and the connection it
    admits to the handshake phase or the over-count it still has to take back. *)
Definition accept (b : Broker) : option Broker :=
  if b_over b then None
  else
    let n := b_pending b in
    if (MAX_PENDING_ATTACH <=? n)%Z then Some (set_pending b (n + 1) true)
    else Some (set_conns (set_pending b (n + 1) false)
                 (b_conns b ++ [mkConn PcAdmit None Unenrolled true])).

Definition accept_restore (b : Broker) : option Broker :=
  if b_over b then Some (set_pending b (b_pending b - 1) false) else None.

(** A worker returned from [admit], so it drops its [PendingSlot]. *)
Definition drop_pending (b : Broker) (i : nat) : option Broker :=
  c ← b_conns b !! i;
  match cn_pc c with
  | PcServing _ | PcBrowser | PcDone =>
      if cn_pending c then
        Some (set_conns (set_pending b (b_pending b - 1) (b_over b))
                (<[i := mkConn (cn_pc c) (cn_identity c) (cn_posture c) false]> (b_conns b)))
      else None
  | _ => None
  end.

(** [admit] dropped the connection: same-user check, attestation, handshake, attach
    frame, or an admission the record refuses. *)
Definition reject (b : Broker) (i : nat) : option Broker :=
  c ← b_conns b !! i;
  match cn_pc c with PcAdmit => Some (goto b i c PcDone) | _ => None end.

(** [admit_browser] past its kill check. *)
Definition browser_admitted (b : Broker) (i : nat) : option Broker :=
  c ← b_conns b !! i;
  match cn_pc c, kill_verdict (b_trust b) with
  | PcAdmit, Ok _ => Some (goto b i c PcBrowser)
  | _, _ => None
  end.

(** The worker handed its browser to the session. *)
Definition browser_attached (b : Broker) (i : nat) : option Broker :=
  c ← b_conns b !! i;
  match cn_pc c, cn_pending c with PcBrowser, false => Some (goto b i c PcDone) | _, _ => None end.

(** [admit_client]: the record is read once and decides; the posture is kept. *)
Definition decided (b : Broker) (i : nat) (identity : option ClientIdentity) : option Broker :=
  c ← b_conns b !! i;
  match cn_pc c, b_trust b with
  | PcAdmit, Ok trust =>
      match decide_admission trust identity with
      | Admit posture =>
          Some (set_conns b (<[i := mkConn PcDecided identity posture (cn_pending c)]> (b_conns b)))
      | Refused => None
      end
  | _, _ => None
  end.

(** The stream could not be cloned for the registry. *)
Definition clone_failed (b : Broker) (i : nat) : option Broker :=
  c ← b_conns b !! i;
  match cn_pc c with PcDecided => Some (goto b i c PcDone) | _ => None end.

Definition registered (b : Broker) (i : nat) : option Broker :=
  c ← b_conns b !! i;
  match cn_pc c with
  | PcDecided =>
      Some (match register (b_registry b) (mkRegistered (cn_identity c) (cn_posture c) i) with
            | None => goto b i c PcDone
            | Some (id, inner) => goto (set_registry b inner) i c (PcRegistered id)
            end)
  | _ => None
  end.

Definition acquired (b : Broker) (i : nat) : option Broker :=
  c ← b_conns b !! i;
  match cn_pc c with
  | PcRegistered slot =>
      Some (match try_acquire MAX_HARNESS_CLIENTS (b_count b) with
            | None => goto b i c (PcUnavailable slot)
            | Some count => goto (set_count b count) i c (PcAdmitted slot)
            end)
  | _ => None
  end.

(** The [Accepted] reply, written or not. *)
Definition accept_written (b : Broker) (i : nat) (written : bool) : option Broker :=
  c ← b_conns b !! i;
  match cn_pc c with
  | PcAdmitted slot => Some (goto b i c (if written then PcServing slot else PcClosing slot))
  | _ => None
  end.

(** One request of [serve_jsonrpc]'s loop at its gate: a refusal ends the loop. *)
Definition request (b : Broker) (i : nat) : option Broker :=
  c ← b_conns b !! i;
  match cn_pc c, cn_pending c with
  | PcServing slot, false =>
      Some (match request_admission "relay harness" (cn_identity c) (cn_posture c) (b_trust b) with
            | Ok _ => b
            | Err _ => goto b i c (PcClosing slot)
            end)
  | _, _ => None
  end.

(** The serve loop ended for another reason: EOF, rate limit, engine, socket. *)
Definition serve_ended (b : Broker) (i : nat) : option Broker :=
  c ← b_conns b !! i;
  match cn_pc c, cn_pending c with
  | PcServing slot, false => Some (goto b i c (PcClosing slot))
  | _, _ => None
  end.

(** The drops of the guards, in declaration order. *)
Definition drop_registry_slot (b : Broker) (i : nat) : option Broker :=
  c ← b_conns b !! i;
  match cn_pc c with
  | PcClosing slot => Some (goto (set_registry b (deregister (b_registry b) slot)) i c PcReleasing)
  | PcUnavailable slot => Some (goto (set_registry b (deregister (b_registry b) slot)) i c PcDone)
  | _ => None
  end.

Definition drop_harness_slot (b : Broker) (i : nat) : option Broker :=
  c ← b_conns b !! i;
  match cn_pc c with
  | PcReleasing => Some (goto (set_count b (decr (b_count b))) i c PcDone)
  | _ => None
  end.

(** The watcher thread: read, then act on what was read. *)
Definition watch_read (b : Broker) : option Broker := Some (set_watch b (Some (b_trust b))).

Definition watch_act (b : Broker) : option Broker :=
  read ← b_watch b;
  if sweeps_browsers read && bool_decide (is_Some (writing (b_session b))) then None
  else let '(streams, ses, _) := watch_tick (b_registry b) read (b_session b) in
  Some (set_watch (set_shut (set_session b ses) (b_shut b ∪ list_to_set streams)) None).

(** The main thread: the own harness's loop ends and its slot drops; then
    [wait_zero]. *)
Definition own_ended (b : Broker) : option Broker :=
  match b_own b with
  | OwnServing => Some (set_own (set_count b (decr (b_count b))) OwnGone)
  | _ => None
  end.

Definition own_exit (b : Broker) : option Broker :=
  match b_own b with
  | OwnGone => count ← wait_zero (b_count b); Some (set_own (set_count b count) OwnExited)
  | _ => None
  end.

Inductive Label :=
| LAccept | LAcceptRestore | LDropPending (i : nat) | LReject (i : nat)
| LBrowserAdmitted (i : nat) | LBrowserAttached (i : nat)
| LDecided (i : nat) (identity : option ClientIdentity) | LCloneFailed (i : nat)
| LRegistered (i : nat) | LAcquired (i : nat) | LAcceptWritten (i : nat) (written : bool)
| LRequest (i : nat) | LServeEnded (i : nat)
| LDropRegistry (i : nat) | LDropHarness (i : nat)
| LWatchRead | LWatchAct | LOwnEnded | LOwnExit
| LRecord (trust : result io_error Trust).   (* another process moved the record *)

Definition exec (l : Label) (b : Broker) : option Broker :=
  match l with
  | LAccept => accept b
  | LAcceptRestore => accept_restore b
  | LDropPending i => drop_pending b i
  | LReject i => reject b i
  | LBrowserAdmitted i => browser_admitted b i
  | LBrowserAttached i => browser_attached b i
  | LDecided i identity => decided b i identity
  | LCloneFailed i => clone_failed b i
  | LRegistered i => registered b i
  | LAcquired i => acquired b i
  | LAcceptWritten i written => accept_written b i written
  | LRequest i => request b i
  | LServeEnded i => serve_ended b i
  | LDropRegistry i => drop_registry_slot b i
  | LDropHarness i => drop_harness_slot b i
  | LWatchRead => watch_read b
  | LWatchAct => watch_act b
  | LOwnEnded => own_ended b
  | LOwnExit => own_exit b
  | LRecord trust => Some (set_record b trust)
  end.

(** The session's own threads move beside the broker's. *)
Inductive bstep : Broker -> option Label -> Broker -> Prop :=
| bstep_exec b l b' : exec l b = Some b' -> bstep b (Some l) b'
| bstep_session b a ses : Session.step (b_session b) a ses -> bstep b None (set_session b ses).

Definition brun (b : Broker) : Prop := reachable bstep (fun b => exists trust, b = broker_start trust) b.

Fixpoint exec_all (ls : list Label) (b : Broker) : option Broker :=
  match ls with
  | [] => Some b
  | l :: ls => b ← exec l b; exec_all ls b
  end.

(** * Lemmas: counting connections *)

(** The registry slot a worker holds, and whether it holds a harness slot. *)
Definition pc_slot (pc : Pc) : option Z :=
  match pc with
  | PcRegistered id | PcUnavailable id | PcAdmitted id | PcServing id | PcClosing id => Some id
  | _ => None
  end.

Definition pc_counted (pc : Pc) : bool :=
  match pc with PcAdmitted _ | PcServing _ | PcClosing _ | PcReleasing => true | _ => false end.

Definition counted (c : Conn) : bool := pc_counted (cn_pc c).

Lemma counted_eq c : counted c = pc_counted (cn_pc c).
Proof. done. Qed.

Definition tally (f : Conn -> bool) (l : list Conn) : Z := Z.of_nat (length (List.filter f l)).

Lemma tally_cons f c l : tally f (c :: l) = (Z.b2z (f c) + tally f l)%Z.
Proof. unfold tally. cbn [List.filter]. destruct (f c); cbn [length Z.b2z]; lia. Qed.

Lemma tally_nil f : tally f [] = 0%Z.
Proof. done. Qed.

Lemma tally_nonneg f l : (0 <= tally f l)%Z.
Proof. unfold tally. lia. Qed.

Lemma tally_app f l l' : tally f (l ++ l') = (tally f l + tally f l')%Z.
Proof. induction l as [|c l IH]; [done|]. cbn [app]. rewrite !tally_cons, IH. lia. Qed.

Lemma tally_insert f l i c c' :
  l !! i = Some c -> tally f (<[i := c']> l) = (tally f l - Z.b2z (f c) + Z.b2z (f c'))%Z.
Proof.
  revert i. induction l as [|d l IH]; intros [|i] H; try done.
  - injection H as ->. change (<[O := c']> (c :: l)) with (c' :: l). rewrite !tally_cons. lia.
  - change (<[S i := c']> (d :: l)) with (d :: <[i := c']> l). rewrite !tally_cons, (IH i H). lia.
Qed.

Lemma tally_member f l i c : l !! i = Some c -> (Z.b2z (f c) <= tally f l)%Z.
Proof.
  revert i. induction l as [|d l IH]; intros [|i] H; try done; rewrite tally_cons.
  - injection H as ->. pose proof (tally_nonneg f l). lia.
  - specialize (IH i H). destruct (f d); cbn; lia.
Qed.

(** * The invariants *)

Definition own_counted (b : Broker) : Z := match b_own b with OwnServing => 1%Z | _ => 0%Z end.

(** The count is exactly the slots held, within its capacity; it is terminal
    exactly once the own harness is past [wait_zero], and then zero. *)
Record count_ok (b : Broker) : Prop := {
  ck_live : live (b_count b) = (tally counted (b_conns b) + own_counted b)%Z;
  ck_cap : (live (b_count b) <= MAX_HARNESS_CLIENTS)%Z;
  ck_terminal : terminal (b_count b) = match b_own b with OwnExited => true | _ => false end;
  ck_zero : terminal (b_count b) = true -> live (b_count b) = 0%Z
}.

Record pending_ok (b : Broker) : Prop := {
  pk_count : b_pending b = (tally cn_pending (b_conns b) + Z.b2z (b_over b))%Z;
  pk_cap : (tally cn_pending (b_conns b) <= MAX_PENDING_ATTACH)%Z
}.

(** The registry is exactly the slots held, each with its holder's identity,
    posture and stream. *)
Record registry_ok (b : Broker) : Prop := {
  rk_slots : forall (id : Z) (rc : RegisteredClient), reg_clients (b_registry b) !! id = Some rc <->
    exists c, b_conns b !! rc_stream rc = Some c /\ pc_slot (cn_pc c) = Some id /\
      rc_identity rc = cn_identity c /\ rc_posture rc = cn_posture c;
  rk_fresh : forall id, is_Some (reg_clients (b_registry b) !! id) -> (id < reg_next_id (b_registry b))%Z
}.

(** Split an executed step into the cases of its definition. *)
Ltac exec_cases H :=
  repeat (match type of H with
  | @mbind _ _ _ _ _ _ = Some _ =>
      let x := fresh "c" in let Hx := fresh "Hx" in let H' := fresh "Hb" in
      apply bind_Some in H; destruct H as (x & Hx & H'); rename H' into H
  | Some _ = Some _ => injection H as <-
  | None = Some _ => discriminate H
  | context [match ?x with _ => _ end] => destruct x eqn:?; try discriminate H
  end; try progress cbn beta iota zeta in H).

Ltac step_cases l H :=
  destruct l; cbn [exec] in H;
  unfold accept, accept_restore, drop_pending, reject, browser_admitted, browser_attached, decided,
    clone_failed, registered, acquired, accept_written, request, serve_ended, drop_registry_slot,
    drop_harness_slot, watch_read, watch_act, own_ended, own_exit in H; exec_cases H.

Lemma try_acquire_Some max g g' :
  try_acquire max g = Some g' <->
  terminal g = false /\ (live g < max)%Z /\ (live g + 1 <= u64_max)%Z /\ g' = mkCount (live g + 1) false.
Proof.
  unfold try_acquire. destruct g as [n []]; cbn; [naive_solver|].
  destruct (Z.leb_spec max n) as [?|?]; [naive_solver lia|]. split.
  - intros E. apply bind_Some in E as (m & Hm & [= <-]). apply checked_add_u64_Some in Hm as [-> ?]. done.
  - intros (_ & _ & Hm & ->). rewrite (proj2 (checked_add_u64_Some n 1 _)) by done. done.
Qed.

Lemma wait_zero_Some g g' : wait_zero g = Some g' <-> live g = 0%Z /\ g' = mkCount 0 true.
Proof.
  unfold wait_zero. destruct (Z.eqb_spec (live g) 0) as [->|?]; naive_solver.
Qed.

(** Split the goal on what the step's own tests found. *)
Ltac goal_cases :=
  repeat match goal with
  | |- _ (match ?x with _ => _ end) => destruct x eqn:?
  | |- _ (_ (match ?x with _ => _ end)) => destruct x eqn:?
  | |- context [if ?x then PcServing _ else PcClosing _] => destruct x
  end.

Ltac tally_moves :=
  cbn [goto set_session set_count set_pending set_registry set_conns set_shut set_own set_record set_watch
    b_session b_count b_pending b_registry b_conns b_shut b_over b_own b_trust b_watch];
  repeat match goal with
  | H : b_conns ?b !! ?i = Some ?c |- context [tally ?f (<[?i := ?c']> (b_conns ?b))] =>
      rewrite (tally_insert f (b_conns b) i c c' H)
  end;
  rewrite ?tally_app, ?tally_cons, ?tally_nil;
  rewrite ?counted_eq; cbn [cn_pc cn_pending cn_identity cn_posture];
  repeat match goal with
  | H : cn_pc _ = _ |- _ => rewrite H; clear H
  | H : cn_pending _ = _ |- _ => rewrite H; clear H
  end; cbn [pc_counted Z.b2z]; try lia.

Lemma count_ok_move b b' :
  count_ok b -> b_count b' = b_count b -> b_own b' = b_own b ->
  tally counted (b_conns b') = tally counted (b_conns b) -> count_ok b'.
Proof.
  intros [Hl Hc Ht Hz] Ec Eo Et. split; rewrite ?Ec, ?Eo; try done.
  unfold own_counted. rewrite Eo, Et. exact Hl.
Qed.

Lemma own_counted_range b : (0 <= own_counted b <= 1)%Z.
Proof. unfold own_counted. destruct (b_own b); lia. Qed.

(** A member that holds a slot keeps the count positive. *)
Lemma counted_live b i c :
  count_ok b -> b_conns b !! i = Some c -> counted c = true ->
  (0 < live (b_count b))%Z /\ terminal (b_count b) = false.
Proof.
  intros [Hl Hc Ht Hz] Hi Hc'. pose proof (tally_member counted _ _ _ Hi) as Hm. rewrite Hc' in Hm.
  cbn in Hm. assert (0 < live (b_count b))%Z as Hp.
  { pose proof (own_counted_range b). lia. }
  split; [done|]. destruct (terminal (b_count b)) eqn:E; [|done]. specialize (Hz eq_refl). lia.
Qed.

Lemma exec_count_ok l b b' : exec l b = Some b' -> count_ok b -> count_ok b'.
Proof.
  intros H Hok. step_cases l H; goal_cases; try done.
  all: try (apply (count_ok_move b _ Hok); [done|done|]; tally_moves; done).
  - apply try_acquire_Some in Heqo as (Ht & Hm & _ & ->). destruct Hok as [Hl Hc Ht' Hz].
    split; unfold own_counted in *; tally_moves; cbn [live terminal]; try done; try congruence; lia.
  - destruct (counted_live b i c Hok) as [Hp Ht]; [done|unfold counted; by rewrite Heqp|].
    destruct Hok as [Hl Hc Ht' Hz].
    split; unfold own_counted, decr in *; tally_moves; cbn [live terminal]; try done; try congruence; lia.
  - destruct Hok as [Hl Hc Ht' Hz]. unfold own_counted in *. rewrite Heqo in *. cbn in Hl.
    pose proof (tally_nonneg counted (b_conns b)).
    split; unfold own_counted, decr; tally_moves; cbn [live terminal]; try done; try congruence; lia.
  - apply wait_zero_Some in Hx as [Hx ->]. destruct Hok as [Hl Hc Ht' Hz].
    unfold own_counted in *. rewrite Heqo in *. cbn in Hl.
    split; unfold own_counted; tally_moves; cbn [live terminal]; try done; cbn; lia.
Qed.

Lemma pending_ok_move b b' :
  pending_ok b -> b_pending b' = b_pending b -> b_over b' = b_over b ->
  tally cn_pending (b_conns b') = tally cn_pending (b_conns b) -> pending_ok b'.
Proof. intros [Hp Hc] Ep Eo Et. split; by rewrite ?Ep, ?Eo, ?Et. Qed.

Lemma exec_pending_ok l b b' : exec l b = Some b' -> pending_ok b -> pending_ok b'.
Proof.
  intros H Hok. step_cases l H; goal_cases; try done.
  all: try (apply (pending_ok_move b _ Hok); [done|done|]; tally_moves; done).
  all: destruct Hok as [Hp Hc];
    repeat match goal with H : (_ <=? _)%Z = false |- _ => apply Z.leb_gt in H
           | H : b_over ?x = _ |- _ => rewrite H in * end; cbn [Z.b2z] in Hp.
  all: split; tally_moves.
Qed.

(** ** The registry *)

Definition slot_of (c : Conn) : option Z := pc_slot (cn_pc c).

(** A worker moves without touching its registry slot. *)
Lemma registry_ok_move b b' i c c' :
  registry_ok b -> b_registry b' = b_registry b -> b_conns b !! i = Some c ->
  b_conns b' = <[i := c']> (b_conns b) -> slot_of c' = slot_of c ->
  (slot_of c = None \/ cn_identity c' = cn_identity c /\ cn_posture c' = cn_posture c) ->
  registry_ok b'.
Proof.
  intros [Hs Hf] Er Hi Ec Hslot Hsame. split; rewrite Er; [|done].
  intros id rc. rewrite Hs, Ec. unfold slot_of in *. destruct (decide (rc_stream rc = i)) as [E|E].
  - rewrite E, Hi, list_lookup_insert_eq by (by eapply lookup_lt_Some). split.
    + intros (d & [= <-] & Hd & H1 & H2). exists c'. destruct Hsame as [?|[-> ->]]; [congruence|].
      by rewrite Hslot.
    + intros (d & [= <-] & Hd & H1 & H2). exists c. destruct Hsame as [?|[<- <-]]; [congruence|].
      by rewrite <- Hslot.
  - by rewrite list_lookup_insert_ne.
Qed.

Lemma registry_ok_same b b' :
  registry_ok b -> b_registry b' = b_registry b -> b_conns b' = b_conns b -> registry_ok b'.
Proof. intros [Hs Hf] Er Ec. by split; rewrite ?Er, ?Ec. Qed.

Lemma registry_ok_accept b b' c :
  registry_ok b -> b_registry b' = b_registry b -> b_conns b' = b_conns b ++ [c] ->
  slot_of c = None -> registry_ok b'.
Proof.
  intros [Hs Hf] Er Ec Hn. split; rewrite Er; [|done]. intros id rc. rewrite Hs, Ec.
  apply exist_proper. intros d. rewrite lookup_app. split.
  - intros (Hd & Hr). by rewrite Hd.
  - intros (Hd & Hid & Hr). destruct (b_conns b !! rc_stream rc) as [d'|] eqn:E; [by simplify_eq|].
    apply list_lookup_singleton_Some in Hd as [_ ->]. unfold slot_of in Hn. congruence.
Qed.

Lemma registry_ok_register b i c id inner :
  registry_ok b -> b_conns b !! i = Some c -> slot_of c = None ->
  register (b_registry b) (mkRegistered (cn_identity c) (cn_posture c) i) = Some (id, inner) ->
  registry_ok (goto (set_registry b inner) i c (PcRegistered id)).
Proof.
  intros [Hs Hf] Hi Hn Hr. unfold register in Hr. apply bind_Some in Hr as (next & Hnext & [= <- <-]).
  apply checked_add_u64_Some in Hnext as [-> _]. set (id := reg_next_id (b_registry b)) in *.
  assert (reg_clients (b_registry b) !! id = None) as Hfresh.
  { apply eq_None_not_Some. intros Hd%Hf. unfold id in Hd. lia. }
  split; cbn [goto set_registry set_conns b_conns b_registry reg_clients reg_next_id].
  - intros id' rc. destruct (decide (id' = id)) as [->|Hne].
    + rewrite lookup_insert_eq. split.
      * intros [= <-]. cbn [rc_stream rc_identity rc_posture]. eexists.
        rewrite list_lookup_insert_eq by (by eapply lookup_lt_Some). by split.
      * intros (d & Hd & Hid & H1 & H2). f_equal. destruct (decide (rc_stream rc = i)) as [E|E].
        -- rewrite E, list_lookup_insert_eq in Hd by (by eapply lookup_lt_Some). injection Hd as <-.
           destruct rc; cbn in *. by subst.
        -- rewrite list_lookup_insert_ne in Hd by done.
           assert (reg_clients (b_registry b) !! id = Some rc) as Hx by (apply Hs; by exists d). congruence.
    + rewrite lookup_insert_ne by done. rewrite Hs. unfold slot_of in Hn.
      destruct (decide (rc_stream rc = i)) as [E|E].
      * rewrite E, Hi, list_lookup_insert_eq by (by eapply lookup_lt_Some).
        split; intros (d & [= <-] & Hd & _); [congruence|cbn in Hd; congruence].
      * by rewrite list_lookup_insert_ne.
  - intros id' Hd. destruct (decide (id' = id)) as [->|Hne]; [lia|].
    rewrite lookup_insert_ne in Hd by done. specialize (Hf _ Hd). lia.
Qed.

Lemma registry_ok_deregister b i c slot pc :
  registry_ok b -> b_conns b !! i = Some c -> slot_of c = Some slot -> pc_slot pc = None ->
  registry_ok (goto (set_registry b (deregister (b_registry b) slot)) i c pc).
Proof.
  intros [Hs Hf] Hi Hslot Hn. split; cbn [goto set_registry set_conns b_conns b_registry deregister
    reg_clients reg_next_id].
  - intros id rc. rewrite lookup_delete_Some, Hs.
    assert (reg_clients (b_registry b) !! slot = Some (mkRegistered (cn_identity c) (cn_posture c) i)) as Hmine
      by (apply Hs; by exists c).
    split.
    + intros (Hne & d & Hd & Hr). exists d. split; [|done].
      rewrite list_lookup_insert_ne; [done|]. intros E. rewrite <- E, Hi in Hd. injection Hd as <-. destruct Hr as [Hid _]. unfold slot_of in Hslot.
      congruence.
    + intros (d & Hd & Hid & Hr). destruct (decide (rc_stream rc = i)) as [E|E].
      { rewrite E, list_lookup_insert_eq in Hd by (by eapply lookup_lt_Some). injection Hd as <-.
        cbn in Hid. congruence. }
      rewrite list_lookup_insert_ne in Hd by done. split; [|by exists d]. intros <-.
      assert (reg_clients (b_registry b) !! slot = Some rc) as Hx by (apply Hs; by exists d).
      rewrite Hmine in Hx. injection Hx as <-. done.
  - intros id Hd. apply Hf. destruct Hd as [rc Hd]. apply lookup_delete_Some in Hd as [_ Hd]. by exists rc.
Qed.

(** A case where worker [c] moved and kept its slot. *)
Ltac registry_move Hok :=
  match goal with
  | H : b_conns ?b !! ?i = Some ?c, Hp : cn_pc ?c = _ |- _ =>
      eapply (registry_ok_move b _ i c _ Hok);
        [reflexivity|exact H|reflexivity|unfold slot_of; rewrite Hp; reflexivity
        |unfold slot_of; rewrite Hp; by (left + right)]
  end.

Lemma exec_registry_ok l b b' : exec l b = Some b' -> registry_ok b -> registry_ok b'.
Proof.
  intros H Hok. step_cases l H; goal_cases; try done.
  all: try (apply (registry_ok_same b _ Hok); done).
  all: try registry_move Hok.
  - by eapply (registry_ok_accept b _ _ Hok).
  - apply registry_ok_register; [done|done|unfold slot_of; by rewrite Heqp|done].
  - apply registry_ok_deregister; [done|done|unfold slot_of; by rewrite Heqp|done].
  - apply registry_ok_deregister; [done|done|unfold slot_of; by rewrite Heqp|done].
Qed.

(** The broker drives its session only by the session's own steps. *)
Lemma exec_session l b b' :
  exec l b = Some b' -> Session.run (b_session b) -> Session.run (b_session b').
Proof.
  intros H Hr. step_cases l H; goal_cases; try exact Hr.
  cbn [set_watch set_shut set_session b_session]. unfold watch_tick in Heqp.
  assert (sweeps_browsers c = true -> writing (b_session b) = None) as Hw.
  { intros Hs. rewrite Hs in *. destruct (writing (b_session b)); [|done]. by rewrite bool_decide_true in * by eauto. }
  destruct c as [t|e]; [destruct (killed t) eqn:Ek|]; injection Heqp as <- <- <-; try exact Hr.
  all: eapply reach_step; [exact Hr|]; apply step_shutdown; by apply Hw.
Qed.

Record broker_ok (b : Broker) : Prop := {
  bk_count : count_ok b;
  bk_pending : pending_ok b;
  bk_registry : registry_ok b;
  bk_session : Session.run (b_session b)
}.

Lemma brun_ok b : brun b -> broker_ok b.
Proof.
  intros Hr. pattern b. revert b Hr. apply (reachable_invariant bstep).
  - intros b [t ->]. split.
    + by split.
    + by split.
    + split; cbn; [|intros id []; set_solver].
      intros id rc. split; [by rewrite lookup_empty|]. by intros (c & Hc & _).
    + by apply reach_init.
  - intros b l b' [Hc Hp Hg Hs] H. destruct H as [b l b' H|b a ses H].
    + split; [by eapply exec_count_ok|by eapply exec_pending_ok|by eapply exec_registry_ok|by eapply exec_session].
    + split; [by apply (count_ok_move b)|by apply (pending_ok_move b)|by apply (registry_ok_same b)|].
      by eapply reach_step.
Qed.

Lemma tally_zero f l : tally f l = 0%Z <-> forall i c, l !! i = Some c -> f c = false.
Proof.
  split.
  - intros H i c Hc. pose proof (tally_member f l i c Hc). destruct (f c); [cbn in *; lia|done].
  - intros H. induction l as [|c l IH]; [done|]. rewrite tally_cons, (H 0 c eq_refl), IH; [done|].
    intros i d Hd. by apply (H (S i)).
Qed.

Lemma terminal_uncounted b :
  count_ok b -> terminal (b_count b) = true -> forall i c, b_conns b !! i = Some c -> counted c = false.
Proof.
  intros [Hl _ _ Hz] Ht. apply tally_zero. specialize (Hz Ht).
  pose proof (own_counted_range b). pose proof (tally_nonneg counted (b_conns b)). lia.
Qed.

Lemma exec_terminal l b b' :
  exec l b = Some b' -> terminal (b_count b) = true -> terminal (b_count b') = true.
Proof.
  intros H Ht. step_cases l H; try done; cbn [b_count].
  all: try (match goal with |- terminal (b_count (match ?x with _ => _ end)) = _ => destruct x as [[]|] eqn:E end; done).
  - destruct (try_acquire _ _) as [g|] eqn:E; [|done].
    apply try_acquire_Some in E as (? & _). congruence.
  - by apply wait_zero_Some in Hx as [_ ->].
Qed.

(** Whether a connection may be served under the record as read now. *)
Definition served_by (trust : result io_error Trust) (identity : option ClientIdentity) (posture : Posture) :
    Prop :=
  exists t, trust = Ok t /\
    match posture with
    | Unenrolled =>
        is_paired (clients t) = false \/
        exists ident entry, identity = Some ident /\ entry ∈ paired_entries (clients t) /\
          anchor_matches (ce_anchor entry) ident = true
    | Trusted _ =>
        exists ident entry, identity = Some ident /\ entry ∈ paired_entries (clients t) /\
          anchor_matches (ce_anchor entry) ident = true
    end.

Lemma decide_Trusted t identity :
  (exists name, decide_admission t identity = Admit (Trusted name)) <->
  exists ident entry, identity = Some ident /\ entry ∈ paired_entries (clients t) /\
    anchor_matches (ce_anchor entry) ident = true.
Proof.
  unfold decide_admission, paired_entries. destruct (clients t) as [|l].
  - split; [by intros [? [=]]|]. intros (? & ? & _ & Hin & _). set_solver.
  - destruct identity as [ident|]; [|naive_solver]. destruct (List.find _ l) as [c|] eqn:E.
    + apply find_Some_iff in E as [Hin Hm]. naive_solver.
    + rewrite find_None_iff in E. split; [by intros [? [=]]|].
      intros (? & entry & [= <-] & Hin & Hm). specialize (E entry Hin). cbn in E. congruence.
Qed.

Lemma decide_Unenrolled t identity :
  decide_admission t identity = Admit Unenrolled <-> is_paired (clients t) = false.
Proof.
  unfold decide_admission, is_paired. destruct (clients t) as [|l]; [done|].
  destruct identity; [|done]. by destruct (List.find _ l).
Qed.

Lemma refusal_None t identity posture :
  refusal t identity posture = None <-> served_by (Ok t) identity posture.
Proof.
  unfold served_by. pose proof (decide_Trusted t identity) as HT.
  pose proof (decide_Unenrolled t identity) as HU. unfold refusal.
  destruct (decide_admission t identity) as [[|n]|], posture as [|n']; split; try done; intros H.
  all: try (destruct H as (t' & [= <-] & H)).
  all: try (exists t; split; [done|]).
  all: naive_solver.
Qed.

Lemma request_admission_Ok who identity posture trust u :
  request_admission who identity posture trust = Ok u <-> served_by trust identity posture.
Proof.
  unfold request_admission. destruct trust as [t|e].
  - rewrite <- refusal_None. destruct u. destruct (refusal t identity posture); naive_solver.
  - split; [done|]. by intros (t & [=] & _).
Qed.

Lemma elem_of_sweep inner refuse i :
  i ∈ sweep inner refuse <->
  exists id rc, reg_clients inner !! id = Some rc /\ rc_stream rc = i /\
    refuse (rc_identity rc) (rc_posture rc) = true.
Proof.
  unfold sweep. rewrite list_elem_of_fmap. split.
  - intros (rc & -> & Hrc). apply elem_of_bfilter in Hrc as [Hin Hr].
    apply list_elem_of_fmap in Hin as ([id rc'] & -> & Hin). apply elem_of_map_to_list in Hin.
    by exists id, rc'.
  - intros (id & rc & Hl & <- & Hr). exists rc. split; [done|]. apply elem_of_bfilter. split; [|done].
    apply list_elem_of_fmap. exists (id, rc). split; [done|]. by apply elem_of_map_to_list.
Qed.

(** What the watcher's rule says of a registered connection. *)
Lemma watch_tick_streams inner trust ses i :
  i ∈ (watch_tick inner trust ses).1.1 <->
  exists id rc, reg_clients inner !! id = Some rc /\ rc_stream rc = i /\
    ~ served_by trust (rc_identity rc) (rc_posture rc).
Proof.
  destruct trust as [t|e]; cbn [watch_tick fst]; rewrite elem_of_sweep;
    apply exist_proper; intros id; apply exist_proper; intros rc.
  - rewrite bool_decide_eq_true, <- refusal_None, <- not_eq_None_Some. tauto.
  - assert (~ served_by (Err e) (rc_identity rc) (rc_posture rc)) by (by intros (? & [=] & _)). tauto.
Qed.

Lemma goto_lookup b i c pc :
  i < length (b_conns b) ->
  b_conns (goto b i c pc) !! i = Some (mkConn pc (cn_identity c) (cn_posture c) (cn_pending c)).
Proof. intros H. cbn. by rewrite list_lookup_insert_eq. Qed.

(** * Properties *)

(** C13: The broker lives exactly as long as the harnesses it serves, in every
    interleaving. The count is the own harness plus the relays that hold a slot, never
    over capacity and never under zero; the shutdown decision can be taken if and only
    if the own harness is gone and no relay is left; once taken it stays, nothing is
    served and no relay is admitted again, and a connection still in the registry is one
    that was never admitted. At most [MAX_PENDING_ATTACH] connections are in the
    handshake phase at once. *)
Theorem broker_lives_with_its_harnesses (b : Broker) :
  brun b ->
  live (b_count b) = (tally counted (b_conns b) + own_counted b)%Z /\
  (0 <= live (b_count b) <= MAX_HARNESS_CLIENTS)%Z /\
  (tally cn_pending (b_conns b) <= MAX_PENDING_ATTACH)%Z /\
  (b_own b = OwnGone -> (is_Some (own_exit b) <->
     forall i c, b_conns b !! i = Some c -> counted c = false)) /\
  (terminal (b_count b) = true ->
     b_own b = OwnExited /\
     (forall l b', bstep b l b' -> terminal (b_count b') = true /\
        forall i c, b_conns b' !! i = Some c -> counted c = false) /\
     forall id rc, reg_clients (b_registry b) !! id = Some rc ->
       exists c, b_conns b !! rc_stream rc = Some c /\
         (cn_pc c = PcRegistered id \/ cn_pc c = PcUnavailable id)).
Proof.
  intros Hr. pose proof (brun_ok b Hr) as [Hc Hp Hg _]. pose proof Hc as [Hl Hcap Ht Hz].
  pose proof (tally_nonneg counted (b_conns b)). pose proof (own_counted_range b). split_and!.
  - done.
  - lia.
  - done.
  - apply Hp.
  - intros Ho. unfold own_counted in *. rewrite Ho in *. rewrite <- tally_zero. unfold own_exit.
    rewrite Ho. split.
    + intros [b' Hb]. apply bind_Some in Hb as (g & Hw & _). apply wait_zero_Some in Hw as [? _]. lia.
    + intros Hn. unfold wait_zero. rewrite (proj2 (Z.eqb_eq _ _)) by lia. eexists. reflexivity.
  - intros Hterm. split_and!.
    + rewrite Hterm in Ht. destruct (b_own b); done.
    + intros l b' Hs.
      assert (terminal (b_count b') = true) as Hterm'.
      { destruct Hs; [by eapply exec_terminal|done]. }
      split; [done|]. apply terminal_uncounted; [|done].
      apply brun_ok. by eapply reach_step.
    + intros id rc Hrc. apply Hg in Hrc as (c & Hi & Hslot & _). exists c. split; [done|].
      pose proof (terminal_uncounted b Hc Hterm _ _ Hi) as Hu. unfold counted in Hu.
      destruct (cn_pc c); cbn in *; try done; injection Hslot as ->; auto.
Qed.

(** C12: A revocation reaches every relay, idle or not, within one tick of the
    watcher, and only what it should: the tick shuts down the stream of a connection
    that holds a slot exactly if the record it read no longer serves that connection
    under the posture it was admitted with, all of them if the record is unreadable.
    When the record is unreadable or the kill switch is engaged, no browser stays
    attached. *)
Theorem revocation_reaches_every_relay (b b' : Broker) (read : result io_error Trust) :
  brun b -> b_watch b = Some read -> exec LWatchAct b = Some b' ->
  (forall i c id, b_conns b !! i = Some c -> pc_slot (cn_pc c) = Some id ->
     (i ∈ b_shut b' <-> i ∈ b_shut b \/ ~ served_by read (cn_identity c) (cn_posture c))) /\
  (forall i c, b_conns b !! i = Some c -> pc_slot (cn_pc c) = None -> (i ∈ b_shut b' <-> i ∈ b_shut b)) /\
  ((forall t, read = Ok t -> killed t = true) -> conns (b_session b') = ∅).
Proof.
  intros Hr Hw H. pose proof (bk_registry b (brun_ok b Hr)) as [Hs _].
  cbn [exec] in H. unfold watch_act in H. rewrite Hw in H. cbn [mbind option_bind] in H.
  destruct (sweeps_browsers read && _); [done|].
  pose proof (watch_tick_streams (b_registry b) read (b_session b)) as Hst.
  destruct (watch_tick (b_registry b) read (b_session b)) as [[streams ses] e] eqn:Et.
  injection H as <-. cbn [set_watch set_shut set_session b_shut b_session fst] in *. split_and!.
  - intros i c id Hi Hid. rewrite elem_of_union, elem_of_list_to_set, Hst. f_equiv. split.
    + intros (id' & rc & Hrc & <- & Hn). apply Hs in Hrc as (c' & Hi' & _ & E1 & E2).
      rewrite Hi in Hi'. injection Hi' as <-. by rewrite <- E1, <- E2.
    + intros Hn. exists id, (mkRegistered (cn_identity c) (cn_posture c) i). split_and!; [|done..].
      apply Hs. by exists c.
  - intros i c Hi Hid. rewrite elem_of_union, elem_of_list_to_set, Hst. split; [|by left].
    intros [?|(id' & rc & Hrc & <- & _)]; [done|]. apply Hs in Hrc as (c' & Hi' & Hid' & _). congruence.
  - intros Hk. unfold watch_tick in Et. destruct read as [t|err].
    + rewrite (Hk t eq_refl) in Et. by injection Et as _ <- _.
    + by injection Et as _ <- _.
Qed.

(** No connection is served under a weaker posture than it was admitted with.
    A request of a relay passes its gate exactly if the record, read for that request,
    is readable and either lists an entry that matches the harness's anchor or, for a
    harness admitted while nobody was paired, still pairs nobody. A request that does
    not pass ends the serve loop: the worker's next steps drop its registry slot and
    then its count. *)
Theorem no_service_under_a_weaker_posture (b b' : Broker) (i : nat) (c : Conn) (slot : Z) :
  brun b -> b_conns b !! i = Some c -> cn_pc c = PcServing slot -> exec (LRequest i) b = Some b' ->
  (b' = b <-> served_by (b_trust b) (cn_identity c) (cn_posture c)) /\
  (~ served_by (b_trust b) (cn_identity c) (cn_posture c) ->
     exists b1 b2, exec_all [LDropRegistry i] b' = Some b1 /\ exec_all [LDropHarness i] b1 = Some b2 /\
       reg_clients (b_registry b2) !! slot = None /\
       live (b_count b2) = (live (b_count b) - 1)%Z).
Proof.
  intros Hr Hi Hpc H. pose proof (brun_ok b Hr) as [Hc _ _ _].
  destruct (counted_live b i c Hc Hi) as [Hpos _]; [unfold counted; by rewrite Hpc|].
  cbn [exec] in H. unfold request in H. rewrite Hi in H. cbn [mbind option_bind] in H. rewrite Hpc in H.
  destruct (cn_pending c) eqn:Ep; [done|]. injection H as H.
  pose proof (request_admission_Ok "relay harness" (cn_identity c) (cn_posture c) (b_trust b)) as Hreq.
  destruct (request_admission _ _ _ _) as [u|e] eqn:Er; subst b'.
  - pose proof (proj1 (Hreq u) eq_refl) as Hs. by split; [split|].
  - assert (~ served_by (b_trust b) (cn_identity c) (cn_posture c)) as Hn.
    { intros Hs%(Hreq tt). congruence. }
    pose proof (lookup_lt_Some _ _ _ Hi) as Hlt.
    split; [split|intros _].
    + intros E. exfalso. assert (b_conns (goto b i c (PcClosing slot)) !! i = b_conns b !! i) as E' by (by rewrite E).
      rewrite goto_lookup, Hi in E' by done. injection E' as E'. rewrite <- E' in Hpc. done.
    + done.
    + cbn [exec_all exec]. unfold drop_registry_slot, drop_harness_slot. rewrite goto_lookup by done.
      cbn [mbind option_bind cn_pc]. eexists _, _. split; [reflexivity|].
      rewrite goto_lookup by (cbn; by rewrite length_insert).
      cbn [mbind option_bind cn_pc]. split; [reflexivity|].
      cbn [goto set_conns set_count set_registry b_registry b_count deregister reg_clients decr live].
      split; [apply lookup_delete_eq|lia].
Qed.

Lemma exec_all_brun ls b b' : exec_all ls b = Some b' -> brun b -> brun b'.
Proof.
  revert b. induction ls as [|l ls IH]; intros b H Hr; cbn [exec_all] in H; [by injection H as <-|].
  apply bind_Some in H as (b1 & H1 & H). apply (IH b1 H). eapply reach_step; [exact Hr|by apply bstep_exec].
Qed.

(** A relay of a paired harness, its revocation, and a relay caught between its
    registration and its count by the shutdown decision. *)
Module BrokerExample.

Definition ident : ClientIdentity := {| ci_hash := "aa"; ci_signer := None |}.
Definition paired : Trust := with_clients trust_default (Paired [ex_entry "claude" "aa"]).
Definition revoked : Trust := with_clients trust_default (Paired []).

Definition admit_relay : list Label :=
  [LAccept; LDecided 0 (Some ident); LRegistered 0; LAcquired 0; LAcceptWritten 0 true; LDropPending 0].
Definition serving : Broker := Eval vm_compute in
  default (broker_start (Ok paired)) (exec_all admit_relay (broker_start (Ok paired))).
Definition ticking : Broker := Eval vm_compute in
  default serving (exec_all [LRecord (Ok revoked); LWatchRead] serving).
Definition swept : Broker := Eval vm_compute in default serving (exec LWatchAct ticking).
Definition dropped : Broker := Eval vm_compute in default serving (exec (LRequest 0) ticking).
Definition late : Broker := Eval vm_compute in
  default serving (exec_all [LAccept; LDecided 0 (Some ident); LRegistered 0; LOwnEnded; LOwnExit]
    (broker_start (Ok paired))).

Lemma start_brun t : brun (broker_start t).
Proof. apply reach_init. by exists t. Qed.

Lemma serving_brun : brun serving.
Proof. apply (exec_all_brun admit_relay (broker_start (Ok paired))); [vm_compute; reflexivity|apply start_brun]. Qed.

Lemma ticking_brun : brun ticking.
Proof.
  apply (exec_all_brun [LRecord (Ok revoked); LWatchRead] serving); [vm_compute; reflexivity|apply serving_brun].
Qed.

Lemma late_brun : brun late.
Proof.
  apply (exec_all_brun [LAccept; LDecided 0 (Some ident); LRegistered 0; LOwnEnded; LOwnExit]
    (broker_start (Ok paired))); [vm_compute; reflexivity|apply start_brun].
Qed.

Lemma revoked_serves_nobody identity name : ~ served_by (Ok revoked) identity (Trusted name).
Proof. intros (t & [= <-] & ident' & entry & _ & Hin & _). by apply not_elem_of_nil in Hin. Qed.
End BrokerExample.

Lemma broker_lives_with_its_harnesses_witness :
  terminal (b_count BrokerExample.late) = true /\
  forall l b', bstep BrokerExample.late l b' -> terminal (b_count b') = true.
Proof.
  destruct (broker_lives_with_its_harnesses _ BrokerExample.late_brun) as (_ & _ & _ & _ & H).
  destruct (H eq_refl) as (_ & Hs & _). split; [reflexivity|]. intros l b' Hb. by apply (Hs l b' Hb).
Defined.

Lemma revocation_reaches_every_relay_witness :
  0 ∈ b_shut BrokerExample.swept.
Proof.
  destruct (revocation_reaches_every_relay BrokerExample.ticking BrokerExample.swept (Ok BrokerExample.revoked)
    BrokerExample.ticking_brun eq_refl ltac:(vm_compute; reflexivity)) as (H & _ & _).
  apply (H 0 (mkConn (PcServing 1) (Some BrokerExample.ident) (Trusted "claude") false) 1%Z);
    [reflexivity|reflexivity|].
  right. apply BrokerExample.revoked_serves_nobody.
Defined.

Lemma no_service_under_a_weaker_posture_witness :
  BrokerExample.dropped <> BrokerExample.ticking.
Proof.
  destruct (no_service_under_a_weaker_posture BrokerExample.ticking BrokerExample.dropped 0
    (mkConn (PcServing 1) (Some BrokerExample.ident) (Trusted "claude") false) 1
    BrokerExample.ticking_brun eq_refl eq_refl ltac:(vm_compute; reflexivity)) as [H _].
  intros E. apply H in E. by apply BrokerExample.revoked_serves_nobody in E.
Defined.

(** The registry is not always empty when the shutdown decision latches: a relay
    registers before it is counted, so the decision can be taken between the two.
    Such a relay is then refused by [try_acquire] and drops its slot. *)
Theorem registry_may_outlive_the_shutdown_decision :
  exists b, brun b /\ terminal (b_count b) = true /\ reg_clients (b_registry b) <> ∅ /\
    exists b', exec_all [LAcquired 0; LDropRegistry 0] b = Some b' /\ reg_clients (b_registry b') = ∅.
Proof.
  exists BrokerExample.late. split_and!; [apply BrokerExample.late_brun|reflexivity| |].
  - intros E. assert (reg_clients (b_registry BrokerExample.late) !! 1%Z = None) as E'
      by (rewrite E; apply lookup_empty).
    vm_compute in E'. discriminate E'.
  - eexists. split; [vm_compute; reflexivity|]. vm_compute. reflexivity.
Qed.
