(* ===== verification/Serve.v ===== *)
(** Serve: how the broker admits a connection and serves it, and the relay's side
    (src/src/packages/core/src/broker.rs [admit], [admit_browser], [admit_client],
    [serve_jsonrpc], [run_relay], [pump_lines]; the attach frames of protocol.rs).

    The sockets, the peer checks of the operating system and the clock answer
    through the arguments ([Attach], [Turn], [RelayIo]). [admit] is the run of one
    worker alone; [Broker] interleaves its critical sections with the other
    threads'. *)
From S2P Require Import Prelude Json RuntimeRecord Policy Identity Trust PolicyRecord PrefixCodec World Messages Errors Catalogue Gating Wire LineCodec Session Handshake Connection Broker.
From Stdlib Require Import Strings.Byte.
From stdpp Require Import base list gmap sets strings pretty.

(** * Attach frames *)

Record HarnessId := mkHarness {
  hi_hash : HashDigest;
  hi_signer : option SignerId;
  hi_name : option string
}.

Inductive AttachRequest :=
| AttachBrowser
| AttachClient (harness : option HarnessId).

Inductive AttachReply :=
| AttachAccepted
| AttachRefused (reason : string)
| AttachUnavailable (reason : string).

(** [ClientIdentity::from(&HarnessId)]: the name is dropped. *)
Definition identity_of (h : HarnessId) : ClientIdentity :=
  {| ci_hash := hi_hash h; ci_signer := hi_signer h |}.

(** * Admitting one connection *)

(** What the operating system, the lock file and the socket answer to one worker. *)
Record Attach := mkAttach {
  at_peer_uid : option (result io_error Z);   (* [None] where the check is not compiled *)
  at_euid : Z;
  at_attest : result io_error unit;
  at_clone : option io_error;
  at_secret : result io_error string;
  at_nonce : result io_error string;
  at_challenge : option io_error;
  at_reply : option io_error;
  at_sweep_clone : option io_error;
  at_input : bytes
}.

Inductive AttachOutcome :=
| OutcomeBrowser (label : BrowserLabel) (rest : bytes)
| OutcomeClient (identity : option ClientIdentity) (posture : Posture) (slot : Z) (rest : bytes)
| Rejected.

(** The shared state [admit] touches, and the replies it wrote. *)
Record Front := mkFront {
  fr_registry : RegistryInner;
  fr_count : CountState;
  fr_replies : list AttachReply
}.

Section attach.
Context `{DG : Digest, ML : MacLib, JH : !JsonCodec Handshake, JA : !JsonCodec AttachRequest}.

Definition attach_refused (detail : string) : AuditRecord :=
  audit_of AttachRefuse SurfBroker "refused" (Some detail).

Definition server_handshake (a : Attach) : result io_error (option BrowserLabel) * bytes :=
  match at_secret a with
  | Err e => (Err e, at_input a)
  | Ok secret =>
      let '(r, (_, rest)) := server_handshake_with_secret secret (at_nonce a) (at_challenge a) (at_input a) in
      (r, rest)
  end.

(** A reply, written unless the socket fails; [false] when it failed. *)
Definition send_reply (a : Attach) (f : Front) (reply : AttachReply) : bool * Front :=
  match at_reply a with
  | Some _ => (false, f)
  | None => (true, mkFront (fr_registry f) (fr_count f) (fr_replies f ++ [reply]))
  end.

Definition admit_browser (a : Attach) (label : option BrowserLabel) (rest : bytes) (f : Front) :
    host (AttachOutcome * Front) :=
  let label := default DEFAULT_LABEL label in
  let! verdict := kill_check in
  match verdict with
  | Err e =>
      let '(_, f) := send_reply a f (AttachRefused "bridge kill switch engaged") in
      let! _ := audit_record (audit_named BrowserRefuse SurfBroker label "refused" (Some (code e))) in
      hret (Rejected, f)
  | Ok _ =>
      let '(written, f) := send_reply a f AttachAccepted in
      if written then
        let! _ := audit_record (audit_named BrowserAttach SurfBroker label "ok" None) in
        hret (OutcomeBrowser label rest, f)
      else hret (Rejected, f)
  end.

(** The reported name as a log label. *)
Definition reported_name (harness : option HarnessId) : option string :=
  n ← harness ≫= hi_name; if validate_label n then Some n else None.

Definition admit_client (a : Attach) (harness : option HarnessId) (rest : bytes) (f : Front) :
    host (AttachOutcome * Front) :=
  let identity := identity_of <$> harness in
  let! trust := current_trust in
  match trust with
  | Err _ => hret (Rejected, (send_reply a f (AttachRefused "trust record unreadable")).2)
  | Ok trust =>
      let admission := decide_admission trust identity in
      let! _ := announce admission RelaySurface (reported_name harness) in
      match admission with
      | Refused =>
          hret (Rejected, (send_reply a f (AttachRefused "harness not in trusted-client allowlist")).2)
      | Admit posture =>
          if bool_decide (is_Some (at_sweep_clone a)) then hret (Rejected, f)
          else
            (* a stream is named by its connection; alone, it is connection 0 *)
            match register (fr_registry f) (mkRegistered identity posture 0) with
            | None => hret (Rejected, f)
            | Some (slot, registry) =>
                match try_acquire MAX_HARNESS_CLIENTS (fr_count f) with
                | None =>
                    let '(_, f) := send_reply a f (AttachUnavailable "broker at capacity or shutting down") in
                    hret (Rejected, mkFront (deregister registry slot) (fr_count f) (fr_replies f))
                | Some count =>
                    let '(written, f) := send_reply a (mkFront registry count (fr_replies f)) AttachAccepted in
                    if written then hret (OutcomeClient identity posture slot rest, f)
                    else hret (Rejected, mkFront (deregister registry slot) (decr count) (fr_replies f))
                end
            end
      end
  end.

(** [admit] past the same-user check: attestation, handshake and the attach frame. *)
Definition admit_same_user (a : Attach) (f : Front) : host (AttachOutcome * Front) :=
  match at_attest a with
  | Err _ => let! _ := audit_record (attach_refused "peer attestation failed") in hret (Rejected, f)
  | Ok _ =>
      if bool_decide (is_Some (at_clone a)) then hret (Rejected, f)
      else
        match server_handshake a with
        | (Err _, _) => let! _ := audit_record (attach_refused "handshake failed") in hret (Rejected, f)
        | (Ok label, input) =>
            match bridge_read (T := AttachRequest) input with
            | (Ok (Some AttachBrowser), rest) => admit_browser a label rest f
            | (Ok (Some (AttachClient harness)), rest) => admit_client a harness rest f
            | (Ok None, _) | (Err _, _) => hret (Rejected, f)
            end
        end
  end.

Definition admit_connection (a : Attach) (f : Front) : host (AttachOutcome * Front) :=
  match at_peer_uid a with
  | Some (Err _) => let! _ := audit_record (attach_refused "peer uid unknown") in hret (Rejected, f)
  | Some (Ok uid) =>
      if (uid =? at_euid a)%Z then admit_same_user a f
      else let! _ := audit_record (attach_refused "peer uid mismatch") in hret (Rejected, f)
  | None => admit_same_user a f
  end.
End attach.

(** * The serve loop *)

(** The governor crate's direct rate limiter: [check] at a time. *)
Class Governor := {
  Limiter : Type;
  limiter_direct : Limiter;
  limiter_check : Z -> Limiter -> bool * Limiter
}.

Section serve.
Context `{RM : Rmcp, JR : !JsonCodec JsonRpc, GV : Governor}.

Inductive ServedPeer :=
| OwnHarness (identity : option ClientIdentity) (posture : Posture)
| Relay (identity : option ClientIdentity) (posture : Posture) (limiter : Limiter).

Definition relay_peer (identity : option ClientIdentity) (posture : Posture) : ServedPeer :=
  Relay identity posture limiter_direct.

Definition peer_who (peer : ServedPeer) : string :=
  match peer with OwnHarness _ _ => "the broker's own harness" | Relay _ _ _ => "relay harness" end.
Definition peer_identity (peer : ServedPeer) : option ClientIdentity :=
  match peer with OwnHarness identity _ | Relay identity _ _ => identity end.
Definition peer_posture (peer : ServedPeer) : Posture :=
  match peer with OwnHarness _ posture | Relay _ posture _ => posture end.

(** What one turn of the loop finds: the clock, the trust record, the engine, and
    whether its write fails. *)
Record Turn := mkTurn {
  tn_now : Z;
  tn_trust : result io_error Trust;
  tn_waits : Waits;
  tn_fault : option io_error
}.

(** What a turn did, in order: a message handed to the engine, a frame written. *)
Inductive ServeEvent :=
| Dispatched (turn : nat) (msg : JsonRpc)
| Wrote (msg : JsonRpc).

(** The rate limit, the relay's alone. *)
Definition rate_check (now : Z) (peer : ServedPeer) : bool * ServedPeer :=
  match peer with
  | OwnHarness _ _ => (true, peer)
  | Relay identity posture limiter =>
      let '(ok, limiter) := limiter_check now limiter in (ok, Relay identity posture limiter)
  end.

Definition parse_error_reply (e : io_error) : JsonRpc :=
  rpc_err JNull (-32700) ("parse error: " +:+ io_msg e).

(** The loop from turn [i] on. Every turn that continues consumed a line, so one
    unit of fuel per remaining byte is enough ([serve_loop_ends]). *)
Fixpoint serve_loop (fuel i : nat) (turns : nat -> Turn) (peer : ServedPeer) (service : Service)
    (input : bytes) : option (result io_error unit * list ServeEvent) :=
  match fuel with
  | O => None
  | S fuel =>
      let turn := turns i in
      let continue evs peer service rest :=
        '(r, more) ← serve_loop fuel (S i) turns peer service rest; Some (r, evs ++ more) in
      match mcp_read (T := JsonRpc) input with
      | (Ok None, _) => Some (Ok tt, [])
      | (Err e, rest) =>
          if negb (bool_decide (io_kind e = InvalidData)) then Some (Err e, [])
          else
            match tn_fault turn with
            | Some e => Some (Err e, [])
            | None => continue [Wrote (parse_error_reply e)] peer service rest
            end
      | (Ok (Some msg), rest) =>
          let '(allowed, peer) := rate_check (tn_now turn) peer in
          if negb allowed then Some (Err (other "relay rate limit exceeded"), [])
          else
            match request_admission (peer_who peer) (peer_identity peer) (peer_posture peer) (tn_trust turn) with
            | Err e => Some (Err e, [])
            | Ok _ =>
                match handle (tn_waits turn) msg service with
                | (Err e, _) => Some (Err e, [Dispatched i msg])
                | (Ok None, service) => continue [Dispatched i msg] peer service rest
                | (Ok (Some resp), service) =>
                    match tn_fault turn with
                    | Some e => Some (Err e, [Dispatched i msg])
                    | None => continue [Dispatched i msg; Wrote resp] peer service rest
                    end
                end
            end
      end
  end.

(** [serve_jsonrpc], its connection opened. *)
Definition serve_jsonrpc (turns : nat -> Turn) (peer : ServedPeer) (input : bytes) :
    option (result io_error unit * list ServeEvent) :=
  serve_loop (S (length input)) 0 turns peer Opening input.
End serve.

(** * The relay's side *)

Inductive RelayOutcome := RelayRetry | RelayDenied.

Record RelayIo := mkRelayIo {
  rl_connect : result io_error unit;
  rl_attest : result io_error unit;
  rl_clone : option io_error;
  rl_secret : result io_error string;
  rl_response : option io_error;
  rl_attach : option io_error;
  rl_input : bytes
}.

Section relay.
Context `{DG : Digest, ML : MacLib, JH : !JsonCodec Handshake, JP : !JsonCodec AttachReply}.

Definition client_handshake (io : RelayIo) : result io_error unit * bytes :=
  match rl_secret io with
  | Err e => (Err e, rl_input io)
  | Ok secret =>
      let '(r, (_, rest)) := client_handshake_with_secret secret None (rl_response io) (rl_input io) in (r, rest)
  end.

(** [run_relay] up to its pumps; [None] once attached. *)
Definition run_relay (io : RelayIo) : option RelayOutcome :=
  match rl_connect io with
  | Err _ => Some RelayRetry
  | Ok _ =>
      match rl_attest io with
      | Err _ => Some RelayDenied
      | Ok _ =>
          if bool_decide (is_Some (rl_clone io)) then Some RelayRetry
          else
            match client_handshake io with
            | (Err _, _) => Some RelayRetry
            | (Ok _, input) =>
                if bool_decide (is_Some (rl_attach io)) then Some RelayRetry
                else
                  match (bridge_read (T := AttachReply) input).1 with
                  | Ok (Some AttachAccepted) => None
                  | Ok (Some (AttachRefused _)) => Some RelayDenied
                  | Ok (Some (AttachUnavailable _)) => Some RelayRetry
                  | Ok None | Err _ => Some RelayRetry
                  end
            end
      end
  end.
End relay.

(** [pump_lines]: the bytes written; [faults] are the writer's, per line. *)
Fixpoint pump_loop (fuel i : nat) (faults : nat -> option io_error) (cap : Z) (s : bytes) :
    option (result io_error unit * bytes) :=
  match fuel with
  | O => None
  | S fuel =>
      let '(line, rest) := read_until (Z.to_nat (cap + 1)) s in
      if (length line =? 0)%nat then Some (Ok tt, [])
      else if (cap <? Z.of_nat (length line))%Z then Some (Err (invalid_data "line exceeds the length cap"), [])
      else
        match faults i with
        | Some e => Some (Err e, [])
        | None => '(r, more) ← pump_loop fuel (S i) faults cap rest; Some (r, line ++ more)
        end
  end.

Definition pump_lines (faults : nat -> option io_error) (cap : Z) (s : bytes) :
    option (result io_error unit * bytes) :=
  if (u64_max <? cap + 1)%Z then Some (Err (IoError InvalidInput "line cap out of range"), [])
  else pump_loop (S (length s)) 0 faults cap s.

(** * Starting the server (mcp_server.rs) *)

Record Harness := mkOwnHarness { hs_id : option HarnessId; hs_posture : Posture }.

(** [Harness::client_identity]. *)
Definition client_identity (h : Harness) : option ClientIdentity := identity_of <$> hs_id h.

(** [client_name_from_env], given the variable. *)
Definition client_name_from_env (var : option string) : option string :=
  n ← var; if validate_label n then Some n else None.

(** [admit_own_harness]: [Err tt] is its [process::exit(1)], [Ok None] a refusal. *)
Definition admit_own_harness (var : option string) (parent : result io_error ClientIdentity) :
    host (result unit (option Harness)) :=
  let name := client_name_from_env var in
  let identity := ok parent in
  let! trust := current_trust in
  match trust with
  | Err _ => hret (Err tt)
  | Ok trust =>
      let admission := decide_admission trust identity in
      let! _ := announce admission StdioSurface name in
      match admission with
      | Refused => hret (Ok None)
      | Admit posture =>
          let id := (fun id => mkHarness (ci_hash id) (ci_signer id) name) <$> identity in
          hret (Ok (Some (mkOwnHarness id posture)))
      end
  end.

(** What [ipc::listen_and_publish] finds; a lost race dials the winner. *)
Inductive PublishOutcome := Published | LostRace (io : RelayIo) | PublishFailed (e : io_error).

(** How a start ends: in [run_broker], piping as a relay, or with a code. *)
Inductive ServerEnd :=
| RanBroker (identity : option ClientIdentity) (posture : Posture)
| RanRelay (harness : option HarnessId)
| ServerExit (status : Z).

Definition PUBLISH_ATTEMPTS : nat := 6.

Section server.
Context `{DG : Digest, ML : MacLib, JH : !JsonCodec Handshake, JP : !JsonCodec AttachReply}.

(** The publish-or-attach loop, [n] attempts left. *)
Fixpoint publish_or_attach (n i : nat) (publish : nat -> PublishOutcome) (h : Harness) : ServerEnd :=
  match n with
  | O => ServerExit 1
  | S n =>
      match publish i with
      | Published => RanBroker (client_identity h) (hs_posture h)
      | LostRace io =>
          match run_relay io with
          | None => RanRelay (hs_id h)
          | Some RelayDenied => ServerExit 1
          | Some RelayRetry => publish_or_attach n (S i) publish h
          end
      | PublishFailed _ => ServerExit 1
      end
  end.

(** [mcp_server::run]. *)
Definition run_server (signals : result io_error unit) (own : result io_error string) (var : option string)
    (parent : result io_error ClientIdentity) (publish : nat -> PublishOutcome) : host ServerEnd :=
  match signals, own with
  | Err _, _ | _, Err _ => hret (ServerExit 1)
  | Ok _, Ok _ =>
      let! admitted := admit_own_harness var parent in
      match admitted with
      | Err _ | Ok None => hret (ServerExit 1)
      | Ok (Some h) => hret (publish_or_attach PUBLISH_ATTEMPTS 0 publish h)
      end
  end.
End server.

(** * Lemmas: admission *)

Section attach_lemmas.
Context `{DG : Digest, ML : MacLib, JH : !JsonCodec Handshake, JA : !JsonCodec AttachRequest}.

(** The peer is the same user where that is checked, is our binary, and proved it
    holds the lock's secret over this connection's nonce, label included; [input] is
    what follows the handshake. *)
Definition authentic (a : Attach) (label : option BrowserLabel) (input : bytes) : Prop :=
  (forall r, at_peer_uid a = Some r -> r = Ok (at_euid a)) /\ is_ok (at_attest a) = true /\
  exists secret nonce hex mac,
    at_secret a = Ok secret /\ at_nonce a = Ok nonce /\
    bridge_read (at_input a) = (Ok (Some (Response hex label)), input) /\
    hmac_new (as_bytes secret) = Some mac /\
    hex_decode hex = Some (mac (handshake_mac_message nonce label)).

Lemma server_handshake_authentic a label input :
  server_handshake a = (Ok label, input) ->
  exists secret nonce hex mac,
    at_secret a = Ok secret /\ at_nonce a = Ok nonce /\
    bridge_read (at_input a) = (Ok (Some (Response hex label)), input) /\
    hmac_new (as_bytes secret) = Some mac /\
    hex_decode hex = Some (mac (handshake_mac_message nonce label)).
Proof.
  unfold server_handshake. destruct (at_secret a) as [secret|]; [|done].
  destruct (server_handshake_with_secret secret _ _ _) as [r [out rest]] eqn:E. intros [= -> ->].
  apply server_handshake_Ok in E as (n & msg & Hn & _ & Hr & Hv).
  apply server_verdict_Ok in Hv as (hex & mac & -> & Hm & Hh & _).
  by exists secret, n, hex, mac.
Qed.

(** Only an accepting reply, or none of that kind. *)
Definition refusing (l : list AttachReply) : Prop := AttachAccepted ∉ l.

Lemma send_reply_cases a f reply written f' :
  send_reply a f reply = (written, f') ->
  fr_registry f' = fr_registry f /\ fr_count f' = fr_count f /\
  fr_replies f' = fr_replies f ++ (if written then [reply] else []).
Proof.
  unfold send_reply. destruct (at_reply a); intros [= <- <-]; cbn; [by rewrite app_nil_r|done].
Qed.

(** What a rejected connection leaves: the registry and the count as they were. *)
Definition nothing_kept (f f' : Front) : Prop :=
  reg_clients (fr_registry f') = reg_clients (fr_registry f) /\
  live (fr_count f') = live (fr_count f) /\ terminal (fr_count f') = terminal (fr_count f) /\
  exists more, fr_replies f' = fr_replies f ++ more /\ refusing more.

Lemma nothing_kept_refl f : nothing_kept f f.
Proof. split_and!; try done. exists []. split; [by rewrite app_nil_r|]. unfold refusing. set_solver. Qed.

Lemma nothing_kept_reply a f reply :
  reply <> AttachAccepted -> nothing_kept f (send_reply a f reply).2.
Proof.
  intros Hr. destruct (send_reply a f reply) as [written f'] eqn:E.
  apply send_reply_cases in E as (E1 & E2 & E3). unfold nothing_kept. cbn [snd]. rewrite E1, E2, E3.
  split_and!; try done. eexists. split; [done|]. unfold refusing. destruct written; set_solver.
Qed.

Lemma admit_browser_cases a label rest f e w ad f' w' :
  admit_browser a label rest f e w = ((ad, f'), w') ->
  (ad = Rejected /\ nothing_kept f f') \/
  (ad = OutcomeBrowser (default DEFAULT_LABEL label) rest /\
   is_ok (kill_verdict (trust_current (w_trust w))) = true /\
   fr_registry f' = fr_registry f /\ fr_count f' = fr_count f /\
   fr_replies f' = fr_replies f ++ [AttachAccepted] /\
   w' = add_audit (audit_named BrowserAttach SurfBroker (default DEFAULT_LABEL label) "ok" None) w).
Proof.
  unfold admit_browser, kill_check, current_trust, asks, hbind, hret, audit_record. cbn zeta.
  destruct (kill_verdict (trust_current (w_trust w))) as [u|err] eqn:Ek.
  - destruct (send_reply a f AttachAccepted) as [written f1] eqn:Es.
    apply send_reply_cases in Es as (E1 & E2 & E3). destruct written; intros [= <- <- <-].
    + right. by split_and!.
    + left. split; [done|]. split_and!; try congruence. exists []. split; [done|]. unfold refusing. set_solver.
  - destruct (send_reply a f (AttachRefused _)) as [written f1] eqn:Es. intros [= <- <- <-].
    left. split; [done|]. replace f1 with (send_reply a f (AttachRefused "bridge kill switch engaged")).2
      by (by rewrite Es). by apply nothing_kept_reply.
Qed.

Lemma admit_client_cases a harness rest f e w ad f' w' :
  reg_clients (fr_registry f) !! reg_next_id (fr_registry f) = None -> (0 <= live (fr_count f))%Z ->
  admit_client a harness rest f e w = ((ad, f'), w') ->
  (ad = Rejected /\ nothing_kept f f') \/
  exists t posture,
    trust_current (w_trust w) = Ok t /\ decide_admission t (identity_of <$> harness) = Admit posture /\
    ad = OutcomeClient (identity_of <$> harness) posture (reg_next_id (fr_registry f)) rest /\
    reg_clients (fr_registry f') =
      <[reg_next_id (fr_registry f) := mkRegistered (identity_of <$> harness) posture 0]>
        (reg_clients (fr_registry f)) /\
    live (fr_count f') = (live (fr_count f) + 1)%Z /\ (live (fr_count f') <= MAX_HARNESS_CLIENTS)%Z /\
    terminal (fr_count f) = false /\ fr_replies f' = fr_replies f ++ [AttachAccepted] /\
    w' = add_audit (announce_record (Admit posture) RelaySurface (reported_name harness)) w.
Proof.
  intros Hfresh Hlive. unfold admit_client, current_trust, announce, asks, hbind, hret, audit_record. cbn zeta.
  destruct (trust_current (w_trust w)) as [t|err] eqn:Et; cycle 1.
  { intros [= <- <- <-]. left. split; [done|]. by apply nothing_kept_reply. }
  destruct (decide_admission t _) as [posture|] eqn:Ed; cycle 1.
  { intros [= <- <- <-]. left. split; [done|]. by apply nothing_kept_reply. }
  case_bool_decide. { intros [= <- <- <-]. left. split; [done|apply nothing_kept_refl]. }
  unfold register. destruct (checked_add_u64 _ 1) as [next|] eqn:En; cbn [mbind option_bind]; cycle 1.
  { intros [= <- <- <-]. left. split; [done|apply nothing_kept_refl]. }
  set (id := reg_next_id (fr_registry f)) in *.
  destruct (try_acquire _ _) as [g|] eqn:Ea; cycle 1.
  { destruct (send_reply a f _) as [written f1] eqn:Es. intros [= <- <- <-]. left. split; [done|].
    apply send_reply_cases in Es as (E1 & E2 & E3). split_and!; cbn; rewrite ?E2, ?E3; try done.
    - by rewrite delete_insert_id.
    - eexists. split; [done|]. unfold refusing. destruct written; set_solver. }
  apply try_acquire_Some in Ea as (Ht & Hm & _ & ->).
  destruct (send_reply a _ _) as [written f1] eqn:Es. apply send_reply_cases in Es as (E1 & E2 & E3).
  cbn in E1, E2, E3. destruct written; intros [= <- <- <-].
  - right. exists t, posture. rewrite E1, E2, E3. cbn. split_and!; try done. lia.
  - left. split; [done|]. split_and!; cbn; try lia; try done.
    + by rewrite delete_insert_id.
    + exists []. split; [done|]. unfold refusing. set_solver.
Qed.

(** C17: No connection is admitted that did not earn it, and a refused one leaves
    nothing behind. A browser is admitted only if its peer is authentic and the kill
    switch reads released; a relay only if its peer is authentic and the record, read
    once, admits the anchor its harness was measured as, and then it holds exactly one
    registry slot and one count within capacity, recorded with the posture it was
    admitted under. Every rejection restores the registry and the count, and never
    says [Accepted]. *)
Theorem admission_is_earned (a : Attach) (f f' : Front) (e : env) (w w' : world) (ad : AttachOutcome) :
  reg_clients (fr_registry f) !! reg_next_id (fr_registry f) = None -> (0 <= live (fr_count f))%Z ->
  admit_connection a f e w = ((ad, f'), w') ->
  match ad with
  | Rejected => nothing_kept f f'
  | OutcomeBrowser label rest =>
      exists lab input, label = default DEFAULT_LABEL lab /\ authentic a lab input /\
        bridge_read input = (Ok (Some AttachBrowser), rest) /\
        is_ok (kill_verdict (trust_current (w_trust w))) = true /\
        fr_registry f' = fr_registry f /\ fr_count f' = fr_count f
  | OutcomeClient identity posture slot rest =>
      exists lab input harness t, identity = identity_of <$> harness /\ authentic a lab input /\
        bridge_read input = (Ok (Some (AttachClient harness)), rest) /\
        trust_current (w_trust w) = Ok t /\ decide_admission t identity = Admit posture /\
        reg_clients (fr_registry f') = <[slot := mkRegistered identity posture 0]> (reg_clients (fr_registry f)) /\
        reg_clients (fr_registry f) !! slot = None /\
        live (fr_count f') = (live (fr_count f) + 1)%Z /\ (live (fr_count f') <= MAX_HARNESS_CLIENTS)%Z /\
        terminal (fr_count f) = false
  end.
Proof.
  intros Hfresh Hlive H.
  assert ((ad = Rejected /\ f' = f) \/
    ((forall r, at_peer_uid a = Some r -> r = Ok (at_euid a)) /\ admit_same_user a f e w = ((ad, f'), w'))) as
    [[-> ->]|[Huid Hadm]].
  { unfold admit_connection, hbind, audit_record, hret in H. destruct (at_peer_uid a) as [[uid|]|]; [|naive_solver..].
    destruct (Z.eqb_spec uid (at_euid a)) as [Eu|]; [|naive_solver]. right. split; [|done].
    intros r [= <-]. by rewrite Eu. }
  { apply nothing_kept_refl. }
  unfold admit_same_user, hbind, audit_record, hret in Hadm.
  destruct (at_attest a) as [u|] eqn:Eat; [|injection Hadm as <- <- _; apply nothing_kept_refl].
  case_bool_decide; [injection Hadm as <- <- _; apply nothing_kept_refl|].
  destruct (server_handshake a) as [[label|] input] eqn:Eh;
    [|injection Hadm as <- <- _; apply nothing_kept_refl].
  apply server_handshake_authentic in Eh.
  assert (authentic a label input) as Hauth by (split_and!; [done|by rewrite Eat|done]).
  destruct (bridge_read (T := AttachRequest) input) as [[[[|harness]|]|] rest] eqn:Er;
    try (injection Hadm as <- <- _; apply nothing_kept_refl).
  - apply admit_browser_cases in Hadm as [[-> Hn]|(-> & Hk & E1 & E2 & _)]; [done|].
    exists label, input. by split_and!.
  - apply admit_client_cases in Hadm as [[-> Hn]|(t & posture & Ht & Hd & -> & E1 & E2 & E3 & E4 & _)]; [done| |done|done].
    exists label, input, harness, t. by split_and!.
Qed.
End attach_lemmas.

(** * Lemmas: the serve loop *)

Section serve_lemmas.
Context `{RM : Rmcp, JR : !JsonCodec JsonRpc, GV : Governor}.

Lemma mcp_read_progress input r rest :
  mcp_read (T := JsonRpc) input = (r, rest) -> r = Ok None \/ length rest < length input.
Proof. apply ndjson_read_progress. unfold MCP_MAX_LINE, u64_max. lia. Qed.

Lemma rate_check_peer now peer allowed peer' :
  rate_check now peer = (allowed, peer') ->
  peer_who peer' = peer_who peer /\ peer_identity peer' = peer_identity peer /\
  peer_posture peer' = peer_posture peer.
Proof.
  unfold rate_check. destruct peer as [|identity posture limiter]; [by intros [= _ <-]|].
  destruct (limiter_check now limiter). by intros [= _ <-].
Qed.

(** What one turn does to the loop. *)
Inductive TurnEnd :=
| TurnStop (r : result io_error unit) (evs : list ServeEvent)
| TurnGo (evs : list ServeEvent) (peer : ServedPeer) (service : Service) (rest : bytes).

Definition serve_turn (i : nat) (turn : Turn) (peer : ServedPeer) (service : Service) (input : bytes) : TurnEnd :=
  match mcp_read (T := JsonRpc) input with
  | (Ok None, _) => TurnStop (Ok tt) []
  | (Err e, rest) =>
      if negb (bool_decide (io_kind e = InvalidData)) then TurnStop (Err e) []
      else
        match tn_fault turn with
        | Some e => TurnStop (Err e) []
        | None => TurnGo [Wrote (parse_error_reply e)] peer service rest
        end
  | (Ok (Some msg), rest) =>
      let '(allowed, peer) := rate_check (tn_now turn) peer in
      if negb allowed then TurnStop (Err (other "relay rate limit exceeded")) []
      else
        match request_admission (peer_who peer) (peer_identity peer) (peer_posture peer) (tn_trust turn) with
        | Err e => TurnStop (Err e) []
        | Ok _ =>
            match handle (tn_waits turn) msg service with
            | (Err e, _) => TurnStop (Err e) [Dispatched i msg]
            | (Ok None, service) => TurnGo [Dispatched i msg] peer service rest
            | (Ok (Some resp), service) =>
                match tn_fault turn with
                | Some e => TurnStop (Err e) [Dispatched i msg]
                | None => TurnGo [Dispatched i msg; Wrote resp] peer service rest
                end
            end
        end
  end.

Lemma serve_loop_turn fuel i turns peer service input :
  serve_loop (S fuel) i turns peer service input =
  match serve_turn i (turns i) peer service input with
  | TurnStop r evs => Some (r, evs)
  | TurnGo evs peer service rest =>
      '(r, more) ← serve_loop fuel (S i) turns peer service rest; Some (r, evs ++ more)
  end.
Proof.
  cbn [serve_loop]. unfold serve_turn. destruct (mcp_read input) as [[[msg|]|e] rest]; [|done|].
  - destruct (rate_check _ peer) as [allowed peer']. destruct allowed; cbn [negb]; [|done].
    destruct (request_admission _ _ _ _) as [u|]; [|done].
    destruct (handle _ msg service) as [[[resp|]|] service']; [|done|done].
    by destruct (tn_fault (turns i)).
  - destruct (negb _); [done|]. by destruct (tn_fault (turns i)).
Qed.

(** A turn's events: the answer to an unreadable line, or a message the record
    admits and what its dispatch answered. *)
Inductive turn_events (i : nat) (turn : Turn) (peer : ServedPeer) : list ServeEvent -> Prop :=
| te_none : turn_events i turn peer []
| te_parse e : turn_events i turn peer [Wrote (parse_error_reply e)]
| te_silent msg : served_by (tn_trust turn) (peer_identity peer) (peer_posture peer) ->
    turn_events i turn peer [Dispatched i msg]
| te_answer msg resp : served_by (tn_trust turn) (peer_identity peer) (peer_posture peer) ->
    rpc_id resp = rpc_id msg -> turn_events i turn peer [Dispatched i msg; Wrote resp].

Lemma handle_reply_id w msg service resp service' :
  handle w msg service = (Ok (Some resp), service') -> rpc_id resp = rpc_id msg.
Proof.
  intros H. apply handle_cases in H.
  destruct H as [(_ & [=] & _)|[(_ & _ & detail & [= H])|[(_ & _ & _ & [=])|[(_ & _ & _ & [=])|(_ & _ & H)]]]].
  - symmetry in H. by apply invalid_frame_id in H as [? _].
  - destruct H as [(e & [=] & _)|(reply & wire & [= ->] & Hc & _)]. by apply check_reply_Ok in Hc as (_ & ? & _).
Qed.

Lemma serve_turn_facts i turn peer service input :
  match serve_turn i turn peer service input with
  | TurnStop r evs => turn_events i turn peer evs
  | TurnGo evs peer' service' rest =>
      turn_events i turn peer evs /\ length rest < length input /\
      peer_who peer' = peer_who peer /\ peer_identity peer' = peer_identity peer /\
      peer_posture peer' = peer_posture peer
  end.
Proof.
  unfold serve_turn. destruct (mcp_read input) as [r rest] eqn:Em. apply mcp_read_progress in Em.
  destruct r as [[msg|]|e]; [|constructor|].
  - destruct Em as [[=]|Hlen]. destruct (rate_check _ peer) as [allowed peer'] eqn:Er.
    apply rate_check_peer in Er as (Ew & Ei & Ep). destruct allowed; cbn [negb]; [|constructor].
    rewrite Ew, Ei, Ep. destruct (request_admission _ _ _ _) as [u|] eqn:Ea; [|constructor].
    apply request_admission_Ok in Ea. destruct (handle _ msg service) as [[[resp|]|] service'] eqn:Eh.
    + destruct (tn_fault turn); [by constructor|]. apply handle_reply_id in Eh. split_and!; by try constructor.
    + split_and!; by try constructor.
    + by constructor.
  - destruct Em as [[=]|Hlen]. destruct (negb _); [constructor|]. destruct (tn_fault turn); [constructor|].
    split_and!; by try constructor.
Qed.

(** The events of a run of turns, from turn [i] on. *)
Inductive run_events (turns : nat -> Turn) (peer : ServedPeer) : nat -> list ServeEvent -> Prop :=
| re_stop i evs : turn_events i (turns i) peer evs -> run_events turns peer i evs
| re_go i evs more : turn_events i (turns i) peer evs -> run_events turns peer (S i) more ->
    run_events turns peer i (evs ++ more).

Lemma turn_events_peer i turn peer peer' evs :
  peer_identity peer' = peer_identity peer -> peer_posture peer' = peer_posture peer ->
  turn_events i turn peer' evs -> turn_events i turn peer evs.
Proof. intros Ei Ep H. destruct H; constructor; by rewrite <- ?Ei, <- ?Ep. Qed.

Lemma run_events_peer turns peer peer' i evs :
  peer_identity peer' = peer_identity peer -> peer_posture peer' = peer_posture peer ->
  run_events turns peer' i evs -> run_events turns peer i evs.
Proof.
  intros Ei Ep H. induction H; [apply re_stop|apply re_go]; by try (eapply turn_events_peer).
Qed.

Lemma serve_loop_ends fuel i turns peer service input :
  length input < fuel ->
  exists r evs, serve_loop fuel i turns peer service input = Some (r, evs) /\ run_events turns peer i evs.
Proof.
  revert i peer service input. induction fuel as [|fuel IH]; intros i peer service input Hf; [lia|].
  rewrite serve_loop_turn. pose proof (serve_turn_facts i (turns i) peer service input) as Ht.
  destruct (serve_turn _ _ _ _ _) as [r evs|evs peer' service' rest].
  - exists r, evs. split; [done|by apply re_stop].
  - destruct Ht as (Hev & Hlen & _ & Ei & Ep).
    destruct (IH (S i) peer' service' rest) as (r & more & E & Hm); [lia|]. rewrite E. cbn [mbind option_bind].
    exists r, (evs ++ more). split; [done|]. apply re_go; [done|]. by eapply run_events_peer.
Qed.

Lemma run_events_dispatched turns peer i evs j msg :
  run_events turns peer i evs -> Dispatched j msg ∈ evs ->
  served_by (tn_trust (turns j)) (peer_identity peer) (peer_posture peer).
Proof.
  assert (forall i evs, turn_events i (turns i) peer evs -> Dispatched j msg ∈ evs ->
    served_by (tn_trust (turns j)) (peer_identity peer) (peer_posture peer)) as Hturn.
  { clear i evs. intros i evs H Hin. destruct H as [|e|m Hs|m resp Hs _]; try set_solver.
    all: assert (Dispatched j msg = Dispatched i m) as [= -> ->] by set_solver; done. }
  intros H. induction H as [i evs H|i evs more H _ IH]; [by apply (Hturn i evs)|].
  intros [Hin|Hin]%elem_of_app; [by apply (Hturn i evs)|by apply IH].
Qed.

(** C18: A serve loop always ends, and only ever dispatches what the trust record
    admits at that moment. Whatever bytes a peer sends and whatever the engine, the
    clock and the record do, the loop returns by the end of the stream; each message it
    hands to the engine was read in a turn whose own read of the record serves this
    peer; each frame it writes answers, under the same id, the message dispatched just
    before it, or is the answer to a line that did not parse. *)
Theorem every_dispatch_is_gated (turns : nat -> Turn) (peer : ServedPeer) (input : bytes) :
  exists r evs, serve_jsonrpc turns peer input = Some (r, evs) /\ run_events turns peer 0 evs /\
    forall j msg, Dispatched j msg ∈ evs ->
      served_by (tn_trust (turns j)) (peer_identity peer) (peer_posture peer).
Proof.
  destruct (serve_loop_ends (S (length input)) 0 turns peer Opening input) as (r & evs & E & Hr); [lia|].
  exists r, evs. split_and!; [done..|]. intros j msg. by apply (run_events_dispatched turns peer 0).
Qed.

(** An over-long line does not end the loop. It is answered as a line that does not
    parse, and what follows its first [MCP_MAX_LINE + 1] bytes is read as the next
    message. *)
Theorem overlong_line_is_read_on (fuel i : nat) (turns : nat -> Turn) (peer : ServedPeer) (service : Service)
    (long rest : bytes) (r : result io_error unit) (evs : list ServeEvent) :
  Z.of_nat (length long) = (MCP_MAX_LINE + 1)%Z -> x0a ∉ long -> tn_fault (turns i) = None ->
  serve_loop fuel (S i) turns peer service rest = Some (r, evs) ->
  serve_loop (S fuel) i turns peer service (long ++ rest) =
    Some (r, Wrote (parse_error_reply (invalid_data "mcp frame exceeds the line-length cap")) :: evs).
Proof.
  intros Hlen Hno Hf Hrest. rewrite serve_loop_turn. unfold serve_turn, mcp_read.
  rewrite ndjson_overlong.
  - replace (Z.to_nat (MCP_MAX_LINE + 1)) with (length long) by lia.
    rewrite drop_app_length, Hf. cbn [io_kind invalid_data]. rewrite bool_decide_eq_true_2 by done. cbn [negb].
    by rewrite Hrest.
  - unfold MCP_MAX_LINE, u64_max. lia.
  - rewrite length_app. lia.
  - rewrite take_app_le by lia. intros Hin. apply Hno. apply elem_of_take in Hin as (j & Hj & _). by eapply list_elem_of_lookup_2.
Qed.
End serve_lemmas.

(** * Lemmas: the relay's pipe *)

(** Every line of the stream, its line feed included, is at most [cap] bytes; [n] is
    the length of the line so far. *)
Fixpoint lines_within (cap n : Z) (s : bytes) : bool :=
  match s with
  | [] => (n <=? cap)%Z
  | b :: s => if Byte.eqb b x0a then (n + 1 <=? cap)%Z && lines_within cap 0 s else lines_within cap (n + 1) s
  end.

Lemma lines_within_over cap n s : (cap < n)%Z -> lines_within cap n s = false.
Proof.
  revert n. induction s as [|b s IH]; intros n Hn; cbn [lines_within].
  - by apply Z.leb_gt.
  - destruct (Byte.eqb b x0a); [|apply IH; lia]. by rewrite (proj2 (Z.leb_gt _ _)) by lia.
Qed.

(** A capped read takes one line, or shows that it is over-long. *)
Lemma read_until_within cap n k s line rest :
  read_until k s = (line, rest) -> Z.of_nat k = (cap + 1 - n)%Z -> (0 <= cap)%Z ->
  lines_within cap n s = (n + Z.of_nat (length line) <=? cap)%Z && lines_within cap 0 rest.
Proof.
  intros Hr Hk Hc. revert n k line rest Hr Hk.
  induction s as [|b s IH]; intros n [|k] line rest Hr Hk; cbn [read_until] in Hr.
  - injection Hr as <- <-. cbn [length lines_within]. rewrite (proj2 (Z.leb_gt n cap)) by lia.
    by rewrite (proj2 (Z.leb_gt _ _)) by lia.
  - injection Hr as <- <-. cbn [length lines_within]. rewrite (proj2 (Z.leb_le 0 cap)), andb_true_r by lia.
    f_equal. lia.
  - injection Hr as <- <-. rewrite lines_within_over by lia. cbn [length].
    by rewrite (proj2 (Z.leb_gt _ _)) by lia.
  - cbn [lines_within]. destruct (Byte.eqb b x0a).
    + injection Hr as <- <-. done.
    + destruct (read_until k s) as [line' rest'] eqn:E. injection Hr as <- <-.
      rewrite (IH (n + 1)%Z k line' rest' E) by lia. f_equal. cbn [length]. f_equal. lia.
Qed.

Lemma pump_loop_within fuel i cap s :
  (0 <= cap)%Z -> length s < fuel ->
  exists r out rest, pump_loop fuel i (fun _ => None) cap s = Some (r, out) /\ s = out ++ rest /\
    if lines_within cap 0 s then r = Ok tt /\ rest = []
    else r = Err (invalid_data "line exceeds the length cap") /\
      (cap < Z.of_nat (length (read_until (Z.to_nat (cap + 1)) rest).1))%Z.
Proof.
  intros Hc. revert i s. induction fuel as [|fuel IH]; intros i s Hf; [lia|]. cbn [pump_loop].
  destruct (read_until (Z.to_nat (cap + 1)) s) as [line rest] eqn:E.
  rewrite (read_until_within cap 0 _ s line rest E) by lia.
  pose proof (read_until_shape _ _ _ _ E) as [Hs _].
  destruct (Nat.eqb_spec (length line) 0) as [Hl|Hl].
  - destruct line; [|done]. replace (Z.to_nat (cap + 1)) with (S (Z.to_nat cap)) in E by lia.
    apply read_until_nil in E as ->. cbn [app] in Hs. rewrite <- Hs. cbn [lines_within length].
    rewrite !(proj2 (Z.leb_le _ cap)) by lia. by exists (Ok tt), [], [].
  - destruct (Z.ltb_spec cap (Z.of_nat (length line))) as [Hover|Hin].
    + rewrite (proj2 (Z.leb_gt _ _)) by lia. eexists _, [], s. split_and!; [done..|]. cbn [andb].
      by rewrite E.
    + rewrite (proj2 (Z.leb_le _ cap)) by lia. cbn [andb].
      destruct (IH (S i) rest) as (r & out & rest' & E' & Ho & Hcase).
      { rewrite Hs, length_app in Hf. lia. }
      rewrite E'. cbn [mbind option_bind]. exists r, (line ++ out), rest'. split_and!; [done| |done].
      rewrite Hs, Ho. by rewrite app_assoc.
Qed.

(** The relay's pipe is transparent. While the writer takes what it is given,
    [pump_lines] writes exactly the bytes it read, whatever they spell, when every line
    is within the cap; otherwise it stops at the first over-long line with everything
    before it forwarded and nothing of it. It always ends. *)
Theorem relay_pipe_is_transparent (cap : Z) (s : bytes) :
  (0 <= cap < u64_max)%Z ->
  if lines_within cap 0 s then pump_lines (fun _ => None) cap s = Some (Ok tt, s)
  else exists out rest, s = out ++ rest /\
    (cap < Z.of_nat (length (read_until (Z.to_nat (cap + 1)) rest).1))%Z /\
    pump_lines (fun _ => None) cap s = Some (Err (invalid_data "line exceeds the length cap"), out).
Proof.
  intros Hc. unfold pump_lines. destruct (Z.ltb_spec u64_max (cap + 1)); [lia|].
  destruct (pump_loop_within (S (length s)) 0 cap s) as (r & out & rest & E & Hs & Hcase); [lia..|].
  rewrite E. destruct (lines_within cap 0 s).
  - destruct Hcase as [-> ->]. rewrite app_nil_r in Hs. by rewrite Hs.
  - destruct Hcase as [-> Hover]. by exists out, rest.
Qed.

Lemma relay_pipe_is_transparent_witness :
  pump_lines (fun _ => None) 4 [x61; x0a; x62; x63] = Some (Ok tt, [x61; x0a; x62; x63]).
Proof. apply (relay_pipe_is_transparent 4 [x61; x0a; x62; x63]). unfold u64_max. lia. Defined.

(** A relay gives up only when it must. It is denied exactly when the process at
    the socket is not the bridge's own binary or the broker refused the harness;
    anything transient is retried, and it pipes only after the broker accepted it over
    an authenticated connection. *)
Theorem relay_is_denied_only_by_a_verdict
    `{DG : Digest, ML : MacLib, JH : !JsonCodec Handshake, JP : !JsonCodec AttachReply} (io : RelayIo) :
  (run_relay io = Some RelayDenied <->
     is_ok (rl_connect io) = true /\
     (is_ok (rl_attest io) = false \/
      is_ok (rl_attest io) = true /\ rl_clone io = None /\ rl_attach io = None /\
      exists input reason, client_handshake io = (Ok tt, input) /\
        (bridge_read (T := AttachReply) input).1 = Ok (Some (AttachRefused reason)))) /\
  (run_relay io = None ->
     is_ok (rl_connect io) = true /\ is_ok (rl_attest io) = true /\
     exists input secret nonce rest, client_handshake io = (Ok tt, input) /\ rl_secret io = Ok secret /\
       bridge_read (rl_input io) = (Ok (Some (Challenge nonce)), rest) /\
       (bridge_read (T := AttachReply) input).1 = Ok (Some AttachAccepted)).
Proof.
  unfold run_relay. destruct (rl_connect io) as [u|]; cbn [is_ok]; [|naive_solver].
  destruct (rl_attest io) as [u'|]; cbn [is_ok]; [|naive_solver].
  destruct (rl_clone io); [rewrite bool_decide_eq_true_2 by done; naive_solver|].
  rewrite bool_decide_eq_false_2 by (by intros []).
  destruct (client_handshake io) as [[[]|] input] eqn:Eh; [|naive_solver].
  destruct (rl_attach io); [rewrite bool_decide_eq_true_2 by done; naive_solver|].
  rewrite bool_decide_eq_false_2 by (by intros []).
  assert (exists secret nonce rest, rl_secret io = Ok secret /\
    bridge_read (rl_input io) = (Ok (Some (Challenge nonce)), rest)) as (secret & nonce & rest & Hs & Hn).
  { unfold client_handshake in Eh. destruct (rl_secret io) as [secret|]; [|done].
    unfold client_handshake_with_secret in Eh.
    destruct (bridge_read (rl_input io)) as [[[[nonce|mac label]|]|] rest]; try done. eauto. }
  destruct (bridge_read (T := AttachReply) input).1 as [[[|reason|reason]|]|] eqn:Er;
    (split; [split|]); intros H; try discriminate H.
  all: try (destruct H as (_ & [?|(_ & _ & _ & input' & reason' & [= <-] & Hr)]); congruence).
  - split_and!; [done..|]. by exists input, secret, nonce, rest.
  - split; [done|]. right. split_and!; [done..|]. by exists input, reason.
Qed.

Section server_lemmas.
Context `{DG : Digest, ML : MacLib, JH : !JsonCodec Handshake, JP : !JsonCodec AttachReply}.

Lemma publish_or_attach_cases n i publish h :
  match publish_or_attach n i publish h with
  | RanBroker identity posture => identity = client_identity h /\ posture = hs_posture h
  | RanRelay harness => harness = hs_id h /\ exists k io, i <= k < i + n /\ publish k = LostRace io /\ run_relay io = None
  | ServerExit status => status = 1%Z
  end.
Proof.
  revert i. induction n as [|n IH]; intros i; cbn [publish_or_attach]; [done|].
  destruct (publish i) as [|io|e] eqn:Ep; [done| |done].
  destruct (run_relay io) as [[]|] eqn:Er; [|done|].
  - specialize (IH (S i)). destruct (publish_or_attach n (S i) publish h); [done| |done].
    destruct IH as (-> & k & io' & Hk & H). split; [done|]. exists k, io'. split; [lia|done].
  - split; [done|]. exists i, io. split; [lia|done].
Qed.

(** A server instance serves nobody it has not admitted. Whatever the start finds
    at the socket, it becomes the broker or a relay only if the trust record was
    readable and admits the parent it measured, and then it hands on exactly that
    identity and posture; a relay was accepted by the broker within six attempts.
    Every other way out is a non-zero status, and the verdict is in the audit trail. *)
Theorem server_serves_only_an_admitted_harness (signals : result io_error unit) (own : result io_error string)
    (var : option string) (parent : result io_error ClientIdentity) (publish : nat -> PublishOutcome)
    (e : env) (w w' : world) (r : ServerEnd) :
  run_server signals own var parent publish e w = (r, w') ->
  (exists status, r = ServerExit status /\ status <> 0%Z) \/
  (exists t posture, trust_current (w_trust w) = Ok t /\ decide_admission t (ok parent) = Admit posture /\
     w' = add_audit (announce_record (Admit posture) StdioSurface (client_name_from_env var)) w /\
     (r = RanBroker (ok parent) posture \/
      exists h k io, r = RanRelay h /\ identity_of <$> h = ok parent /\ k < PUBLISH_ATTEMPTS /\
        publish k = LostRace io /\ run_relay io = None)).
Proof.
  unfold run_server, admit_own_harness, current_trust, announce, audit_record, asks, hbind, hret. cbn zeta.
  destruct signals as [[]|]; [|intros [= <- _]; left; by eexists].
  destruct own as [o|]; [|intros [= <- _]; left; by eexists].
  destruct (trust_current (w_trust w)) as [t|] eqn:Et; [|intros [= <- _]; left; by eexists].
  destruct (decide_admission t (ok parent)) as [posture|] eqn:Ed; [|intros [= <- _]; left; by eexists].
  intros H. apply pair_equal_spec in H as [Hr <-]. match type of Hr with publish_or_attach _ _ _ ?h = _ => set (own := h) in Hr end.
  pose proof (publish_or_attach_cases PUBLISH_ATTEMPTS 0 publish own) as Hc. rewrite Hr in Hc.
  assert (client_identity own = ok parent) as Hid.
  { unfold client_identity, own. cbn. by destruct (ok parent) as [[]|]. }
  destruct r as [identity posture'|h|status].
  - destruct Hc as [-> ->]. right. exists t, posture. split_and!; [done..|]. left. by rewrite Hid.
  - destruct Hc as (-> & k & io & Hk & Hp & Hn). right. exists t, posture. split_and!; [done..|]. right.
    exists (hs_id own), k, io. split_and!; try done; lia.
  - left. exists status. split; [done|]. by rewrite Hc.
Qed.
End server_lemmas.

(** * Witnesses *)

(** A paired harness whose relay attaches over a concrete codec and MAC, and an
    engine that echoes. *)
Module ServeExample.
Import HandshakeExample.
#[export] Instance handshake_json : JsonCodec Handshake := HandshakeExample.json.
#[export] Instance handshake_json_ok : JsonCodecOk Handshake := HandshakeExample.json_ok.

Definition attach_tuple (r : AttachRequest) : bool * list (string * (list string * list string)) :=
  match r with
  | AttachBrowser => (true, [])
  | AttachClient None => (false, [])
  | AttachClient (Some h) =>
      (false, [(hi_hash h, (option_list (hi_signer h), option_list (hi_name h)))])
  end.
Definition tuple_attach (t : bool * list (string * (list string * list string))) : AttachRequest :=
  match t with
  | (true, _) => AttachBrowser
  | (false, []) => AttachClient None
  | (false, (h, (s, n)) :: _) => AttachClient (Some (mkHarness h (head s) (head n)))
  end.
Lemma attach_tuple_iso r : tuple_attach (attach_tuple r) = r.
Proof. by destruct r as [|[[h [] []]|]]. Qed.
Definition c_attach : codec AttachRequest :=
  c_iso (c_pair c_bool (c_list (c_pair c_string (c_pair (c_list c_string) (c_list c_string)))))
    tuple_attach attach_tuple attach_tuple_iso.
#[export] Instance attach_json : JsonCodec AttachRequest := line_codec c_attach.
#[export] Instance attach_json_ok : JsonCodecOk AttachRequest := line_codec_ok c_attach.

Definition harness : HarnessId := mkHarness "aa" None (Some "claude").
Definition response : Handshake :=
  Response (String.string_of_list_byte (HandshakeExample.mac (handshake_mac_message "n0" None))) None.
Definition attach_frame : bytes := bridge_write (AttachClient (Some harness)).
Definition dial : Attach :=
  mkAttach (Some (Ok 501%Z)) 501 (Ok tt) None (Ok "s3cr") (Ok "n0") None None None
    (bridge_write response ++ attach_frame).
Definition front : Front := mkFront ClientRegistry_new (mkCount 1 false) [].
Definition w : world := mkWorld (Stored BrokerExample.paired) Absent Absent Absent (Ok None) [] 1000.
Definition after : (AttachOutcome * Front) * world :=
  ((OutcomeClient (Some BrokerExample.ident) (Trusted "claude") 1 [],
    mkFront (mkRegistry 2 {[1%Z := mkRegistered (Some BrokerExample.ident) (Trusted "claude") 0]}) (mkCount 2 false)
      [AttachAccepted]),
   add_audit (announce_record (Admit (Trusted "claude")) RelaySurface (Some "claude")) w).

Lemma dial_handshake : server_handshake dial = (Ok None, attach_frame).
Proof.
  unfold server_handshake. cbn [at_secret dial at_nonce at_challenge at_input].
  unfold server_handshake_with_secret. rewrite bridge_read_written by (vm_compute; reflexivity). reflexivity.
Qed.

Lemma dial_admitted : admit_connection dial front calm w = after.
Proof.
  unfold admit_connection. cbn [at_peer_uid dial at_euid]. rewrite Z.eqb_refl. unfold admit_same_user.
  cbn [at_attest at_clone]. rewrite bool_decide_eq_false_2 by (by intros []). rewrite dial_handshake.
  unfold attach_frame. rewrite <- (app_nil_r (bridge_write _)).
  rewrite bridge_read_written by (vm_compute; reflexivity). vm_compute. reflexivity.
Qed.

(** Codecs no law is asked of, and a limiter that never refuses. *)
#[export] Instance reply_json : JsonCodec AttachReply := {| to_vec _ := [x30]; from_slice _ := Err "expected value" |}.
#[export] Instance rpc_json : JsonCodec JsonRpc := {| to_vec _ := [x30]; from_slice _ := Err "expected value" |}.
#[export] Instance governor : Governor := {| Limiter := unit; limiter_direct := tt; limiter_check _ _ := (true, tt) |}.

Definition turn : Turn := mkTurn 0 (Ok BrokerExample.paired) ConnectionExample.ping_waits None.
Definition peer : ServedPeer := relay_peer (Some BrokerExample.ident) (Trusted "claude").
Definition long : bytes := replicate (Z.to_nat (MCP_MAX_LINE + 1)) x61.

Lemma mcp_read_nil : mcp_read (T := JsonRpc) [] = (Ok None, []).
Proof.
  unfold mcp_read, ndjson_read_capped. change (u64_max <? MCP_MAX_LINE + 1)%Z with false. cbn [length ndjson_loop].
  by destruct (Z.to_nat (MCP_MAX_LINE + 1)).
Qed.

Lemma ends_at_eof : serve_loop 1 1 (fun _ => turn) peer Opening [] = Some (Ok tt, []).
Proof. rewrite serve_loop_turn. unfold serve_turn. by rewrite mcp_read_nil. Qed.
End ServeExample.

#[local] Existing Instances HandshakeExample.digest HandshakeExample.mac_lib ServeExample.handshake_json
  ServeExample.attach_json ServeExample.reply_json ServeExample.rpc_json ServeExample.governor
  ConnectionExample.rmcp.

Lemma admission_is_earned_witness :
  exists lab input, @authentic HandshakeExample.mac_lib ServeExample.handshake_json ServeExample.dial lab input.
Proof.
  destruct (@admission_is_earned HandshakeExample.mac_lib ServeExample.handshake_json ServeExample.attach_json
    ServeExample.dial ServeExample.front ServeExample.after.1.2 calm ServeExample.w ServeExample.after.2
    ServeExample.after.1.1 eq_refl ltac:(cbn; lia) ServeExample.dial_admitted) as (lab & input & _ & _ & _ & H & _).
  by exists lab, input.
Defined.

Lemma server_serves_only_an_admitted_harness_witness :
  exists t posture, trust_current (w_trust ServeExample.w) = Ok t /\
    decide_admission t (Some BrokerExample.ident) = Admit posture.
Proof.
  pose (publish := fun _ : nat => Published).
  destruct (@server_serves_only_an_admitted_harness HandshakeExample.digest HandshakeExample.mac_lib
    ServeExample.handshake_json ServeExample.reply_json
    (Ok tt) (Ok "self") (Some "claude") (Ok BrokerExample.ident) publish calm ServeExample.w
    (run_server (Ok tt) (Ok "self") (Some "claude") (Ok BrokerExample.ident) publish calm ServeExample.w).2
    (RanBroker (Some BrokerExample.ident) (Trusted "claude"))) as [(s & [=] & _)|(t & p & Ht & Hd & _)].
  - vm_compute. reflexivity.
  - by exists t, p.
Defined.

Lemma overlong_line_is_read_on_witness :
  serve_loop 2 0 (fun _ => ServeExample.turn) ServeExample.peer Opening (ServeExample.long ++ []) =
    Some (Ok tt, [Wrote (parse_error_reply (invalid_data "mcp frame exceeds the line-length cap"))]).
Proof.
  apply (overlong_line_is_read_on 1 0 (fun _ => ServeExample.turn) ServeExample.peer Opening ServeExample.long []
    (Ok tt) []).
  - unfold ServeExample.long. rewrite length_replicate. unfold MCP_MAX_LINE. lia.
  - unfold ServeExample.long. intros H. by apply elem_of_replicate in H as [? _].
  - reflexivity.
  - apply ServeExample.ends_at_eof.
Defined.
