(* ===== verification/Envelopes.v ===== *)
(** Envelopes: the JSON of the lines that cross the bridge socket and the harness's pipe
    (src/src/packages/core/src/protocol.rs): [Handshake], [HarnessId], [AttachRequest],
    [AttachReply], [BridgeReq] with the command of tools/catalogue.rs, [BridgeResp],
    [ParsedResp], [BridgeSignal] and [JsonRpc].

    serde's derived readers are translated at the level the types state. A struct is an
    object, or an array of exactly its fields in order; a declared member may not repeat, an
    undeclared one is refused where the type says [deny_unknown_fields]; a tagged enum takes
    its tag out first. The text of a document is the class [JsonText]: the tree it spells,
    repeated members kept. *)
From S2P Require Import Prelude Json RuntimeRecord Policy Identity Trust PolicyRecord PrefixCodec World Messages PolicyStore PolicyPlan ToolArgs Catalogue Wire Frames Control Replies Handshake Connection Serve.
From stdpp Require Import base list sets strings.

(** * Reading members *)

(** Each declared member at most once. *)
Fixpoint repeated (fields : list string) (m : members) : option string :=
  match fields with
  | [] => None
  | f :: fields =>
      if (1 <? length (List.filter (fun kv => String.eqb kv.1 f) m))%nat then Some f else repeated fields m
  end.

Definition once (fields : list string) (m : members) : result args_error unit :=
  match repeated fields m with Some f => Err (UnknownField f) | None => Ok tt end.

(** The members of a struct: those of an object, or the items of an array by position. *)
Definition as_struct (fields : list string) (j : json) : result args_error members :=
  match j with
  | JObj m => _ ← once fields m; Ok m
  | JArr l => if (length l =? length fields)%nat then Ok (zip fields l) else Err (InvalidType "")
  | _ => Err (InvalidType "")
  end.

(** An internally tagged enum: the tag's text, then the members of the variant it names. *)
Definition as_tagged {V} (tag : string) (variant : string -> option (V * list string)) (j : json) :
    result args_error (V * members) :=
  match j with
  | JObj m =>
      _ ← once [tag] m;
      t ← needed str_take tag m;
      '(v, fields) ← ok_or (variant t) (InvalidType tag);
      let m := List.filter (fun kv => negb (String.eqb kv.1 tag)) m in
      _ ← once fields m; _ ← deny_unknown_fields fields m; Ok (v, m)
  | JArr (t :: l) =>
      t ← str_take tag t;
      '(v, fields) ← ok_or (variant t) (InvalidType tag);
      if (length l =? length fields)%nat then Ok (v, zip fields l) else Err (InvalidType tag)
  | _ => Err (InvalidType tag)
  end.

(** * Member types *)

Definition i32_take (name : string) (j : json) : result args_error Z :=
  match j with
  | JInt n => if (- 2 ^ 31 <=? n)%Z && (n <=? 2 ^ 31 - 1)%Z then Ok n else Err (InvalidType name)
  | _ => Err (InvalidType name)
  end.

(** [serde_json::Value]: anything. *)
Definition value_take (_ : string) (j : json) : result args_error json := Ok j.

Definition hash_take (name : string) (j : json) : result args_error HashDigest :=
  s ← str_take name j; map_err (fun _ => OutOfRange name) (HashDigest_try_from s).
Definition signer_take (name : string) (j : json) : result args_error SignerId :=
  s ← str_take name j; map_err (fun _ => OutOfRange name) (SignerId_try_from s).

(** * The envelopes *)

(** A type of the wire: what is written for a value, and what is read; a value that was
    read is one whose own writing is read as it. *)
Class Envelope (T : Type) := {
  env_put : T -> json;
  env_take : json -> result args_error T
}.
Class EnvelopeOk (T : Type) `{!Envelope T} := {
  env_rereads : forall j t, env_take j = Ok t -> env_take (env_put t) = Ok t
}.

(** ** Handshake *)

Inductive HandshakeTag := HtChallenge | HtResponse.
Definition handshake_variant (t : string) : option (HandshakeTag * list string) :=
  if String.eqb t "challenge" then Some (HtChallenge, ["nonce"])
  else if String.eqb t "response" then Some (HtResponse, ["mac"; "label"])
  else None.

#[export] Instance Handshake_envelope : Envelope Handshake := {|
  env_put h :=
    match h with
    | Challenge nonce => JObj [("type", JStr "challenge"); ("nonce", JStr nonce)]
    | Response mac label =>
        JObj (("type", JStr "response") :: ("mac", JStr mac) :: opt_put "label" JStr label)
    end;
  env_take j :=
    '(t, m) ← as_tagged "type" handshake_variant j;
    match t with
    | HtChallenge => nonce ← needed str_take "nonce" m; Ok (Challenge nonce)
    | HtResponse =>
        mac ← needed str_take "mac" m; label ← optional str_take "label" m; Ok (Response mac label)
    end
|}.

#[export] Instance Handshake_envelope_ok : EnvelopeOk Handshake.
Proof. split. intros j [nonce|mac [label|]] _; reflexivity. Qed.

(** ** Attach *)

#[export] Instance HarnessId_envelope : Envelope HarnessId := {|
  env_put h :=
    JObj (("hash", JStr (hi_hash h)) :: opt_put "signer" JStr (hi_signer h) ++ opt_put "name" JStr (hi_name h));
  env_take j :=
    m ← as_struct ["hash"; "signer"; "name"] j;
    _ ← deny_unknown_fields ["hash"; "signer"; "name"] m;
    hash ← needed hash_take "hash" m; signer ← optional signer_take "signer" m;
    name ← optional str_take "name" m; Ok (mkHarness hash signer name)
|}.

Lemma hash_reread name j h : hash_take name j = Ok h -> hash_take name (JStr h) = Ok h.
Proof.
  unfold hash_take. intros H. inv_res. cbn. unfold HashDigest_try_from in *.
  destruct (_ && _) eqn:E; [|done]. injection H as <-. by rewrite E.
Qed.

Lemma signer_reread name j s : signer_take name j = Ok s -> signer_take name (JStr s) = Ok s.
Proof.
  unfold signer_take. intros H. inv_res. cbn. unfold SignerId_try_from in *.
  destruct (str_is_empty _) eqn:E1; [done|]. destruct (str_contains _ _) eqn:E2; [done|]. injection H as <-.
  by rewrite E1, E2.
Qed.

(** What an optional member was read from. *)
Lemma optional_Ok {T} (take : string -> json -> result args_error T) name m o :
  optional take name m = Ok o ->
  match o with Some v => exists j, take name j = Ok v | None => True end.
Proof.
  unfold optional. destruct (member name m) as [j|]; [|by intros [= <-]].
  destruct j; intros H; try (injection H as <-; done); apply fmap_Ok in H as (v & Hv & <-); eauto.
Qed.
Lemma needed_Ok {T} (take : string -> json -> result args_error T) name m v :
  needed take name m = Ok v -> exists j, take name j = Ok v.
Proof. unfold needed. destruct (member name m) as [j|]; [eauto|done]. Qed.

#[export] Instance HarnessId_envelope_ok : EnvelopeOk HarnessId.
Proof.
  split. intros j [hash signer name] H. cbn [env_take HarnessId_envelope] in H. inv_res.
  match goal with H : needed hash_take _ _ = Ok _ |- _ => apply needed_Ok in H as (? & Hh%hash_reread) end.
  match goal with H : optional signer_take _ _ = Ok _ |- _ => apply optional_Ok in H as Hs end.
  assert (forall s, signer = Some s -> signer_take "signer" (JStr s) = Ok s) as Hs'.
  { intros s ->. destruct Hs as (? & Hs). by eapply signer_reread. }
  destruct signer as [s|], name as [n|]; cbn -[hash_take signer_take]; rewrite ?Hh; cbn -[signer_take];
    rewrite ?(Hs' _ eq_refl); reflexivity.
Qed.

Definition harness_take (_ : string) (j : json) : result args_error HarnessId := env_take j.

Definition attach_variant (t : string) : option (bool * list string) :=
  if String.eqb t "browser" then Some (true, [])
  else if String.eqb t "client" then Some (false, ["harness"])
  else None.

#[export] Instance AttachRequest_envelope : Envelope AttachRequest := {|
  env_put r :=
    match r with
    | AttachBrowser => JObj [("attach", JStr "browser")]
    | AttachClient harness => JObj (("attach", JStr "client") :: opt_put "harness" env_put harness)
    end;
  env_take j :=
    '(browser, m) ← as_tagged "attach" attach_variant j;
    if (browser : bool) then Ok AttachBrowser
    else harness ← optional harness_take "harness" m; Ok (AttachClient harness)
|}.

Lemma as_tagged_put {V} tag (variant : string -> option (V * list string)) t v fields m :
  variant t = Some (v, fields) -> once [tag] ((tag, JStr t) :: m) = Ok tt ->
  List.filter (fun kv => negb (String.eqb kv.1 tag)) m = m -> once fields m = Ok tt ->
  deny_unknown_fields fields m = Ok tt -> as_tagged tag variant (JObj ((tag, JStr t) :: m)) = Ok (v, m).
Proof.
  intros Hv Ho Hf H1 H2. unfold as_tagged. rewrite Ho. cbn [mbind result_mbind]. unfold needed, member.
  cbn [List.find fst]. rewrite String.eqb_refl. cbn [fmap option_fmap option_map snd str_take mbind result_mbind].
  rewrite Hv. cbn [ok_or mbind result_mbind List.filter fst]. rewrite String.eqb_refl. cbn [negb].
  by rewrite Hf, H1, H2.
Qed.

#[export] Instance AttachRequest_envelope_ok : EnvelopeOk AttachRequest.
Proof.
  split. intros j [|[h|]] H; [reflexivity| |reflexivity]. cbn [env_take AttachRequest_envelope] in H.
  apply bind_Ok in H as ([browser m] & _ & H). destruct browser; [done|]. apply bind_Ok in H as (o & Ho & H).
  injection H as ->. apply optional_Ok in Ho as (j' & Hh). unfold harness_take in Hh. apply env_rereads in Hh.
  cbn [env_put env_take AttachRequest_envelope].
  rewrite (as_tagged_put _ _ "client" false ["harness"]) by done. cbn [mbind result_mbind].
  unfold optional, opt_put, member. cbn [List.find fst fmap option_fmap option_map snd]. cbn -[env_put env_take harness_take].
  unfold harness_take. destruct (env_put h) eqn:E; [discriminate E|..]; by rewrite Hh.
Qed.

Inductive ReplyTag := RtAccepted | RtRefused | RtUnavailable.
Definition attach_reply_variant (t : string) : option (ReplyTag * list string) :=
  if String.eqb t "accepted" then Some (RtAccepted, [])
  else if String.eqb t "refused" then Some (RtRefused, ["reason"])
  else if String.eqb t "unavailable" then Some (RtUnavailable, ["reason"])
  else None.

#[export] Instance AttachReply_envelope : Envelope AttachReply := {|
  env_put r :=
    match r with
    | AttachAccepted => JObj [("attach_reply", JStr "accepted")]
    | AttachRefused reason => JObj [("attach_reply", JStr "refused"); ("reason", JStr reason)]
    | AttachUnavailable reason => JObj [("attach_reply", JStr "unavailable"); ("reason", JStr reason)]
    end;
  env_take j :=
    '(t, m) ← as_tagged "attach_reply" attach_reply_variant j;
    match t with
    | RtAccepted => Ok AttachAccepted
    | RtRefused => reason ← needed str_take "reason" m; Ok (AttachRefused reason)
    | RtUnavailable => reason ← needed str_take "reason" m; Ok (AttachUnavailable reason)
    end
|}.

#[export] Instance AttachReply_envelope_ok : EnvelopeOk AttachReply.
Proof. split. intros j [] _; reflexivity. Qed.

(** ** Signals, requests and responses of the bridge *)

#[export] Instance BridgeSignal_envelope : Envelope BridgeSignal := {|
  env_put '(CancelSignal id) := JObj [("type", JStr "cancel"); ("id", JInt id)];
  env_take j :=
    '(_, m) ← as_tagged "type" (fun t => if String.eqb t "cancel" then Some (tt, ["id"]) else None) j;
    id ← needed u64_take "id" m; Ok (CancelSignal id)
|}.

Lemma u64_reread name j n : u64_take name j = Ok n -> u64_take name (JInt n) = Ok n.
Proof. destruct j; try done. cbn. destruct (_ && _) eqn:E; [|done]. intros [= <-]. by rewrite E. Qed.

#[export] Instance BridgeSignal_envelope_ok : EnvelopeOk BridgeSignal.
Proof.
  split. intros j [id] H. cbn [env_take BridgeSignal_envelope] in H. apply bind_Ok in H as ([u m] & _ & H).
  inv_res. match goal with H : needed u64_take _ _ = Ok _ |- _ => apply needed_Ok in H as (? & Hn%u64_reread) end.
  cbn -[u64_take]. by rewrite Hn.
Qed.

Definition RESP_FIELDS : list string := ["id"; "ok"; "data"; "error"].

#[export] Instance BridgeResp_envelope : Envelope BridgeResp := {|
  env_put r :=
    JObj (("id", JInt (rs_id r)) :: ("ok", JBool (rs_ok r)) :: opt_put "data" (fun v => v) (rs_data r) ++
          opt_put "error" JStr (rs_error r));
  env_take j :=
    m ← as_struct RESP_FIELDS j; _ ← deny_unknown_fields RESP_FIELDS m;
    id ← needed u64_take "id" m; ok ← needed bool_take "ok" m;
    data ← optional value_take "data" m; error ← optional str_take "error" m; Ok (mkResp id ok data error)
|}.

(** An optional value that was read is not [null]: [null] reads as none. *)
Lemma optional_value_Ok name m v : optional value_take name m = Ok (Some v) -> v <> JNull.
Proof. unfold optional, value_take. destruct (member name m) as [j|]; [|done]. by destruct j; intros [= <-]. Qed.

#[export] Instance BridgeResp_envelope_ok : EnvelopeOk BridgeResp.
Proof.
  split. intros j [id ok data error] H. cbn [env_take BridgeResp_envelope] in H. inv_res.
  match goal with H : needed u64_take _ _ = Ok _ |- _ => apply needed_Ok in H as (? & Hn%u64_reread) end.
  match goal with H : optional value_take _ _ = Ok _ |- _ => rename H into Hd end.
  destruct data as [v|], error as [e|]; [apply optional_value_Ok in Hd..| |];
    cbn -[u64_take]; rewrite Hn; try reflexivity; by destruct v.
Qed.

Definition REQ_FIELDS : list string := ["id"; "op"; "args"; "browser"].

(** The command is flattened: its [op] and [args] are members of the request, which is
    therefore an object. *)
#[export] Instance BridgeReq_envelope : Envelope BridgeReq := {|
  env_put r :=
    JObj (("id", JInt (rq_id r)) :: ("op", JStr (t_name (tool (command_id (rq_command r))))) ::
          ("args", JObj (command_args (rq_command r))) :: opt_put "browser" JStr (rq_browser r));
  env_take j :=
    match j with
    | JObj m =>
        _ ← once REQ_FIELDS m; _ ← deny_unknown_fields REQ_FIELDS m;
        id ← needed u64_take "id" m;
        op ← needed str_take "op" m; tid ← ok_or (from_name op) (InvalidType "op");
        args ← needed value_take "args" m; args ← as_struct (tool_arg_names tid) args;
        command ← parse_args tid args;
        browser ← optional str_take "browser" m; Ok (mkReq id command browser)
    | _ => Err (InvalidType "")
    end
|}.

Lemma command_args_once c : once (tool_arg_names (command_id c)) (command_args c) = Ok tt.
Proof.
  destruct c as [a|a|a|a|a|a|a|a|a|a|a|a|a|a|a|a|a|a|a|a|a|a|a|a|a|a]; destruct a;
    repeat match goal with o : option _ |- _ => destruct o end; reflexivity.
Qed.

#[export] Instance BridgeReq_envelope_ok : EnvelopeOk BridgeReq.
Proof.
  split. intros j [id c browser] H. cbn [env_take BridgeReq_envelope] in H. destruct j; try done. inv_res.
  match goal with H : needed u64_take _ _ = Ok _ |- _ => apply needed_Ok in H as (? & Hn%u64_reread) end.
  cbn [env_put env_take BridgeReq_envelope rq_id rq_command rq_browser].
  destruct browser as [b|]; cbn -[u64_take from_name as_struct parse_args tool command_args];
    rewrite Hn; cbn -[from_name as_struct parse_args tool command_args]; rewrite from_name_tool;
    cbn -[as_struct parse_args tool command_args]; unfold as_struct; rewrite command_args_once;
    cbn [mbind result_mbind]; by rewrite parse_args_ser.
Qed.

(** ** JSON-RPC *)

Definition RPC_ERROR_FIELDS : list string := ["code"; "message"; "data"].
Definition RPC_FIELDS : list string := ["jsonrpc"; "id"; "method"; "params"; "result"; "error"].

#[export] Instance RpcError_envelope : Envelope RpcError := {|
  env_put e :=
    JObj (("code", JInt (re_code e)) :: ("message", JStr (re_message e)) :: opt_put "data" (fun v => v) (re_data e));
  env_take j :=
    m ← as_struct RPC_ERROR_FIELDS j;
    code ← needed i32_take "code" m; message ← needed str_take "message" m;
    data ← optional value_take "data" m; Ok (mkRpcError code message data)
|}.

Lemma i32_reread name j n : i32_take name j = Ok n -> i32_take name (JInt n) = Ok n.
Proof. unfold i32_take. destruct j; try done. destruct (_ && _) eqn:E; [|done]. intros [= <-]. by rewrite E. Qed.

#[export] Instance RpcError_envelope_ok : EnvelopeOk RpcError.
Proof.
  split. intros j [code message data] H. cbn [env_take RpcError_envelope] in H. inv_res.
  match goal with H : needed i32_take _ _ = Ok _ |- _ => apply needed_Ok in H as (? & Hn%i32_reread) end.
  match goal with H : optional value_take _ _ = Ok _ |- _ => rename H into Hd end.
  destruct data as [v|]; [apply optional_value_Ok in Hd|]; cbn -[i32_take]; rewrite Hn; [|done]. by destruct v.
Qed.

Definition rpc_error_take (_ : string) (j : json) : result args_error RpcError := env_take j.

(** Unknown members are ignored, and [jsonrpc] is written as [null] when it is absent. *)
#[export] Instance JsonRpc_envelope : Envelope JsonRpc := {|
  env_put r :=
    JObj (("jsonrpc", match jsonrpc r with Some v => JStr v | None => JNull end) ::
          opt_put "id" (fun v => v) (rpc_id r) ++ opt_put "method" JStr (rpc_method r) ++
          opt_put "params" (fun v => v) (rpc_params r) ++ opt_put "result" (fun v => v) (rpc_result r) ++
          opt_put "error" env_put (rpc_error r));
  env_take j :=
    m ← as_struct RPC_FIELDS j;
    version ← optional str_take "jsonrpc" m; id ← optional value_take "id" m;
    method ← optional str_take "method" m; params ← optional value_take "params" m;
    result ← optional value_take "result" m; error ← optional rpc_error_take "error" m;
    Ok (mkRpc version id method params result error)
|}.

Section optional_members.
Context {T : Type} (take : string -> json -> result args_error T).

Lemma optional_some name m j v :
  member name m = Some j -> j <> JNull -> take name j = Ok v -> optional take name m = Ok (Some v).
Proof. intros Hm Hj Ht. unfold optional. rewrite Hm. destruct j; [done|..]; by rewrite Ht. Qed.

Lemma optional_none name m : member name m = None -> optional take name m = Ok None.
Proof. intros Hm. unfold optional. by rewrite Hm. Qed.

Lemma optional_null name m : member name m = Some JNull -> optional take name m = Ok None.
Proof. intros Hm. unfold optional. by rewrite Hm. Qed.
End optional_members.

Ltac read_optional :=
  first [ by apply optional_none | by apply optional_null
        | eapply optional_some; [reflexivity|first [discriminate|assumption]|first [reflexivity|assumption]] ].

Lemma rpc_take_members m version id method params result error :
  once RPC_FIELDS m = Ok tt -> optional str_take "jsonrpc" m = Ok version -> optional value_take "id" m = Ok id ->
  optional str_take "method" m = Ok method -> optional value_take "params" m = Ok params ->
  optional value_take "result" m = Ok result -> optional rpc_error_take "error" m = Ok error ->
  env_take (JObj m) = Ok (mkRpc version id method params result error).
Proof.
  intros H0 H1 H2 H3 H4 H5 H6. cbn [env_take JsonRpc_envelope as_struct]. rewrite H0. cbn [mbind result_mbind].
  by rewrite H1, H2, H3, H4, H5, H6.
Qed.

#[export] Instance JsonRpc_envelope_ok : EnvelopeOk JsonRpc.
Proof.
  split. intros j [version id method params result error] H. cbn [env_take JsonRpc_envelope] in H. inv_res.
  assert (forall e, error = Some e -> rpc_error_take "error" (env_put e) = Ok e) as He.
  { intros e ->. match goal with H : optional rpc_error_take _ _ = Ok _ |- _ => apply optional_Ok in H as (? & H) end.
    by eapply env_rereads. }
  repeat match goal with
         | H : optional value_take _ _ = Ok ?o |- _ =>
             assert (forall v, o = Some v -> v <> JNull) by (intros v ->; by eapply optional_value_Ok); clear H
         end.
  destruct version as [ver|], id as [i|], method as [me|], params as [p|], result as [r|], error as [e|];
    repeat match goal with
           | H : forall v, Some ?x = Some v -> _ |- _ => specialize (H x eq_refl)
           | H : forall v, None = Some v -> _ |- _ => clear H
           end;
    apply rpc_take_members; first [reflexivity|read_optional].
Qed.

(** * Lines *)

(** [serde_json] between a document's text and its tree, and the words of a refusal. *)
Class JsonText := {
  parse_text : bytes -> result string json;
  print_text : json -> bytes;
  refusal_text : args_error -> string
}.
Class JsonTextOk `{!JsonText} := {
  text_rereads : forall j, parse_text (print_text j) = Ok j;
  text_one_line : forall j, Byte.x0a ∉ print_text j;
  text_no_cr : forall j, last (print_text j) <> None /\ last (print_text j) <> Some Byte.x0d
}.

Definition envelope_codec {T : Type} `{!Envelope T, !JsonText} : JsonCodec T := {|
  from_slice b := j ← parse_text b; map_err refusal_text (env_take j);
  to_vec t := print_text (env_put t)
|}.

Section lines.
Context {T : Type} `{EV : !Envelope T, EO : !EnvelopeOk T, JT : !JsonText, JO : !JsonTextOk}.
#[local] Existing Instance envelope_codec.

(** A message that was read is printed as a line that is read as it. *)
Lemma envelope_rereads b (t : T) : from_slice b = Ok t -> rereads t.
Proof.
  intros H. cbn [from_slice envelope_codec] in H. apply bind_Ok in H as (j & _ & H). apply map_err_Ok in H.
  split; [|split; [apply text_one_line|apply text_no_cr]].
  cbn [from_slice to_vec envelope_codec]. rewrite text_rereads. cbn [mbind result_mbind].
  by rewrite (env_rereads j).
Qed.
End lines.

(** [#[serde(try_from = "BridgeResp")]]: a response is read through its wire form. Nothing
    writes one; [to_vec] is the wire form it was read from. *)
Definition parsed_codec `{JC : !JsonCodec BridgeResp} : JsonCodec ParsedResp := {|
  from_slice b := wire ← from_slice b; ParsedResp_try_from wire;
  to_vec p := to_vec (match pr_outcome p with Ok data => resp_ok (pr_id p) data | Err e => resp_err (pr_id p) e end)
|}.

(** A reader whose codec is another's followed by a check reads the same lines. *)
Lemma ndjson_loop_through {A B} (CA : JsonCodec A) (CB : JsonCodec B) (f : A -> result string B) fuel max_line leg s :
  (forall b, @from_slice B CB b = (a ← @from_slice A CA b; f a)) ->
  match @ndjson_loop A CA fuel max_line leg s, @ndjson_loop B CB fuel max_line leg s with
  | Some (ra, rest), Some (rb, rest') =>
      rest = rest' /\
      match ra with
      | Ok (Some a) => match f a with Ok b => rb = Ok (Some b) | Err _ => is_ok rb = false end
      | Ok None => rb = Ok None
      | Err _ => is_ok rb = false
      end
  | None, None => True
  | _, _ => False
  end.
Proof.
  intros Hf. revert s. induction fuel as [|fuel IH]; intros s; [done|]. cbn [ndjson_loop].
  destruct (read_until _ s) as [line rest]. destruct (length line =? 0)%nat; [done|].
  destruct (max_line <? Z.of_nat (length line))%Z; [done|]. cbv zeta.
  destruct (length (pop_eols line) =? 0)%nat; [apply IH|]. rewrite Hf.
  destruct (@from_slice A CA (pop_eols line)) as [a|e]; [|done]. cbn [mbind result_mbind].
  by destruct (f a).
Qed.
