(* ===== verification/AuditTrail.v ===== *)
(** AuditTrail: the audit trail on disk (src/src/packages/core/src/audit.rs): stamping
    and bounding a record, appending it with one rotation, the count of records
    that could not be written, and reading the newest page back.

    Several processes append to one trail. [Sink] is one process's writes in
    sequence; [Trail.step] interleaves writers over the system calls of [append_at]
    and [rotate_locked]. serde_json and chrono are parameters. *)
From S2P Require Import Prelude Json RuntimeRecord Policy Identity Trust PolicyRecord World PrefixCodec Wire LineCodec Control.
From Stdlib Require Import Strings.Byte Ascii.
From stdpp Require Import base list sets strings pretty.

Definition AUDIT_VERSION : Z := 1.
Definition AUDIT_MAX_BYTES : Z := 256 * 1024.
Definition AUDIT_MAX_FIELD : nat := 512.

(** * Records *)

(** One line of the trail: every field of the source's [AuditRecord]. *)
Record AuditLine := mkLine {
  al_v : Z;
  al_ts_ms : Z;
  al_kind : AuditKind;
  al_surface : option Surface;
  al_outcome : option string;
  al_tool : option string;
  al_code : option string;
  al_name : option string;
  al_detail : option string;
  al_cid : option string;
  al_req : option Z;
  al_conn : option Z;
  al_dur_ms : option Z;
  al_dropped : option Z
}.

(** [AuditRecord::new] and its builders, for a record of [World]. *)
Definition line_of (r : AuditRecord) : AuditLine :=
  mkLine 0 0 (au_kind r) (au_surface r) (au_outcome r) (au_tool r) None (au_name r) (au_detail r) (au_cid r)
    None None None None.

(** ** Bounding the fields *)

(** A UTF-8 continuation byte. *)
Definition is_continuation (c : ascii) : bool :=
  let n := N_of_ascii c in (128 <=? n)%N && (n <=? 191)%N.

(** [str::is_char_boundary]. *)
Definition is_char_boundary (s : string) (i : nat) : bool :=
  match i with
  | O => true
  | _ => match String.get i s with
         | Some c => negb (is_continuation c)
         | None => (i =? String.length s)%nat
         end
  end.

(** The largest boundary at or below [i]. *)
Fixpoint last_boundary (s : string) (i : nat) : nat :=
  if is_char_boundary s i then i else match i with O => O | S i => last_boundary s i end.

Definition truncate_field (s : string) : string :=
  if (AUDIT_MAX_FIELD <? String.length s)%nat then String.substring 0 (last_boundary s AUDIT_MAX_FIELD) s else s.

Definition truncate_fields (r : AuditLine) : AuditLine :=
  mkLine (al_v r) (al_ts_ms r) (al_kind r) (al_surface r) (truncate_field <$> al_outcome r)
    (truncate_field <$> al_tool r) (truncate_field <$> al_code r) (truncate_field <$> al_name r)
    (truncate_field <$> al_detail r) (truncate_field <$> al_cid r) (al_req r) (al_conn r) (al_dur_ms r)
    (al_dropped r).

(** What [record] makes of a record before it is written. *)
Definition stamp (now_ms dropped : Z) (r : AuditLine) : AuditLine :=
  let r := truncate_fields (mkLine AUDIT_VERSION now_ms (al_kind r) (al_surface r) (al_outcome r) (al_tool r)
    (al_code r) (al_name r) (al_detail r) (al_cid r) (al_req r) (al_conn r) (al_dur_ms r) (al_dropped r)) in
  mkLine (al_v r) (al_ts_ms r) (al_kind r) (al_surface r) (al_outcome r) (al_tool r) (al_code r) (al_name r)
    (al_detail r) (al_cid r) (al_req r) (al_conn r) (al_dur_ms r)
    (if (0 <? dropped)%Z then Some dropped else al_dropped r).

(** * Appending *)

(** The two files; [None] is a file that is not there. *)
Record Files := mkFiles { f_live : option bytes; f_rotated : option bytes }.

(** [needs_rotation]: a missing or unreadable file needs none. *)
Definition needs_rotation (live : option bytes) (add max : Z) : bool :=
  match live with
  | None => false
  | Some b => (max <? Z.min u64_max (Z.of_nat (length b) + add))%Z
  end.

(** What the file system answers to one append: whether the sidecar lock is had,
    whether the rename works, a failed open, and a write that stops after so many
    bytes. *)
Record AuditIo := mkAuditIo {
  ai_path : option io_error;
  ai_lock : bool;
  ai_rename : bool;
  ai_open : option io_error;
  ai_write : option (nat * io_error)
}.

Definition rotate_locked (io : AuditIo) (add max : Z) (f : Files) : Files :=
  if ai_lock io && needs_rotation (f_live f) add max && ai_rename io
  then mkFiles None (f_live f) else f.

Definition append_bytes (f : Files) (b : bytes) : Files :=
  mkFiles (Some (default [] (f_live f) ++ b)) (f_rotated f).

Definition append_at (io : AuditIo) (line : bytes) (max : Z) (f : Files) : result io_error unit * Files :=
  let add := Z.of_nat (length line) in
  let f := if needs_rotation (f_live f) add max then rotate_locked io add max f else f in
  match ai_open io with
  | Some e => (Err e, f)
  | None =>
      match ai_write io with
      | Some (n, e) => (Err e, append_bytes f (take n line))
      | None => (Ok tt, append_bytes f line)
      end
  end.

(** One process's view: the files, its [DROPPED] counter, and what it got written. *)
Record Sink := mkSink {
  sk_files : Files;
  sk_dropped : Z;
  sk_written : list AuditLine
}.

Section record.
Context `{JL : !JsonCodec AuditLine}.

(** The path, then the append. *)
Definition append_record (io : AuditIo) (r : AuditLine) (f : Files) : result io_error unit * Files :=
  match ai_path io with
  | Some e => (Err e, f)
  | None => append_at io (to_vec r ++ [x0a]) AUDIT_MAX_BYTES f
  end.

(** [audit::record] but for its log lines ([Logging.record] has them): never fails. *)
Definition record_line (now_ms : Z) (io : AuditIo) (r : AuditLine) (s : Sink) : Sink :=
  let dropped := sk_dropped s in
  let r := stamp now_ms dropped r in
  let '(outcome, files) := append_record io r (sk_files s) in
  match outcome with
  | Ok _ => mkSink files 0 (sk_written s ++ [r])
  | Err _ => mkSink files (Z.min u64_max (dropped + 1)) (sk_written s)
  end.

Fixpoint record_all (calls : list (Z * AuditIo * AuditLine)) (s : Sink) : Sink :=
  match calls with
  | [] => s
  | (now_ms, io, r) :: calls => record_all calls (record_line now_ms io r s)
  end.

(** * Reading *)

(** [str::lines]: split at line feeds, a final empty piece dropped, one carriage
    return before the line feed stripped. [cur] is the line so far, newest first. *)
Definition strip_cr (rev_line : bytes) : bytes :=
  rev (match rev_line with b :: l => if Byte.eqb b x0d then l else rev_line | [] => [] end).

Fixpoint lines_from (cur s : bytes) : list bytes :=
  match s with
  | [] => match cur with [] => [] | _ => [rev cur] end
  | b :: s => if Byte.eqb b x0a then strip_cr cur :: lines_from [] s else lines_from (b :: cur) s
  end.

Definition str_lines (s : bytes) : list bytes := lines_from [] s.

Inductive AuditEntry := EntryRecord (r : AuditLine) | EntryUnrecognized.

Record AuditPage := mkPage { ap_path : string; ap_entries : list AuditEntry; ap_older : nat }.

Definition parse_record (line : bytes) : option AuditLine :=
  match from_slice line with
  | Ok r => if (al_v r =? AUDIT_VERSION)%Z then Some r else None
  | Err _ => None
  end.

Definition entry_of (line : bytes) : AuditEntry :=
  match parse_record line with Some r => EntryRecord r | None => EntryUnrecognized end.

(** What [fs::read_to_string] answers for one file. *)
Inductive FileRead := FileMissing | FileUnreadable (e : io_error) | FileText (b : bytes).

Definition read_lines (path : string) (f : FileRead) : result io_error (list bytes) :=
  match f with
  | FileText b => Ok (str_lines b)
  | FileMissing => Ok []
  | FileUnreadable e =>
      if bool_decide (io_kind e = NotFound) then Ok []
      else Err (IoError (io_kind e) ("cannot read " +:+ path +:+ ": " +:+ io_msg e))
  end.

Definition page_of (path : string) (limit : nat) (lines : list bytes) : AuditPage :=
  let older := length lines - limit in
  mkPage path (entry_of <$> rev (drop older lines)) older.

Definition read_at (path : string) (rotated live : FileRead) (limit : nat) : result io_error AuditPage :=
  old ← read_lines (path +:+ ".1") rotated;
  new ← read_lines path live;
  Ok (page_of path limit (old ++ new)).
End record.

(** * Rendering *)

(** chrono: the UTC text of a timestamp, where it has one. *)
Class Chrono := { utc_millis : Z -> option string }.

Definition i64_max : Z := 2 ^ 63 - 1.

Fixpoint spaces (n : nat) : string := match n with O => "" | S n => String " " (spaces n) end.
(** [{:<n}]. *)
Definition pad_right (n : nat) (s : string) : string := s +:+ spaces (n - String.length s).

Definition surface_name (s : Surface) : string :=
  match s with
  | SurfCli => "cli" | SurfExtension => "extension" | SurfBroker => "broker" | SurfHost => "host"
  | SurfCore => "core"
  end.

Fixpoint join (sep : string) (l : list string) : string :=
  match l with [] => "" | [s] => s | s :: l => s +:+ sep +:+ join sep l end.

Definition field (k : string) (v : option string) : list string :=
  match v with Some v => [k +:+ "=" +:+ v] | None => [] end.

Definition fields_display (r : AuditLine) : string :=
  join " "
    (field "surface" (surface_name <$> al_surface r) ++ field "req" (pretty <$> al_req r) ++
     field "conn" (pretty <$> al_conn r) ++ field "cid" (al_cid r) ++ field "tool" (al_tool r) ++
     field "name" (al_name r) ++ field "outcome" (al_outcome r) ++ field "code" (al_code r) ++
     field "detail" (al_detail r) ++ field "dur_ms" (pretty <$> al_dur_ms r) ++
     field "dropped" (pretty <$> al_dropped r)).

Section render.
Context `{CH : Chrono}.

Definition format_utc_ms (ts_ms : Z) : string :=
  default ("ts_ms=" +:+ pretty ts_ms) (if (ts_ms <=? i64_max)%Z then utc_millis ts_ms else None).

Definition line_display (r : AuditLine) : string :=
  let fields := fields_display r in
  format_utc_ms (al_ts_ms r) +:+ "  " +:+ pad_right 15 (audit_kind_name (al_kind r)) +:+
    (if String.eqb fields "" then "" else " " +:+ fields).

Definition UNRECOGNIZED_RECORD : string := "UNRECOGNIZED RECORD (corrupt, tampered, or newer schema)".

Definition LF : string := utf8 [x0a].

Definition render_entry (e : AuditEntry) : string :=
  match e with
  | EntryRecord r => line_display r +:+ LF
  | EntryUnrecognized => pad_right 24 "-" +:+ " " +:+ UNRECOGNIZED_RECORD +:+ LF
  end.

Definition render (p : AuditPage) : string :=
  match ap_entries p, ap_older p with
  | [], O => "no audit records yet (looked in " +:+ ap_path p +:+ ")" +:+ LF
  | _, _ => join "" (render_entry <$> rev (ap_entries p))
  end.

(** [run_audit] on what [read] returned: the exit status, standard output, and how
    many records standard error calls suspect. *)
Definition run_audit (page : result io_error AuditPage) : Z * string * nat :=
  match page with
  | Err _ => (1%Z, "", 0)
  | Ok page =>
      (0%Z, render page,
       length (List.filter (fun e => match e with EntryUnrecognized => true | EntryRecord _ => false end)
                 (ap_entries page)))
  end.
End render.

(** * Many writers *)

Module Trail.

(** Where a writer is in [append_at]. A handle is the number of the file it was opened on,
    which keeps its number when it is renamed or replaced. *)
Inductive Pc :=
| Idle
| Wants (line : bytes)     (* its first check said to rotate *)
| Locked (line : bytes)    (* holds the sidecar lock *)
| Checked (line : bytes)   (* the check under the lock said so too *)
| Opens (line : bytes)
| Writes (rest : bytes) (handle : nat).

(** Every file ever created, oldest first, with which of them the two names are of. [log] is
    the history: every write, with the file it went to. *)
Record state := mkState {
  created : list bytes;
  live : option nat;
  rotated : option nat;
  lock : option nat;
  pcs : list Pc;
  log : list (nat * bytes)
}.

(** [stat]: the size could be read. [ok]: the call succeeded. *)
Inductive label :=
| Begin (i : nat) (line : bytes) (stat : bool)
| TryLock (i : nat) (opened : bool)
| Recheck (i : nat) (stat : bool)
| Rename (i : nat) (ok : bool)
| Open (i : nat) (ok : bool)
| Write (i : nat) (n : nat)
| Stop (i : nat).   (* a write fails, or the process dies anywhere *)

Definition live_bytes (s : state) : option bytes := live s ≫= fun k => created s !! k.

Definition set_pc (s : state) (i : nat) (pc : Pc) (lock : option nat) : state :=
  mkState (created s) (live s) (rotated s) lock (<[i := pc]> (pcs s)) (log s).

Definition holds (pc : Pc) : bool := match pc with Locked _ | Checked _ => true | _ => false end.

Definition exec (max : Z) (l : label) (s : state) : option state :=
  let full (stat : bool) (line : bytes) := stat && needs_rotation (live_bytes s) (Z.of_nat (length line)) max in
  match l with
  | Begin i line stat =>
      pc ← pcs s !! i;
      match pc with
      | Idle => Some (set_pc s i (if full stat line then Wants line else Opens line) (lock s))
      | _ => None
      end
  | TryLock i opened =>
      pc ← pcs s !! i;
      match pc with
      | Wants line =>
          Some (if opened && bool_decide (lock s = None) then set_pc s i (Locked line) (Some i)
                else set_pc s i (Opens line) (lock s))
      | _ => None
      end
  | Recheck i stat =>
      pc ← pcs s !! i;
      match pc with
      | Locked line => Some (if full stat line then set_pc s i (Checked line) (lock s) else set_pc s i (Opens line) None)
      | _ => None
      end
  | Rename i ok =>
      pc ← pcs s !! i;
      match pc with
      | Checked line =>
          let s' := set_pc s i (Opens line) None in
          Some (if ok && bool_decide (is_Some (live s))
                then mkState (created s') None (live s') (lock s') (pcs s') (log s') else s')
      | _ => None
      end
  | Open i ok =>
      pc ← pcs s !! i;
      match pc with
      | Opens line =>
          Some (if negb ok then set_pc s i Idle (lock s)
                else match live s with
                     | Some k => set_pc s i (Writes line k) (lock s)
                     | None =>
                         let k := length (created s) in
                         mkState (created s ++ [[]]) (Some k) (rotated s) (lock s) (<[i := Writes line k]> (pcs s)) (log s)
                     end)
      | _ => None
      end
  | Write i n =>
      pc ← pcs s !! i;
      match pc with
      | Writes rest k =>
          let pc := match drop n rest with [] => Idle | rest' => Writes rest' k end in
          Some (mkState (alter (fun b => b ++ take n rest) k (created s)) (live s) (rotated s) (lock s)
                  (<[i := pc]> (pcs s)) (log s ++ [(k, take n rest)]))
      | _ => None
      end
  | Stop i =>
      pc ← pcs s !! i; Some (set_pc s i Idle (if holds pc then None else lock s))
  end.

(** Lines are at most [longest] bytes. *)
Definition short (longest : Z) (l : label) : Prop :=
  match l with Begin _ line _ => (Z.of_nat (length line) <= longest)%Z | _ => True end.

Inductive step (max longest : Z) : state -> label -> state -> Prop :=
| step_exec s l s' : exec max l s = Some s' -> short longest l -> step max longest s l s'.

Definition start (n : nat) : state := mkState [] None None None (replicate n Idle) [].

Definition run (max longest : Z) (n : nat) (s : state) : Prop :=
  reachable (step max longest) (fun s => s = start n) s.

(** What was written to one file, in order. *)
Definition written_to (k : nat) (log : list (nat * bytes)) : bytes :=
  mjoin (snd <$> List.filter (fun c => c.1 =? k) log).

(** The number of the file before another. *)
Definition before (k : nat) : option nat := match k with O => None | S j => Some j end.
End Trail.

(** * Lemmas: rotation *)

Section trail.
Import Trail.
Context (max longest : Z).

Definition pc_line (pc : Pc) : option bytes :=
  match pc with Wants l | Locked l | Checked l | Opens l => Some l | _ => None end.

Record trail_ok (s : state) : Prop := {
  tk_names : match live s with
             | Some k => length (created s) = S k /\ rotated s = before k
             | None => rotated s = before (length (created s))
             end;
  tk_log : forall k b, created s !! k = Some b -> b = written_to k (log s);
  tk_known : forall c, c ∈ log s -> c.1 < length (created s);
  tk_lock : forall i pc, pcs s !! i = Some pc -> holds pc = true -> lock s = Some i;
  tk_checked : forall i line, pcs s !! i = Some (Checked line) ->
    needs_rotation (live_bytes s) (Z.of_nat (length line)) max = true;
  tk_short : forall i pc line, pcs s !! i = Some pc -> pc_line pc = Some line ->
    (Z.of_nat (length line) <= longest)%Z;
  tk_handle : forall i rest k, pcs s !! i = Some (Writes rest k) -> k < length (created s);
  tk_full : forall r k b, rotated s = Some r -> k <= r -> created s !! k = Some b ->
    (max < Z.of_nat (length b) + longest)%Z
}.

Lemma needs_rotation_grows live live' add :
  (forall b, live = Some b -> exists b', live' = Some b' /\ length b <= length b') ->
  needs_rotation live add max = true -> needs_rotation live' add max = true.
Proof.
  intros Hg. unfold needs_rotation. destruct live as [b|]; [|done].
  destruct (Hg b eq_refl) as (b' & -> & Hl). rewrite !Z.ltb_lt. lia.
Qed.

Lemma needs_rotation_full b add :
  needs_rotation (Some b) add max = true -> (max < Z.of_nat (length b) + add)%Z.
Proof. unfold needs_rotation. rewrite Z.ltb_lt. lia. Qed.

(** The writer that moved, and the others. *)
Lemma pcs_at (l : list Pc) i pc j q :
  <[i := pc]> l !! j = Some q -> j = i /\ q = pc \/ j <> i /\ l !! j = Some q.
Proof.
  destruct (decide (j = i)) as [->|Hne].
  - intros H. pose proof (lookup_lt_Some _ _ _ H) as Hlt. rewrite length_insert in Hlt.
    rewrite list_lookup_insert_eq in H by done. injection H as <-. by left.
  - rewrite list_lookup_insert_ne by done. by right.
Qed.

(** A writer moves; the files stay, and the lock is released, taken or left. *)
Lemma trail_ok_move s i pc pc' lk :
  trail_ok s -> pcs s !! i = Some pc ->
  (lk = lock s /\ (holds pc' = true -> holds pc = true) \/ lk = None /\ holds pc = true /\ holds pc' = false \/
   lock s = None /\ lk = Some i) ->
  (forall line, pc_line pc' = Some line -> (Z.of_nat (length line) <= longest)%Z) ->
  (forall line, pc' = Checked line -> needs_rotation (live_bytes s) (Z.of_nat (length line)) max = true) ->
  (forall rest k, pc' = Writes rest k -> k < length (created s)) ->
  trail_ok (set_pc s i pc' lk).
Proof.
  intros [Hn Hlog Hk Hl Hc Hs Hh Hf] Hi Hlock Hline Hck Hhd. split; try done; cbn [set_pc pcs lock].
  - intros j q Hq Hh'. apply pcs_at in Hq as [[-> ->]|[Hne Hq]].
    + destruct Hlock as [[-> Hx]|[(_ & _ & ?)|(_ & ->)]]; [|congruence|done]. by apply (Hl i pc); [|apply Hx].
    + specialize (Hl j q Hq Hh') as Hj. destruct Hlock as [[-> _]|[(-> & Hp & _)|(Hnone & _)]]; [done| |congruence].
      specialize (Hl i pc Hi Hp). congruence.
  - intros j line Hq. apply pcs_at in Hq as [[_ E]|[_ Hq]]; [by apply Hck|by eapply Hc].
  - intros j q line Hq E. apply pcs_at in Hq as [[_ ->]|[_ Hq]]; [by apply Hline|by eapply Hs].
  - intros j rest k Hq. apply pcs_at in Hq as [[_ E]|[_ Hq]]; [by eapply Hhd|by eapply Hh].
Qed.

(** The rename, by the one writer that holds the lock and found the file full. *)
Lemma trail_ok_rename s i line k :
  trail_ok s -> pcs s !! i = Some (Checked line) -> live s = Some k ->
  let s' := set_pc s i (Opens line) None in
  trail_ok (mkState (created s') None (live s') (lock s') (pcs s') (log s')).
Proof.
  intros Hok Hi Hlive. pose proof Hok as [Hn Hlog Hk Hl Hc Hs Hh Hf]. rewrite Hlive in Hn. destruct Hn as [Hlen Hrot].
  assert (trail_ok (set_pc s i (Opens line) None)) as [_ _ _ Hl' Hc' Hs' Hh' _].
  { eapply trail_ok_move; [done|done|by right; left| |done|done]. intros l [= <-]. by apply (Hs i _ _ Hi). }
  split; try done; cbn [set_pc created live rotated log].
  - rewrite Hlive, Hlen. done.
  - intros j l Hj. exfalso. specialize (Hl' j _ Hj eq_refl). done.
  - intros r k' b Hr Hle Hb. rewrite Hlive in Hr. injection Hr as <-.
    destruct (decide (k' = k)) as [->|Hne].
    + pose proof (Hc i _ Hi) as Hfull. unfold live_bytes in Hfull. rewrite Hlive in Hfull. cbn in Hfull. rewrite Hb in Hfull.
      apply needs_rotation_full in Hfull. pose proof (Hs i _ _ Hi eq_refl). lia.
    + destruct k as [|k]; [lia|]. apply (Hf k k' b); [done|lia|done].
Qed.

Lemma written_to_fresh k log : (forall c, c ∈ log -> c.1 < k) -> written_to k log = [].
Proof.
  unfold written_to. induction log as [|c l IH]; intros H; [done|]. cbn. destruct (Nat.eqb_spec c.1 k) as [E|_].
  - specialize (H c (list_elem_of_here _ _)). lia.
  - apply IH. intros c' Hc'. apply H. by right.
Qed.

(** A new file under the live name. *)
Lemma trail_ok_create s i line :
  trail_ok s -> pcs s !! i = Some (Opens line) -> live s = None ->
  trail_ok (mkState (created s ++ [[]]) (Some (length (created s))) (rotated s) (lock s)
    (<[i := Writes line (length (created s))]> (pcs s)) (log s)).
Proof.
  intros Hok Hi Hlive. pose proof Hok as [Hn Hlog Hk Hl Hc Hs Hh Hf]. rewrite Hlive in Hn.
  assert (forall k b, (created s ++ [[]]) !! k = Some b -> created s !! k = Some b \/ k = length (created s) /\ b = []) as Hat.
  { intros k b Hb. apply lookup_app_Some in Hb as [?|[Hge Hb]]; [by left|right].
    apply list_lookup_singleton_Some in Hb as [? <-]. split; [lia|done]. }
  split; cbn [created live rotated lock pcs log].
  - rewrite length_app. cbn. split; [lia|done].
  - intros k b Hb. apply Hat in Hb as [Hb|[-> ->]]; [by apply Hlog|]. by rewrite written_to_fresh.
  - intros c Hc'. rewrite length_app. apply Hk in Hc'. lia.
  - intros j q Hq Hh'. apply pcs_at in Hq as [[-> ->]|[_ Hq]]; [done|by eapply Hl].
  - intros j l Hq. apply pcs_at in Hq as [[_ ?]|[_ Hq]]; [done|]. specialize (Hc j l Hq). unfold live_bytes in Hc.
    rewrite Hlive in Hc. done.
  - intros j q l Hq E. apply pcs_at in Hq as [[_ ->]|[_ Hq]]; [done|by eapply Hs].
  - intros j rest k Hq. rewrite length_app. cbn. apply pcs_at in Hq as [[_ [= -> ->]]|[_ Hq]]; [lia|]. apply Hh in Hq. lia.
  - intros r k b Hr Hle Hb. apply Hat in Hb as [Hb|[-> ->]]; [by eapply Hf|]. rewrite Hn in Hr.
    destruct (length (created s)); cbn in Hr; [done|]. injection Hr as <-. lia.
Qed.

Lemma written_to_app k log c : written_to k (log ++ [c]) = written_to k log ++ (if c.1 =? k then c.2 else []).
Proof.
  unfold written_to. rewrite List.filter_app, fmap_app, join_app. cbn. destruct (c.1 =? k); cbn; by rewrite ?app_nil_r.
Qed.

(** Some of a line reaches the file its handle is of, wherever that file is by now. *)
Lemma trail_ok_write s i rest k n pc :
  trail_ok s -> pcs s !! i = Some (Writes rest k) -> pc = Idle \/ pc = Writes (drop n rest) k ->
  trail_ok (mkState (alter (fun b => b ++ take n rest) k (created s)) (live s) (rotated s) (lock s)
    (<[i := pc]> (pcs s)) (log s ++ [(k, take n rest)])).
Proof.
  intros Hok Hi Hpc. pose proof Hok as [Hn Hlog Hk Hl Hc Hs Hh Hf].
  assert (trail_ok (set_pc s i pc (lock s))) as [_ _ _ Hl' Hc' Hs' Hh' _].
  { eapply trail_ok_move; [done|done|left; split; [done|]; by destruct Hpc as [->| ->]|by destruct Hpc as [->| ->]..|].
    intros r j Hw. destruct Hpc as [->| ->]; [done|]. injection Hw as <- <-. by eapply Hh. }
  assert (forall j b, alter (fun b => b ++ take n rest) k (created s) !! j = Some b ->
    exists b0, created s !! j = Some b0 /\ b = b0 ++ (if k =? j then take n rest else [])) as Hat.
  { intros j b Hb. destruct (Nat.eqb_spec k j) as [->|Hne].
    - rewrite list_lookup_alter_eq in Hb. apply fmap_Some in Hb as (b0 & Hb0 & ->). by exists b0.
    - rewrite list_lookup_alter_ne in Hb by done. exists b. by rewrite app_nil_r. }
  split; cbn [created live rotated lock pcs log]; rewrite ?length_alter; try done.
  - intros j b Hb. apply Hat in Hb as (b0 & Hb0 & ->). rewrite written_to_app. cbn. by rewrite <- (Hlog j b0 Hb0).
  - intros c. rewrite elem_of_app, list_elem_of_singleton. intros [?| ->]; [by apply Hk|]. cbn. by eapply Hh.
  - intros j l Hj. eapply needs_rotation_grows; [|by apply (Hc' j)]. unfold live_bytes. cbn [live created set_pc].
    intros b Hb. apply bind_Some in Hb as (q & -> & Hb). cbn.
    destruct (decide (k = q)) as [->|Hne].
    + rewrite list_lookup_alter_eq, Hb. eexists. split; [done|]. rewrite length_app. lia.
    + rewrite list_lookup_alter_ne by done. by exists b.
  - intros r j b Hr Hle Hb. apply Hat in Hb as (b0 & Hb0 & ->). specialize (Hf r j b0 Hr Hle Hb0). rewrite length_app. lia.
Qed.

Lemma exec_trail_ok l s s' : exec max l s = Some s' -> short longest l -> trail_ok s -> trail_ok s'.
Proof.
  intros H Hshort Hok. pose proof (tk_short _ Hok) as Hs. pose proof (tk_names _ Hok) as Hn.
  destruct l as [i line stat|i opened|i stat|i ok|i ok|i n|i]; cbn [exec] in H; apply bind_Some in H as (pc & Hi & H).
  7:{ injection H as <-. eapply trail_ok_move; [done|done| |done|done|done].
      destruct (holds pc) eqn:Ep; [by right; left|by left]. }
  all: destruct pc as [|line'|line'|line'|line'|rest k]; try discriminate H; injection H as <-.
  - eapply trail_ok_move; [done|done|left; split; [done|]; by destruct (_ && _)| | |];
      intros l; destruct (_ && _); try done; cbn; intros [= <-]; exact Hshort.
  - destruct (opened && _) eqn:Ea.
    + apply andb_true_iff in Ea as [_ Ea]. apply bool_decide_eq_true in Ea.
      eapply trail_ok_move; [done|done|by right; right| |done|done]. intros l [= <-]. by apply (Hs i _ _ Hi).
    + eapply trail_ok_move; [done|done|by left| |done|done]. intros l [= <-]. by apply (Hs i _ _ Hi).
  - destruct (stat && _) eqn:Ea.
    + apply andb_true_iff in Ea as [_ Ea]. eapply trail_ok_move; [done|done|by left| | |done]; intros l [= <-]; [|done].
      by apply (Hs i _ _ Hi).
    + eapply trail_ok_move; [done|done|by right; left| |done|done]. intros l [= <-]. by apply (Hs i _ _ Hi).
  - destruct (ok && _) eqn:Ea.
    + apply andb_true_iff in Ea as [_ [k Hk]%bool_decide_eq_true]. by eapply trail_ok_rename.
    + eapply trail_ok_move; [done|done|by right; left| |done|done]. intros l [= <-]. by apply (Hs i _ _ Hi).
  - destruct ok; cbn [negb]; [|by eapply trail_ok_move; [done|done|left|..]].
    destruct (live s) as [k|] eqn:El; [|by apply trail_ok_create].
    eapply trail_ok_move; [done|done|by left|done|done|]. intros r j [= <- <-]. lia.
  - apply trail_ok_write; [done|done|]. destruct (drop n rest) eqn:Ed; [by left|by right].
Qed.

Lemma run_trail_ok n s : run max longest n s -> trail_ok s.
Proof.
  intros Hr. pattern s. revert s Hr. apply reachable_invariant.
  - intros s ->. split; cbn; try done.
    + by intros c ?%elem_of_nil.
    + intros i pc Hpc. apply lookup_replicate in Hpc as [-> _]. done.
    + intros i line Hpc. by apply lookup_replicate in Hpc as [? _].
    + intros i pc line Hpc. apply lookup_replicate in Hpc as [-> _]. done.
    + intros i rest k Hpc. by apply lookup_replicate in Hpc as [? _].
  - intros s l s' Hok Hst. destruct Hst as [s l s' H Hsh]. exact (exec_trail_ok l s s' H Hsh Hok).
Qed.

(** C26: The trail is the newest history, and enough of it. However many processes append in
    pieces, race to rotate between one another's open and write, fail or die: each
    file holds, in order, every byte written through the handles opened on it; the rotated
    and the live file are the newest two ever created, in that order, or the newest alone
    under the rotated name until a writer opens the next; and each file a rotation ever
    took away was full, within one line of the cap, so no rotation replaces a full file by
    a fresh one. A record whose write finds its file gone was overtaken by a whole file:
    since its writer opened, a later file was created, filled and rotated. *)
Theorem rotation_keeps_the_newest_history (n : nat) (s : state) :
  run max longest n s ->
  (forall k b, created s !! k = Some b -> b = written_to k (log s)) /\
  match live s with
  | Some k => length (created s) = S k /\ rotated s = before k
  | None => rotated s = before (length (created s))
  end /\
  (forall k b, created s !! k = Some b -> live s <> Some k -> (max < Z.of_nat (length b) + longest)%Z) /\
  (forall i rest k, pcs s !! i = Some (Writes rest k) -> live s <> Some k -> rotated s <> Some k ->
     exists r b, rotated s = Some r /\ k < r /\ created s !! r = Some b /\ (max < Z.of_nat (length b) + longest)%Z).
Proof.
  intros Hr. destruct (run_trail_ok n s Hr) as [Hn Hlog _ _ _ _ Hh Hf].
  assert (forall k, k < length (created s) -> live s <> Some k -> exists r, rotated s = Some r /\ k <= r < length (created s)) as Hold.
  { intros k Hk Hl. destruct (live s) as [m|].
    - destruct Hn as [Hlen ->]. assert (k <> m) by congruence. destruct m as [|m]; [lia|]. exists m. split; [done|lia].
    - destruct (length (created s)) as [|m]; [lia|]. exists m. split; [done|lia]. }
  split; [done|]. split; [done|]. split.
  - intros k b Hb Hl. destruct (Hold k (lookup_lt_Some _ _ _ Hb) Hl) as (r & Hrot & Hle & _). by eapply Hf.
  - intros i rest k Hw Hl Hx. destruct (Hold k (Hh _ _ _ Hw) Hl) as (r & Hrot & Hle & Hlt).
    destruct (lookup_lt_is_Some_2 _ _ Hlt) as [b Hb]. exists r, b. split; [done|]. split; [|split; [done|apply (Hf r r b); [done|lia|done]]].
    assert (r <> k) by congruence. lia.
Qed.
End trail.

(** * Lemmas: fields *)

Lemma last_boundary_facts s i :
  last_boundary s i <= i /\ is_char_boundary s (last_boundary s i) = true /\
  forall j, last_boundary s i < j <= i -> is_char_boundary s j = false.
Proof.
  induction i as [|i IH].
  - cbn. split_and!; [lia|done|lia].
  - cbn [last_boundary]. destruct (is_char_boundary s (S i)) eqn:E.
    + split_and!; [lia|done|lia].
    + destruct IH as (H1 & H2 & H3). split_and!; [lia|done|]. intros j Hj.
      destruct (decide (j = S i)) as [->|]; [done|]. apply H3. lia.
Qed.

Lemma substring_length n s : n <= String.length s -> String.length (String.substring 0 n s) = n.
Proof.
  revert s. induction n as [|n IH]; intros [|c s] H; cbn in *; try lia. by rewrite IH by lia.
Qed.

Lemma substring_prefix n s : exists rest, s = String.substring 0 n s +:+ rest.
Proof.
  revert s. induction n as [|n IH]; intros [|c s]; cbn.
  - by exists "".
  - by exists (String c s).
  - by exists "".
  - destruct (IH s) as [rest E]. exists rest. rewrite E at 1. done.
Qed.

Lemma truncate_field_bounded s : String.length (truncate_field s) <= AUDIT_MAX_FIELD.
Proof.
  unfold truncate_field. destruct (Nat.ltb_spec AUDIT_MAX_FIELD (String.length s)) as [Hlt|Hle]; [|lia].
  destruct (last_boundary_facts s AUDIT_MAX_FIELD) as (H1 & _). rewrite substring_length; lia.
Qed.

(** ** Well-formed text: each character is a lead byte and at most three continuations *)

Fixpoint continuations (s : string) : bool :=
  match s with "" => true | String c s => is_continuation c && continuations s end.

Definition utf8_char (s : string) : Prop :=
  exists c t, s = String c t /\ is_continuation c = false /\ continuations t = true /\ String.length t <= 3.

Fixpoint concat (l : list string) : string := match l with [] => "" | s :: l => s +:+ concat l end.

Lemma get_app_r s t i : String.get (String.length s + i) (s +:+ t) = String.get i t.
Proof. induction s as [|c s IH]; [done|]. cbn. exact IH. Qed.

Lemma get_app_l s t i : i < String.length s -> String.get i (s +:+ t) = String.get i s.
Proof.
  revert i. induction s as [|c s IH]; intros [|i] H; cbn in *; try lia; [done|]. apply IH. lia.
Qed.

(** In well-formed text a boundary is never more than three bytes back. *)
Lemma boundary_near chars i :
  Forall utf8_char chars -> i <= String.length (concat chars) ->
  exists j, j <= i <= j + 3 /\ is_char_boundary (concat chars) j = true.
Proof.
  intros Hc. revert i. induction Hc as [|s chars Hs Hcs IH]; intros i Hi; cbn [concat] in *.
  { exists 0. cbn in *. split; [lia|done]. }
  destruct Hs as (c & t & -> & Hlead & Hcont & Hlen).
  rewrite str_length_app in Hi. destruct (decide (i < String.length (String c t))) as [Hin|Hout].
  { exists 0. split; [|done]. cbn in Hin. lia. }
  destruct (IH (i - String.length (String c t))) as (j & Hj & Hb); [lia|].
  exists (String.length (String c t) + j). split; [lia|].
  unfold is_char_boundary in *. destruct (String.length (String c t) + j) as [|k] eqn:E; [done|].
  rewrite <- E, get_app_r, str_length_app. destruct j as [|j].
  - destruct chars as [|s' chars']; cbn [concat] in *.
    + cbn [String.get String.length]. by apply Nat.eqb_eq.
    + apply Forall_cons_1 in Hcs as [(c' & t' & -> & Hl' & _) _].
      rewrite str_app_cons. cbn [String.get]. by rewrite Hl'.
  - destruct (String.get (S j) (concat chars)); [done|].
    apply Nat.eqb_eq in Hb. apply Nat.eqb_eq. lia.
Qed.

Lemma last_boundary_near chars :
  Forall utf8_char chars -> AUDIT_MAX_FIELD <= String.length (concat chars) ->
  AUDIT_MAX_FIELD <= last_boundary (concat chars) AUDIT_MAX_FIELD + 3.
Proof.
  intros Hc Hl. destruct (boundary_near chars AUDIT_MAX_FIELD Hc Hl) as (j & Hj & Hb).
  destruct (last_boundary_facts (concat chars) AUDIT_MAX_FIELD) as (_ & _ & Hmax).
  destruct (decide (last_boundary (concat chars) AUDIT_MAX_FIELD < j)) as [Hlt|]; [|lia].
  rewrite Hmax in Hb; [done|lia].
Qed.

(** The text fields of a record. *)
Definition text_fields (r : AuditLine) : list string :=
  option_list (al_outcome r) ++ option_list (al_tool r) ++ option_list (al_code r) ++ option_list (al_name r) ++
  option_list (al_detail r) ++ option_list (al_cid r).

Definition bounded_line (r : AuditLine) : Prop :=
  al_v r = AUDIT_VERSION /\ Forall (fun s => String.length s <= AUDIT_MAX_FIELD) (text_fields r).

Lemma stamp_bounded now_ms dropped r : bounded_line (stamp now_ms dropped r).
Proof.
  split; [done|]. unfold text_fields, stamp, truncate_fields.
  cbn [al_outcome al_tool al_code al_name al_detail al_cid].
  repeat apply Forall_app_2.
  all: match goal with |- Forall _ (option_list (truncate_field <$> ?o)) => destruct o; cbn [fmap option_fmap option_map option_list] end.
  all: try constructor; try apply truncate_field_bounded; constructor.
Qed.

(** A field that is too long is cut to a prefix that ends between two characters,
    and of well-formed text never more than three bytes short of the bound; any other
    field is kept whole. *)
Theorem truncation_is_tight (s : string) :
  (exists rest, s = truncate_field s +:+ rest) /\
  String.length (truncate_field s) <= AUDIT_MAX_FIELD /\
  (String.length s <= AUDIT_MAX_FIELD -> truncate_field s = s) /\
  (AUDIT_MAX_FIELD < String.length s -> is_char_boundary s (String.length (truncate_field s)) = true) /\
  (forall chars, Forall utf8_char chars -> s = concat chars -> AUDIT_MAX_FIELD < String.length s ->
     AUDIT_MAX_FIELD <= String.length (truncate_field s) + 3).
Proof.
  destruct (last_boundary_facts s AUDIT_MAX_FIELD) as (H1 & H2 & _).
  split_and!; [|apply truncate_field_bounded|..]; unfold truncate_field.
  - destruct (_ <? _)%nat; [apply substring_prefix|]. exists "". by rewrite str_app_nil_r.
  - intros Hs. by rewrite (proj2 (Nat.ltb_ge _ _)).
  - intros Hs. rewrite (proj2 (Nat.ltb_lt _ _)) by done. by rewrite substring_length by lia.
  - intros chars Hc -> Hs. rewrite (proj2 (Nat.ltb_lt _ _)) by done. rewrite substring_length by lia.
    apply last_boundary_near; [done|lia].
Qed.

(** * Lemmas: accounting *)

(** How many calls a record stands for: itself and the drops it reports. *)
Definition stands_for (r : AuditLine) : Z := 1 + default 0%Z (al_dropped r).

Definition accounted (s : Sink) : Z :=
  sk_dropped s + foldr (fun r n => (stands_for r + n)%Z) 0%Z (sk_written s).

Lemma foldr_stands_app l r :
  foldr (fun r n => (stands_for r + n)%Z) 0%Z (l ++ [r]) =
  (foldr (fun r n => (stands_for r + n)%Z) 0%Z l + stands_for r)%Z.
Proof. induction l as [|x l IH]; cbn [app foldr]; [lia|]. rewrite IH. lia. Qed.

Section record_lemmas.
Context `{JL : !JsonCodec AuditLine}.

Lemma record_line_accounts now_ms io r s :
  al_dropped r = None -> (0 <= sk_dropped s < u64_max)%Z ->
  accounted (record_line now_ms io r s) = (accounted s + 1)%Z /\
  (0 <= sk_dropped (record_line now_ms io r s) <= sk_dropped s + 1)%Z /\
  (Forall bounded_line (sk_written s) -> Forall bounded_line (sk_written (record_line now_ms io r s))).
Proof.
  intros Hr Hd. unfold record_line, accounted.
  destruct (append_record _ _ _) as [[u|e] files].
  - cbn [sk_dropped sk_written]. rewrite foldr_stands_app. split_and!; try lia.
    + unfold stands_for, stamp. cbn [al_dropped truncate_fields].
      destruct (Z.ltb_spec 0 (sk_dropped s)); rewrite ?Hr; cbn; lia.
    + intros Hf. apply Forall_app_2; [done|]. constructor; [apply stamp_bounded|constructor].
  - cbn [sk_dropped sk_written]. rewrite Z.min_r by lia. split_and!; try lia. done.
Qed.

(** No audit record is lost silently. Whatever fails (the path, the lock, the
    rename, the open, a write cut short), recording always returns, and the records
    written account for every call: each stands for itself and for the drops it
    reports, and the counter holds the drops not yet reported. Every written record is
    of the current version with every text field within its bound. *)
Theorem every_audit_record_is_accounted_for (calls : list (Z * AuditIo * AuditLine)) (s : Sink) :
  Forall (fun c => al_dropped c.2 = None) calls ->
  (0 <= sk_dropped s)%Z -> (sk_dropped s + Z.of_nat (length calls) <= u64_max)%Z ->
  accounted (record_all calls s) = (accounted s + Z.of_nat (length calls))%Z /\
  (Forall bounded_line (sk_written s) -> Forall bounded_line (sk_written (record_all calls s))).
Proof.
  intros Hc. revert s. induction Hc as [|[[now_ms io] r] calls Hr _ IH]; intros s Hd Hmax.
  { cbn. split; [lia|done]. }
  cbn [record_all length] in *. destruct (record_line_accounts now_ms io r s Hr) as (Ha & Hd' & Hb); [lia|].
  destruct (IH (record_line now_ms io r s)) as [IHa IHb]; [lia..|]. rewrite IHa, Ha. split; [lia|auto].
Qed.

(** * Lemmas: reading *)

Lemma lines_from_line cur l rest :
  x0a ∉ l -> lines_from cur (l ++ x0a :: rest) = strip_cr (rev l ++ cur) :: lines_from [] rest.
Proof.
  revert cur. induction l as [|b l IH]; intros cur Hn; [done|]. cbn [app lines_from].
  assert (Byte.eqb b x0a = false) as ->.
  { apply not_true_iff_false. intros H. apply Byte.byte_dec_bl in H. set_solver. }
  rewrite IH by set_solver. cbn [rev]. by rewrite <- app_assoc.
Qed.

Lemma strip_cr_id l : last l <> Some x0d -> strip_cr (rev l) = l.
Proof.
  intros H. unfold strip_cr. destruct (rev l) as [|b k] eqn:E.
  - apply (f_equal (@rev _)) in E. by rewrite rev_involutive in E.
  - apply (f_equal (@rev _)) in E. rewrite rev_involutive in E. cbn in E. subst l.
    rewrite last_snoc in H. destruct (Byte.eqb b x0d) eqn:Eb; [|done].
    apply Byte.byte_dec_bl in Eb. congruence.
Qed.

(** The bytes of whole records. *)
Definition encoded (rs : list AuditLine) : bytes := mjoin ((fun r => to_vec r ++ [x0a]) <$> rs).

Lemma str_lines_encoded `{!JsonCodecOk AuditLine} rs : str_lines (encoded rs) = to_vec <$> rs.
Proof.
  unfold str_lines, encoded. induction rs as [|r rs IH]; [done|]. cbn [fmap list_fmap mjoin list_join].
  rewrite <- app_assoc. cbn [app]. rewrite lines_from_line by apply json_one_line.
  rewrite app_nil_r, strip_cr_id by apply json_no_cr. f_equal. exact IH.
Qed.

Lemma entry_of_written `{!JsonCodecOk AuditLine} r :
  al_v r = AUDIT_VERSION -> entry_of (to_vec r) = EntryRecord r.
Proof. intros Hv. unfold entry_of, parse_record. by rewrite json_roundtrip, Hv. Qed.

Lemma entries_written `{!JsonCodecOk AuditLine} n rs :
  Forall (fun r => al_v r = AUDIT_VERSION) rs ->
  entry_of <$> rev (drop n (to_vec <$> rs)) = EntryRecord <$> rev (drop n rs).
Proof.
  intros Hv. rewrite <- fmap_drop. apply (Forall_drop _ n) in Hv. induction Hv as [|r l Hr _ IH]; [done|].
  cbn [fmap list_fmap rev]. rewrite !fmap_app. f_equal; [exact IH|]. cbn. by rewrite entry_of_written.
Qed.

(** The audit page is the newest part of the trail, in order and complete.
    Reading back whole records, the rotated file before the live one, gives exactly the
    newest [limit] of them, newest first, and says how many are older; and whatever bytes
    the files hold, every line of the trail is either on the page, parsed or marked as
    unrecognized, or counted as older. *)
Theorem audit_page_is_the_newest_suffix `{JO : !JsonCodecOk AuditLine} (path : string) (limit : nat)
    (old new : list AuditLine) (b b' : bytes) :
  Forall (fun r => al_v r = AUDIT_VERSION) (old ++ new) ->
  read_at path (FileText (encoded old)) (FileText (encoded new)) limit =
    Ok (mkPage path (EntryRecord <$> rev (drop (length (old ++ new) - limit) (old ++ new)))
          (length (old ++ new) - limit)) /\
  exists page, read_at path (FileText b) (FileText b') limit = Ok page /\
    length (ap_entries page) <= limit /\
    length (ap_entries page) + ap_older page = length (str_lines b ++ str_lines b').
Proof.
  intros Hv. unfold read_at, page_of. cbn [read_lines mbind result_mbind]. split.
  - rewrite !str_lines_encoded, <- fmap_app, length_fmap. do 2 f_equal.
    by apply entries_written.
  - eexists. split; [done|]. cbn [ap_entries ap_older].
    rewrite length_fmap, length_rev, length_drop. lia.
Qed.
End record_lemmas.

(** * Witnesses *)

Module AuditExample.

Definition KINDS : list AuditKind :=
  [ToolCall; HarnessAdmit; HarnessRefuse; AttachRefuse; BrowserAttach; BrowserRefuse; PairClient; RevokeClient;
   HostKeyRevoke; HostKeyPair; KillEngage; KillRelease; PresenceAssert; AuditEnroll; RevokeBrowser; PolicyWrite;
   ConfirmShown; ConfirmAllowed; ConfirmDenied; EnrollApproved; EnrollRejected; EnrollRevoked].
Definition kind_of_name (s : string) : AuditKind :=
  default ToolCall (List.find (fun k => String.eqb (audit_kind_name k) s) KINDS).
Definition surface_of_name (s : string) : Surface :=
  default SurfCli (List.find (fun k => String.eqb (surface_name k) s) [SurfCli; SurfExtension; SurfBroker; SurfHost; SurfCore]).

Definition to_tuple (r : AuditLine) :=
  (((al_v r, al_ts_ms r), (audit_kind_name (al_kind r), surface_name <$> option_list (al_surface r))),
   (((option_list (al_outcome r), option_list (al_tool r)), (option_list (al_code r), option_list (al_name r))),
    (option_list (al_detail r), option_list (al_cid r))),
   ((option_list (al_req r), option_list (al_conn r)), (option_list (al_dur_ms r), option_list (al_dropped r)))).
Definition of_tuple (t : ((Z * Z) * (string * list string)) *
    (((list string * list string) * (list string * list string)) * (list string * list string)) *
    ((list Z * list Z) * (list Z * list Z))) : AuditLine :=
  let '(((v, ts), (k, s)), ((o, t), (c, n)), (d, i), ((q, g), (u, p))) :=
    (t.1.1, t.1.2.1, t.1.2.2, t.2) in
  mkLine v ts (kind_of_name k) (surface_of_name <$> head s) (head o) (head t) (head c) (head n) (head d) (head i)
    (head q) (head g) (head u) (head p).
Lemma line_tuple_iso r : of_tuple (to_tuple r) = r.
Proof.
  destruct r as [v ts k s o t c n d i q g u p]. unfold of_tuple, to_tuple. cbn [fst snd al_v al_ts_ms al_kind
    al_surface al_outcome al_tool al_code al_name al_detail al_cid al_req al_conn al_dur_ms al_dropped].
  f_equal; [by destruct k|by destruct s as [[]|]|by destruct o|by destruct t|by destruct c|by destruct n
    |by destruct d|by destruct i|by destruct q|by destruct g|by destruct u|by destruct p].
Qed.
Definition c_line : codec AuditLine :=
  let cs := c_list c_string in let cz := c_list c_Z in
  c_iso (c_pair (c_pair (c_pair (c_pair c_Z c_Z) (c_pair c_string cs))
                   (c_pair (c_pair (c_pair cs cs) (c_pair cs cs)) (c_pair cs cs)))
           (c_pair (c_pair cz cz) (c_pair cz cz))) of_tuple to_tuple line_tuple_iso.
#[export] Instance json : JsonCodec AuditLine := line_codec c_line.
#[export] Instance json_ok : JsonCodecOk AuditLine := line_codec_ok c_line.

Definition engaged : AuditLine := line_of (audit_of KillEngage SurfCli "ok" None).
Definition works : AuditIo := mkAuditIo None true true None None.
Definition torn : AuditIo := mkAuditIo None true true None (Some (3, IoError Other "no space left")).
Definition empty : Sink := mkSink (mkFiles None None) 0 [].
Definition calls : list (Z * AuditIo * AuditLine) := [(1%Z, torn, engaged); (2%Z, torn, engaged); (3%Z, works, engaged)].

(** Two writers that both saw a full file: the second finds it rotated. A third opened the
    full file before that and writes to it under its new name. *)
Definition line3 : bytes := [x61; x62; x0a].
Definition race : list Trail.label :=
  [Trail.Begin 0 line3 true; Trail.Open 0 true; Trail.Write 0 3; Trail.Begin 1 line3 true; Trail.Open 1 true; Trail.Write 1 3;
   Trail.Begin 2 [x0a] true; Trail.Open 2 true;
   Trail.Begin 0 line3 true; Trail.Begin 1 line3 true; Trail.TryLock 0 true; Trail.Recheck 0 true; Trail.Rename 0 true;
   Trail.Open 0 true; Trail.Write 0 2; Trail.Write 0 1; Trail.TryLock 1 true; Trail.Recheck 1 true; Trail.Open 1 true;
   Trail.Write 2 1; Trail.Write 1 3].
Fixpoint play (ls : list Trail.label) (s : Trail.state) : option Trail.state :=
  match ls with [] => Some s | l :: ls => s ← Trail.exec 8 l s; play ls s end.
Lemma play_run ls s s' :
  play ls s = Some s' -> Forall (Trail.short 6) ls -> Trail.run 8 6 3 s -> Trail.run 8 6 3 s'.
Proof.
  revert s. induction ls as [|l ls IH]; intros s H Hs Hr; cbn [play] in H; [by injection H as <-|].
  apply bind_Some in H as (s1 & H1 & H). apply Forall_cons_1 in Hs as [Hl Hs].
  apply (IH s1 H Hs). eapply reach_step; [exact Hr|by constructor].
Qed.
Definition raced : Trail.state := Eval vm_compute in default (Trail.start 3) (play race (Trail.start 3)).
End AuditExample.

Lemma every_audit_record_is_accounted_for_witness :
  accounted (@record_all AuditExample.json AuditExample.calls AuditExample.empty) = 3%Z.
Proof.
  rewrite (proj1 (@every_audit_record_is_accounted_for AuditExample.json AuditExample.calls AuditExample.empty
    ltac:(repeat constructor) ltac:(cbn; lia) ltac:(unfold u64_max; cbn; lia))). reflexivity.
Defined.

Lemma audit_page_is_the_newest_suffix_witness :
  exists page, @read_at AuditExample.json "audit.log" (FileText [x61; x0a; x62]) (FileText []) 1 = Ok page /\
    ap_older page = 1.
Proof.
  destruct (@audit_page_is_the_newest_suffix AuditExample.json AuditExample.json_ok "audit.log" 1 [] []
    [x61; x0a; x62] [] ltac:(constructor)) as [_ (page & H & _ & _)].
  exists page. split; [exact H|]. injection H as <-. reflexivity.
Defined.

Lemma rotation_keeps_the_newest_history_witness :
  exists b, Trail.created AuditExample.raced !! 0 = Some b /\ (8 < Z.of_nat (length b) + 6)%Z.
Proof.
  eexists. split; [vm_compute; reflexivity|].
  refine (proj1 (proj2 (proj2 (rotation_keeps_the_newest_history 8 6 3 AuditExample.raced _))) 0 _ _ _);
    [|vm_compute; reflexivity|discriminate]. apply (AuditExample.play_run AuditExample.race (Trail.start 3)).
  - vm_compute. reflexivity.
  - repeat constructor; cbn; lia.
  - by apply reach_init.
Defined.
