(* ===== verification/Logging.v ===== *)
(** Logging: the lines a process prints on standard error (src/src/packages/core/src/log.rs)
    and the JSON of an audit record, on those lines and in the trail's file (audit.rs). The
    two settings are read from the environment once, at their first use, and kept: a
    process's logger is the pair of cells and the lines so far, each call is given the
    environment as it is then. *)
From S2P Require Import Prelude Json Policy Identity Trust PolicyRecord World ToolArgs Wire Control Replies Envelopes AuditTrail.
From stdpp Require Import base list sets strings.

(** * Settings *)

Definition LEVEL_ENV : string := "GENKAN_LOG".
Definition FORMAT_ENV : string := "GENKAN_LOG_FORMAT".

(** Least verbose first: the order of the declaration. *)
Inductive Level := LevelError | LevelWarn | LevelInfo | LevelDebug.
Definition Level_ALL : list Level := [LevelError; LevelWarn; LevelInfo; LevelDebug].
Definition Level_name (l : Level) : string :=
  match l with LevelError => "error" | LevelWarn => "warn" | LevelInfo => "info" | LevelDebug => "debug" end.
Definition Level_label (l : Level) : string :=
  match l with LevelError => "ERROR" | LevelWarn => "WARN" | LevelInfo => "INFO" | LevelDebug => "DEBUG" end.
Definition Level_rank (l : Level) : nat :=
  match l with LevelError => 0 | LevelWarn => 1 | LevelInfo => 2 | LevelDebug => 3 end.
Definition Level_le (a b : Level) : bool := Level_rank a <=? Level_rank b.

Inductive Format := FormatText | FormatJson.
Definition Format_ALL : list Format := [FormatText; FormatJson].
Definition Format_name (f : Format) : string := match f with FormatText => "text" | FormatJson => "json" end.
Definition Format_label (f : Format) : string := match f with FormatText => "TEXT" | FormatJson => "JSON" end.

(** [std::env::var(..).ok()] at the time of a call. *)
Definition Env : Type := string -> option string.

(** The initialisers of the two cells. *)
Definition spelled {T} (all : list T) (name label : T -> string) (raw : option string) : option T :=
  List.find (fun t => match raw with Some v => String.eqb v (name t) || String.eqb v (label t) | None => false end) all.
Definition parse_level (env : Env) : Level := default LevelInfo (spelled Level_ALL Level_name Level_label (env LEVEL_ENV)).
Definition parse_format (env : Env) : Format := default FormatText (spelled Format_ALL Format_name Format_label (env FORMAT_ENV)).

(** * The logger *)

Record Logger := mkLogger { lg_threshold : option Level; lg_format : option Format; lg_err : list string }.
Definition quiet : Logger := mkLogger None None [].

Definition threshold (env : Env) (g : Logger) : Level * Logger :=
  let l := default (parse_level env) (lg_threshold g) in (l, mkLogger (Some l) (lg_format g) (lg_err g)).
Definition format (env : Env) (g : Logger) : Format * Logger :=
  let f := default (parse_format env) (lg_format g) in (f, mkLogger (lg_threshold g) (Some f) (lg_err g)).

Definition enabled (env : Env) (l : Level) (g : Logger) : bool * Logger :=
  let '(t, g) := threshold env g in (Level_le l t, g).

Definition eprintln (line : string) (g : Logger) : Logger :=
  mkLogger (lg_threshold g) (lg_format g) (lg_err g ++ [line]).

Definition emit (env : Env) (l : Level) (tag text : string) (g : Logger) : Logger :=
  let '(on, g) := enabled env l g in
  if on then eprintln ("[" +:+ Level_label l +:+ "] [" +:+ tag +:+ "] " +:+ text) g else g.

(** An event: its [Display] and its [Serialize]. *)
Class Event (T : Type) := { event_display : T -> string; event_json : T -> json }.

Definition FLATTEN_ERROR : string := "can only flatten structs and maps".

Section audit.
Context {T : Type} `{EV : !Event T, JT : !JsonText}.

(** [Envelope] with the event flattened into it, which only an object can be. *)
Definition audit_envelope (event : T) : result string json :=
  match event_json event with JObj m => Ok (JObj (("kind", JStr "audit") :: m)) | _ => Err FLATTEN_ERROR end.

Definition render_audit (f : Format) (event : T) : result string string :=
  match f with
  | FormatText => Ok ("[AUDIT] " +:+ event_display event)
  | FormatJson => j ← audit_envelope event; Ok (utf8 (print_text j))
  end.

Definition audit (env : Env) (event : T) (g : Logger) : Logger :=
  let '(on, g) := enabled env LevelInfo g in
  if negb on then g
  else
    let '(f, g) := format env g in
    match render_audit f event with
    | Ok line => eprintln line g
    | Err e => emit env LevelWarn "audit" ("audit line could not be rendered: " +:+ e) g
    end.
End audit.

(** * The JSON of an audit record *)

Definition ALL_KINDS : list AuditKind :=
  [ToolCall; HarnessAdmit; HarnessRefuse; AttachRefuse; BrowserAttach; BrowserRefuse; PairClient; RevokeClient;
   HostKeyRevoke; HostKeyPair; KillEngage; KillRelease; PresenceAssert; AuditEnroll; RevokeBrowser; PolicyWrite;
   ConfirmShown; ConfirmAllowed; ConfirmDenied; EnrollApproved; EnrollRejected; EnrollRevoked].
Definition ALL_SURFACES : list Surface := [SurfCli; SurfExtension; SurfBroker; SurfHost; SurfCore].

(** A unit variant: its name, or the object of one member that holds [null]. *)
Definition variant_take {T} (all : list T) (spell : T -> string) (name : string) (j : json) : result args_error T :=
  let named (s : string) := ok_or (List.find (fun t => String.eqb (spell t) s) all) (OutOfRange name) in
  match j with
  | JStr s => named s
  | JObj [(s, JNull)] => named s
  | _ => Err (InvalidType name)
  end.

Definition u32_take (name : string) (j : json) : result args_error Z :=
  match j with
  | JInt n => if (0 <=? n)%Z && (n <=? u32_max)%Z then Ok n else Err (InvalidType name)
  | _ => Err (InvalidType name)
  end.

Program Definition c_u32 : member_codec Z := MemberCodec JInt u32_take (fun n => (0 <= n <= u32_max)%Z) _ _.
Next Obligation. intros name n [H1 H2]. unfold u32_take. apply Z.leb_le in H1 as ->. by apply Z.leb_le in H2 as ->. Qed.
Next Obligation. done. Qed.
Program Definition c_kind : member_codec AuditKind :=
  MemberCodec (fun k => JStr (audit_kind_name k)) (variant_take ALL_KINDS audit_kind_name) (fun _ => True) _ _.
Next Obligation. by intros name []. Qed.
Next Obligation. done. Qed.
Program Definition c_surface : member_codec Surface :=
  MemberCodec (fun s => JStr (surface_name s)) (variant_take ALL_SURFACES surface_name) (fun _ => True) _ _.
Next Obligation. by intros name []. Qed.
Next Obligation. done. Qed.

Definition LINE_FIELDS : list string :=
  ["v"; "ts_ms"; "event_kind"; "surface"; "outcome"; "tool"; "code"; "name"; "detail"; "cid"; "req"; "conn"; "dur_ms"; "dropped"].

Definition line_members (r : AuditLine) : members :=
  req c_u32 "v" (al_v r) ++ req c_u64 "ts_ms" (al_ts_ms r) ++ req c_kind "event_kind" (al_kind r) ++
  opt c_surface "surface" (al_surface r) ++ opt c_str "outcome" (al_outcome r) ++ opt c_str "tool" (al_tool r) ++
  opt c_str "code" (al_code r) ++ opt c_str "name" (al_name r) ++ opt c_str "detail" (al_detail r) ++
  opt c_str "cid" (al_cid r) ++ opt c_u64 "req" (al_req r) ++ opt c_u64 "conn" (al_conn r) ++
  opt c_u64 "dur_ms" (al_dur_ms r) ++ opt c_u64 "dropped" (al_dropped r).

#[export] Instance AuditLine_envelope : Envelope AuditLine := {|
  env_put r := JObj (line_members r);
  env_take j :=
    m ← as_struct LINE_FIELDS j; _ ← deny_unknown_fields LINE_FIELDS m;
    v ← needed (mc_take c_u32) "v" m; ts_ms ← needed (mc_take c_u64) "ts_ms" m;
    kind ← needed (mc_take c_kind) "event_kind" m; surface ← optional (mc_take c_surface) "surface" m;
    outcome ← optional (mc_take c_str) "outcome" m; tool ← optional (mc_take c_str) "tool" m;
    code ← optional (mc_take c_str) "code" m; name ← optional (mc_take c_str) "name" m;
    detail ← optional (mc_take c_str) "detail" m; cid ← optional (mc_take c_str) "cid" m;
    req ← optional (mc_take c_u64) "req" m; conn ← optional (mc_take c_u64) "conn" m;
    dur_ms ← optional (mc_take c_u64) "dur_ms" m; dropped ← optional (mc_take c_u64) "dropped" m;
    Ok (mkLine v ts_ms kind surface outcome tool code name detail cid req conn dur_ms dropped)
|}.

#[export] Instance AuditLine_event `{CH : Chrono} : Event AuditLine := {|
  event_display := line_display;
  event_json := env_put
|}.

(** * Recording *)

Section record.
Context `{CH : Chrono, JT : !JsonText}.
#[local] Existing Instance envelope_codec.

Definition WRITE_FAILED : string :=
  "audit file write failed; the event was recorded on stderr only (the decision it describes is unaffected)".

(** [audit::record], its log lines included. *)
Definition record (env : Env) (now_ms : Z) (io : AuditIo) (r : AuditLine) (w : Sink * Logger) : Sink * Logger :=
  let '(s, g) := w in
  let rec := stamp now_ms (sk_dropped s) r in
  let g := audit env rec g in
  let g :=
    match (append_record io rec (sk_files s)).1 with
    | Ok _ => g
    | Err _ => emit env LevelWarn "audit" WRITE_FAILED g
    end in
  (record_line now_ms io r s, g).
End record.

(** * Lemmas *)

(** ** Members *)

Section member_lists.
Context {T : Type} (c : member_codec T).

Lemma member_app name (m1 m2 : members) :
  member name (m1 ++ m2) = match member name m1 with Some j => Some j | None => member name m2 end.
Proof. unfold member. induction m1 as [|[k j] m1 IH]; [done|]. cbn. by destruct (String.eqb k name). Qed.

Lemma member_opt name (o : option T) : member name (opt c name o) = mc_put c <$> o.
Proof. destruct o; [|done]. unfold member. cbn. by rewrite String.eqb_refl. Qed.

Lemma member_opt_ne name k (o : option T) : String.eqb k name = false -> member name (opt c k o) = None.
Proof. intros H. destruct o; [|done]. unfold member. cbn. by rewrite H. Qed.

Lemma optional_read name m o : member name m = mc_put c <$> o -> opt_fit c o -> optional (mc_take c) name m = Ok o.
Proof.
  intros Hm Hf. destruct o as [v|]; [|by apply optional_absent]. by apply optional_put; [|apply Hf].
Qed.

Lemma keys_opt k (o : option T) keys fields :
  keys `sublist_of` fields -> (opt c k o).*1 ++ keys `sublist_of` k :: fields.
Proof. intros H. destruct o; cbn; [by apply sublist_skip|by apply sublist_cons]. Qed.
End member_lists.

Lemma sublist_fields (m : members) fields :
  NoDup fields -> m.*1 `sublist_of` fields -> once fields m = Ok tt /\ deny_unknown_fields fields m = Ok tt.
Proof.
  intros Hnd Hs. split.
  - assert (forall fs, repeated fs m = None) as Hr; [|by unfold once; rewrite Hr].
    intros fs. induction fs as [|k fs IH]; [done|]. cbn [repeated].
    destruct (Nat.ltb_spec 1 (length (List.filter (fun kv => String.eqb kv.1 k) m))) as [Hlt|]; [|done]. exfalso.
    assert (NoDup m.*1) as Hn by (by eapply sublist_NoDup).
    clear - Hlt Hn. induction m as [|[k' j] m IH]; [cbn in Hlt; lia|]. cbn in *. apply NoDup_cons in Hn as [Hk Hn].
    destruct (String.eqb_spec k' k) as [->|]; [|by apply IH]. cbn in Hlt.
    assert (List.filter (fun kv => String.eqb kv.1 k) m = []) as E; [|rewrite E in Hlt; cbn in Hlt; lia].
    clear - Hk. induction m as [|[k'' j] m IH]; [done|]. cbn in *. destruct (String.eqb_spec k'' k) as [->|]; [set_solver|].
    apply IH. set_solver.
  - unfold deny_unknown_fields. destruct (List.find _ m) as [[k j]|] eqn:E; [|done]. exfalso.
    apply find_some in E as [Hin Hk]. apply negb_true_iff in Hk.
    assert (k ∈ fields) as Hf.
    { eapply elem_of_sublist; [|exact Hs]. apply list_elem_of_fmap. exists (k, j). split; [done|]. by apply list_elem_of_In. }
    apply str_mem_true in Hf. cbn [fst] in Hk. congruence.
Qed.

(** ** The record *)

Definition line_fit (r : AuditLine) : Prop :=
  mc_fit c_u32 (al_v r) /\ mc_fit c_u64 (al_ts_ms r) /\ opt_fit c_u64 (al_req r) /\ opt_fit c_u64 (al_conn r) /\
  opt_fit c_u64 (al_dur_ms r) /\ opt_fit c_u64 (al_dropped r).

(** Where a member is in a list of members of distinct names. *)
Ltac find_member :=
  unfold line_members, req;
  repeat match goal with |- context [[(?k, mc_put ?c ?v)]] => change [(k, mc_put c v)] with (opt c k (Some v)) end;
  rewrite ?member_app, ?member_opt; repeat rewrite member_opt_ne by reflexivity;
  first [reflexivity | match goal with |- context [_ <$> ?o] => by destruct o end].

Ltac read_as c k v :=
  first [rewrite (needed_put c k v)|rewrite (optional_read c k _ v)]; [|find_member|done]; cbn [mbind result_mbind].

Lemma line_keys r : (line_members r).*1 `sublist_of` LINE_FIELDS.
Proof.
  rewrite <- (app_nil_r (line_members r)). unfold line_members. rewrite <- !app_assoc, !fmap_app.
  apply (keys_opt c_u32 _ (Some (al_v r))), (keys_opt c_u64 _ (Some (al_ts_ms r))), (keys_opt c_kind _ (Some (al_kind r))).
  repeat apply keys_opt. constructor.
Qed.

Lemma line_reads r : line_fit r -> env_take (env_put r) = Ok r.
Proof.
  intros (Hv & Ht & Hr & Hc & Hd & Hx). cbn [env_take env_put AuditLine_envelope as_struct].
  destruct (sublist_fields (line_members r) LINE_FIELDS) as [-> E]; [|apply line_keys|].
  { apply (bool_decide_unpack _). by vm_compute. }
  cbn [mbind result_mbind]. rewrite E. cbn [mbind result_mbind].
  read_as c_u32 "v" (al_v r). read_as c_u64 "ts_ms" (al_ts_ms r). read_as c_kind "event_kind" (al_kind r).
  read_as c_surface "surface" (al_surface r). read_as c_str "outcome" (al_outcome r).
  read_as c_str "tool" (al_tool r). read_as c_str "code" (al_code r). read_as c_str "name" (al_name r).
  read_as c_str "detail" (al_detail r). read_as c_str "cid" (al_cid r). read_as c_u64 "req" (al_req r).
  read_as c_u64 "conn" (al_conn r). read_as c_u64 "dur_ms" (al_dur_ms r). read_as c_u64 "dropped" (al_dropped r).
  by destruct r.
Qed.

Lemma u32_fit name j n : mc_take c_u32 name j = Ok n -> mc_fit c_u32 n.
Proof. cbv [mc_take mc_fit c_u32 u32_take]. destruct j; try done. destruct (_ && _) eqn:E; [|done]. intros [= <-]. lia. Qed.
Lemma u64_fit name j n : mc_take c_u64 name j = Ok n -> mc_fit c_u64 n.
Proof. cbv [mc_take mc_fit c_u64 u64_take]. destruct j; try done. destruct (_ && _) eqn:E; [|done]. intros [= <-]. lia. Qed.
Lemma opt_u64_fit name m o : optional (mc_take c_u64) name m = Ok o -> opt_fit c_u64 o.
Proof. intros H v ->. apply optional_Ok in H as (j & H). by eapply u64_fit. Qed.

#[export] Instance AuditLine_envelope_ok : EnvelopeOk AuditLine.
Proof.
  split. intros j t H. apply line_reads. cbn [env_take AuditLine_envelope] in H.
  do 16 (apply bind_Ok in H as (? & ? & H)). injection H as <-. unfold line_fit.
  repeat match goal with H : needed _ _ _ = Ok _ |- _ => apply needed_Ok in H as (? & H) end.
  refine (conj _ (conj _ (conj _ (conj _ (conj _ _))))); eauto using u32_fit, u64_fit, opt_u64_fit.
Qed.

(** ** Runs *)

Inductive call := CallEmit (l : Level) (tag text : string) | CallAudit (r : AuditLine).

Section runs.
Context `{CH : Chrono, JT : !JsonText}.

Definition log_call (env : Env) (c : call) (g : Logger) : Logger :=
  match c with CallEmit l tag text => emit env l tag text g | CallAudit r => audit env r g end.
Fixpoint logs (calls : list (Env * call)) (g : Logger) : Logger :=
  match calls with [] => g | (env, c) :: calls => logs calls (log_call env c g) end.

(** What a call prints under a threshold and a format. *)
Definition audit_text (f : Format) (r : AuditLine) : string :=
  match f with
  | FormatText => "[AUDIT] " +:+ line_display r
  | FormatJson => utf8 (print_text (JObj (("kind", JStr "audit") :: line_members r)))
  end.
Definition said (t : Level) (f : Format) (c : call) : option string :=
  match c with
  | CallEmit l tag text =>
      if Level_le l t then Some ("[" +:+ Level_label l +:+ "] [" +:+ tag +:+ "] " +:+ text) else None
  | CallAudit r => if Level_le LevelInfo t then Some (audit_text f r) else None
  end.

(** The environment of the first call that asks for the format. *)
Definition first_format (calls : list (Env * call)) : Format :=
  default FormatText (parse_format <$> head (omap (fun ec => match ec.2 with CallAudit _ => Some ec.1 | _ => None end) calls)).

Lemma render_audit_text f (r : AuditLine) : render_audit f r = Ok (audit_text f r).
Proof. by destruct f. Qed.

Lemma enabled_known env l t f e : enabled env l (mkLogger (Some t) f e) = (Level_le l t, mkLogger (Some t) f e).
Proof. done. Qed.
Lemma format_known env t f e : format env (mkLogger t (Some f) e) = (f, mkLogger t (Some f) e).
Proof. done. Qed.
Lemma format_first env t e : format env (mkLogger t None e) = (parse_format env, mkLogger t (Some (parse_format env)) e).
Proof. done. Qed.

Lemma emit_known env l tag text t f e :
  emit env l tag text (mkLogger (Some t) f e) =
  mkLogger (Some t) f (e ++ option_list (said t FormatText (CallEmit l tag text))).
Proof.
  unfold emit. rewrite enabled_known. cbn [said]. destruct (Level_le l t); [done|]. cbn. by rewrite app_nil_r.
Qed.

Lemma audit_known env (r : AuditLine) t f e :
  audit env r (mkLogger (Some t) f e) =
  mkLogger (Some t) (if Level_le LevelInfo t then Some (default (parse_format env) f) else f)
    (e ++ option_list (said t (default (parse_format env) f) (CallAudit r))).
Proof.
  unfold audit. rewrite enabled_known. cbn [said]. destruct (Level_le LevelInfo t); cbn [negb option_list]; [|by rewrite app_nil_r].
  destruct f as [f|]; rewrite ?format_known, ?format_first; by rewrite render_audit_text.
Qed.

Lemma logs_known calls t f e :
  lg_err (logs calls (mkLogger (Some t) (Some f) e)) = e ++ omap (said t f) calls.*2.
Proof.
  revert e. induction calls as [|[env c] calls IH]; intros e; cbn [logs]; [by rewrite app_nil_r|].
  destruct c as [l tag text|r]; cbn [log_call]; rewrite ?emit_known, ?audit_known; cbn [default from_option id];
    rewrite ?(Tauto.if_same); rewrite IH, <- app_assoc; f_equal; cbn [fmap list_fmap snd omap list_omap]; by destruct (said _ _ _).
Qed.

(** Below [Info] the format does not matter. *)
Lemma said_off t f f' (l : list call) : Level_le LevelInfo t = false -> omap (said t f) l = omap (said t f') l.
Proof.
  intros E. induction l as [|c l IH]; [done|]. cbn [omap list_omap]. rewrite IH. by destruct c; cbn [said]; rewrite ?E.
Qed.

Lemma logs_level calls t e :
  lg_err (logs calls (mkLogger (Some t) None e)) = e ++ omap (said t (first_format calls)) calls.*2.
Proof.
  revert e. induction calls as [|[env c] calls IH]; intros e; cbn [logs]; [by rewrite app_nil_r|].
  destruct c as [l tag text|r]; cbn [log_call].
  - change (first_format ((env, CallEmit l tag text) :: calls)) with (first_format calls).
    rewrite emit_known, IH, <- app_assoc. f_equal. cbn. by destruct (Level_le l t).
  - change (first_format ((env, CallAudit r) :: calls)) with (parse_format env).
    rewrite audit_known. change (default (parse_format env) None) with (parse_format env).
    destruct (Level_le LevelInfo t) eqn:E.
    + rewrite logs_known, <- app_assoc. f_equal. cbn [fmap list_fmap snd omap list_omap]. by destruct (said _ _ _).
    + rewrite IH, <- app_assoc. f_equal. cbn [fmap list_fmap snd omap list_omap said]. rewrite E. by apply said_off.
Qed.
End runs.

(** * Properties *)

Section properties.
Context `{CH : Chrono, JT : !JsonText}.
#[local] Existing Instance envelope_codec.

(** The settings are read once. Whatever the environment becomes afterwards, the lines a
    process prints are those of its calls, in order, that pass the threshold the first call
    found, each audit line in the format the first of them found. *)
Theorem log_settings_are_read_once (env : Env) (c : call) (calls : list (Env * call)) :
  lg_err (logs ((env, c) :: calls) quiet) =
  omap (said (parse_level env) (first_format ((env, c) :: calls))) (c :: calls.*2).
Proof.
  assert (logs ((env, c) :: calls) quiet = logs ((env, c) :: calls) (mkLogger (Some (parse_level env)) None [])) as ->
    by (by destruct c).
  by rewrite logs_level.
Qed.

(** An audit line in JSON is one line, an object whose [kind] is the collectors' [audit] and
    whose other members are the record: none of them is named [kind], and they read as the
    record that was logged. *)
Theorem json_audit_line_reads_as_its_record `{JO : !JsonTextOk} (r : AuditLine) :
  line_fit r ->
  exists b m, render_audit FormatJson r = Ok (utf8 b) /\ (Byte.x0a ∉ b) /\
    parse_text b = Ok (JObj (("kind", JStr "audit") :: m)) /\ member "kind" m = None /\ env_take (JObj m) = Ok r.
Proof.
  intros Hr. exists (print_text (JObj (("kind", JStr "audit") :: line_members r))), (line_members r).
  split; [done|]. split; [apply text_one_line|]. split; [apply text_rereads|]. split; [|by apply line_reads].
  destruct (member "kind" (line_members r)) as [j|] eqn:E; [|done]. exfalso.
  unfold member in E. apply fmap_Some in E as ([k j'] & E & _). apply find_some in E as [Hin Hk].
  apply String.eqb_eq in Hk. cbn in Hk. subst k.
  assert ("kind" ∈ LINE_FIELDS) as H; [|apply str_mem_true in H; by vm_compute in H].
  eapply elem_of_sublist; [|apply (line_keys r)]. apply list_elem_of_fmap. exists ("kind", j'). split; [done|].
  by apply list_elem_of_In.
Qed.

Lemma logger_known env c g :
  log_call env c g = log_call env c (mkLogger (Some (threshold env g).1) (lg_format g) (lg_err g)).
Proof. by destruct g as [[t|] f e], c. Qed.

(** What [record] says on standard error when audit lines are shown: the record as it is
    written to the file, and after it, exactly when it did not reach the file, the warning.
    An event is therefore in the trail or on standard error, and there also when in the trail. *)
Theorem shown_record_is_never_lost (env : Env) (now_ms : Z) (io : AuditIo) (r : AuditLine) (s : Sink) (g : Logger) :
  Level_le LevelInfo (threshold env g).1 = true ->
  let line := stamp now_ms (sk_dropped s) r in
  let landed := is_ok (append_record io line (sk_files s)).1 in
  lg_err (record env now_ms io r (s, g)).2 =
    lg_err g ++ audit_text (format env g).1 line :: (if landed then [] else ["[WARN] [audit] " +:+ WRITE_FAILED]) /\
  sk_written (record env now_ms io r (s, g)).1 = sk_written s ++ (if landed then [line] else []).
Proof.
  intros Ht line landed. unfold record. cbn [fst snd]. fold line.
  pose proof (logger_known env (CallAudit line) g) as Hg. cbn [log_call] in Hg. rewrite Hg, audit_known. cbn [said].
  rewrite Ht. cbn [option_list]. change (default (parse_format env) (lg_format g)) with (format env g).1.
  assert (Level_le LevelWarn (threshold env g).1 = true) as Hw by (revert Ht; by destruct (threshold env g).1).
  split.
  - subst landed. destruct (append_record io line (sk_files s)).1; cbn [is_ok lg_err]; [done|].
    rewrite emit_known. cbn [said lg_err]. rewrite Hw. cbn [option_list]. by rewrite <- app_assoc.
  - unfold record_line. fold line. subst landed. destruct (append_record io line (sk_files s)) as [[u|e] files]; [done|].
    cbn. by rewrite app_nil_r.
Qed.

(** With [GENKAN_LOG=warn] a record that cannot be written is nowhere: the one line printed
    says that the event was recorded on standard error, where it was not. *)
Theorem hidden_record_is_said_to_be_on_stderr (env : Env) (now_ms : Z) (io : AuditIo) (e : io_error) (r : AuditLine) (f : Files) :
  env LEVEL_ENV = Some "warn" -> ai_path io = Some e ->
  record env now_ms io r (mkSink f 0 [], quiet) =
  (mkSink f 1 [], mkLogger (Some LevelWarn) None ["[WARN] [audit] " +:+ WRITE_FAILED]).
Proof.
  intros Henv Hio. assert (parse_level env = LevelWarn) as Hl by (unfold parse_level; by rewrite Henv).
  unfold record. cbn [sk_dropped sk_files]. unfold append_record, record_line, append_record. rewrite Hio. cbn [fst snd sk_dropped sk_files].
  pose proof (logger_known env (CallAudit (stamp now_ms 0 r)) quiet) as Hg. cbn [log_call] in Hg. rewrite Hg.
  change (threshold env quiet).1 with (parse_level env). by rewrite Hl, audit_known, emit_known.
Qed.
End properties.

(** * Witnesses *)

Module LoggingExample.
#[export] Instance clock : Chrono := {| utc_millis _ := None |}.
Definition warn_env : Env := fun k => if String.eqb k LEVEL_ENV then Some "warn" else None.
Definition json_env : Env := fun k => if String.eqb k FORMAT_ENV then Some "JSON" else None.
Definition no_path : AuditIo := mkAuditIo (Some (IoError NotFound "no home")) true true None None.
Definition blank : JsonText := {| parse_text _ := Err ""; print_text _ := []; refusal_text _ := "" |}.
Definition engaged : AuditLine := line_of (audit_of KillEngage SurfCli "ok" None).
End LoggingExample.

Lemma hidden_record_is_said_to_be_on_stderr_witness :
  record (CH := LoggingExample.clock) (JT := LoggingExample.blank) LoggingExample.warn_env 7 LoggingExample.no_path LoggingExample.engaged
    (mkSink (mkFiles None None) 0 [], quiet) =
  (mkSink (mkFiles None None) 1 [], mkLogger (Some LevelWarn) None ["[WARN] [audit] " +:+ WRITE_FAILED]).
Proof. by apply (hidden_record_is_said_to_be_on_stderr (CH := LoggingExample.clock) (JT := LoggingExample.blank) _ _ _ (IoError NotFound "no home")). Defined.
