(* ===== verification/Browsers.v ===== *)
(** Browsers: which Chromium-family browsers exist and where each looks for the
    native-messaging registration, per operating system and scope
    (src/src/packages/core/src/browsers.rs).

    A path is its text; [join] is [Path::join] of a relative path under the build's
    separator; whether a path is absolute and what its parent is are the build's too
    ([PathStyle], with [unix_style] for Unix). *)
From S2P Require Import Prelude Control WebAuthn.
From Stdlib Require Import Ascii.
From stdpp Require Import base list sets strings.

Class PathStyle := { sep : string; is_absolute : string -> bool; parent : string -> option string }.

(** [Path::ancestors] ends: every parent is shorter. *)
Class PathStyleOk `{!PathStyle} := {
  parent_shorter p q : parent p = Some q -> String.length q < String.length p
}.

(** [Path] on Unix: [parent] drops the last component, trailing separators aside. A
    path component ["."] is kept, where [Path] normalises it away. *)
Fixpoint drop_while (p : ascii -> bool) (l : list ascii) : list ascii :=
  match l with
  | [] => []
  | c :: l' => if p c then drop_while p l' else l
  end.

Definition is_sep (c : ascii) : bool := Ascii.eqb c "/".

Definition unix_parent (path : string) : option string :=
  match drop_while is_sep (rev (String.list_ascii_of_string path)) with
  | [] => None
  | r =>
      let up := drop_while (fun c => negb (is_sep c)) r in
      match drop_while is_sep up, up with
      | [], [] => Some ""
      | [], _ => Some "/"
      | up, _ => Some (String.string_of_list_ascii (rev up))
      end
  end.

#[global] Instance unix_style : PathStyle := {|
  sep := "/";
  is_absolute s := match s with String c _ => Ascii.eqb c "/" | "" => false end;
  parent := unix_parent |}.

Example unix_parents : unix_parent <$> ["/a/b"; "/a//b/"; "/a"; "/"; "a"; ""]
  = [Some "/a"; Some "/a"; Some "/"; None; Some ""; None].
Proof. reflexivity. Qed.

Lemma drop_while_length p l : length (drop_while p l) <= length l.
Proof. induction l as [|c l IH]; cbn; [done|]. destruct (p c); cbn; lia. Qed.

Lemma drop_while_head p l : match drop_while p l with c :: _ => p c = false | [] => True end.
Proof. induction l as [|c l IH]; cbn; [done|]. by destruct (p c) eqn:E. Qed.

Lemma length_of_ascii s : length (String.list_ascii_of_string s) = String.length s.
Proof. induction s as [|c s IH]; cbn; congruence. Qed.

Lemma length_of_string l : String.length (String.string_of_list_ascii l) = length l.
Proof. induction l as [|c l IH]; cbn; congruence. Qed.

#[global] Instance unix_style_ok : @PathStyleOk unix_style.
Proof.
  constructor. intros p q. cbn [parent unix_style]. unfold unix_parent.
  set (r := rev (String.list_ascii_of_string p)).
  assert (length r = String.length p) as Hr by (unfold r; by rewrite length_rev, length_of_ascii).
  pose proof (drop_while_length is_sep r). pose proof (drop_while_head is_sep r) as Hh.
  destruct (drop_while is_sep r) as [|c r1]; [done|]. cbn [drop_while]. rewrite Hh. cbn [negb].
  pose proof (drop_while_length (fun c => negb (is_sep c)) r1).
  set (up := drop_while (fun c => negb (is_sep c)) r1) in *.
  pose proof (drop_while_length is_sep up). cbn [length] in *.
  destruct (drop_while is_sep up) as [|c' up']; [destruct up; intros [= <-]; cbn [String.length length] in *; lia|].
  intros H'. apply (inj Some) in H' as <-. rewrite length_of_string, length_rev. cbn [length] in *. lia.
Qed.

Inductive Os := MacOs | Linux | Windows.

(** [browsers::Scope]. *)
Inductive Scope := ScopeUser | ScopeSystem.

Record Scoped (T : Type) := mkScoped { sc_user : T; sc_system : T }.
Arguments mkScoped {T} _ _.
Arguments sc_user {T} _.
Arguments sc_system {T} _.

Definition scoped_get {T} (s : Scoped T) (scope : Scope) : T :=
  match scope with ScopeUser => sc_user s | ScopeSystem => sc_system s end.

Inductive Hive := CurrentUser | LocalMachine.

Definition hive_for_scope (scope : Scope) : Hive :=
  match scope with ScopeUser => CurrentUser | ScopeSystem => LocalMachine end.
Definition hive_display (h : Hive) : string :=
  match h with CurrentUser => "HKCU" | LocalMachine => "HKLM" end.

#[export] Instance Scope_eq_dec : EqDecision Scope.
Proof. solve_decision. Defined.
#[export] Instance Hive_eq_dec : EqDecision Hive.
Proof. solve_decision. Defined.
#[export] Instance Os_eq_dec : EqDecision Os.
Proof. solve_decision. Defined.

Definition NATIVE_HOST_ID : string := "com.vivswan.genkan.host".

Record BaseDirs := mkDirs {
  home : string;
  xdg_config_home : option string;
  xdg_data_home : option string;
  bd_local_app_data : option string;
  roaming_app_data : option string;
  bd_program_files : option string;
  system_root : string
}.

Inductive Registration :=
| ManifestDir (dir : string)
| RegistryReg (hive : Hive) (key manifest_path : string).

#[export] Instance Registration_eq_dec : EqDecision Registration.
Proof. solve_decision. Defined.

Inductive Lookup :=
| LookupOwn (registration : Registration) (readers : list Browser)
| ReadsFrom (owner : Browser) (registration : Registration).

Definition lookup_registration (l : Lookup) : Registration :=
  match l with LookupOwn r _ | ReadsFrom _ r => r end.
Definition lookup_owner (l : Lookup) : option Browser :=
  match l with LookupOwn _ _ => None | ReadsFrom owner _ => Some owner end.

Inductive ExtensionPointer :=
| PointerFile (path : string)
| PointerRegistry (hive : Hive) (key : string).

#[export] Instance ExtensionPointer_eq_dec : EqDecision ExtensionPointer.
Proof. solve_decision. Defined.

Record BrowserEntry := mkEntry {
  be_browser : Browser;
  be_presence : Scoped (list string);
  be_manifest : Scoped Lookup;
  be_pointer : option (Scoped ExtensionPointer)
}.

(** * Tables *)

Definition macos_vendor_dir (b : Browser) : string :=
  match b with
  | Chrome => "Google/Chrome"
  | Chromium => "Chromium"
  | Brave => "BraveSoftware/Brave-Browser"
  | Edge => "Microsoft Edge"
  | Vivaldi => "Vivaldi"
  | Opera => "com.operasoftware.Opera"
  end.

Definition MACOS_CHROME_SYSTEM_DIR : string := "Library/Google/Chrome/NativeMessagingHosts".
Definition MACOS_SYSTEM_POINTER_DIR : string :=
  "Library/Application Support/Google/Chrome/External Extensions".
Definition LINUX_CHROME_SYSTEM_DIR : string := "etc/opt/chrome/native-messaging-hosts".

Definition macos_system_manifest_dir (b : Browser) : option string :=
  match b with
  | Chrome => Some MACOS_CHROME_SYSTEM_DIR
  | Chromium => Some "Library/Application Support/Chromium/NativeMessagingHosts"
  | Edge => Some "Library/Microsoft/Edge/NativeMessagingHosts"
  | Vivaldi => Some "Library/Application Support/Vivaldi/NativeMessagingHosts"
  | Brave | Opera => None
  end.

Definition macos_app_bundle (b : Browser) : string :=
  match b with
  | Chrome => "Google Chrome.app"
  | Chromium => "Chromium.app"
  | Brave => "Brave Browser.app"
  | Edge => "Microsoft Edge.app"
  | Vivaldi => "Vivaldi.app"
  | Opera => "Opera.app"
  end.

Definition linux_vendor_dir (b : Browser) : string :=
  match b with
  | Chrome => "google-chrome"
  | Chromium => "chromium"
  | Brave => "BraveSoftware/Brave-Browser"
  | Edge => "microsoft-edge"
  | Vivaldi => "vivaldi"
  | Opera => "opera"
  end.

Definition linux_system_manifest_dir (b : Browser) : option string :=
  match b with
  | Chrome => Some LINUX_CHROME_SYSTEM_DIR
  | Chromium => Some "etc/chromium/native-messaging-hosts"
  | Edge => Some "etc/opt/edge/native-messaging-hosts"
  | Vivaldi => Some "etc/vivaldi/native-messaging-hosts"
  | Brave | Opera => None
  end.

Definition linux_install_dirs (b : Browser) : list string :=
  match b with
  | Chrome => ["opt/google/chrome"]
  | Chromium => ["usr/lib/chromium"; "usr/lib/chromium-browser"]
  | Brave => ["opt/brave.com/brave"]
  | Edge => ["opt/microsoft/msedge"]
  | Vivaldi => ["opt/vivaldi"]
  | Opera => ["usr/lib/x86_64-linux-gnu/opera"; "usr/lib64/opera"]
  end.

Definition windows_vendor_key (b : Browser) : string :=
  match b with
  | Chrome => "Software\Google\Chrome"
  | Chromium => "Software\Chromium"
  | Brave => "Software\BraveSoftware\Brave-Browser"
  | Edge => "Software\Microsoft\Edge"
  | Vivaldi => "Software\Vivaldi"
  | Opera => "Software\Opera Software"
  end.

(** * Resolution *)

Section resolve.
Context `{PS : PathStyle}.

Fixpoint ends_with (suffix s : string) : bool :=
  String.eqb suffix s || match s with "" => false | String _ s => ends_with suffix s end.

(** [Path::join] of a relative path. *)
Definition join (a b : string) : string :=
  if String.eqb a "" then b else if ends_with sep a then a +:+ b else a +:+ sep +:+ b.

(** [BaseDirs::from_env], given the environment. *)
Definition from_env (os : Os) (var : string -> option string) (scope : Scope) : result string BaseDirs :=
  let absolute name := v ← var name; if is_absolute v then Some v else None in
  let system_root :=
    match os with
    | MacOs | Linux => "/"
    | Windows => match var "SystemDrive" with Some drive => drive +:+ "\" | None => "C:\" end
    end in
  let home := v ← match var "HOME" with Some v => Some v | None => var "USERPROFILE" end;
    if is_absolute v then Some v else None in
  home ← match home, scope with
         | Some home, _ => Ok home
         | None, ScopeSystem =>
             Ok (join system_root (match os with
                                   | MacOs => "var/root"
                                   | Linux => "root"
                                   | Windows => "Windows/System32/config/systemprofile"
                                   end))
         | None, ScopeUser =>
             Err "HOME (or USERPROFILE) is not set to an absolute path; cannot resolve per-user browser paths"
         end;
  Ok (mkDirs home (absolute "XDG_CONFIG_HOME") (absolute "XDG_DATA_HOME") (absolute "LOCALAPPDATA")
        (absolute "APPDATA") (absolute "ProgramFiles") system_root).

Definition config_home (d : BaseDirs) : string := default (join (home d) ".config") (xdg_config_home d).
Definition data_home (d : BaseDirs) : string := default (join (home d) ".local/share") (xdg_data_home d).
Definition local_app_data (d : BaseDirs) : string :=
  default (join (home d) "AppData/Local") (bd_local_app_data d).
Definition program_files (d : BaseDirs) : string :=
  default (join (system_root d) "Program Files") (bd_program_files d).

Definition manifest_path (r : Registration) : string :=
  match r with
  | ManifestDir dir => join dir (NATIVE_HOST_ID +:+ ".json")
  | RegistryReg _ _ path => path
  end.

Definition registration_location (r : Registration) : string :=
  match r with
  | ManifestDir _ => manifest_path r
  | RegistryReg hive key _ => hive_display hive +:+ "\" +:+ key
  end.

Definition pointer_location (p : ExtensionPointer) : string :=
  match p with
  | PointerFile path => path
  | PointerRegistry hive key => hive_display hive +:+ "\" +:+ key
  end.

Definition pointer_file (dir : string) : ExtensionPointer :=
  PointerFile (join dir (PINNED_EXTENSION_ID +:+ ".json")).

Definition windows_profile_dir (d : BaseDirs) (b : Browser) : string :=
  match b with
  | Chrome => join (local_app_data d) "Google/Chrome/User Data"
  | Chromium => join (local_app_data d) "Chromium/User Data"
  | Brave => join (local_app_data d) "BraveSoftware/Brave-Browser/User Data"
  | Edge => join (local_app_data d) "Microsoft/Edge/User Data"
  | Vivaldi => join (local_app_data d) "Vivaldi/User Data"
  | Opera => join (default (join (home d) "AppData/Roaming") (roaming_app_data d)) "Opera Software"
  end.

Definition install_dir (os : Os) (d : BaseDirs) (scope : Scope) : string :=
  match os, scope with
  | MacOs, ScopeUser => join (home d) ".genkan"
  | MacOs, ScopeSystem => join (system_root d) "Library/Application Support/genkan"
  | Linux, ScopeUser => join (data_home d) "genkan"
  | Linux, ScopeSystem => join (system_root d) "var/lib/genkan"
  | Windows, ScopeUser => join (local_app_data d) "genkan"
  | Windows, ScopeSystem => join (program_files d) "genkan"
  end.

Definition windows_slot (os : Os) (d : BaseDirs) (scope : Scope) (b : Browser) :
    Registration * ExtensionPointer :=
  let hive := hive_for_scope scope in
  (RegistryReg hive (windows_vendor_key b +:+ "\NativeMessagingHosts\" +:+ NATIVE_HOST_ID)
     (join (install_dir os d scope) (NATIVE_HOST_ID +:+ ".json")),
   PointerRegistry hive (windows_vendor_key b +:+ "\Extensions\" +:+ PINNED_EXTENSION_ID)).

Definition macos_user_root (d : BaseDirs) (b : Browser) : string :=
  join (join (home d) "Library/Application Support") (macos_vendor_dir b).
Definition linux_user_root (d : BaseDirs) (b : Browser) : string :=
  join (config_home d) (linux_vendor_dir b).
Definition user_registration (root : string) : Registration := ManifestDir (join root "NativeMessagingHosts").

Definition chrome_registration (os : Os) (d : BaseDirs) (scope : Scope) : Registration :=
  match os, scope with
  | MacOs, ScopeUser => user_registration (macos_user_root d Chrome)
  | MacOs, ScopeSystem => ManifestDir (join (system_root d) MACOS_CHROME_SYSTEM_DIR)
  | Linux, ScopeUser => user_registration (linux_user_root d Chrome)
  | Linux, ScopeSystem => ManifestDir (join (system_root d) LINUX_CHROME_SYSTEM_DIR)
  | Windows, _ => (windows_slot os d scope Chrome).1
  end.

Definition own_registration (os : Os) (d : BaseDirs) (scope : Scope) (b : Browser) : option Registration :=
  match os, scope with
  | MacOs, ScopeUser =>
      match b with Brave => None | _ => Some (user_registration (macos_user_root d b)) end
  | MacOs, ScopeSystem => (fun dir => ManifestDir (join (system_root d) dir)) <$> macos_system_manifest_dir b
  | Linux, ScopeUser => Some (user_registration (linux_user_root d b))
  | Linux, ScopeSystem => (fun dir => ManifestDir (join (system_root d) dir)) <$> linux_system_manifest_dir b
  | Windows, ScopeUser => Some (windows_slot os d scope b).1
  | Windows, ScopeSystem => match b with Opera => None | _ => Some (windows_slot os d scope b).1 end
  end.

Definition chrome_readers (os : Os) (d : BaseDirs) (scope : Scope) : list Browser :=
  List.filter (fun b => negb (bool_decide (b = Chrome)) && bool_decide (own_registration os d scope b = None))
    ALL_BROWSERS.

Definition lookup (os : Os) (d : BaseDirs) (scope : Scope) (b : Browser) : Lookup :=
  match own_registration os d scope b with
  | Some registration =>
      LookupOwn registration (match b with Chrome => chrome_readers os d scope | _ => [] end)
  | None => ReadsFrom Chrome (chrome_registration os d scope)
  end.

Definition pointers (os : Os) (d : BaseDirs) (b : Browser) (manifest : Scoped Lookup) :
    option (Scoped ExtensionPointer) :=
  match os with
  | MacOs =>
      Some (mkScoped (pointer_file (join (macos_user_root d b) "External Extensions"))
              (pointer_file (join (system_root d) MACOS_SYSTEM_POINTER_DIR)))
  | Linux => None
  | Windows =>
      Some (mkScoped (windows_slot os d ScopeUser b).2
              (windows_slot os d ScopeSystem (default b (lookup_owner (sc_system manifest)))).2)
  end.

Definition presence (os : Os) (d : BaseDirs) (b : Browser) : Scoped (list string) :=
  match os with
  | MacOs =>
      let machine_bundle := join (join (system_root d) "Applications") (macos_app_bundle b) in
      mkScoped [machine_bundle; join (join (home d) "Applications") (macos_app_bundle b)] [machine_bundle]
  | Linux => mkScoped [linux_user_root d b] (join (system_root d) <$> linux_install_dirs b)
  | Windows => mkScoped [windows_profile_dir d b] [windows_profile_dir d b]
  end.

Definition entry (os : Os) (d : BaseDirs) (b : Browser) : BrowserEntry :=
  let manifest := mkScoped (lookup os d ScopeUser b) (lookup os d ScopeSystem b) in
  mkEntry b (presence os d b) manifest (pointers os d b manifest).

Definition resolve (os : Os) (d : BaseDirs) : list BrowserEntry := entry os d <$> ALL_BROWSERS.

(** [BrowserEntry::detected], over which paths are directories. *)
Definition detected (is_dir : string -> bool) (e : BrowserEntry) (scope : Scope) : bool :=
  existsb is_dir (scoped_get (be_presence e) scope).
End resolve.

(** * One owner per registration *)

Lemma str_app_inv_tail (s t u : string) : s +:+ u = t +:+ u -> s = t.
Proof.
  intros H. assert (String.length s = String.length t) as Hl.
  { apply (f_equal String.length) in H. rewrite !str_length_app in H. lia. }
  revert t H Hl. induction s as [|c s IH]; intros [|c' t] H Hl; try discriminate Hl; [done|].
  rewrite !str_app_cons in H. injection H as -> H. f_equal. apply IH; [done|]. by injection Hl.
Qed.

Lemma ends_with_app suffix s : ends_with suffix (s +:+ suffix) = true.
Proof.
  induction s as [|c s IH]; [rewrite str_app_nil_l; destruct suffix; cbn [ends_with]; [done|by rewrite String.eqb_refl]|].
  rewrite str_app_cons. cbn [ends_with]. rewrite IH. by rewrite orb_true_r.
Qed.

Lemma ends_with_inv suffix s : ends_with suffix s = true -> exists t, s = t +:+ suffix.
Proof.
  induction s as [|c s IH]; cbn [ends_with]; rewrite orb_true_iff; intros [H|H]; try done;
    try (apply String.eqb_eq in H as ->; by exists "").
  destruct (IH H) as [t ->]. by exists (String c t).
Qed.

Lemma join_suffix `{PathStyle} a b : ends_with b (join a b) = true.
Proof.
  unfold join. destruct (String.eqb a ""); [exact (ends_with_app b "")|].
  destruct (ends_with sep a); [apply ends_with_app|]. rewrite <- str_app_assoc. apply ends_with_app.
Qed.

#[export] Instance join_inj `{PathStyle} a : Inj (=) (=) (join a).
Proof.
  intros b b'. unfold join. destruct (String.eqb a ""); [done|].
  destruct (ends_with sep a); intros E; repeat apply str_app_inv_head in E; done.
Qed.

#[export] Instance macos_vendor_dir_inj : Inj (=) (=) macos_vendor_dir.
Proof. by intros [] []. Qed.
#[export] Instance linux_vendor_dir_inj : Inj (=) (=) linux_vendor_dir.
Proof. by intros [] []. Qed.
#[export] Instance windows_vendor_key_inj : Inj (=) (=) windows_vendor_key.
Proof. by intros [] []. Qed.
Lemma macos_system_dir_inj b b' s :
  macos_system_manifest_dir b = Some s -> macos_system_manifest_dir b' = Some s -> b = b'.
Proof. by destruct b, b'; intros [= <-]. Qed.
Lemma linux_system_dir_inj b b' s :
  linux_system_manifest_dir b = Some s -> linux_system_manifest_dir b' = Some s -> b = b'.
Proof. by destruct b, b'; intros [= <-]. Qed.

Section owners.
#[local] Existing Instance unix_style.

(** A path whose last component does not end in the separator. *)
Lemma ends_with_tail x v : v <> "" -> ends_with "/" (x +:+ v) = ends_with "/" v.
Proof.
  intros Hv. induction x as [|c x IH]; [done|]. rewrite str_app_cons. cbn [ends_with]. rewrite IH.
  destruct (String.eqb_spec "/" (String c (x +:+ v))) as [[= _ E]|]; [|done].
  destruct x; [|discriminate E]. rewrite str_app_nil_l in E. by symmetry in E.
Qed.

Lemma join_under_inj x v v' n :
  v <> "" -> v' <> "" -> ends_with "/" v = false -> ends_with "/" v' = false ->
  join (join x v) n = join (join x v') n -> v = v'.
Proof.
  intros Hv Hv' He He' E. apply (inj (join x)).
  assert (forall w, w <> "" -> ends_with "/" w = false -> join (join x w) n = join x w +:+ "/" +:+ n) as Hj.
  { intros w Hw Hew. assert (join x w <> "" /\ ends_with "/" (join x w) = false) as [H1 H2].
    { unfold join. cbn [sep unix_style]. destruct (String.eqb x ""); [done|]. destruct (ends_with "/" x).
      - split; [by destruct x|by rewrite ends_with_tail].
      - split; [by destruct x|]. rewrite <- str_app_assoc. by rewrite ends_with_tail. }
    unfold join at 1. cbn [sep unix_style]. apply String.eqb_neq in H1. by rewrite H1, H2. }
  rewrite !Hj in E by done. by apply str_app_inv_tail in E.
Qed.

Lemma own_registration_inj os d scope b b' r :
  own_registration os d scope b = Some r -> own_registration os d scope b' = Some r -> b = b'.
Proof.
  intros H H'. destruct os, scope; cbn [own_registration] in H, H'.
  - assert (user_registration (macos_user_root d b) = user_registration (macos_user_root d b')) as E
      by (destruct b; try discriminate H; destruct b'; try discriminate H'; congruence).
    injection E as E. apply join_under_inj in E; [by apply (inj macos_vendor_dir)|by destruct b|by destruct b'|
      by destruct b|by destruct b'].
  - apply fmap_Some in H as (s & Hs & ->). apply fmap_Some in H' as (s' & Hs' & E). injection E as E.
    apply (inj (join (system_root d))) in E as <-. by eapply macos_system_dir_inj.
  - injection H as <-. injection H' as E. apply join_under_inj in E; [by apply (inj linux_vendor_dir)|by destruct b'|by destruct b|
      by destruct b'|by destruct b].
  - apply fmap_Some in H as (s & Hs & ->). apply fmap_Some in H' as (s' & Hs' & E). injection E as E.
    apply (inj (join (system_root d))) in E as <-. by eapply linux_system_dir_inj.
  - injection H as <-. injection H' as E. apply str_app_inv_tail in E. by apply (inj windows_vendor_key).
  - assert ((windows_slot Windows d ScopeSystem b).1 = (windows_slot Windows d ScopeSystem b').1) as E
      by (destruct b; try discriminate H; destruct b'; try discriminate H'; congruence).
    injection E as E. apply str_app_inv_tail in E. by apply (inj windows_vendor_key).
Qed.

Lemma chrome_owns os d scope : own_registration os d scope Chrome = Some (chrome_registration os d scope).
Proof. by destruct os, scope. Qed.

(** Which browsers launch a manifest: its owner, and for Chrome's every browser without
    a location of its own. *)
Lemma reads_own os d scope b b' r readers :
  lookup os d scope b = LookupOwn r readers ->
  lookup_registration (lookup os d scope b') = r <-> b' = b \/ (b = Chrome /\ own_registration os d scope b' = None).
Proof.
  unfold lookup. destruct (own_registration os d scope b) as [rb|] eqn:Eb; [|done]. intros [= <- _].
  destruct (own_registration os d scope b') as [rb'|] eqn:Eb'; cbn [lookup_registration].
  - split; [intros ->; left; by eapply own_registration_inj|]. intros [->|[_ ?]]; [congruence|done].
  - split; [intros <-; right; split; [|done]; eapply own_registration_inj; [exact Eb|apply chrome_owns]|].
    intros [->|[-> _]]; [congruence|]. rewrite chrome_owns in Eb. congruence.
Qed.
End owners.
