(* ===== verification/Wrapper.v ===== *)
(** Wrapper: the launch script a Unix manifest names, the shell quoting that writes it
    and the exact shape by which [uninstall] recognises one
    (src/src/packages/core/src/registration/wrapper.rs, and [wrapper_script] of mod.rs).

    A text is its UTF-8 bytes. The lexer steps by bytes where the code steps by
    characters: every character it treats specially is ASCII or a whole [white_space]
    encoding, and no byte of a longer encoding starts one of those. *)
From S2P Require Import Prelude Identity Control AuditTrail.
From Stdlib Require Import Strings.Byte Ascii.
From stdpp Require Import base list sets strings.

Definition WRAPPER_SHEBANG : string := "#!/usr/bin/env bash".
Definition WRAPPER_MARKER : string := "# managed by genkan; safe to delete".

(** * Quoting *)

(** [str::replace] of a character. *)
Fixpoint str_replace (c : ascii) (by_ s : string) : string :=
  match s with
  | "" => ""
  | String a s => if Ascii.eqb a c then by_ +:+ str_replace c by_ s else String a (str_replace c by_ s)
  end.

Definition QUOTE : ascii := "'".
Definition BACKSLASH : ascii := "\".
Definition ESCAPED_QUOTE : string := "'\''".

Definition shell_quote (s : string) : string :=
  "'" +:+ str_replace QUOTE ESCAPED_QUOTE s +:+ "'".

(** * Lexing *)

(** Where [split_shell_literal] stands: between characters, in the inner loop of a
    single-quoted segment, or after a backslash. *)
Inductive LexMode := Bare | Quoted | Escaped.

Definition EVALUATING : string := "$`;&|()<>" +:+ dquote +:+ "*?[]{}~!".

(** The width of the white-space character at the head of [s]. *)
Definition ws_width (s : string) : option nat :=
  first_some (fun w => (fun _ => String.length w) <$> Prelude.strip_prefix w s) white_space.

Definition push (s : string) (c : ascii) : string := s +:+ String c "".

(** [skip] is the rest of a white-space character already acted on. *)
Fixpoint split_from (mode : LexMode) (skip : nat) (in_token : bool) (current s : string) :
    option (list string) :=
  match s with
  | "" => match mode with Bare => Some (if in_token then [current] else []) | _ => None end
  | String c s' =>
      match skip with
      | S skip => split_from mode skip in_token current s'
      | O =>
          match mode with
          | Quoted =>
              if Ascii.eqb c QUOTE then split_from Bare 0 in_token current s'
              else split_from Quoted 0 in_token (push current c) s'
          | Escaped => split_from Bare 0 in_token (push current c) s'
          | Bare =>
              if Ascii.eqb c QUOTE then split_from Quoted 0 true current s'
              else if Ascii.eqb c BACKSLASH then split_from Escaped 0 true current s'
              else if str_contains c EVALUATING then None
              else match ws_width s with
                   | Some width =>
                       if in_token then cons current <$> split_from Bare (width - 1) false "" s'
                       else split_from Bare (width - 1) false current s'
                   | None => split_from Bare 0 true (push current c) s'
                   end
          end
      end
  end.

Definition split_shell_literal (line : string) : option (list string) := split_from Bare 0 false "" line.

(** * Recognition *)

Definition lines (s : string) : list string :=
  String.string_of_list_byte <$> str_lines (String.list_byte_of_string s).

Definition is_trampoline (tokens : list string) : bool :=
  match tokens with
  | [exec; _; flag] => String.eqb exec "exec" && String.eqb flag "--native-host"
  | [exec; _; flag; label_flag; label] =>
      String.eqb exec "exec" && String.eqb flag "--native-host" && String.eqb label_flag "--label"
      && validate_label label
  | _ => false
  end.

Definition starts_with (c : ascii) (s : string) : bool :=
  match s with String a _ => Ascii.eqb a c | "" => false end.

Fixpoint payload_is_ours (seen_trampoline : bool) (ls : list string) : bool :=
  match ls with
  | [] => seen_trampoline
  | line :: ls =>
      let trimmed := trim line in
      if str_is_empty trimmed || starts_with "#" trimmed then payload_is_ours seen_trampoline ls
      else match split_shell_literal trimmed with
           | None => false
           | Some tokens =>
               if negb (is_trampoline tokens) || seen_trampoline then false else payload_is_ours true ls
           end
  end.

Definition wrapper_is_ours (contents : string) : bool :=
  match lines contents with
  | shebang :: marker :: ls =>
      String.eqb shebang WRAPPER_SHEBANG && String.eqb marker WRAPPER_MARKER && payload_is_ours false ls
  | _ => false
  end.

(** * Writing *)

Definition LF : ascii := "010".
Definition nl : string := String LF "".

Definition exec_line (host_exe : string) (label : option string) : string :=
  "exec " +:+ shell_quote host_exe +:+ " --native-host"
  +:+ match label with Some key => " --label " +:+ shell_quote key | None => "" end.

(** [Registrar::wrapper_script]. *)
Definition wrapper_script (host_exe : string) (label : option string) : string :=
  WRAPPER_SHEBANG +:+ nl +:+ WRAPPER_MARKER +:+ nl +:+ exec_line host_exe label +:+ nl.

Example quoted_path :
  split_shell_literal (exec_line "/home/o'neil/a b" (Some "brave"))
  = Some ["exec"; "/home/o'neil/a b"; "--native-host"; "--label"; "brave"].
Proof. reflexivity. Qed.

Example a_script_of_ours : wrapper_is_ours (wrapper_script "/opt/it's/genkan" (Some "chrome")) = true.
Proof. reflexivity. Qed.

Example a_chained_command_is_not :
  wrapper_is_ours (WRAPPER_SHEBANG +:+ nl +:+ WRAPPER_MARKER +:+ nl
    +:+ "exec /bin/genkan --native-host; rm x" +:+ nl) = false.
Proof. reflexivity. Qed.

(** * Quoting round trip *)

Lemma push_app s c t : push s c +:+ t = s +:+ String c t.
Proof. unfold push. by rewrite str_app_assoc. Qed.

Lemma split_quoted t cur rest :
  split_from Quoted 0 true cur (str_replace QUOTE ESCAPED_QUOTE t +:+ String QUOTE rest)
  = split_from Bare 0 true (cur +:+ t) rest.
Proof.
  revert cur. induction t as [|c t IH]; intros cur; cbn [str_replace].
  - by rewrite str_app_nil_r.
  - destruct (Ascii.eqb_spec c QUOTE) as [->|Hc].
    + rewrite str_app_assoc. change (split_from Quoted 0 true (push cur QUOTE)
        (str_replace QUOTE ESCAPED_QUOTE t +:+ String QUOTE rest) = split_from Bare 0 true (cur +:+ String QUOTE t) rest).
      by rewrite IH, push_app.
    + rewrite str_app_cons. cbn [split_from]. apply Ascii.eqb_neq in Hc. by rewrite Hc, IH, push_app.
Qed.

Lemma split_quote b cur t rest :
  split_from Bare 0 b cur (shell_quote t +:+ rest) = split_from Bare 0 true (cur +:+ t) rest.
Proof.
  unfold shell_quote. rewrite !str_app_assoc. apply split_quoted.
Qed.

Lemma split_space cur rest :
  split_from Bare 0 true cur (" " +:+ rest) = cons cur <$> split_from Bare 0 false "" rest.
Proof. reflexivity. Qed.

(** Quoting is a right inverse of lexing: any words, quotes and evaluating
    characters included, come back one by one from their quoted line. *)
Lemma split_quoted_words l :
  split_shell_literal (str_join " " (shell_quote <$> l)) = Some l.
Proof.
  unfold split_shell_literal. induction l as [|t l IH]; [done|]. destruct l as [|u l].
  - cbn [fmap list_fmap str_join]. rewrite <- (str_app_nil_r (shell_quote t)). by rewrite split_quote.
  - change (split_from Bare 0 false "" (shell_quote t +:+ " " +:+ str_join " " (shell_quote <$> u :: l))
      = Some (t :: u :: l)).
    by rewrite split_quote, split_space, IH.
Qed.

Lemma split_exec_line exe label :
  split_shell_literal (exec_line exe label)
  = Some (["exec"; exe; "--native-host"] ++ match label with Some k => ["--label"; k] | None => [] end).
Proof.
  unfold split_shell_literal, exec_line.
  change (cons "exec" <$> split_from Bare 0 false "" (shell_quote exe +:+ " --native-host"
    +:+ match label with Some key => " --label " +:+ shell_quote key | None => "" end)
    = Some (["exec"; exe; "--native-host"] ++ match label with Some k => ["--label"; k] | None => [] end)).
  rewrite split_quote, str_app_nil_l. destruct label as [k|]; [|reflexivity].
  change (cons "exec" <$> (cons exe <$> (cons "--native-host" <$> (cons "--label"
      <$> split_from Bare 0 false "" (shell_quote k)))) = Some ["exec"; exe; "--native-host"; "--label"; k]).
  rewrite <- (str_app_nil_r (shell_quote k)), split_quote. reflexivity.
Qed.

(** * Lines and trimming *)

Lemma bytes_app s t :
  String.list_byte_of_string (s +:+ t) = String.list_byte_of_string s ++ String.list_byte_of_string t.
Proof. induction s as [|c s IH]; [done|]. rewrite str_app_cons. cbn. f_equal. exact IH. Qed.

Lemma contains_bytes c s :
  str_contains c s = false -> Ascii.byte_of_ascii c ∉ String.list_byte_of_string s.
Proof.
  induction s as [|a s IH]; cbn [str_contains]; [intros _; apply not_elem_of_nil|].
  rewrite orb_false_iff. intros [Ha Hs]. cbn. rewrite not_elem_of_cons. split; [|by apply IH].
  intros E. apply Ascii.eqb_neq in Ha. apply Ha.
  rewrite <- (Ascii.ascii_of_byte_of_ascii a), <- (Ascii.ascii_of_byte_of_ascii c). by f_equal.
Qed.

(** A line as [str::lines] yields it. *)
Definition drop_cr (s : string) : string :=
  String.string_of_list_byte (strip_cr (rev (String.list_byte_of_string s))).

Lemma lines_line s rest :
  str_contains LF s = false -> lines (s +:+ String LF rest) = drop_cr s :: lines rest.
Proof.
  intros H. unfold lines, str_lines, drop_cr. rewrite bytes_app.
  change (String.list_byte_of_string (String LF rest)) with (x0a :: String.list_byte_of_string rest).
  rewrite lines_from_line by exact (contains_bytes LF s H). by rewrite app_nil_r.
Qed.

Lemma string_of_bytes_app a b :
  String.string_of_list_byte (a ++ b) = String.string_of_list_byte a +:+ String.string_of_list_byte b.
Proof.
  unfold String.string_of_list_byte. induction a as [|x a IH]; [done|].
  cbn [app map String.string_of_list_ascii]. by rewrite IH.
Qed.

Lemma drop_cr_split s : exists r, s = drop_cr s +:+ r /\ (r = "" \/ r = String "013" "").
Proof.
  unfold drop_cr, strip_cr. destruct (rev (String.list_byte_of_string s)) as [|b k] eqn:E.
  - exists "". split; [|by left]. apply (f_equal (@rev _)) in E. rewrite rev_involutive in E.
    destruct s; [done|discriminate E].
  - apply (f_equal (@rev _)) in E. rewrite rev_involutive in E. cbn [rev] in E.
    apply (f_equal String.string_of_list_byte) in E. rewrite String.string_of_list_byte_of_string in E.
    destruct (Byte.eqb b x0d) eqn:Eb.
    + apply Byte.byte_dec_bl in Eb as ->. rewrite string_of_bytes_app in E. eauto.
    + exists "". rewrite str_app_nil_r. split; [exact E|by left].
Qed.

Lemma drop_cr_id s c : c <> "013"%char -> drop_cr (push s c) = push s c.
Proof.
  intros Hc. destruct (drop_cr_split (push s c)) as (r & E & [->| ->]).
  - by rewrite str_app_nil_r in E.
  - exfalso. apply Hc. apply (f_equal String.list_byte_of_string) in E. unfold push in E.
    rewrite !bytes_app in E. apply app_inj_tail in E as [_ E].
    rewrite <- (Ascii.ascii_of_byte_of_ascii c), E. reflexivity.
Qed.

Lemma str_rev_app s t : str_rev (s +:+ t) = str_rev t +:+ str_rev s.
Proof.
  induction s as [|c s IH]; cbn [str_rev]; [by rewrite str_app_nil_r|].
  rewrite str_app_cons. cbn [str_rev]. by rewrite IH, str_app_assoc.
Qed.

Lemma str_rev_involutive s : str_rev (str_rev s) = s.
Proof. induction s as [|c s IH]; [done|]. cbn [str_rev]. by rewrite str_rev_app, IH. Qed.

Lemma strip_prefix_Some p s t : Prelude.strip_prefix p s = Some t -> s = p +:+ t.
Proof.
  revert s. induction p as [|a p IH]; intros s; cbn; [by intros [= ->]|].
  destruct s as [|b s]; [done|]. destruct (Ascii.eqb_spec a b) as [->|]; [|done].
  intros H. rewrite str_app_cons. by rewrite <- (IH s).
Qed.

Lemma first_some_Some {A B} (f : A -> option B) l y :
  first_some f l = Some y -> exists x, x ∈ l /\ f x = Some y.
Proof.
  induction l as [|x l IH]; [done|]. cbn. destruct (f x) eqn:E; [intros [= ->]; set_solver|].
  intros H. destruct (IH H) as (z & Hz & Ez). set_solver.
Qed.

(** A byte that starts a white-space character. *)
Definition ws_head (c : ascii) : bool := existsb (starts_with c) white_space.

Lemma ws_starts w : w ∈ white_space -> exists c w', w = String c w' /\ ws_head c = true.
Proof.
  intros H. assert (forallb (fun w => match w with String c _ => ws_head c | "" => false end) white_space = true) as Hall
    by reflexivity.
  rewrite forallb_true_iff in Hall. specialize (Hall w H).
  destruct w as [|c w]; [done|]. eauto.
Qed.

Lemma str_contains_app c s t : str_contains c (s +:+ t) = str_contains c s || str_contains c t.
Proof. induction s as [|a s IH]; [done|]. rewrite str_app_cons. cbn [str_contains]. by rewrite IH, orb_assoc. Qed.

(** A text without the lexer's two bracketing characters. *)
Definition unquoted (s : string) : bool := negb (str_contains QUOTE s) && negb (str_contains BACKSLASH s).

Lemma unquoted_app s t : unquoted (s +:+ t) = unquoted s && unquoted t.
Proof.
  unfold unquoted. rewrite !str_contains_app. by destruct (str_contains QUOTE s), (str_contains QUOTE t),
    (str_contains BACKSLASH s), (str_contains BACKSLASH t).
Qed.

Lemma ws_unquoted w : w ∈ white_space -> unquoted w = true.
Proof. apply forallb_true_iff. reflexivity. Qed.

(** What [trim_end] drops is white space. *)
Lemma trim_end_split s : exists r, s = trim_end s +:+ r /\ unquoted r = true.
Proof.
  unfold trim_end. generalize (String.length s) as n. intros n.
  enough (forall u, exists r, str_rev u = str_rev (strip_all (str_rev <$> white_space) n u) +:+ r /\
    unquoted r = true) as Hu
    by (destruct (Hu (str_rev s)) as (r & E & H); rewrite str_rev_involutive in E; eauto).
  induction n as [|n IH]; intros u; cbn [strip_all]; [exists ""; by rewrite str_app_nil_r|].
  destruct (first_some _ _) as [u'|] eqn:E; [|exists ""; by rewrite str_app_nil_r].
  apply first_some_Some in E as (w' & Hw & E). apply list_elem_of_fmap in Hw as (w & -> & Hw).
  apply strip_prefix_Some in E as ->. rewrite str_rev_app, str_rev_involutive.
  destruct (IH u') as (r & Er & Hr). exists (r +:+ w). rewrite <- str_app_assoc, <- Er.
  by rewrite unquoted_app, Hr, ws_unquoted.
Qed.

Lemma trim_start_id c s : ws_head c = false -> trim_start (String c s) = String c s.
Proof.
  intros Hc. unfold trim_start. cbn [String.length strip_all].
  destruct (first_some _ _) as [s'|] eqn:E; [|done].
  apply first_some_Some in E as (w & Hw & E). destruct (ws_starts w Hw) as (c' & w' & -> & Hc').
  apply strip_prefix_Some in E. injection E as -> _. congruence.
Qed.

Lemma trim_end_id s c :
  existsb (starts_with c) (str_rev <$> white_space) = false -> trim_end (push s c) = push s c.
Proof.
  intros Hc. unfold trim_end. rewrite <- (str_rev_involutive (push s c)) at 3. f_equal.
  unfold push. rewrite str_rev_app. change (str_rev (String c "")) with (String c ""). rewrite str_app_cons.
  destruct (String.length (s +:+ String c "")) as [|n]; [done|]. cbn [strip_all].
  destruct (first_some _ _) as [u|] eqn:E; [|done]. exfalso.
  apply first_some_Some in E as (w & Hw & E). apply strip_prefix_Some in E.
  rewrite existsb_false_iff in Hc. specialize (Hc w Hw).
  destruct w as [|c' w]; [apply list_elem_of_fmap in Hw as (v & Ev & Hv)|].
  - destruct (ws_starts v Hv) as (a & v' & -> & _). cbn in Ev. destruct (str_rev v'); discriminate Ev.
  - injection E as -> _. cbn in Hc. by rewrite Ascii.eqb_refl in Hc.
Qed.

(** * Recognition *)

(** A cut of [p'...] whose second part has no quote keeps the quote in the first. *)
Lemma prefix_of_open p d t r :
  p +:+ String QUOTE d = t +:+ r -> unquoted r = true ->
  exists q, t = p +:+ String QUOTE q /\ d = q +:+ r.
Proof.
  revert t. induction p as [|a p IH]; intros t E Hr.
  - destruct t as [|b t]; [|injection E as <- ->; by exists t].
    exfalso. rewrite !str_app_nil_l in E. rewrite <- E in Hr. discriminate Hr.
  - destruct t as [|b t].
    + exfalso. rewrite str_app_nil_l in E. rewrite <- E, unquoted_app, andb_true_iff in Hr. by destruct Hr.
    + injection E as <- E. destruct (IH t E Hr) as (q & -> & ->). by exists q.
Qed.

(** The lexer is still inside the quotes at the end of any prefix of a quoted body
    that is not cut inside an escaped quote. *)
Lemma split_quoted_open t cur q r :
  str_replace QUOTE ESCAPED_QUOTE t = q +:+ r ->
  unquoted r = true -> split_from Quoted 0 true cur q = None.
Proof.
  revert cur q. induction t as [|c t IH]; intros cur q; cbn [str_replace].
  { intros E _. by destruct q. }
  destruct (Ascii.eqb_spec c QUOTE) as [->|Hc]; intros E Hr.
  - destruct q as [|c1 q]; [done|]. rewrite str_app_cons in E. injection E as <- E.
    destruct q as [|c2 q]; [by rewrite str_app_nil_l in E; rewrite <- E in Hr|]. injection E as <- E.
    destruct q as [|c3 q]; [by rewrite str_app_nil_l in E; rewrite <- E in Hr|]. injection E as <- E.
    destruct q as [|c4 q]; [by rewrite str_app_nil_l in E; rewrite <- E in Hr|]. injection E as <- E.
    exact (IH (push cur QUOTE) q E Hr).
  - destruct q as [|a q]; [done|]. injection E as <- E. cbn [split_from].
    apply Ascii.eqb_neq in Hc. rewrite Hc. by apply IH.
Qed.

Lemma quote_keeps_lf s : str_contains LF (str_replace QUOTE ESCAPED_QUOTE s) = str_contains LF s.
Proof.
  induction s as [|a s IH]; [done|]. cbn [str_replace]. destruct (Ascii.eqb_spec a QUOTE) as [->|].
  - rewrite str_contains_app, IH. reflexivity.
  - cbn [str_contains]. by rewrite IH.
Qed.

Lemma label_has_no_lf k : validate_label k = true -> str_contains LF k = false.
Proof.
  intros H. apply validate_label_facts in H as (_ & _ & H). apply not_true_iff_false. rewrite str_contains_spec.
  intros Hin. rewrite forallb_true_iff in H. by specialize (H _ Hin).
Qed.

Lemma exec_line_lf exe label :
  (forall k, label = Some k -> validate_label k = true) ->
  str_contains LF (exec_line exe label) = str_contains LF exe.
Proof.
  intros Hl. unfold exec_line, shell_quote. rewrite !str_contains_app, quote_keeps_lf.
  assert (str_contains LF (match label with Some key => " --label " +:+ ("'" +:+ str_replace QUOTE ESCAPED_QUOTE key +:+ "'")
    | None => "" end) = false) as ->.
  { destruct label as [k|]; [|done]. rewrite !str_contains_app, quote_keeps_lf, (label_has_no_lf k) by auto. reflexivity. }
  change (str_contains LF exe || false || (false || false) = str_contains LF exe).
  by rewrite !orb_false_r.
Qed.

Lemma exec_line_last exe label :
  exists s c, exec_line exe label = push s c /\ c <> "013"%char /\
    existsb (starts_with c) (str_rev <$> white_space) = false.
Proof.
  destruct label as [k|].
  - exists ("exec " +:+ shell_quote exe +:+ " --native-host --label " +:+ "'" +:+ str_replace QUOTE ESCAPED_QUOTE k), QUOTE.
    split; [|done]. unfold exec_line, push. rewrite !str_app_assoc. reflexivity.
  - exists ("exec " +:+ shell_quote exe +:+ " --native-hos"), "t"%char.
    split; [|done]. unfold exec_line, push. rewrite !str_app_assoc. reflexivity.
Qed.

Lemma str_split_at c s : str_contains c s = true ->
  exists pre post, s = pre +:+ String c post /\ str_contains c pre = false.
Proof.
  induction s as [|a s IH]; [done|]. cbn [str_contains]. rewrite (Ascii.eqb_sym c a). destruct (Ascii.eqb_spec a c) as [->|Ha].
  - intros _. by exists "", s.
  - intros H. destruct (IH H) as (pre & post & -> & Hp). exists (String a pre), post. split; [done|].
    cbn [str_contains]. rewrite Ascii.eqb_sym. apply Ascii.eqb_neq in Ha. by rewrite Ha.
Qed.

Lemma str_replace_app c r s t : str_replace c r (s +:+ t) = str_replace c r s +:+ str_replace c r t.
Proof.
  induction s as [|a s IH]; [done|]. rewrite str_app_cons. cbn [str_replace].
  destruct (Ascii.eqb a c); rewrite IH; [by rewrite str_app_assoc|done].
Qed.

Lemma script_lines exe label :
  wrapper_is_ours (wrapper_script exe label)
  = payload_is_ours false (lines (exec_line exe label +:+ nl)).
Proof.
  unfold wrapper_is_ours, wrapper_script.
  change (WRAPPER_SHEBANG +:+ nl +:+ WRAPPER_MARKER +:+ nl +:+ exec_line exe label +:+ nl)
    with (WRAPPER_SHEBANG +:+ String LF (WRAPPER_MARKER +:+ String LF (exec_line exe label +:+ nl))).
  rewrite !lines_line by reflexivity. reflexivity.
Qed.

(** Trimming the open line of a quoted text stays inside the quotes. *)
Lemma open_prefix esc :
  exists q r, esc = q +:+ r /\ trim (drop_cr ("exec '" +:+ esc)) = "exec '" +:+ q /\ unquoted r = true.
Proof.
  destruct (drop_cr_split ("exec '" +:+ esc)) as (r1 & E1 & H1).
  assert (exists d, drop_cr ("exec '" +:+ esc) = "exec '" +:+ d /\ esc = d +:+ r1) as (d & Ed & ->).
  { apply (prefix_of_open "exec " esc _ r1); [exact E1|]. by destruct H1 as [->| ->]. }
  rewrite Ed. unfold trim. rewrite str_app_cons, trim_start_id by reflexivity.
  change (String "e" ("xec '" +:+ d)) with ("exec '" +:+ d).
  destruct (trim_end_split ("exec '" +:+ d)) as (r2 & E2 & H2).
  destruct (prefix_of_open "exec " d _ r2 E2 H2) as (q & Eq & ->).
  exists q, (r2 +:+ r1). rewrite str_app_assoc, unquoted_app, H2. split_and!; [done..|].
  by destruct H1 as [->| ->].
Qed.

(** A first payload line that is an unfinished quote. *)
Lemma unfinished_quote_is_not_ours body ls :
  payload_is_ours false (drop_cr ("exec '" +:+ str_replace QUOTE ESCAPED_QUOTE body) :: ls) = false.
Proof.
  destruct (open_prefix (str_replace QUOTE ESCAPED_QUOTE body)) as (q & r & E & Ht & Hr).
  cbn [payload_is_ours]. rewrite Ht.
  change (match cons "exec" <$> split_from Quoted 0 true "" q with
          | None => false
          | Some tokens => if negb (is_trampoline tokens) || false then false else payload_is_ours true ls
          end = false).
  by rewrite (split_quoted_open body "" q r E Hr).
Qed.

(** A script is recognised as ours exactly when the path it launches is one line. *)
Lemma script_recognised exe label :
  (forall k, label = Some k -> validate_label k = true) ->
  wrapper_is_ours (wrapper_script exe label) = negb (str_contains LF exe).
Proof.
  intros Hl. rewrite script_lines. destruct (str_contains LF exe) eqn:E; cbn [negb].
  - destruct (str_split_at LF exe E) as (pre & post & -> & Hpre).
    assert (exists rest, exec_line (pre +:+ String LF post) label +:+ nl
      = ("exec '" +:+ str_replace QUOTE ESCAPED_QUOTE pre) +:+ String LF rest) as (rest & ->).
    { eexists. unfold exec_line, shell_quote. rewrite str_replace_app, !str_app_assoc. reflexivity. }
    rewrite lines_line; [apply unfinished_quote_is_not_ours|].
    rewrite str_contains_app, quote_keeps_lf, Hpre. reflexivity.
  - unfold nl. rewrite lines_line by by rewrite exec_line_lf.
    destruct (exec_line_last exe label) as (s & c & El & Hc & Hw).
    assert (trim (drop_cr (exec_line exe label)) = exec_line exe label) as Ht.
    { rewrite El, drop_cr_id, <- El by done. unfold trim. unfold exec_line at 1. rewrite str_app_cons.
      rewrite trim_start_id by reflexivity. change (trim_end (exec_line exe label) = exec_line exe label).
      rewrite El. by apply trim_end_id. }
    cbn [payload_is_ours]. rewrite Ht, split_exec_line.
    destruct label as [k|]; cbn -[validate_label]; rewrite ?(Hl k) by done; reflexivity.
Qed.

(** C27: the wrapper's quoting is exact. Any words, quotes and shell syntax included, quoted
    and joined by spaces are lexed back as themselves; and a wrapper this project writes is
    recognised as its own exactly when the path it launches has no line feed. *)
Theorem wrapper_quoting_is_exact :
  (forall words, split_shell_literal (str_join " " (shell_quote <$> words)) = Some words) /\
  (forall exe label, (forall k, label = Some k -> validate_label k = true) ->
     wrapper_is_ours (wrapper_script exe label) = negb (str_contains LF exe)).
Proof. split; [apply split_quoted_words|apply script_recognised]. Qed.
