(* ===== verification/Machine.v ===== *)
(** Machine: the files, directory modes and registry keys a registration touches, and
    the operations on them (src/src/packages/core/src/registration/files.rs and
    registry.rs, with [create_dirs] and [ensure_install_dir] of mod.rs and
    [ensure_private_dir] of src/src/packages/core/src/fsguard.rs).

    Which operation fails, and how, is the argument [Io]; a temporary file that is
    created and renamed or removed inside one call leaves no entry of its own. *)
From S2P Require Import Prelude WebAuthn Browsers Presence Wrapper.
From Stdlib Require Import Ascii.
From stdpp Require Import base list gmap sets strings.

(** What an existing directory entry is to this process: a file it reads, a directory,
    a link to nothing, a file whose read fails, or an entry whose very lookup fails. *)
Inductive Node :=
| NFile (contents : string) (mode : Z)
| NDir (link : bool) (mode : Z)
| NDangling
| NUnreadable (e : io_error) (mode : Z)
| NHidden (e : io_error).

(** A registry value: REG_SZ and REG_EXPAND_SZ with the text or why it is none, any
    other type by its name. *)
Inductive RegValue :=
| RegSz (text : result string string)
| RegExpandSz (text : result string string)
| RegOther (vtype : string).

(** A registry key: whether it opens for reading it whole, whether its default value can
    be queried, its values as they are listed (one that cannot be listed is an error),
    and the count of its child keys. *)
Record RegNode := mkRegNode {
  rn_open : result string unit;
  rn_query : result string unit;
  rn_values : list (result string (string * RegValue));
  rn_children : result string nat
}.

#[export] Instance Hive_countable : Countable Hive.
Proof.
  refine (inj_countable' (fun h => match h with CurrentUser => true | LocalMachine => false end)
    (fun b => if b : bool then CurrentUser else LocalMachine) _). by intros [].
Defined.

Record Machine := mkMachine {
  files : gmap string Node;
  registry : gmap (Hive * string) RegNode
}.

Definition set_files (m : Machine) (f : gmap string Node) : Machine := mkMachine f (registry m).
Definition set_registry (m : Machine) (r : gmap (Hive * string) RegNode) : Machine := mkMachine (files m) r.

(** A write fails before the rename, with the old entry in place, or after it. *)
Inductive WriteFault := WriteBefore (e : io_error) | WriteAfter (e : io_error).
(** A value cannot be set because its key cannot be created, or after it was. *)
Inductive SetFault := SetCreate (e : string) | SetValue (e : string).

Record Io := mkIo {
  io_write : string -> option WriteFault;
  io_remove : string -> option io_error;
  io_mkdir : string -> option io_error;
  io_chmod : string -> option io_error;
  io_reg_set : Hive -> string -> option SetFault;
  io_reg_delete : Hive -> string -> option string;
  (** The error of deleting a key that has child keys. *)
  io_has_children : string;
  io_umask : Z
}.

Definition no_faults : Io := {|
  io_write _ := None; io_remove _ := None; io_mkdir _ := None; io_chmod _ := None;
  io_reg_set _ _ := None; io_reg_delete _ _ := None; io_has_children := "has child keys"; io_umask := 18 |}.

(** The build: [cfg(windows)] or [cfg(unix)]. *)
Class Build := { windows : bool }.

(** * Files *)

Definition not_found : io_error := IoError NotFound "No such file or directory (os error 2)".
Definition is_a_directory : io_error := IoError Other "Is a directory (os error 21)".
Definition not_a_directory : io_error := IoError Other "Not a directory (os error 20)".
Definition file_exists : io_error := IoError AlreadyExists "File exists (os error 17)".

Definition read_to_string (m : Machine) (path : string) : result io_error string :=
  match files m !! path with
  | Some (NFile contents _) => Ok contents
  | Some (NDir _ _) => Err is_a_directory
  | Some (NUnreadable e _) => Err e
  | Some NDangling | Some (NHidden _) | None => Err not_found
  end.

Definition symlink_metadata (m : Machine) (path : string) : result io_error unit :=
  match files m !! path with
  | Some (NHidden e) => Err e
  | Some _ => Ok tt
  | None => Err not_found
  end.

(** [fs::metadata], which follows links: the permission bits. *)
Definition metadata_mode (m : Machine) (path : string) : result io_error Z :=
  match files m !! path with
  | Some (NFile _ mode) | Some (NDir _ mode) | Some (NUnreadable _ mode) => Ok mode
  | Some (NHidden e) => Err e
  | Some NDangling | None => Err not_found
  end.

(** [Path::is_file] and [Path::exists]. *)
Definition is_file (m : Machine) (path : string) : bool :=
  match files m !! path with Some (NFile _ _) | Some (NUnreadable _ _) => true | _ => false end.
Definition path_exists (m : Machine) (path : string) : bool := is_ok (metadata_mode m path).

Definition remove_file (io : Io) (path : string) (m : Machine) : Machine * result io_error unit :=
  match io_remove io path with
  | Some e => (m, Err e)
  | None =>
      match files m !! path with
      | None => (m, Err not_found)
      | Some (NHidden e) => (m, Err e)
      | Some (NDir false _) => (m, Err is_a_directory)
      | Some _ => (set_files m (delete path (files m)), Ok tt)
      end
  end.

Section paths.
Context `{PS : PathStyle} `{BL : Build}.

(** Why no entry can be made in the directory [dir]; the empty path is the working one. *)
Definition dir_error (m : Machine) (dir : string) : option io_error :=
  if String.eqb dir "" then None
  else match files m !! dir with
       | Some (NDir _ _) => None
       | Some (NHidden e) => Some e
       | Some NDangling | None => Some not_found
       | Some (NFile _ _) | Some (NUnreadable _ _) => Some not_a_directory
       end.

(** [write_atomic]. *)
Definition write_atomic (io : Io) (path bytes : string) (executable : bool) (m : Machine) :
    Machine * result io_error unit :=
  match parent path with
  | None => (m, Err (IoError Other "target path has no parent directory"))
  | Some dir =>
      let written := set_files m (<[path := NFile bytes (if executable then 493 else 420)]> (files m)) in
      match dir_error m dir, files m !! path, io_write io path with
      | Some e, _, _ | None, Some (NDir false _), Some (WriteAfter e) | None, _, Some (WriteBefore e) => (m, Err e)
      | None, Some (NDir false _), None => (m, Err is_a_directory)
      | None, _, Some (WriteAfter e) => (written, Err e)
      | None, _, None => (written, Ok tt)
      end
  end.

(** [Path::ancestors]; a path is longer than its parent, so its length bounds them. *)
Fixpoint ancestors_from (fuel : nat) (path : string) : list string :=
  path :: match fuel with
          | O => []
          | S fuel => match parent path with Some p => ancestors_from fuel p | None => [] end
          end.
Definition ancestors (path : string) : list string := ancestors_from (String.length path) path.

(** ** Directories a machine-wide registration needs *)

Definition unix_mode (m : Machine) (path : string) : result string Z :=
  if windows then Ok 511%Z
  else map_err (fun e => "cannot inspect " +:+ path +:+ ": " +:+ io_msg e)
         ((fun mode => Z.land mode 511) <$> metadata_mode m path).

Fixpoint take_until (stop : string) (l : list string) : list string :=
  match l with
  | [] => []
  | x :: l => if String.eqb x stop then [] else x :: take_until stop l
  end.

Definition NOT_TRAVERSABLE (dir : string) : string :=
  dir +:+ " is not traversable by other accounts, so their browsers cannot reach what sits under it; fix its mode, or drop --system".

Fixpoint all_traversable (m : Machine) (dirs : list string) : result string unit :=
  match dirs with
  | [] => Ok tt
  | dir :: dirs =>
      mode ← unix_mode m dir;
      if (Z.land mode 1 =? 0)%Z then Err (NOT_TRAVERSABLE dir) else all_traversable m dirs
  end.

Definition traversable_by_every_account (m : Machine) (dir root : string) : result string unit :=
  all_traversable m (take_until root (ancestors dir)).

Definition launchable_by_every_account (m : Machine) (exe root : string) : result string unit :=
  mode ← unix_mode m exe;
  if negb (Z.land mode 5 =? 5)%Z then
    Err (exe +:+ " is not readable and executable by other accounts, so a machine-wide registration would fail for them; install the binary under /usr/local/bin, or drop --system")
  else match parent exe with Some dir => traversable_by_every_account m dir root | None => Ok tt end.

(** The walk of [plan_traversable_dirs] from [cursor] up: what is missing, innermost
    first, and where it stops. *)
Fixpoint missing_from (m : Machine) (fuel : nat) (cursor : string) : list string * string :=
  if String.eqb cursor "" || is_ok (symlink_metadata m cursor) then ([], cursor)
  else match fuel, parent cursor with
       | S fuel, Some p => let (missing, stop) := missing_from m fuel p in (cursor :: missing, stop)
       | _, _ => ([cursor], cursor)
       end.

Definition plan_traversable_dirs (m : Machine) (dir root : string) : result string (list string) :=
  let (missing, cursor) := missing_from m (String.length dir) dir in
  _ ← traversable_by_every_account m cursor root;
  Ok (rev missing).

Definition could_not_create (dir why : string) : string := "could not create " +:+ dir +:+ ": " +:+ why.

Definition create_dir (io : Io) (path : string) (m : Machine) : Machine * result io_error unit :=
  match io_mkdir io path with
  | Some e => (m, Err e)
  | None =>
      match files m !! path, parent path ≫= dir_error m with
      | Some _, _ => (m, Err file_exists)
      | None, Some e => (m, Err e)
      | None, None => (set_files m (<[path := NDir false (Z.ldiff 511 (io_umask io))]> (files m)), Ok tt)
      end
  end.

(** [fs::set_permissions] of a directory. *)
Definition set_dir_mode (io : Io) (path : string) (mode : Z) (m : Machine) : Machine * result io_error unit :=
  match io_chmod io path with
  | Some e => (m, Err e)
  | None =>
      match files m !! path with
      | Some (NDir link _) => (set_files m (<[path := NDir link mode]> (files m)), Ok tt)
      | Some (NFile c _) => (set_files m (<[path := NFile c mode]> (files m)), Ok tt)
      | Some (NUnreadable e _) => (set_files m (<[path := NUnreadable e mode]> (files m)), Ok tt)
      | Some (NHidden e) => (m, Err e)
      | Some NDangling | None => (m, Err not_found)
      end
  end.

Fixpoint create_traversable_dirs (io : Io) (planned : list string) (m : Machine) :
    Machine * result string unit :=
  match planned with
  | [] => (m, Ok tt)
  | path :: planned =>
      match create_dir io path m with
      | (m, Err e) => (m, Err (could_not_create path (io_msg e)))
      | (m, Ok _) =>
          if windows then create_traversable_dirs io planned m
          else match set_dir_mode io path 493 m with
               | (m, Err e) => (m, Err (could_not_create path (io_msg e)))
               | (m, Ok _) => create_traversable_dirs io planned m
               end
      end
  end.

(** [fs::create_dir_all]: the missing directories, outermost first. *)
Fixpoint create_each (io : Io) (dirs : list string) (m : Machine) : Machine * result io_error unit :=
  match dirs with
  | [] => (m, Ok tt)
  | dir :: dirs =>
      match create_dir io dir m with
      | (m, Ok _) => create_each io dirs m
      | r => r
      end
  end.

Definition create_dir_all (io : Io) (dir : string) (m : Machine) : Machine * result io_error unit :=
  match files m !! dir with
  | Some (NDir _ _) => (m, Ok tt)
  | Some _ => (m, Err file_exists)
  | None => create_each io (rev (missing_from m (String.length dir) dir).1) m
  end.

(** [fsguard::ensure_private_dir]. *)
Definition ensure_private_dir (io : Io) (dir : string) (m : Machine) : Machine * result io_error unit :=
  match create_dir_all io dir m with
  | (m, Err e) => (m, Err e)
  | (m, Ok _) =>
      match files m !! dir with
      | None => (m, Err not_found)
      | Some (NHidden e) => (m, Err e)
      | Some (NDir true _) | Some NDangling =>
          (m, Err (IoError Other "is a symlink; refusing to use it as a private directory"))
      | Some _ => if windows then (m, Ok tt) else set_dir_mode io dir 448 m
      end
  end.

Inductive RegistrarScope := RsUser | RsSystem (root : string).

(** [Registrar::ensure_install_dir]. *)
Definition ensure_install_dir (io : Io) (scope : RegistrarScope) (install_dir : string) (m : Machine) :
    Machine * result string unit :=
  let failed (e : io_error) := could_not_create install_dir (io_msg e) in
  match ensure_private_dir io install_dir m with
  | (m, Err e) => (m, Err (failed e))
  | (m, Ok _) =>
      match scope with
      | RsSystem _ =>
          if windows then (m, Ok tt)
          else let (m, r) := set_dir_mode io install_dir 493 m in (m, map_err failed r)
      | RsUser => (m, Ok tt)
      end
  end.

Fixpoint create_all_dirs (io : Io) (dirs : list string) (m : Machine) : Machine * result string unit :=
  match dirs with
  | [] => (m, Ok tt)
  | dir :: dirs =>
      match create_dir_all io dir m with
      | (m, Ok _) => create_all_dirs io dirs m
      | (m, Err e) => (m, Err (could_not_create dir (io_msg e)))
      end
  end.

Fixpoint plan_under_browsers (m : Machine) (root : string) (above_wrapper planned browser_dirs : list string) :
    result string (list string) :=
  match browser_dirs with
  | [] => Ok planned
  | dir :: browser_dirs =>
      missing ← map_err (could_not_create dir) (plan_traversable_dirs m dir root);
      let add planned path := if str_mem path above_wrapper || str_mem path planned then planned else planned ++ [path] in
      plan_under_browsers m root above_wrapper (foldl add planned missing) browser_dirs
  end.

(** [Registrar::create_dirs]. *)
Definition create_dirs (io : Io) (scope : RegistrarScope) (install_dir : string) (browser_dirs : list string)
    (m : Machine) : Machine * result string unit :=
  match scope with
  | RsUser =>
      match ensure_install_dir io scope install_dir m with
      | (m, Ok _) => create_all_dirs io browser_dirs m
      | r => r
      end
  | RsSystem root =>
      match (above_wrapper ← match parent install_dir with
                             | Some p => map_err (could_not_create p) (plan_traversable_dirs m p root)
                             | None => Ok []
                             end;
             under_browsers ← plan_under_browsers m root above_wrapper [] browser_dirs;
             Ok (above_wrapper, under_browsers)) with
      | Err e => (m, Err e)
      | Ok (above_wrapper, under_browsers) =>
          match create_traversable_dirs io above_wrapper m with
          | (m, Err e) => (m, Err e)
          | (m, Ok _) =>
              match ensure_install_dir io scope install_dir m with
              | (m, Err e) => (m, Err e)
              | (m, Ok _) => create_traversable_dirs io under_browsers m
              end
          end
      end
  end.

End paths.

(** * Registry *)

Definition ascii_lower (c : ascii) : ascii :=
  let n := nat_of_ascii c in if (65 <=? n)%nat && (n <=? 90)%nat then ascii_of_nat (n + 32) else c.
Fixpoint to_ascii_lowercase (s : string) : string :=
  match s with "" => "" | String c s => String (ascii_lower c) (to_ascii_lowercase s) end.

Definition same_windows_path (v manifest_path : string) : bool :=
  let normalize p := to_ascii_lowercase (str_replace "/" "\" p) in
  String.eqb (normalize v) (normalize manifest_path).

(** A key read whole: every value as (name, text), and the count of child keys. *)
Record RegistryKey := mkRegistryKey { rk_values : list (string * string); rk_children : nat }.

Section registry_ops.
Context `{BL : Build} `{SD : StrDebug}.

Definition key_name (hive : Hive) (key : string) : string := hive_display hive +:+ "\" +:+ key.

Definition registry_supported (hive : Hive) (key : string) : result string unit :=
  if windows then Ok tt
  else Err ("registry registration (" +:+ key_name hive key +:+ ") requires a Windows build of genkan").

Definition NO_REGISTRY : string := "registry access requires a Windows build of genkan".

Definition value_text (entry : result string (string * RegValue)) : result string (string * string) :=
  match entry with
  | Err e => Err ("could not list its values: " +:+ e)
  | Ok (name, RegSz text) =>
      pair name <$> map_err (fun e => "value " +:+ str_debug name +:+ " is not readable text: " +:+ e) text
  | Ok (name, RegExpandSz _) => Ok (name, "<REG_EXPAND_SZ>")
  | Ok (name, RegOther vtype) => Ok (name, "<" +:+ vtype +:+ ">")
  end.

Fixpoint all_texts (entries : list (result string (string * RegValue))) : result string (list (string * string)) :=
  match entries with
  | [] => Ok []
  | e :: entries => v ← value_text e; vs ← all_texts entries; Ok (v :: vs)
  end.

Definition registry_key (m : Machine) (hive : Hive) (key : string) : result string (option RegistryKey) :=
  if windows then
    match registry m !! (hive, key) with
    | None => Ok None
    | Some node =>
        _ ← rn_open node;
        values ← all_texts (rn_values node);
        children ← map_err (fun e => "could not count its child keys: " +:+ e) (rn_children node);
        Ok (Some (mkRegistryKey values children))
    end
  else Err NO_REGISTRY.

Definition named (name : string) (entry : result string (string * RegValue)) : bool :=
  match entry with
  | Ok (n, _) => String.eqb (to_ascii_lowercase n) (to_ascii_lowercase name)
  | Err _ => false
  end.

(** The default value as the browser reads it. *)
Definition registry_default_value (m : Machine) (hive : Hive) (key : string) : result string (option string) :=
  if windows then
    match registry m !! (hive, key) with
    | None => Ok None
    | Some node =>
        _ ← rn_query node;
        match List.find (named "") (rn_values node) with
        | Some (Ok (_, RegSz text)) | Some (Ok (_, RegExpandSz text)) => Some <$> text
        | Some (Ok (_, RegOther _)) | Some (Err _) | None => Ok None
        end
    end
  else Err NO_REGISTRY.

(** Setting a value keeps the stored name of one that differs in case only. *)
Fixpoint set_entry (name value : string) (entries : list (result string (string * RegValue))) :
    list (result string (string * RegValue)) :=
  match entries with
  | [] => [Ok (name, RegSz (Ok value))]
  | e :: entries =>
      if named name e then
        (match e with Ok (n, _) => Ok (n, RegSz (Ok value)) | Err _ => e end) :: entries
      else e :: set_entry name value entries
  end.

Definition fresh_key : RegNode := mkRegNode (Ok tt) (Ok tt) [] (Ok 0).

Definition set_registry_value (io : Io) (hive : Hive) (key name value : string) (m : Machine) :
    Machine * result string unit :=
  if windows then
    let node := default fresh_key (registry m !! (hive, key)) in
    let put node := set_registry m (<[(hive, key) := node]> (registry m)) in
    match io_reg_set io hive key with
    | Some (SetCreate e) => (m, Err ("could not create " +:+ key_name hive key +:+ ": " +:+ e))
    | Some (SetValue e) => (put node, Err ("could not set " +:+ key_name hive key +:+ ": " +:+ e))
    | None =>
        (put (mkRegNode (rn_open node) (rn_query node) (set_entry name value (rn_values node)) (rn_children node)), Ok tt)
    end
  else (m, Err ("registry registration (" +:+ key_name hive key +:+ ") requires a Windows build of genkan")).

Definition delete_registry_key (io : Io) (hive : Hive) (key : string) (m : Machine) : Machine * result string unit :=
  if windows then
    let failed e := Err ("could not delete " +:+ key_name hive key +:+ ": " +:+ e) in
    match registry m !! (hive, key), io_reg_delete io hive key with
    | None, None => (m, Ok tt)
    | _, Some e => (m, failed e)
    | Some node, None =>
        match rn_children node with
        | Ok (S _) => (m, failed (io_has_children io))
        | _ => (set_registry m (delete (hive, key) (registry m)), Ok tt)
        end
    end
  else (m, Err ("registry removal (" +:+ key_name hive key +:+ ") requires a Windows build of genkan")).
End registry_ops.

(** * Reachability of what a machine-wide registration creates *)

Section reachable_dirs.
Context `{PS : PathStyle} `{BL : Build} `{PO : !PathStyleOk}.
Implicit Types (m : Machine) (io : Io).

(** Other accounts can traverse the directory [a]. *)
Definition traversable m (a : string) : Prop :=
  exists mode, metadata_mode m a = Ok mode /\ Z.land mode 1 <> 0%Z.

Lemma ancestors_from_enough fuel p :
  String.length p <= fuel -> ancestors_from fuel p = ancestors p.
Proof.
  unfold ancestors. revert p. induction fuel as [fuel IH] using lt_wf_ind. intros p Hl.
  destruct fuel as [|fuel].
  { by replace (String.length p) with 0 by lia. }
  destruct (String.length p) as [|n] eqn:E; cbn [ancestors_from]; f_equal.
  - destruct (parent p) as [q|] eqn:Ep; [|done]. apply parent_shorter in Ep. lia.
  - destruct (parent p) as [q|] eqn:Ep; [|done]. apply parent_shorter in Ep.
    rewrite (IH fuel), (IH n) by lia. done.
Qed.

Lemma ancestors_unfold p :
  ancestors p = p :: match parent p with Some q => ancestors q | None => [] end.
Proof.
  unfold ancestors at 1. destruct (String.length p) as [|n] eqn:E; cbn [ancestors_from]; f_equal;
    destruct (parent p) as [q|] eqn:Ep; try done; apply parent_shorter in Ep; [lia|].
  apply ancestors_from_enough. lia.
Qed.

Lemma elem_of_rev {A} (x : A) l : x ∈ rev l <-> x ∈ l.
Proof. rewrite !list_elem_of_In. symmetry. apply in_rev. Qed.

Lemma take_until_app stop l k x :
  x ∈ take_until stop (l ++ k) -> x ∈ l \/ x ∈ take_until stop k.
Proof.
  induction l as [|y l IH]; [by right|]. cbn [app take_until].
  destruct (String.eqb y stop); [intros H; by apply elem_of_nil in H|]. set_solver.
Qed.

Lemma missing_from_spec m fuel dir missing cursor :
  String.length dir <= fuel -> missing_from m fuel dir = (missing, cursor) ->
  (forall a, a ∈ missing -> is_ok (symlink_metadata m a) = false) /\
  (ancestors dir = missing ++ ancestors cursor \/ ancestors dir = missing).
Proof.
  revert dir missing. induction fuel as [|fuel IH]; intros dir missing Hl H; cbn [missing_from] in H;
    destruct (String.eqb dir "" || _) eqn:Eb;
    try (injection H as <- <-; split; [set_solver|by left]); apply orb_false_iff in Eb as [_ Eb].
  - injection H as <- <-. split; [set_solver|]. right. rewrite ancestors_unfold.
    destruct (parent dir) eqn:Ep; [apply parent_shorter in Ep; lia|done].
  - rewrite ancestors_unfold. destruct (parent dir) as [q|] eqn:Ep.
    + apply parent_shorter in Ep. destruct (missing_from m fuel q) as [missing' stop] eqn:Eq.
      injection H as <- <-. destruct (IH q missing' ltac:(lia) Eq) as [Hm [->| ->]]; split; set_solver.
    + injection H as <- <-. split; [set_solver|by right].
Qed.

Lemma all_traversable_Ok m l :
  windows = false -> all_traversable m l = Ok tt -> forall a, a ∈ l -> traversable m a.
Proof.
  intros Hw. induction l as [|d l IH]; cbn [all_traversable]; [set_solver|].
  unfold unix_mode at 1. rewrite Hw. destruct (metadata_mode m d) as [mode|e] eqn:E; [|done].
  cbn [fmap result_fmap map_err mbind result_mbind].
  destruct (Z.eqb_spec (Z.land (Z.land mode 511) 1) 0) as [|Hz]; [done|].
  intros H a [->|Ha]%elem_of_cons; [|by apply IH]. exists mode. split; [done|].
  rewrite <- Z.land_assoc in Hz. exact Hz.
Qed.

(** A plan lists what is missing and vouches for the rest. *)
Lemma plan_Ok m dir root missing :
  windows = false -> plan_traversable_dirs m dir root = Ok missing ->
  forall a, a ∈ take_until root (ancestors dir) ->
    (a ∈ missing /\ is_ok (symlink_metadata m a) = false) \/ traversable m a.
Proof.
  intros Hw H a Ha. unfold plan_traversable_dirs in H.
  destruct (missing_from m (String.length dir) dir) as [miss cursor] eqn:E.
  destruct (missing_from_spec m _ dir miss cursor (le_n _) E) as [Hm Hanc].
  unfold traversable_by_every_account in H. destruct (all_traversable _ _) as [[]|] eqn:Et; [|done].
  injection H as <-. rewrite elem_of_rev.
  assert (a ∈ miss \/ traversable m a) as [Hin|Ht]; [|by left; auto|by right].
  destruct Hanc as [Hanc|Hanc]; rewrite Hanc in Ha.
  - apply take_until_app in Ha as [Ha|Ha]; [by left|]. right. by apply (all_traversable_Ok _ _ Hw Et).
  - left. rewrite <- (app_nil_r miss) in Ha. apply take_until_app in Ha as [Ha|Ha]; [done|].
    by apply elem_of_nil in Ha.
Qed.

(** ** The writes keep what is traversable, and leave what they made so *)

Lemma traversable_has_node m a : traversable m a -> exists node, files m !! a = Some node.
Proof. intros (mode & H & _). unfold metadata_mode in H. destruct (files m !! a); eauto. discriminate H. Qed.

Lemma traversable_insert m a p node :
  a <> p -> traversable (set_files m (<[p := node]> (files m))) a <-> traversable m a.
Proof.
  intros Hne. unfold traversable, metadata_mode. cbn [files set_files].
  by rewrite lookup_insert_ne by congruence.
Qed.

Lemma traversable_dir m p link mode :
  Z.land mode 1 <> 0%Z -> traversable (set_files m (<[p := NDir link mode]> (files m))) p.
Proof.
  intros H. exists mode. split; [|done]. unfold metadata_mode. cbn [files set_files]. by rewrite lookup_insert_eq.
Qed.

Lemma create_dir_Ok io p m m' :
  create_dir io p m = (m', Ok tt) ->
  files m !! p = None /\ exists mode, m' = set_files m (<[p := NDir false mode]> (files m)).
Proof.
  unfold create_dir. destruct (io_mkdir io p); [done|]. destruct (files m !! p), (parent p ≫= dir_error m);
    try done. intros [= <-]. eauto.
Qed.

Lemma create_dir_keeps io p m m' r a :
  create_dir io p m = (m', r) -> traversable m a -> traversable m' a.
Proof.
  destruct r as [[]|e]; intros H Ha.
  - destruct (create_dir_Ok _ _ _ _ H) as (Hn & mode & ->). apply traversable_insert; [|done].
    intros ->. destruct (traversable_has_node _ _ Ha) as (node & E). congruence.
  - unfold create_dir in H. repeat case_match; congruence.
Qed.

Lemma create_traversable_dirs_Ok io l m m' :
  windows = false -> create_traversable_dirs io l m = (m', Ok tt) ->
  (forall a, a ∈ l -> traversable m' a) /\ (forall a, traversable m a -> traversable m' a).
Proof.
  intros Hw. revert m. induction l as [|p l IH]; intros m; cbn [create_traversable_dirs].
  { intros [= <-]. split; [set_solver|done]. }
  destruct (create_dir io p m) as [m1 [[]|e]] eqn:E1; [|done]. rewrite Hw.
  destruct (set_dir_mode io p 493 m1) as [m2 [[]|e]] eqn:E2; [|done]. intros H.
  destruct (IH m2 H) as [Hl Hk].
  assert (traversable m2 p /\ forall a, traversable m a -> traversable m2 a) as [Hp Hm].
  { destruct (create_dir_Ok _ _ _ _ E1) as (Hn & mode & ->). unfold set_dir_mode in E2.
    destruct (io_chmod io p); [done|]. cbn [files set_files] in E2. rewrite lookup_insert_eq in E2.
    injection E2 as <-. split; [by apply traversable_dir|]. intros a Ha.
    assert (a <> p) by (intros ->; destruct (traversable_has_node _ _ Ha) as (node & E); congruence).
    do 2 (apply traversable_insert; [done|]). done. }
  split; [|auto]. intros a [->|Ha]%elem_of_cons; auto.
Qed.

Lemma create_each_keeps io l m m' r a :
  create_each io l m = (m', r) -> traversable m a -> traversable m' a.
Proof.
  revert m. induction l as [|p l IH]; intros m; cbn [create_each]; [by intros [= <- _]|].
  destruct (create_dir io p m) as [m1 [[]|e]] eqn:E; intros H Ha;
    pose proof (create_dir_keeps _ _ _ _ _ _ E Ha); [eauto|congruence].
Qed.

Lemma create_dir_all_keeps io p m m' r a :
  create_dir_all io p m = (m', r) -> traversable m a -> traversable m' a.
Proof.
  unfold create_dir_all. destruct (files m !! p) as [[]|] eqn:E; try (intros [= <- _]; done).
  apply create_each_keeps.
Qed.

Lemma set_dir_mode_Ok io p mode m m' :
  set_dir_mode io p mode m = (m', Ok tt) ->
  metadata_mode m' p = Ok mode /\ forall q, q <> p -> metadata_mode m' q = metadata_mode m q.
Proof.
  unfold set_dir_mode, metadata_mode. destruct (io_chmod io p); [done|].
  destruct (files m !! p) as [[]|]; try done; intros [= <-]; cbn [files set_files];
    (split; [by rewrite lookup_insert_eq|intros q Hq; by rewrite lookup_insert_ne by congruence]).
Qed.

(** The wrapper's directory ends traversable, and nothing above it changes. *)
Lemma ensure_install_dir_Ok io root dir m m' :
  windows = false -> ensure_install_dir io (RsSystem root) dir m = (m', Ok tt) ->
  traversable m' dir /\ (forall a, traversable m a -> traversable m' a).
Proof.
  intros Hw H. unfold ensure_install_dir in H. destruct (ensure_private_dir io dir m) as [m1 [[]|e]] eqn:E1; [|done].
  rewrite Hw in H. destruct (set_dir_mode io dir 493 m1) as [m2 [[]|e]] eqn:E2; [|done]. injection H as <-.
  apply set_dir_mode_Ok in E2 as [Hd2 Hk2]. assert (traversable m2 dir) as Hd by by exists 493%Z.
  split; [done|]. intros a Ha. destruct (decide (a = dir)) as [->|Hne]; [done|].
  unfold ensure_private_dir in E1. destruct (create_dir_all io dir m) as [m0 [[]|e]] eqn:E0; [|done].
  destruct (create_dir_all_keeps _ _ _ _ _ a E0 Ha) as (mode & Hmode & Hz). exists mode. split; [|done].
  rewrite Hk2 by done. destruct (files m0 !! dir) as [[]|]; try done; try (destruct link; [done|]);
    rewrite Hw in E1; apply set_dir_mode_Ok in E1 as [_ Hk1]; by rewrite Hk1.
Qed.

(** ** Planning *)

Lemma plan_fold_spec above planned missing :
  let add planned path := if str_mem path above || str_mem path planned then planned else planned ++ [path] in
  (forall a, a ∈ planned -> a ∈ foldl add planned missing) /\
  (forall a, a ∈ missing -> a ∈ above \/ a ∈ foldl add planned missing).
Proof.
  intros add. revert planned. induction missing as [|p missing IH]; intros planned; cbn [foldl]; [set_solver|].
  destruct (IH (add planned p)) as [H1 H2]. unfold add in *. clear IH.
  destruct (str_mem p above || str_mem p planned) eqn:E.
  - split; [done|]. intros a [->|Ha]%elem_of_cons; [|auto].
    apply orb_true_iff in E as [E|E]; apply str_mem_true in E; [by left|right; auto].
  - split; [intros a Ha; apply H1; set_solver|]. intros a [->|Ha]%elem_of_cons; [|auto]. right. apply H1. set_solver.
Qed.

Lemma plan_under_browsers_Ok m root above planned dirs out :
  plan_under_browsers m root above planned dirs = Ok out ->
  (forall a, a ∈ planned -> a ∈ out) /\
  (forall dir, dir ∈ dirs -> exists missing, plan_traversable_dirs m dir root = Ok missing /\
     forall a, a ∈ missing -> a ∈ above \/ a ∈ out).
Proof.
  revert planned. induction dirs as [|d dirs IH]; intros planned; cbn [plan_under_browsers].
  { intros [= ->]. set_solver. }
  destruct (plan_traversable_dirs m d root) as [missing|e] eqn:E; [|done]. cbn [map_err mbind result_mbind].
  intros H. destruct (IH _ H) as [H1 H2]. destruct (plan_fold_spec above planned missing) as [F1 F2].
  split; [auto|]. intros dir [->|Hd]%elem_of_cons; [|auto].
  exists missing. split; [done|]. intros a Ha. destruct (F2 a Ha); auto.
Qed.

(** The directories a machine-wide repair must be able to create or rely on. *)
Definition needed_dirs (install_dir : string) (browser_dirs : list string) : list string :=
  option_list (parent install_dir) ++ browser_dirs.

(** Directories of a machine-wide registration are judged before any is made and
    reachable afterwards. When [create_dirs] succeeds machine-wide, the wrapper's
    directory and every directory from each browser directory (and from the wrapper's
    parent) up to the root is one other accounts can traverse; and when a directory that
    already exists on one of those paths is not, nothing at all is created. *)
Theorem machine_wide_dirs_are_reachable io root install_dir dirs m :
  windows = false ->
  (forall m', create_dirs io (RsSystem root) install_dir dirs m = (m', Ok tt) ->
     traversable m' install_dir /\
     forall dir a, dir ∈ needed_dirs install_dir dirs -> a ∈ take_until root (ancestors dir) -> traversable m' a) /\
  (forall dir a link mode, dir ∈ needed_dirs install_dir dirs -> a ∈ take_until root (ancestors dir) ->
     files m !! a = Some (NDir link mode) -> Z.land mode 1 = 0%Z ->
     exists e, create_dirs io (RsSystem root) install_dir dirs m = (m, Err e)).
Proof.
  intros Hw.
  set (plan := above_wrapper ← match parent install_dir with
       | Some p => map_err (could_not_create p) (plan_traversable_dirs m p root) | None => Ok [] end;
     under_browsers ← plan_under_browsers m root above_wrapper [] dirs; Ok (above_wrapper, under_browsers)).
  assert (forall above under, plan = Ok (above, under) -> forall dir a, dir ∈ needed_dirs install_dir dirs ->
    a ∈ take_until root (ancestors dir) ->
    ((a ∈ above \/ a ∈ under) /\ is_ok (symlink_metadata m a) = false) \/ traversable m a) as Hplan.
  { intros above under H dir a Hd Ha. subst plan. apply bind_Ok in H as (ab & Hab & H).
    apply bind_Ok in H as (un & Hun & H). injection H as -> ->.
    destruct (plan_under_browsers_Ok _ _ _ _ _ _ Hun) as [_ Hu].
    apply elem_of_app in Hd as [Hd|Hd].
    - destruct (parent install_dir) as [p|]; [|by apply elem_of_nil in Hd].
      apply list_elem_of_singleton in Hd as ->. apply map_err_Ok in Hab.
      destruct (plan_Ok _ _ _ _ Hw Hab a Ha) as [[]|]; auto.
    - destruct (Hu dir Hd) as (missing & Hm & Hin). destruct (plan_Ok _ _ _ _ Hw Hm a Ha) as [[]|]; auto. }
  unfold create_dirs. fold plan. split.
  - intros m' H. destruct plan as [[above under]|e] eqn:Ep; [|done].
    destruct (create_traversable_dirs io above m) as [m1 [[]|e]] eqn:E1; [|done].
    destruct (ensure_install_dir io (RsSystem root) install_dir m1) as [m2 [[]|e]] eqn:E2; [|done].
    destruct (create_traversable_dirs_Ok _ _ _ _ Hw E1) as [Ha Hk1].
    destruct (ensure_install_dir_Ok _ _ _ _ _ Hw E2) as [Hi Hk2].
    destruct (create_traversable_dirs_Ok _ _ _ _ Hw H) as [Hu Hk3].
    split; [auto|]. intros dir a Hd Hin. destruct (Hplan _ _ eq_refl dir a Hd Hin) as [[[]]|]; auto.
  - intros dir a link mode Hd Hin Hf Hz. destruct plan as [[above under]|e] eqn:Ep; [exfalso|eauto].
    destruct (Hplan _ _ eq_refl dir a Hd Hin) as [[_ Hs]|(mode' & Hm & Hnz)].
    + unfold symlink_metadata in Hs. by rewrite Hf in Hs.
    + unfold metadata_mode in Hm. rewrite Hf in Hm. congruence.
Qed.
End reachable_dirs.

Definition unix_build : Build := {| windows := false |}.
Definition windows_build : Build := {| windows := true |}.

Module MachineExample.
(** A Linux machine with the usual directories, [/etc/opt] missing. *)
Definition linux : Machine :=
  mkMachine (list_to_map [("/", NDir false 493); ("/etc", NDir false 493); ("/var", NDir false 493);
    ("/var/lib", NDir false 493); ("/srv", NDir false 448)]) ∅.
Definition chrome_dir : string := "/etc/opt/chrome/native-messaging-hosts".
Definition made : Machine := (@create_dirs unix_style unix_build no_faults (RsSystem "/") "/var/lib/genkan" [chrome_dir] linux).1.
End MachineExample.

Lemma machine_wide_dirs_are_reachable_witness :
  @traversable MachineExample.made "/etc/opt/chrome" /\
  exists e, @create_dirs unix_style unix_build no_faults (RsSystem "/") "/var/lib/genkan" ["/srv/hosts"] MachineExample.linux
    = (MachineExample.linux, Err e).
Proof.
  split.
  - eapply (proj2 (proj1 (@machine_wide_dirs_are_reachable unix_style unix_build unix_style_ok no_faults "/"
      "/var/lib/genkan" [MachineExample.chrome_dir] MachineExample.linux eq_refl) _ ltac:(vm_compute; reflexivity)))
      with (dir := MachineExample.chrome_dir).
    + apply elem_of_app. right. by apply list_elem_of_singleton.
    + apply str_mem_true. vm_compute. reflexivity.
  - eapply (proj2 (@machine_wide_dirs_are_reachable unix_style unix_build unix_style_ok no_faults "/"
      "/var/lib/genkan" ["/srv/hosts"] MachineExample.linux eq_refl)) with (dir := "/srv/hosts") (a := "/srv").
    + apply elem_of_app. right. by apply list_elem_of_singleton.
    + apply str_mem_true. vm_compute. reflexivity.
    + vm_compute. reflexivity.
    + reflexivity.
Defined.

(** * Machines up to their directories *)

(** What a path holds, directories aside. *)
Definition fileview (node : option Node) : option Node :=
  match node with Some (NDir _ _) => None | _ => node end.

(** The registry and every file are the same; only directories may differ. *)
#[export] Instance machine_equiv : Equiv Machine := fun m m' =>
  registry m = registry m' /\ forall p, fileview (files m !! p) = fileview (files m' !! p).

#[export] Instance machine_equivalence : Equivalence (≡@{Machine}).
Proof.
  split.
  - by intros m.
  - intros m m' [Hr Hf]. by split.
  - intros m1 m2 m3 [Hr Hf] [Hr' Hf']. split; [congruence|]. intros p. by rewrite Hf.
Qed.

Lemma insert_dir_equiv m p link mode :
  fileview (files m !! p) = None -> set_files m (<[p := NDir link mode]> (files m)) ≡ m.
Proof.
  intros H. split; [done|]. intros q. cbn [files set_files].
  destruct (decide (q = p)) as [->|Hne]; [by rewrite lookup_insert_eq, H|by rewrite lookup_insert_ne by congruence].
Qed.

Section dirs_equiv.
Context `{PS : PathStyle} `{BL : Build}.

Lemma create_dir_equiv io p m : (create_dir io p m).1 ≡ m.
Proof.
  unfold create_dir. destruct (io_mkdir io p); [done|]. destruct (files m !! p) eqn:E; [done|].
  destruct (parent p ≫= dir_error m); [done|]. apply insert_dir_equiv. by rewrite E.
Qed.

(** Changing the mode of a directory. *)
Lemma set_dir_mode_equiv io p mode m :
  (exists link old, files m !! p = Some (NDir link old)) -> (set_dir_mode io p mode m).1 ≡ m.
Proof.
  intros (link & old & E). unfold set_dir_mode. rewrite E. destruct (io_chmod io p); [done|].
  apply insert_dir_equiv. by rewrite E.
Qed.

Lemma create_dir_makes_dir io p m m' :
  create_dir io p m = (m', Ok tt) -> exists link mode, files m' !! p = Some (NDir link mode).
Proof.
  intros H. destruct (create_dir_Ok _ _ _ _ H) as (_ & mode & ->). exists false, mode.
  cbn [files set_files]. by rewrite lookup_insert_eq.
Qed.

Lemma create_traversable_dirs_equiv io l m : (create_traversable_dirs io l m).1 ≡ m.
Proof.
  revert m. induction l as [|p l IH]; intros m; cbn [create_traversable_dirs]; [done|].
  pose proof (create_dir_equiv io p m) as H1. destruct (create_dir io p m) as [m1 [[]|e]] eqn:E1; [|done].
  destruct windows; [by rewrite IH|].
  pose proof (set_dir_mode_equiv io p 493 m1 (create_dir_makes_dir _ _ _ _ E1)) as H2.
  destruct (set_dir_mode io p 493 m1) as [m2 [[]|e]]; [rewrite IH|]; by rewrite H2.
Qed.

Lemma create_each_equiv io l m : (create_each io l m).1 ≡ m.
Proof.
  revert m. induction l as [|p l IH]; intros m; cbn [create_each]; [done|].
  pose proof (create_dir_equiv io p m) as H1. destruct (create_dir io p m) as [m1 [[]|e]]; [by rewrite IH|done].
Qed.

Lemma create_dir_all_equiv io p m : (create_dir_all io p m).1 ≡ m.
Proof.
  unfold create_dir_all. destruct (files m !! p) as [[]|]; try done. apply create_each_equiv.
Qed.

Lemma create_all_dirs_equiv io l m : (create_all_dirs io l m).1 ≡ m.
Proof.
  revert m. induction l as [|p l IH]; intros m; cbn [create_all_dirs]; [done|].
  pose proof (create_dir_all_equiv io p m) as H1. destruct (create_dir_all io p m) as [m1 [[]|e]]; [by rewrite IH|done].
Qed.

Lemma create_dir_all_no_file io p m m' :
  create_dir_all io p m = (m', Ok tt) -> fileview (files m' !! p) = None.
Proof.
  intros H. pose proof (create_dir_all_equiv io p m) as [_ Hf]. rewrite H in Hf. cbn [fst] in Hf. rewrite (Hf p).
  unfold create_dir_all in H. by destruct (files m !! p) as [[]|].
Qed.

Lemma ensure_install_dir_equiv io scope dir m : (ensure_install_dir io scope dir m).1 ≡ m.
Proof.
  unfold ensure_install_dir, ensure_private_dir.
  pose proof (create_dir_all_equiv io dir m) as H0. destruct (create_dir_all io dir m) as [m0 [[]|e]] eqn:E0; [|done].
  cbn [fst] in H0. apply create_dir_all_no_file in E0.
  destruct (files m0 !! dir) as [[]|] eqn:E; try done. destruct link; [done|]. clear E0.
  assert (forall mode m1, m1 ≡ m -> (exists link old, files m1 !! dir = Some (NDir link old)) ->
    exists m2 r, set_dir_mode io dir mode m1 = (m2, r) /\ m2 ≡ m /\ exists link old, files m2 !! dir = Some (NDir link old)) as Hset.
  { intros mode' m1 H1 H2. pose proof (set_dir_mode_equiv io dir mode' m1 H2) as H3.
    destruct (set_dir_mode io dir mode' m1) as [m2 r] eqn:E2. cbn [fst] in H3. exists m2, r.
    split; [done|]. split; [by rewrite H3|]. destruct H2 as (link & old & E1). unfold set_dir_mode in E2.
    rewrite E1 in E2. destruct (io_chmod io dir); injection E2 as <- _; [eauto|].
    exists link, mode'. cbn [files set_files]. by rewrite lookup_insert_eq. }
  destruct windows; [by destruct scope|].
  destruct (Hset 448%Z m0 H0 ltac:(eauto)) as (m2 & r2 & -> & H2 & E2). destruct r2 as [[]|]; [|done].
  destruct scope; [done|]. destruct (Hset 493%Z m2 H2 E2) as (m3 & r3 & -> & H3 & _). done.
Qed.

Lemma create_dirs_equiv io scope dir l m : (create_dirs io scope dir l m).1 ≡ m.
Proof.
  unfold create_dirs. destruct scope as [|root].
  - pose proof (ensure_install_dir_equiv io RsUser dir m) as H.
    destruct (ensure_install_dir io RsUser dir m) as [m1 [[]|e]]; [by rewrite create_all_dirs_equiv|done].
  - destruct (_ ≫= _) as [[above under]|e]; [|done].
    pose proof (create_traversable_dirs_equiv io above m) as H1.
    destruct (create_traversable_dirs io above m) as [m1 [[]|e]]; [|done]. cbn [fst] in H1.
    pose proof (ensure_install_dir_equiv io (RsSystem root) dir m1) as H2.
    destruct (ensure_install_dir io (RsSystem root) dir m1) as [m2 [[]|e]]; cbn [fst] in *; [|by rewrite H2].
    by rewrite create_traversable_dirs_equiv, H2.
Qed.
End dirs_equiv.
