(* ===== verification/Registration.v ===== *)
(** Registration: the engine that writes, diagnoses and removes a native-messaging
    registration (src/src/packages/core/src/registration/slot.rs and mod.rs).

    [manifest_slots] and [pointer_slot] read what sits at each location, [register] and
    [uninstall] act on it; both run on a [Machine] and an [Io] that says which operation
    fails. JSON text is the [JsonValue] parameter. *)
From S2P Require Import Prelude Json Control WebAuthn Browsers Presence Wrapper Machine.
From Stdlib Require Import Ascii.
From stdpp Require Import base list gmap sets strings.

(** [serde_json] at [Value]: an object holds each name once. *)
Class JsonValue := {
  from_str : string -> result string json;
  to_string_pretty : json -> result string string
}.

Definition json_get (name : string) (v : json) : option json := as_object v ≫= member name.

Definition MANIFEST_DESCRIPTION : string := "Genkan native messaging host (managed by genkan)".
Definition WEB_STORE_UPDATE_URL : string := "https://clients2.google.com/service/update2/crx".
Definition POINTER_VALUE_NAME : string := "update_url".

Definition pointer_json : string :=
  "{" +:+ nl +:+ "  " +:+ dquote +:+ "external_update_url" +:+ dquote +:+ ": " +:+ dquote +:+ WEB_STORE_UPDATE_URL
  +:+ dquote +:+ nl +:+ "}" +:+ nl.

Inductive Ownership := Ours | ForeignOwner (why : string).

Inductive RegState :=
| RegMissing | RegOk | RegStale (why : string) | RegForeign (why : string) | RegUnreadable (why : string).
Inductive PointerState :=
| PtrMissing | PtrOk | PtrForeign (why : string) | PtrUnreadable (why : string).

Definition RegState_describe (s : RegState) : string :=
  match s with
  | RegMissing => "missing"
  | RegOk => "ok"
  | RegStale why => "stale (" +:+ why +:+ ")"
  | RegForeign why => "NOT OURS (" +:+ why +:+ ")"
  | RegUnreadable why => "unreadable (" +:+ why +:+ ")"
  end.
Definition PointerState_describe (s : PointerState) : string :=
  match s with
  | PtrMissing => "missing"
  | PtrOk => "ok"
  | PtrForeign why => "NOT OURS (" +:+ why +:+ ")"
  | PtrUnreadable why => "unreadable (" +:+ why +:+ ")"
  end.

Inductive ForeignShape := Replaceable | Rooted.

Inductive Slot :=
| SlotAbsent
| SlotOurs (read : string)
| SlotForeign (why : string) (launched : option string) (shape : ForeignShape)
| SlotUnreadable (why : string).

Inductive ForeignManifest := Replace | Refuse.

(** * Judging a slot *)

Definition cannot_verify (what why : string) : string :=
  "cannot verify the existing " +:+ what +:+ ": " +:+ why +:+ " (left untouched)".

(** [Slot::writable]. *)
Definition writable (s : Slot) (what : string) : result string unit :=
  match s with
  | SlotAbsent | SlotOurs _ => Ok tt
  | SlotForeign why _ _ =>
      Err ("refusing to overwrite " +:+ what +:+ ": " +:+ why +:+ ". Inspect and remove it yourself if it is stale.")
  | SlotUnreadable why => Err (cannot_verify what why)
  end.

(** [Slot::replaceable]. *)
Definition replaceable (s : Slot) (what : string) (foreign : ForeignManifest) : result string (option string) :=
  match s, foreign with
  | SlotAbsent, _ | SlotOurs _, _ => Ok None
  | SlotForeign _ _ _, Refuse => (fun _ => None) <$> writable s what
  | SlotForeign why launched Replaceable, Replace =>
      Ok (Some ("  replaced " +:+ what +:+ ", not written by genkan (" +:+ why +:+ "); it launched "
        +:+ default "nothing readable as a launch path" launched))
  | SlotForeign why _ Rooted, Replace =>
      Err ("refusing to replace " +:+ what +:+ ": " +:+ why +:+ "; remove it yourself if you are sure")
  | SlotUnreadable why, _ => Err (cannot_verify what why)
  end.

(** [Slot::removable]. *)
Definition removable (s : Slot) (what : string) : result string bool :=
  match s with
  | SlotAbsent => Ok false
  | SlotOurs _ => Ok true
  | SlotForeign why _ _ =>
      Err ("refusing to remove " +:+ what +:+ ": " +:+ why +:+ ". Not written by genkan; remove it yourself if you are sure.")
  | SlotUnreadable why =>
      Err ("could not read " +:+ what +:+ " to verify it is ours: " +:+ why +:+ " (left in place)")
  end.

(** * Reading a slot *)

Section reading.
Context `{PS : PathStyle} `{BL : Build} `{SD : StrDebug} `{JV : JsonValue}.

(** [{:?}] of an [Option<&str>]. *)
Definition option_debug (o : option string) : string :=
  match o with Some s => "Some(" +:+ str_debug s +:+ ")" | None => "None" end.

Definition read_slot (m : Machine) (path : string) : result string (option string) :=
  match read_to_string m path with
  | Ok contents => Ok (Some contents)
  | Err e =>
      if bool_decide (io_kind e = NotFound) then
        match symlink_metadata m path with
        | Err e' => if bool_decide (io_kind e' = NotFound) then Ok None
                    else Err ("could not look for an entry at this path: " +:+ io_msg e')
        | Ok _ => Err "a dangling symlink sits at this path"
        end
      else Err (io_msg e)
  end.

(** The [path] member of a manifest's text. *)
Definition launch_path_of (contents : string) : option string :=
  v ← ok (from_str contents); json_get "path" v ≫= as_str.

Definition file_slot (m : Machine) (path : string) (ownership : string -> Ownership) : Slot :=
  match read_slot m path with
  | Err why => SlotUnreadable why
  | Ok None => SlotAbsent
  | Ok (Some contents) =>
      match ownership contents with
      | Ours => SlotOurs contents
      | ForeignOwner why => SlotForeign why (launch_path_of contents) Replaceable
      end
  end.

Definition registry_slot (m : Machine) (hive : Hive) (key name : string) (expected : string -> bool) : Slot :=
  match registry_key m hive key with
  | Err why => SlotUnreadable ("registry key " +:+ key_name hive key +:+ ": " +:+ why)
  | Ok None => SlotAbsent
  | Ok (Some (mkRegistryKey values (S _))) =>
      SlotForeign ("registry key " +:+ key_name hive key +:+ " carries child keys this project never writes") None Rooted
  | Ok (Some (mkRegistryKey values O)) =>
      let other := SlotForeign ("registry key " +:+ key_name hive key +:+ " carries values this project never writes")
        (snd <$> List.find (fun v => String.eqb v.1 name) values) Replaceable in
      match values with
      | [(only, value)] =>
          if String.eqb only name then
            if expected value then SlotOurs value
            else SlotForeign ("registry key " +:+ key_name hive key +:+ " points at " +:+ str_debug value +:+ ", not ours")
                   (Some value) Replaceable
          else other
      | _ => other
      end
  end.

Definition pointer_ownership (contents : string) : Ownership :=
  match from_str contents with
  | Err e => ForeignOwner ("not a JSON pointer (" +:+ e +:+ ")")
  | Ok parsed =>
      match as_object parsed with
      | None => ForeignOwner "pointer is not a JSON object"
      | Some object =>
          if negb (length object =? 1) then ForeignOwner "pointer carries keys this project never writes"
          else
            let url := member "external_update_url" object ≫= as_str in
            if bool_decide (url = Some WEB_STORE_UPDATE_URL) then Ours
            else ForeignOwner ("pointer update url is " +:+ option_debug url +:+ ", expected "
                   +:+ str_debug WEB_STORE_UPDATE_URL)
      end
  end.

Definition manifest_ownership (contents : string) : Ownership :=
  match from_str contents with
  | Err e => ForeignOwner ("not a JSON manifest (" +:+ e +:+ ")")
  | Ok parsed =>
      let name := json_get "name" parsed ≫= as_str in
      if bool_decide (name = Some NATIVE_HOST_ID) then
        if bool_decide (json_get "description" parsed ≫= as_str = Some MANIFEST_DESCRIPTION) then Ours
        else ForeignOwner "manifest description does not match the Genkan marker"
      else ForeignOwner ("manifest name is " +:+ option_debug name +:+ ", expected " +:+ str_debug NATIVE_HOST_ID)
  end.

Definition pointer_slot (m : Machine) (pointer : ExtensionPointer) : Slot :=
  match pointer with
  | PointerFile path => file_slot m path pointer_ownership
  | PointerRegistry hive key =>
      registry_slot m hive key POINTER_VALUE_NAME (fun url => String.eqb url WEB_STORE_UPDATE_URL)
  end.

Definition assess_pointer (m : Machine) (pointer : ExtensionPointer) : PointerState :=
  match pointer_slot m pointer with
  | SlotAbsent => PtrMissing
  | SlotOurs _ => PtrOk
  | SlotForeign why _ _ => PtrForeign why
  | SlotUnreadable why => PtrUnreadable why
  end.

Record ManifestSlots := mkSlots { ms_file : Slot; ms_key : option Slot }.

Definition manifest_slots (m : Machine) (reg : Registration) : ManifestSlots :=
  mkSlots (file_slot m (manifest_path reg) manifest_ownership)
    (match reg with
     | ManifestDir _ => None
     | RegistryReg hive key _ =>
         Some (registry_slot m hive key "" (fun v => same_windows_path v (manifest_path reg)))
     end).

Definition classify (m : Machine) (slots : ManifestSlots) (key_name : string) : RegState :=
  match ms_key slots with
  | Some (SlotForeign why _ _) => RegForeign why
  | Some (SlotUnreadable why) => RegUnreadable why
  | Some SlotAbsent => RegMissing
  | Some (SlotOurs _) | None =>
      match ms_file slots with
      | SlotAbsent =>
          match ms_key slots with
          | Some _ => RegStale ("manifest file missing but registry key " +:+ key_name +:+ " present")
          | None => RegMissing
          end
      | SlotUnreadable why => RegUnreadable why
      | SlotForeign why _ _ => RegForeign why
      | SlotOurs contents =>
          match launch_path_of contents with
          | Some p => if is_file m p then RegOk else RegStale ("launch path missing: " +:+ p)
          | None => RegStale "manifest has no launch path"
          end
      end
  end.

Definition assess (m : Machine) (reg : Registration) : RegState :=
  classify m (manifest_slots m reg)
    (match reg with ManifestDir _ => "" | RegistryReg hive key _ => key_name hive key end).

Definition registry_lookup_hit (default_value : result string (option string)) : bool :=
  match default_value with Ok (Some _) => true | _ => false end.

Definition lookup_hit (m : Machine) (reg : Registration) : bool :=
  match reg with
  | ManifestDir _ => path_exists m (manifest_path reg)
  | RegistryReg hive key _ => registry_lookup_hit (registry_default_value m hive key)
  end.

End reading.

(** * Targets *)

Record Target := mkTarget {
  t_label : option Browser;
  t_name : string;
  t_registration : Registration;
  t_pointers : list ExtensionPointer
}.

Definition target_label (t : Target) : option string := browser_key <$> t_label t.

Definition for_browser (e : BrowserEntry) (scope : Scope) : Target :=
  let pointers := option_list ((fun p => scoped_get p scope) <$> be_pointer e) in
  match scoped_get (be_manifest e) scope with
  | LookupOwn registration readers =>
      mkTarget (match readers with [] => Some (be_browser e) | _ => None end) (browser_key (be_browser e))
        registration pointers
  | ReadsFrom owner registration => mkTarget None (browser_key owner) registration pointers
  end.

Definition explicit_dir_registration (dir : string) : Registration := ManifestDir dir.

Record Registrar := mkRegistrar {
  host_exe : string;
  r_install_dir : string;
  r_scope : RegistrarScope;
  r_foreign : ForeignManifest;
  extension_id : string
}.

Record Removal := mkRemoval { rm_lines : list string; rm_refused : list string; rm_failed : list string }.
Definition no_removal : Removal := mkRemoval [] [] [].
Definition removed_line (r : Removal) (line : string) : Removal :=
  mkRemoval (rm_lines r ++ [line]) (rm_refused r) (rm_failed r).
Definition refused_line (r : Removal) (e : string) : Removal :=
  mkRemoval (rm_lines r) (rm_refused r ++ [e]) (rm_failed r).
Definition failed_line (r : Removal) (e : string) : Removal :=
  mkRemoval (rm_lines r) (rm_refused r) (rm_failed r ++ [e]).

(** * Writing *)

(** The write phase: it changes the machine, adds report lines and may fail. *)
Definition W (A : Type) : Type := Machine -> list string -> Machine * list string * result string A.

#[export] Instance W_ret : MRet W := fun A a m ls => (m, ls, Ok a).
#[export] Instance W_bind : MBind W := fun A B f x m ls =>
  match x m ls with
  | (m, ls, Ok a) => f a m ls
  | (m, ls, Err e) => (m, ls, Err e)
  end.

Definition w_res {A} (r : result string A) : W A := fun m ls => (m, ls, r).
Definition w_lines (f : list string -> list string) : W unit := fun m ls => (m, f ls, Ok tt).
Definition w_op (op : Machine -> Machine * result string unit) : W unit := fun m ls =>
  let (m, r) := op m in (m, ls, r).

Section writing.
Context `{PS : PathStyle} `{BL : Build} `{SD : StrDebug} `{JV : JsonValue}.

Definition for_explicit_dir (dir : string) : Target :=
  let registration := explicit_dir_registration dir in
  mkTarget None (registration_location registration) registration [].

Definition manifest_value (R : Registrar) (launch_path : string) : json :=
  JObj [("name", JStr NATIVE_HOST_ID); ("description", JStr MANIFEST_DESCRIPTION); ("path", JStr launch_path);
        ("type", JStr "stdio");
        ("allowed_origins", JArr [JStr ("chrome-extension://" +:+ extension_id R +:+ "/")])].

Definition manifest_json (R : Registrar) (launch_path : string) : result string string :=
  text ← map_err (fun e => "could not serialize the host manifest: " +:+ e)
           (to_string_pretty (manifest_value R launch_path));
  Ok (text +:+ nl).

Definition wrapper_name (label : option string) : string :=
  match label with Some key => "run-host-" +:+ key +:+ ".sh" | None => "run-host.sh" end.
Definition wrapper_path (R : Registrar) (label : option string) : string :=
  Browsers.join (r_install_dir R) (wrapper_name label).

(** The slots judged before anything changes: the lines of what will be replaced, the
    line of a foreign key, and the directories to create. *)
Fixpoint pointers_writable (m : Machine) (ps : list ExtensionPointer) : result string unit :=
  match ps with
  | [] => Ok tt
  | p :: ps =>
      _ ← writable (pointer_slot m p) ("extension pointer " +:+ pointer_location p);
      pointers_writable m ps
  end.

Fixpoint pointer_dirs (ps : list ExtensionPointer) : result string (list string) :=
  match ps with
  | [] => Ok []
  | PointerFile path :: ps =>
      dir ← ok_or (parent path) (path +:+ " has no parent directory");
      dirs ← pointer_dirs ps;
      Ok (dir :: dirs)
  | PointerRegistry _ _ :: ps => pointer_dirs ps
  end.

Definition judge_slots (R : Registrar) (t : Target) (m : Machine) :
    result string (list string * option string * list string) :=
  let reg := t_registration t in
  _ ← match reg with RegistryReg hive key _ => registry_supported hive key | ManifestDir _ => Ok tt end;
  let slots := manifest_slots m reg in
  replaced ← replaceable (ms_file slots) ("manifest " +:+ manifest_path reg) (r_foreign R);
  foreign_key ← match ms_key slots, reg with
                | Some slot, RegistryReg hive name _ =>
                    replaceable slot ("registry key " +:+ key_name hive name) (r_foreign R)
                | _, _ => Ok None
                end;
  _ ← pointers_writable m (t_pointers t);
  dirs ← pointer_dirs (t_pointers t);
  Ok (option_list replaced, foreign_key, match reg with ManifestDir dir => [dir] | RegistryReg _ _ _ => [] end ++ dirs).

Definition write_file (io : Io) (path bytes : string) (executable : bool) : W unit :=
  w_op (fun m => let (m, r) := write_atomic io path bytes executable m in
                 (m, map_err (fun e => "could not write " +:+ path +:+ ": " +:+ io_msg e) r)).

Definition write_launcher (io : Io) (R : Registrar) (t : Target) : W string :=
  match t_registration t with
  | ManifestDir _ =>
      let label := target_label t in
      let wrapper := wrapper_path R label in
      _ ← write_file io wrapper (wrapper_script (host_exe R) label) true;
      _ ← w_lines (fun ls => ls ++ ["  launches " +:+ wrapper
            +:+ match label with Some k => " (label: " +:+ k +:+ ")" | None => "" end]);
      mret wrapper
  | RegistryReg _ _ _ => mret (host_exe R)
  end.

Definition write_key (io : Io) (reg : Registration) (foreign_key : option string) : W unit :=
  match reg with
  | ManifestDir _ => mret tt
  | RegistryReg hive key _ =>
      _ ← match foreign_key with
          | Some line => _ ← w_op (delete_registry_key io hive key); w_lines (fun ls => ls ++ [line])
          | None => mret tt
          end;
      _ ← w_op (set_registry_value io hive key "" (manifest_path reg));
      w_lines (fun ls => ls ++ ["  registry key " +:+ key_name hive key])
  end.

Definition write_pointer (io : Io) (p : ExtensionPointer) : W unit :=
  _ ← match p with
      | PointerFile path => write_file io path pointer_json false
      | PointerRegistry hive key => w_op (set_registry_value io hive key POINTER_VALUE_NAME WEB_STORE_UPDATE_URL)
      end;
  w_lines (fun ls => ls ++ ["  extension pointer " +:+ pointer_location p]).

Fixpoint write_pointers (io : Io) (ps : list ExtensionPointer) : W unit :=
  match ps with
  | [] => mret tt
  | p :: ps => _ ← write_pointer io p; write_pointers io ps
  end.

Definition write_target (io : Io) (R : Registrar) (t : Target) (replaced : list string) (foreign_key : option string) :
    W unit :=
  let reg := t_registration t in
  launch_path ← write_launcher io R t;
  text ← w_res (manifest_json R launch_path);
  _ ← write_file io (manifest_path reg) text false;
  _ ← w_lines (fun ls => (t_name t +:+ ": manifest written to " +:+ manifest_path reg) :: ls ++ replaced);
  _ ← write_key io reg foreign_key;
  write_pointers io (t_pointers t).

Definition register (R : Registrar) (io : Io) (t : Target) (m : Machine) : Machine * result string (list string) :=
  match judge_slots R t m with
  | Err e => (m, Err e)
  | Ok (replaced, foreign_key, browser_dirs) =>
      match create_dirs io (r_scope R) (r_install_dir R) browser_dirs m with
      | (m, Err e) => (m, Err e)
      | (m, Ok _) =>
          match write_target io R t replaced foreign_key m [] with
          | (m, lines, Ok _) => (m, Ok lines)
          | (m, [], Err e) => (m, Err e)
          | (m, lines, Err e) => (m, Err (e +:+ "; already done: " +:+ str_join "; " lines))
          end
      end
  end.

(** * Removing *)

Definition remove_path (io : Io) (path : string) (m : Machine) : Machine * result string unit :=
  let (m, r) := remove_file io path m in
  (m, map_err (fun e => "could not remove " +:+ path +:+ ": " +:+ io_msg e) r).

Definition remove_key (io : Io) (reg : Registration) (slot : option Slot) (m : Machine) (r : Removal) :
    Machine * Removal :=
  match slot, reg with
  | Some slot, RegistryReg hive name _ =>
      match removable slot ("registry key " +:+ key_name hive name) with
      | Ok true =>
          match delete_registry_key io hive name m with
          | (m, Ok _) => (m, r)
          | (m, Err e) => (m, failed_line r e)
          end
      | Ok false => (m, r)
      | Err e => (m, refused_line r e)
      end
  | _, _ => (m, r)
  end.

Definition remove_manifest (io : Io) (t : Target) (slot : Slot) (m : Machine) (r : Removal) : Machine * Removal :=
  let path := manifest_path (t_registration t) in
  match removable slot path with
  | Ok true =>
      match remove_path io path m with
      | (m, Ok _) => (m, removed_line r (t_name t +:+ ": removed manifest " +:+ path))
      | (m, Err e) => (m, failed_line r e)
      end
  | Ok false => (m, removed_line r (t_name t +:+ ": not registered"))
  | Err e => (m, refused_line r e)
  end.

Definition remove_pointer (io : Io) (p : ExtensionPointer) (m : Machine) (r : Removal) : Machine * Removal :=
  let what := "extension pointer " +:+ pointer_location p in
  match removable (pointer_slot m p) what with
  | Ok false => (m, r)
  | Ok true =>
      match (match p with
             | PointerFile path => remove_path io path m
             | PointerRegistry hive key => delete_registry_key io hive key m
             end) with
      | (m, Ok _) => (m, removed_line r ("  removed " +:+ what))
      | (m, Err e) => (m, failed_line r e)
      end
  | Err e => (m, refused_line r e)
  end.

Fixpoint remove_pointers (io : Io) (ps : list ExtensionPointer) (m : Machine) (r : Removal) : Machine * Removal :=
  match ps with
  | [] => (m, r)
  | p :: ps => let (m, r) := remove_pointer io p m r in remove_pointers io ps m r
  end.

Definition uninstall (io : Io) (t : Target) (m : Machine) : Machine * Removal :=
  let slots := manifest_slots m (t_registration t) in
  let (m, r) := remove_key io (t_registration t) (ms_key slots) m no_removal in
  let (m, r) := remove_manifest io t (ms_file slots) m r in
  remove_pointers io (t_pointers t) m r.

End writing.

(** * What a registration may change *)

Section edits.
Context `{PS : PathStyle} `{BL : Build} `{SD : StrDebug} `{JV : JsonValue}.
Implicit Types (m : Machine) (io : Io) (R : Registrar) (t : Target).

(** What the manifest launches: the wrapper on Unix, the binary on Windows. *)
Definition launch_path R t : string :=
  match t_registration t with
  | ManifestDir _ => wrapper_path R (target_label t)
  | RegistryReg _ _ _ => host_exe R
  end.

Inductive planned_file R t : string -> string -> bool -> Prop :=
| pf_wrapper dir :
    t_registration t = ManifestDir dir ->
    planned_file R t (wrapper_path R (target_label t)) (wrapper_script (host_exe R) (target_label t)) true
| pf_manifest text :
    manifest_json R (launch_path R t) = Ok text -> planned_file R t (manifest_path (t_registration t)) text false
| pf_pointer path : PointerFile path ∈ t_pointers t -> planned_file R t path pointer_json false.

Inductive planned_value t : Hive -> string -> string -> string -> Prop :=
| pv_manifest hive key path :
    t_registration t = RegistryReg hive key path -> planned_value t hive key "" path
| pv_pointer hive key :
    PointerRegistry hive key ∈ t_pointers t -> planned_value t hive key POINTER_VALUE_NAME WEB_STORE_UPDATE_URL.

(** One write of a registration, whether it succeeds or fails. *)
Inductive edit io R t m m' : Prop :=
| edit_file path text x r :
    planned_file R t path text x -> write_atomic io path text x m = (m', r) -> edit io R t m m'
| edit_set hive key name value r :
    planned_value t hive key name value -> set_registry_value io hive key name value m = (m', r) -> edit io R t m m'
| edit_delete hive key path r :
    t_registration t = RegistryReg hive key path -> delete_registry_key io hive key m = (m', r) -> edit io R t m m'.

(** A program of the write phase only takes such steps. *)
Definition w_steps (S : relation Machine) {A} (x : W A) : Prop := forall m ls, rtc S m (x m ls).1.1.

Lemma w_steps_bind S {A B} (x : W A) (f : A -> W B) :
  w_steps S x -> (forall a m ls m' ls', x m ls = (m', ls', Ok a) -> w_steps S (f a)) -> w_steps S (x ≫= f).
Proof.
  intros Hx Hf m ls. unfold mbind, W_bind. specialize (Hx m ls).
  destruct (x m ls) as [[m1 ls1] [a|e]] eqn:E; [|done]. etrans; [exact Hx|]. by apply (Hf a m ls m1 ls1).
Qed.

Lemma w_steps_run S {A} (x : W A) m ls m' ls' r : w_steps S x -> x m ls = (m', ls', r) -> rtc S m m'.
Proof. intros H E. specialize (H m ls). by rewrite E in H. Qed.

Lemma w_steps_op S (op : Machine -> Machine * result string unit) :
  (forall m, S m (op m).1) -> w_steps S (w_op op).
Proof.
  intros H m ls. unfold w_op. specialize (H m). destruct (op m) as [m' r]. by apply rtc_once.
Qed.

Lemma w_steps_pure S {A} (x : W A) : (forall m ls, (x m ls).1.1 = m) -> w_steps S x.
Proof. intros H m ls. by rewrite H. Qed.

Ltac w_pure := apply w_steps_pure; done.

Lemma write_file_steps io R t path text x :
  planned_file R t path text x -> w_steps (edit io R t) (write_file io path text x).
Proof.
  intros H. apply w_steps_op. intros m. destruct (write_atomic io path text x m) as [m' r] eqn:E.
  by eapply edit_file.
Qed.

Lemma set_value_steps io R t hive key name value :
  planned_value t hive key name value -> w_steps (edit io R t) (w_op (set_registry_value io hive key name value)).
Proof.
  intros H. apply w_steps_op. intros m. destruct (set_registry_value io hive key name value m) as [m' r] eqn:E.
  by eapply edit_set.
Qed.

Lemma write_launcher_path io R t m ls m' ls' a :
  write_launcher io R t m ls = (m', ls', Ok a) -> a = launch_path R t.
Proof.
  unfold write_launcher, launch_path. destruct (t_registration t); [|by intros [= <- <- <-]].
  unfold mbind, W_bind. destruct (write_file _ _ _ _ _ _) as [[m1 l1] [[]|e]]; [|done].
  by intros [= <- <- <-].
Qed.

Lemma write_launcher_steps io R t : w_steps (edit io R t) (write_launcher io R t).
Proof.
  unfold write_launcher. destruct (t_registration t) eqn:E; [|w_pure].
  apply w_steps_bind; [by eapply write_file_steps, pf_wrapper|]. intros _ _ _ _ _ _. w_pure.
Qed.

Lemma write_key_steps io R t foreign_key : w_steps (edit io R t) (write_key io (t_registration t) foreign_key).
Proof.
  unfold write_key. destruct (t_registration t) as [dir|hive key path] eqn:E; [w_pure|]. apply w_steps_bind.
  - destruct foreign_key; [|w_pure]. apply w_steps_bind; [|intros _ _ _ _ _ _; w_pure].
    apply w_steps_op. intros m. destruct (delete_registry_key io hive key m) as [m' r] eqn:Ed. by eapply edit_delete.
  - intros _ _ _ _ _ _. apply w_steps_bind; [|intros _ _ _ _ _ _; w_pure]. by eapply set_value_steps, pv_manifest.
Qed.

Lemma write_pointers_steps io R t ps :
  ps ⊆ t_pointers t -> w_steps (edit io R t) (write_pointers io ps).
Proof.
  induction ps as [|p ps IH]; intros Hsub; cbn [write_pointers]; [w_pure|].
  apply w_steps_bind; [|intros _ _ _ _ _ _; apply IH; set_solver]. unfold write_pointer.
  apply w_steps_bind; [|intros _ _ _ _ _ _; w_pure].
  destruct p; [apply write_file_steps, pf_pointer|apply set_value_steps, pv_pointer]; set_solver.
Qed.

Lemma write_target_steps io R t replaced foreign_key :
  w_steps (edit io R t) (write_target io R t replaced foreign_key).
Proof.
  unfold write_target. apply w_steps_bind; [apply write_launcher_steps|].
  intros launch m1 l1 m2 l2 Hl. apply write_launcher_path in Hl as ->.
  apply w_steps_bind; [w_pure|]. intros text m3 l3 m4 l4 Ht.
  assert (manifest_json R (launch_path R t) = Ok text) as Hj by (unfold w_res in Ht; congruence). clear Ht.
  apply w_steps_bind; [by apply write_file_steps, pf_manifest|]. intros _ _ _ _ _ _.
  apply w_steps_bind; [w_pure|]. intros _ _ _ _ _ _.
  apply w_steps_bind; [apply write_key_steps|]. intros _ _ _ _ _ _. by apply write_pointers_steps.
Qed.

(** A registration makes directories and then only the planned writes. *)
Lemma register_steps io R t m :
  exists m1, m1 ≡ m /\ rtc (edit io R t) m1 (register R io t m).1.
Proof.
  unfold register. destruct (judge_slots R t m) as [[[replaced foreign_key] dirs]|e]; [|by exists m].
  pose proof (create_dirs_equiv io (r_scope R) (r_install_dir R) dirs m) as Hd.
  destruct (create_dirs io _ _ dirs m) as [m1 [[]|e]]; [|by exists m1].
  exists m1. split; [done|]. pose proof (write_target_steps io R t replaced foreign_key m1 []) as H.
  destruct (write_target io R t replaced foreign_key m1 []) as [[m2 ls] [[]|e]]; by destruct ls.
Qed.

(** ** Frames *)

Definition pointer_path (p : ExtensionPointer) : option string :=
  match p with PointerFile path => Some path | PointerRegistry _ _ => None end.
Definition pointer_key (p : ExtensionPointer) : option (Hive * string) :=
  match p with PointerFile _ => None | PointerRegistry hive key => Some (hive, key) end.
Definition registration_key (reg : Registration) : option (Hive * string) :=
  match reg with ManifestDir _ => None | RegistryReg hive key _ => Some (hive, key) end.

(** Every path and every key a registration of [t] may write. *)
Definition target_paths R t : list string :=
  wrapper_path R (target_label t) :: manifest_path (t_registration t) :: omap pointer_path (t_pointers t).
Definition target_keys t : list (Hive * string) :=
  option_list (registration_key (t_registration t)) ++ omap pointer_key (t_pointers t).

Lemma pointer_path_elem path (ps : list ExtensionPointer) : PointerFile path ∈ ps -> path ∈ omap pointer_path ps.
Proof. intros H. apply list_elem_of_omap. by exists (PointerFile path). Qed.

Lemma pointer_key_elem hive key (ps : list ExtensionPointer) : PointerRegistry hive key ∈ ps -> (hive, key) ∈ omap pointer_key ps.
Proof. intros H. apply list_elem_of_omap. by exists (PointerRegistry hive key). Qed.

Lemma planned_file_path R t path text x : planned_file R t path text x -> path ∈ target_paths R t.
Proof. unfold target_paths. intros [dir H|text' H|path' H%pointer_path_elem]; set_solver. Qed.

Lemma planned_value_key t hive key name value : planned_value t hive key name value -> (hive, key) ∈ target_keys t.
Proof.
  unfold target_keys. intros [hive' key' path H|hive' key' H%pointer_key_elem]; [rewrite H; cbn|]; set_solver.
Qed.

Lemma write_atomic_effect io path text x m m' r :
  write_atomic io path text x m = (m', r) ->
  (m' = m /\ is_ok r = false) \/ exists mode, m' = set_files m (<[path := NFile text mode]> (files m)).
Proof.
  unfold write_atomic. destruct (parent path); [|intros [= <- <-]; by left]. cbv zeta.
  destruct (dir_error m _), (files m !! path) as [[? ?|[] ?| |? ?|?]|], (io_write io path) as [[]|];
    intros [= <- <-]; eauto.
Qed.

Lemma set_registry_value_effect io hive key name value m m' r :
  set_registry_value io hive key name value m = (m', r) ->
  files m' = files m /\ forall k, k <> (hive, key) -> registry m' !! k = registry m !! k.
Proof.
  unfold set_registry_value. destruct windows; [|intros [= <- _]; done]. cbv zeta.
  destruct (io_reg_set io hive key) as [[]|]; intros [= <- _]; (split; [done|]); try done;
    intros k Hk; cbn [registry set_registry]; by rewrite lookup_insert_ne by congruence.
Qed.

Lemma delete_registry_key_effect io hive key m m' r :
  delete_registry_key io hive key m = (m', r) ->
  files m' = files m /\ (forall k, k <> (hive, key) -> registry m' !! k = registry m !! k) /\
  (registry m' !! (hive, key) = None \/ registry m' = registry m) /\
  (is_ok r = true -> registry m' !! (hive, key) = None).
Proof.
  unfold delete_registry_key. destruct windows; [|intros [= <- <-]; naive_solver].
  assert (forall n, registry (set_registry m (delete (hive, key) (registry m))) !! n
    = if decide (n = (hive, key)) then None else registry m !! n) as Hdel.
  { intros n. cbn [registry set_registry]. destruct (decide (n = (hive, key))) as [->|];
      [by rewrite lookup_delete_eq|by rewrite lookup_delete_ne by congruence]. }
  destruct (registry m !! (hive, key)) as [node|] eqn:E, (io_reg_delete io hive key);
    try (intros [= <- <-]; cbn [is_ok]; naive_solver).
  destruct (rn_children node) as [[|n]|e]; intros [= <- <-]; cbn [is_ok]; try naive_solver;
    (split_and!; [done|intros k Hk; rewrite Hdel; by rewrite decide_False by done|left; rewrite Hdel; by rewrite decide_True by done|
      intros _; rewrite Hdel; by rewrite decide_True by done]).
Qed.

Lemma edit_frame io R t m m' :
  edit io R t m m' ->
  (forall p, p ∉ target_paths R t -> files m' !! p = files m !! p) /\
  (forall k, k ∉ target_keys t -> registry m' !! k = registry m !! k).
Proof.
  intros [path text x r Hp H|hive key name value r Hp H|hive key path r Hp H].
  - apply planned_file_path in Hp. apply write_atomic_effect in H as [[-> _]|[mode ->]]; [done|].
    split; [|done]. intros p Hn. cbn [files set_files]. rewrite lookup_insert_ne; [done|]. by intros ->.
  - apply planned_value_key in Hp. apply set_registry_value_effect in H as [Hf Hk].
    split; [by rewrite Hf|]. intros k Hn. apply Hk. by intros ->.
  - apply delete_registry_key_effect in H as (Hf & Hk & _). split; [by rewrite Hf|].
    intros k Hn. apply Hk. intros ->. apply Hn. unfold target_keys. rewrite Hp. cbn. set_solver.
Qed.

Lemma edits_frame io R t m m' :
  rtc (edit io R t) m m' ->
  (forall p, p ∉ target_paths R t -> files m' !! p = files m !! p) /\
  (forall k, k ∉ target_keys t -> registry m' !! k = registry m !! k).
Proof.
  induction 1 as [m|m1 m2 m3 H _ [IH1 IH2]]; [done|]. apply edit_frame in H as [H1 H2].
  split; intros p Hp; [rewrite IH1, H1|rewrite IH2, H2]; done.
Qed.

(** The verdicts on which [register] refuses: a pointer that is not ours to write; a
    manifest or key nobody can verify, one with child keys, or a foreign one under the
    policy that keeps it. *)
Definition pointer_refused (s : Slot) : bool :=
  match s with SlotAbsent | SlotOurs _ => false | SlotForeign _ _ _ | SlotUnreadable _ => true end.
Definition manifest_refused (foreign : ForeignManifest) (s : Slot) : bool :=
  match s, foreign with
  | SlotAbsent, _ | SlotOurs _, _ | SlotForeign _ _ Replaceable, Replace => false
  | SlotForeign _ _ _, _ | SlotUnreadable _, _ => true
  end.

Definition must_refuse R t m : bool :=
  let slots := manifest_slots m (t_registration t) in
  manifest_refused (r_foreign R) (ms_file slots)
  || match ms_key slots with Some s => manifest_refused (r_foreign R) s | None => false end
  || existsb (fun p => pointer_refused (pointer_slot m p)) (t_pointers t).

Lemma replaceable_refuses foreign s what :
  is_ok (replaceable s what foreign) = negb (manifest_refused foreign s).
Proof. by destruct s as [| |? ? []|], foreign. Qed.

Lemma pointers_writable_refuses m ps :
  is_ok (pointers_writable m ps) = negb (existsb (fun p => pointer_refused (pointer_slot m p)) ps).
Proof.
  induction ps as [|p ps IH]; [done|]. cbn [pointers_writable existsb].
  destruct (pointer_slot m p); cbn [writable mbind result_mbind pointer_refused orb negb is_ok]; done.
Qed.

Lemma judge_slots_refuses R t m : must_refuse R t m = true -> exists e, judge_slots R t m = Err e.
Proof.
  intros H. destruct (judge_slots R t m) as [[[rep fk] dirs]|e] eqn:E; [exfalso|eauto].
  unfold judge_slots in E. apply bind_Ok in E as (u & _ & E). apply bind_Ok in E as (o & H1 & E).
  apply bind_Ok in E as (o' & H2 & E). apply bind_Ok in E as (u' & H3 & _).
  apply (f_equal is_ok) in H1, H2, H3. rewrite replaceable_refuses in H1. rewrite pointers_writable_refuses in H3.
  cbn [is_ok] in *. unfold must_refuse in H. apply negb_true_iff in H1, H3. rewrite H1, H3, orb_false_r in H.
  destruct (t_registration t); cbn [ms_key manifest_slots orb] in H, H2; [done|].
  rewrite replaceable_refuses, H in H2. done.
Qed.

(** C20: [register] judges every slot before it writes. Whatever fails on the way, no file
    but the target's wrapper, manifest and pointers changes and no key but its own; and
    when any slot must be refused, a foreign or unreadable pointer, a manifest or key
    nobody can verify, a key with child keys, or a foreign manifest under the policy the
    extension's repair runs with, the machine is left exactly as it was. *)
Theorem register_refuses_before_it_writes io R t m :
  let (m', r) := register R io t m in
  (forall p, p ∉ target_paths R t -> fileview (files m' !! p) = fileview (files m !! p)) /\
  (forall k, k ∉ target_keys t -> registry m' !! k = registry m !! k) /\
  (must_refuse R t m = true -> m' = m /\ exists e, r = Err e).
Proof.
  pose proof (register_steps io R t m) as (m1 & [Hr Hf] & Hs).
  destruct (register R io t m) as [m' r] eqn:E. cbn [fst] in Hs. apply edits_frame in Hs as [H1 H2]. split_and!.
  - intros p Hp. by rewrite H1.
  - intros k Hk. by rewrite H2, Hr.
  - intros H. apply judge_slots_refuses in H as (e & He). unfold register in E. rewrite He in E.
    injection E as <- <-. eauto.
Qed.
End edits.

(** * A registration reads back as ours *)

(** What the engine relies on of [serde_json]: a manifest printed and read back has the
    members it was printed with, and [pointer_json] is the text of its one-member object. *)
Class JsonValueOk `{!JsonValue} := {
  pretty_roundtrip v text : distinct_names v -> to_string_pretty v = Ok text ->
    exists v', from_str (text +:+ nl) = Ok v' /\ forall name, json_get name v' = json_get name v;
  pointer_parses : from_str pointer_json = Ok (JObj [("external_update_url", JStr WEB_STORE_UPDATE_URL)])
}.

Section roundtrip.
Context `{PS : PathStyle} `{BL : Build} `{SD : StrDebug} `{JV : JsonValue} `{JO : !JsonValueOk}.
Implicit Types (m : Machine) (io : Io) (R : Registrar) (t : Target).

Lemma manifest_value_distinct R launch : distinct_names (manifest_value R launch).
Proof.
  constructor; [|repeat constructor]. cbn [fmap list_fmap fst].
  apply (bool_decide_unpack (NoDup _)). vm_compute. exact I.
Qed.

Lemma manifest_text_is_ours R launch text :
  manifest_json R launch = Ok text -> manifest_ownership text = Ours /\ launch_path_of text = Some launch.
Proof.
  intros H. unfold manifest_json in H. apply bind_Ok in H as (body & Hb & H). injection H as <-.
  apply map_err_Ok in Hb. destruct (pretty_roundtrip _ _ (manifest_value_distinct R launch) Hb) as (v & Hv & Hget).
  unfold manifest_ownership, launch_path_of. rewrite Hv. cbn [ok mbind option_bind]. rewrite !Hget. split; [|done].
  unfold json_get, manifest_value. cbn -[NATIVE_HOST_ID MANIFEST_DESCRIPTION].
  by rewrite !bool_decide_true.
Qed.

Lemma pointer_text_is_ours : pointer_ownership pointer_json = Ours.
Proof. unfold pointer_ownership. rewrite pointer_parses. reflexivity. Qed.

(** ** Files *)

Lemma file_slot_file m path text mode own :
  files m !! path = Some (NFile text mode) ->
  file_slot m path own = match own text with Ours => SlotOurs text | ForeignOwner why => SlotForeign why (launch_path_of text) Replaceable end.
Proof. intros H. unfold file_slot, read_slot, read_to_string. by rewrite H. Qed.

(** [path] holds a text planned for it. *)
Definition laid R t path m : Prop :=
  exists text x mode, planned_file R t path text x /\ files m !! path = Some (NFile text mode).

Lemma edit_keeps_laid io R t path m m' : edit io R t m m' -> laid R t path m -> laid R t path m'.
Proof.
  intros [q text x r Hp H|hive key name value r Hp H|hive key q r Hp H] Hl.
  - apply write_atomic_effect in H as [[-> _]|[mode ->]]; [done|]. destruct (decide (path = q)) as [->|Hne].
    + exists text, x, mode. cbn [files set_files]. by rewrite lookup_insert_eq.
    + destruct Hl as (text' & x' & mode' & Hp' & Hf). exists text', x', mode'. cbn [files set_files].
      by rewrite lookup_insert_ne by congruence.
  - apply set_registry_value_effect in H as [Hf _]. unfold laid. by rewrite Hf.
  - apply delete_registry_key_effect in H as [Hf _]. unfold laid. by rewrite Hf.
Qed.

Lemma edits_keep_laid io R t path m m' : rtc (edit io R t) m m' -> laid R t path m -> laid R t path m'.
Proof. induction 1; [done|]. intros Hl. eauto using edit_keeps_laid. Qed.

Lemma write_file_lays io R t path text x m ls m' ls' u :
  planned_file R t path text x -> write_file io path text x m ls = (m', ls', Ok u) -> laid R t path m'.
Proof.
  unfold write_file, w_op. destruct (write_atomic io path text x m) as [m1 r] eqn:E. intros Hp H.
  destruct r as [[]|e]; [|done]. injection H as <- <- _.
  apply write_atomic_effect in E as [[_ Hr]|[mode ->]]; [done|]. exists text, x, mode.
  cbn [files set_files]. by rewrite lookup_insert_eq.
Qed.

(** ** Keys *)

(** A key of ours, up to its value. *)
Definition single (name : string) (node : RegNode) : Prop :=
  rn_open node = Ok tt /\ rn_children node = Ok 0 /\ exists v, rn_values node = [Ok (name, v)].
Definition settable (name : string) (node : option RegNode) : Prop :=
  match node with Some node => single name node | None => True end.

Lemma value_text_named name v entry : value_text entry = Ok (name, v) -> exists value, entry = Ok (name, value).
Proof.
  destruct entry as [[n [[]|[]|]]|]; cbn; intros H; inversion H; subst; eauto.
Qed.

Lemma all_texts_single name v entries :
  all_texts entries = Ok [(name, v)] -> exists value, entries = [Ok (name, value)].
Proof.
  destruct entries as [|e entries]; [done|]. cbn [all_texts]. intros H.
  apply bind_Ok in H as (x & Hx & H). apply bind_Ok in H as (xs & Hxs & H). injection H as -> ->.
  apply value_text_named in Hx as (value & ->). exists value. do 2 f_equal.
  destruct entries as [|e entries]; [done|]. cbn [all_texts] in Hxs. apply bind_Ok in Hxs as (y & _ & H).
  apply bind_Ok in H as (ys & _ & H). done.
Qed.

(** A slot that may be written over holds nothing or one value of our name. *)
Lemma slot_settable m hive key name expected :
  match registry_slot m hive key name expected with
  | SlotAbsent | SlotOurs _ => windows = true /\ settable name (registry m !! (hive, key))
  | SlotForeign _ _ _ | SlotUnreadable _ => True
  end.
Proof.
  unfold registry_slot, registry_key. destruct windows; [|done].
  destruct (registry m !! (hive, key)) as [node|]; [|done].
  destruct (rn_open node) as [[]|] eqn:Eo; [|done]. cbn [mbind result_mbind].
  destruct (all_texts (rn_values node)) as [values|] eqn:Et; [|done].
  destruct (rn_children node) as [[|n]|] eqn:Ec; [|done..]. cbn [map_err mbind result_mbind].
  destruct values as [|[only value] [|]]; [done| |done]. destruct (String.eqb_spec only name) as [->|]; [|done].
  destruct (expected value); [|done]. split; [done|]. apply all_texts_single in Et. done.
Qed.

Lemma set_value_ours io hive key name value expected m m' u :
  settable name (registry m !! (hive, key)) -> expected value = true ->
  set_registry_value io hive key name value m = (m', Ok u) ->
  registry_slot m' hive key name expected = SlotOurs value /\ settable name (registry m' !! (hive, key)).
Proof.
  intros Hs He H. unfold set_registry_value in H. destruct windows eqn:Hw; [|done]. cbv zeta in H.
  destruct (io_reg_set io hive key) as [[]|]; [done..|]. injection H as <- _.
  assert (forall name v, set_entry name v [Ok (name, RegSz (Ok v))] = [Ok (name, RegSz (Ok v))]) as Hset.
  { intros n v. cbn [set_entry named]. by rewrite String.eqb_refl. }
  unfold registry_slot, registry_key. rewrite Hw. cbn [registry set_registry]. rewrite lookup_insert_eq.
  destruct (registry m !! (hive, key)) as [node|]; cbn [default settable] in *.
  - destruct Hs as (Ho & Hc & v & Hv). cbn [rn_open rn_children rn_values from_option].
    unfold default, from_option, id. rewrite Ho, Hc, Hv. cbn [set_entry named]. rewrite String.eqb_refl.
    cbn. rewrite String.eqb_refl, He. split; [done|]. unfold single. cbn. eauto.
  - cbn. rewrite String.eqb_refl, He. split; [done|]. unfold single. cbn. eauto.
Qed.

(** ** The whole target *)

Lemma W_bind_Ok {A B} (x : W A) (f : A -> W B) m ls m' ls' b :
  (x ≫= f) m ls = (m', ls', Ok b) ->
  exists m1 l1 a, x m ls = (m1, l1, Ok a) /\ f a m1 l1 = (m', ls', Ok b).
Proof. unfold mbind, W_bind. destruct (x m ls) as [[m1 l1] [a|e]]; [|done]. intros H. by exists m1, l1, a. Qed.

Lemma registry_slot_ext m m' hive key name expected :
  registry m' !! (hive, key) = registry m !! (hive, key) ->
  registry_slot m' hive key name expected = registry_slot m hive key name expected.
Proof. intros H. unfold registry_slot, registry_key. by rewrite H. Qed.

Definition pointer_settable m (p : ExtensionPointer) : Prop :=
  match p with
  | PointerFile _ => True
  | PointerRegistry hive key => settable POINTER_VALUE_NAME (registry m !! (hive, key))
  end.

(** [p] is written: a text planned for it, or our value in its key. *)
Definition pointer_laid R t m (p : ExtensionPointer) : Prop :=
  match p with
  | PointerFile path => laid R t path m
  | PointerRegistry hive key => pointer_slot m p = SlotOurs WEB_STORE_UPDATE_URL
  end.

Lemma write_pointers_registry io ps m ls :
  forall k, k ∉ omap pointer_key ps -> registry (write_pointers io ps m ls).1.1 !! k = registry m !! k.
Proof.
  revert m ls. induction ps as [|p ps IH]; intros m ls k Hk; cbn [write_pointers]; [done|].
  unfold mbind, W_bind. destruct (write_pointer io p m ls) as [[m1 l1] r] eqn:E.
  assert (registry m1 !! k = registry m !! k) as H1.
  { unfold write_pointer, mbind, W_bind in E. destruct p as [path|hive key].
    - unfold write_file, w_op in E. destruct (write_atomic io path pointer_json false m) as [m2 r2] eqn:Ew.
      apply write_atomic_effect in Ew as [[-> _]|[mode ->]]; destruct r2; by injection E as <- _ _.
    - unfold w_op in E. destruct (set_registry_value io hive key _ _ m) as [m2 r2] eqn:Es.
      apply set_registry_value_effect in Es as [_ Es]. rewrite <- Es; [destruct r2; by injection E as <- _ _|].
      intros ->. apply Hk. cbn. set_solver. }
  destruct r as [[]|e]; [|exact H1]. rewrite IH, H1; [done|]. intros Hin. apply Hk. cbn.
  destruct (pointer_key p); set_solver.
Qed.

Lemma write_pointer_lays io R t p m ls m' ls' u :
  p ∈ t_pointers t -> pointer_settable m p -> write_pointer io p m ls = (m', ls', Ok u) ->
  pointer_laid R t m' p /\ forall q, pointer_settable m q -> pointer_settable m' q.
Proof.
  intros Hp Hs H. unfold write_pointer in H. apply W_bind_Ok in H as (m1 & l1 & [] & H & Hl). injection Hl as <- _ _.
  destruct p as [path|hive key].
  - split; [by eapply write_file_lays, H; apply pf_pointer|]. unfold write_file, w_op in H.
    destruct (write_atomic io path pointer_json false m) as [m2 r2] eqn:Ew.
    apply write_atomic_effect in Ew as [[-> _]|[mode ->]]; destruct r2; try done; by injection H as <- _.
  - unfold w_op in H. destruct (set_registry_value io hive key _ _ m) as [m2 r2] eqn:Es.
    destruct r2 as [[]|e]; [|done]. injection H as <- _. pose proof (set_registry_value_effect _ _ _ _ _ _ _ _ Es) as [_ Hk].
    destruct (set_value_ours _ _ _ _ _ (fun url => String.eqb url WEB_STORE_UPDATE_URL) _ _ _ Hs (String.eqb_refl _) Es) as [Ho Hs'].
    split; [exact Ho|]. intros [q|h k] Hq; [done|]. cbn [pointer_settable] in *.
    destruct (decide ((h, k) = (hive, key))) as [[= -> ->]|Hne]; [done|]. by rewrite Hk.
Qed.

Lemma write_pointers_lay io R t ps m ls m' ls' u :
  ps ⊆ t_pointers t -> (forall p, p ∈ ps -> pointer_settable m p) ->
  write_pointers io ps m ls = (m', ls', Ok u) -> forall p, p ∈ ps -> pointer_laid R t m' p.
Proof.
  revert m ls. induction ps as [|p ps IH]; intros m ls Hsub Hs H q Hq; [by apply elem_of_nil in Hq|].
  cbn [write_pointers] in H. apply W_bind_Ok in H as (m1 & l1 & [] & Hw & H).
  destruct (write_pointer_lays io R t p m ls m1 l1 tt) as [Hl Hk]; [set_solver|apply Hs; set_solver|done|].
  assert (forall q, q ∈ ps -> pointer_laid R t m' q) as Htail by (eapply IH; [set_solver| |exact H]; intros; apply Hk, Hs; set_solver).
  apply elem_of_cons in Hq as [->|Hq]; [|auto]. destruct p as [path|hive key].
  - cbn [pointer_laid] in *. eapply edits_keep_laid; [|exact Hl].
    pose proof (write_pointers_steps io R t ps ltac:(set_solver) m1 l1) as Hst. by rewrite H in Hst.
  - destruct (decide (PointerRegistry hive key ∈ ps)) as [Hin|Hin]; [auto|]. cbn [pointer_laid] in *. rewrite <- Hl.
    cbn [pointer_slot]. apply registry_slot_ext. pose proof (write_pointers_registry io ps m1 l1 (hive, key)) as Hr.
    rewrite H in Hr. apply Hr. intros Hk'. apply list_elem_of_omap in Hk' as ([|h k] & Hk1 & Hk2); [done|].
    injection Hk2 as -> ->. done.
Qed.

(** The locations of a target do not collide: the resolved and the explicit ones never do. *)
Definition target_distinct R t : Prop :=
  wrapper_path R (target_label t) <> manifest_path (t_registration t) /\
  (forall path, PointerFile path ∈ t_pointers t ->
     path <> manifest_path (t_registration t) /\ path <> wrapper_path R (target_label t)) /\
  (forall hive key path, t_registration t = RegistryReg hive key path -> PointerRegistry hive key ∉ t_pointers t).

Lemma laid_manifest R t m :
  target_distinct R t -> laid R t (manifest_path (t_registration t)) m ->
  exists text, ms_file (manifest_slots m (t_registration t)) = SlotOurs text /\ launch_path_of text = Some (launch_path R t).
Proof.
  intros (Hw & Hp & _) (text & x & mode & Hpf & Hf).
  assert (manifest_json R (launch_path R t) = Ok text) as Hj.
  { inversion Hpf as [dir Hd Hpath|text' Hj Hpath|path Hin Hpath]; subst; [done..|].
    by destruct (Hp _ Hin) as [[] _]. }
  apply manifest_text_is_ours in Hj as [Ho Hl]. exists text. split; [|done].
  unfold manifest_slots. cbn [ms_file]. rewrite (file_slot_file _ _ _ _ _ Hf). by rewrite Ho.
Qed.

Lemma laid_pointer R t m p :
  target_distinct R t -> p ∈ t_pointers t -> pointer_laid R t m p -> exists text, pointer_slot m p = SlotOurs text.
Proof.
  intros (Hw & Hp & _) Hin. destruct p as [path|hive key]; cbn [pointer_laid]; [|eauto].
  destruct (Hp _ Hin) as [Hm Hwr]. intros (text & x & mode & Hpf & Hf). exists text.
  cbn [pointer_slot]. rewrite (file_slot_file _ _ _ _ _ Hf).
  inversion Hpf as [dir Hd Hpath|text' Hj Hpath|path' Hin' Hpath]; subst; [done..|]. by rewrite pointer_text_is_ours.
Qed.

Lemma edit_keeps_is_file io R t path m m' : edit io R t m m' -> is_file m path = true -> is_file m' path = true.
Proof.
  unfold is_file. intros [q text x r Hp H|hive key name value r Hp H|hive key q r Hp H] Hl.
  - apply write_atomic_effect in H as [[-> _]|[mode ->]]; [done|]. cbn [files set_files].
    destruct (decide (path = q)) as [->|Hne]; [by rewrite lookup_insert_eq|by rewrite lookup_insert_ne by congruence].
  - apply set_registry_value_effect in H as [Hf _]. by rewrite Hf.
  - apply delete_registry_key_effect in H as [Hf _]. by rewrite Hf.
Qed.

Lemma edits_keep_is_file io R t path m m' :
  rtc (edit io R t) m m' -> is_file m path = true -> is_file m' path = true.
Proof. induction 1; [done|]. intros Hl. eauto using edit_keeps_is_file. Qed.

Lemma is_file_equiv m m' path : m ≡ m' -> is_file m path = is_file m' path.
Proof.
  intros [_ H]. specialize (H path). unfold is_file.
  destruct (files m !! path) as [[]|], (files m' !! path) as [[]|]; cbn in H; try done; by inversion H.
Qed.

Lemma judged_key R t m x :
  judge_slots R t m = Ok x ->
  match t_registration t with
  | ManifestDir _ => True
  | RegistryReg hive key _ => x.1.2 = None -> settable "" (registry m !! (hive, key))
  end /\
  (forall p, p ∈ t_pointers t -> pointer_settable m p) /\ is_ok (pointer_dirs (t_pointers t)) = true.
Proof.
  intros E. unfold judge_slots in E. apply bind_Ok in E as (u & _ & E). apply bind_Ok in E as (o & H1 & E).
  apply bind_Ok in E as (o' & H2 & E). apply bind_Ok in E as (u' & H3 & E). apply bind_Ok in E as (dirs & H4 & E).
  injection E as <-. split_and!; [..|by rewrite H4].
  - destruct (t_registration t) as [|hive key path]; [done|]. cbn [ms_key manifest_slots fst snd] in *. intros ->.
    pose proof (slot_settable m hive key "" (fun v => same_windows_path v (manifest_path (RegistryReg hive key path)))) as Hs.
    destruct (registry_slot _ _ _ _ _) as [| |why launched shape|]; [by destruct Hs..| |done].
    by destruct shape, (r_foreign R).
  - intros p Hp. apply (f_equal is_ok) in H3. rewrite pointers_writable_refuses in H3. cbn [is_ok] in H3.
    apply negb_true_iff in H3. rewrite existsb_false_iff in H3. specialize (H3 p Hp).
    destruct p as [|hive key]; [done|]. cbn [pointer_slot pointer_settable] in *.
    pose proof (slot_settable m hive key POINTER_VALUE_NAME (fun url => String.eqb url WEB_STORE_UPDATE_URL)) as Hs.
    destruct (registry_slot _ _ _ _ _); by destruct Hs.
Qed.

(** The key after its write: ours, and no other key touched. *)
Lemma write_key_lays io t foreign_key m ls m' ls' u :
  write_key io (t_registration t) foreign_key m ls = (m', ls', Ok u) ->
  (match t_registration t with
   | ManifestDir _ => True
   | RegistryReg hive key _ => foreign_key = None -> settable "" (registry m !! (hive, key))
   end) ->
  (forall slot, ms_key (manifest_slots m' (t_registration t)) = Some slot -> exists v, slot = SlotOurs v) /\
  (forall k, Some k <> registration_key (t_registration t) -> registry m' !! k = registry m !! k).
Proof.
  unfold write_key, manifest_slots, registration_key. destruct (t_registration t) as [|hive key path]; [by intros [= <- _]|].
  intros H Hs. apply W_bind_Ok in H as (m1 & l1 & [] & Hd & H). apply W_bind_Ok in H as (m2 & l2 & [] & Hset & H).
  injection H as <- _ _.
  assert (settable "" (registry m1 !! (hive, key)) /\ forall k, k <> (hive, key) -> registry m1 !! k = registry m !! k)
    as [Hs1 Hk1].
  { destruct foreign_key as [line|]; [|by injection Hd as <- _; auto].
    apply W_bind_Ok in Hd as (m3 & l3 & [] & Hdel & Hd). injection Hd as <- _.
    unfold w_op in Hdel. destruct (delete_registry_key io hive key m) as [m4 [[]|]] eqn:Ed; [|done]. injection Hdel as <- _.
    apply delete_registry_key_effect in Ed as (_ & Hk & _ & Hn). rewrite Hn by done. done. }
  unfold w_op in Hset. destruct (set_registry_value io hive key _ _ m1) as [m4 [[]|]] eqn:Es; [|done]. injection Hset as <- _.
  pose proof (set_registry_value_effect _ _ _ _ _ _ _ _ Es) as [_ Hk2].
  destruct (set_value_ours _ _ _ _ _ (fun v => same_windows_path v path) _ _ _ Hs1 (String.eqb_refl _) Es) as [Ho _].
  split; [intros slot [= <-]; eauto|]. intros k Hk. rewrite Hk2, Hk1; congruence.
Qed.

Lemma manifest_key_ext m m' reg :
  (forall k, Some k = registration_key reg -> registry m' !! k = registry m !! k) ->
  ms_key (manifest_slots m' reg) = ms_key (manifest_slots m reg).
Proof.
  intros H. destruct reg as [|hive key path]; [done|]. cbn [ms_key manifest_slots]. f_equal.
  apply registry_slot_ext. by apply H.
Qed.

Lemma file_write_registry io path text x m ls m' ls' r :
  write_file io path text x m ls = (m', ls', r) -> registry m' = registry m.
Proof.
  unfold write_file, w_op. destruct (write_atomic io path text x m) as [m1 r1] eqn:E. intros [= <- _ _].
  by apply write_atomic_effect in E as [[-> _]|[mode ->]].
Qed.

Lemma write_launcher_registry io R t m ls m' ls' r :
  write_launcher io R t m ls = (m', ls', r) -> registry m' = registry m.
Proof.
  unfold write_launcher. destruct (t_registration t); [|by intros [= <- _ _]].
  unfold mbind, W_bind. destruct (write_file _ _ _ _ _ _) as [[m1 l1] r1] eqn:E.
  apply file_write_registry in E as <-. by destruct r1; intros [= <- _ _].
Qed.

Lemma launcher_is_file io R t m ls m' ls' a :
  target_distinct R t -> (forall hive key path, t_registration t = RegistryReg hive key path -> is_file m (host_exe R) = true) ->
  write_launcher io R t m ls = (m', ls', Ok a) -> is_file m' (launch_path R t) = true.
Proof.
  intros Hdist Hexe H. unfold write_launcher, launch_path in *. destruct (t_registration t) eqn:Et.
  - apply W_bind_Ok in H as (m1 & l1 & [] & Hw & H). injection H as <- _ _.
    eapply write_file_lays in Hw as (text & x & mode & _ & Hf); [|by eapply pf_wrapper].
    unfold is_file. by rewrite Hf.
  - injection H as <- _ _. by eapply Hexe.
Qed.

Lemma all_slots_ours_pass R t m :
  (exists c, ms_file (manifest_slots m (t_registration t)) = SlotOurs c) ->
  (forall slot, ms_key (manifest_slots m (t_registration t)) = Some slot -> exists v, slot = SlotOurs v) ->
  (forall p, p ∈ t_pointers t -> exists c, pointer_slot m p = SlotOurs c) ->
  must_refuse R t m = false.
Proof.
  intros [c Hf] Hk Hp. unfold must_refuse. rewrite Hf. cbn [manifest_refused orb].
  destruct (ms_key _) as [slot|] eqn:E; [destruct (Hk slot eq_refl) as [v ->]|];
    cbn [manifest_refused orb]; apply existsb_false_iff; intros p Hin; by destruct (Hp p Hin) as [c' ->].
Qed.

(** The stages of a registration that succeeds: directories, launcher ([m2]), manifest
    ([m3]), key ([m4]), pointers. *)
Lemma register_Ok_inv R io t m m' lines :
  register R io t m = (m', Ok lines) ->
  exists x m1 m2 m3 m4 text l2 l3 l4 l5 launch,
    judge_slots R t m = Ok x /\ m1 ≡ m /\
    write_launcher io R t m1 [] = (m2, l2, Ok launch) /\ manifest_json R (launch_path R t) = Ok text /\
    write_file io (manifest_path (t_registration t)) text false m2 l2 = (m3, l3, Ok tt) /\
    write_key io (t_registration t) x.1.2 m3 l4 = (m4, l5, Ok tt) /\
    write_pointers io (t_pointers t) m4 l5 = (m', lines, Ok tt).
Proof.
  intros H. unfold register in H. destruct (judge_slots R t m) as [[[rep fk] dirs]|e]; [|done].
  pose proof (create_dirs_equiv io (r_scope R) (r_install_dir R) dirs m) as Heq.
  destruct (create_dirs _ _ _ _ m) as [m1 [[]|e]]; [|done]. cbn [fst] in Heq.
  destruct (write_target io R t rep fk m1 []) as [[m2 ls] [[]|e]] eqn:Ew; [|by destruct ls].
  assert (m2 = m' /\ ls = lines) as [-> ->] by (destruct ls; split; congruence). clear H.
  unfold write_target in Ew. apply W_bind_Ok in Ew as (m2 & l2 & launch & Hl & Ew).
  pose proof (write_launcher_path _ _ _ _ _ _ _ _ Hl) as ->.
  apply W_bind_Ok in Ew as (m2' & l2' & text & Ht & Ew). injection Ht as <- <- Ht.
  apply W_bind_Ok in Ew as (m3 & l3 & [] & Hm & Ew). apply W_bind_Ok in Ew as (m3' & l3' & [] & Hx & Ew).
  injection Hx as <- <-. apply W_bind_Ok in Ew as (m4 & l5 & [] & Hk & Hp).
  eexists (rep, fk, dirs), m1, m2, m3, m4, text, l2, l3, _, l5, _. split_and!; eauto.
Qed.

(** What success leaves at each location of the target. *)
Lemma registered_slots R io t m m' lines :
  target_distinct R t -> register R io t m = (m', Ok lines) ->
  (exists c, ms_file (manifest_slots m' (t_registration t)) = SlotOurs c /\ launch_path_of c = Some (launch_path R t)) /\
  (forall slot, ms_key (manifest_slots m' (t_registration t)) = Some slot -> exists v, slot = SlotOurs v) /\
  (forall p, p ∈ t_pointers t -> exists c, pointer_slot m' p = SlotOurs c).
Proof.
  intros Hd H. destruct (register_Ok_inv _ _ _ _ _ _ H) as
    (x & m1 & m2 & m3 & m4 & text & l2 & l3 & l4 & l5 & launch & Ej & [Heq _] & Hl & Ht & Hm & Hk & Hp). clear H.
  apply judged_key in Ej as (Hkey & Hptr & _).
  assert (registry m3 = registry m) as Hr.
  { rewrite (file_write_registry _ _ _ _ _ _ _ _ _ Hm), (write_launcher_registry _ _ _ _ _ _ _ _ Hl). exact Heq. }
  destruct (write_key_lays _ _ _ _ _ _ _ _ Hk) as [Hko Hkf]; [rewrite Hr; exact Hkey|].
  pose proof Hd as (_ & _ & Hdk). split_and!.
  - apply laid_manifest; [done|]. eapply edits_keep_laid; [|by eapply write_file_lays, Hm; apply pf_manifest].
    etrans; [eapply w_steps_run, Hk; apply write_key_steps|]. eapply w_steps_run, Hp. by apply write_pointers_steps.
  - rewrite (manifest_key_ext m4); [exact Hko|]. intros k Hk'.
    pose proof (write_pointers_registry io (t_pointers t) m4 l5 k) as Hwp. rewrite Hp in Hwp. apply Hwp.
    intros Hin. apply list_elem_of_omap in Hin as ([|h k'] & Hin & Ek); [done|]. injection Ek as <-.
    destruct (t_registration t) as [|hive key path] eqn:Et; [done|]. injection Hk' as -> ->. by eapply Hdk.
  - intros p Hin. apply (laid_pointer R t); [done..|]. eapply write_pointers_lay; [done| |exact Hp|done].
    intros [path|hive key] Hq; [done|]. cbn [pointer_settable]. rewrite Hkf, Hr; [by apply (Hptr (PointerRegistry hive key))|].
    intros Ek. destruct (t_registration t) as [|h' k' path']; [done|]. injection Ek as -> ->. by eapply Hdk.
Qed.

Lemma registered_launch_path R io t m m' lines :
  target_distinct R t ->
  (forall hive key path, t_registration t = RegistryReg hive key path -> is_file m (host_exe R) = true) ->
  register R io t m = (m', Ok lines) -> is_file m' (launch_path R t) = true.
Proof.
  intros Hd Hexe H. destruct (register_Ok_inv _ _ _ _ _ _ H) as
    (x & m1 & m2 & m3 & m4 & text & l2 & l3 & l4 & l5 & launch & _ & Heq & Hl & Ht & Hm & Hk & Hp).
  eapply edits_keep_is_file.
  - etrans; [eapply w_steps_run, Hm; by apply write_file_steps, pf_manifest|].
    etrans; [eapply w_steps_run, Hk; apply write_key_steps|]. eapply w_steps_run, Hp. by apply write_pointers_steps.
  - eapply launcher_is_file; [done| |exact Hl].
    intros hive key path Et. rewrite (is_file_equiv m1 m); [by eapply Hexe|done].
Qed.

Lemma registered_assess R io t m m' lines :
  target_distinct R t ->
  (forall hive key path, t_registration t = RegistryReg hive key path -> is_file m (host_exe R) = true) ->
  register R io t m = (m', Ok lines) -> assess m' (t_registration t) = RegOk.
Proof.
  intros Hd Hexe H. destruct (registered_slots _ _ _ _ _ _ Hd H) as ((c & Hfile & Hlaunch) & Hkeys & _).
  unfold assess, classify. rewrite Hfile, Hlaunch, (registered_launch_path _ _ _ _ _ _ Hd Hexe H).
  destruct (ms_key (manifest_slots m' (t_registration t))) as [slot|]; [by destruct (Hkeys slot eq_refl) as [v ->]|done].
Qed.

(** A registration that reports success reads back healthy and as ours. After [register]
    succeeds on a target whose locations do not collide, [doctor] assesses the
    manifest (and the registry key on Windows) as ok, its launch path existing, and every
    pointer as ok; and no later repair of the target is refused, under either policy for
    foreign manifests. *)
Theorem registered_target_reads_ok R io t m m' lines :
  target_distinct R t ->
  (forall hive key path, t_registration t = RegistryReg hive key path -> is_file m (host_exe R) = true) ->
  register R io t m = (m', Ok lines) ->
  assess m' (t_registration t) = RegOk /\
  (forall p, p ∈ t_pointers t -> assess_pointer m' p = PtrOk) /\
  (forall R', must_refuse R' t m' = false).
Proof.
  intros Hd Hexe H. destruct (registered_slots _ _ _ _ _ _ Hd H) as ((c & Hfile & Hlaunch) & Hkeys & Hptrs).
  split_and!; [by eapply registered_assess|intros p Hin; unfold assess_pointer; by destruct (Hptrs p Hin) as [? ->]|
    intros R'; apply all_slots_ours_pass; eauto].
Qed.

(** A healthy manifest file is one the browser's lookup finds. *)
Lemma assess_ok_hit m dir : assess m (ManifestDir dir) = RegOk -> lookup_hit m (ManifestDir dir) = true.
Proof.
  unfold assess, classify, lookup_hit, path_exists, metadata_mode. cbn [manifest_slots ms_key ms_file]. unfold file_slot, read_slot.
  destruct (read_to_string m _) as [c|er] eqn:E; [|by repeat case_match]. unfold read_to_string in E.
  by destruct (files m !! _) as [[]|].
Qed.
End roundtrip.

(** * Removal *)

Section removal.
Context `{PS : PathStyle} `{BL : Build} `{SD : StrDebug} `{JV : JsonValue}.
Implicit Types (m : Machine) (io : Io) (t : Target).

Definition is_ours (s : Slot) : bool := match s with SlotOurs _ => true | _ => false end.

(** A file of the target with contents of ours, as a manifest or as a pointer. *)
Definition file_of_ours t (p c : string) : Prop :=
  (p = manifest_path (t_registration t) /\ manifest_ownership c = Ours) \/
  (PointerFile p ∈ t_pointers t /\ pointer_ownership c = Ours).
Definition key_of_ours t m (k : Hive * string) : Prop :=
  (exists path, t_registration t = RegistryReg k.1 k.2 path /\
     is_ours (registry_slot m k.1 k.2 "" (fun v => same_windows_path v path)) = true) \/
  (PointerRegistry k.1 k.2 ∈ t_pointers t /\ is_ours (pointer_slot m (PointerRegistry k.1 k.2)) = true).

(** [m'] is [m] less some of what the target has of ours. *)
Definition removed t m m' : Prop :=
  (forall p, files m' !! p = files m !! p \/
     (files m' !! p = None /\ exists c mode, files m !! p = Some (NFile c mode) /\ file_of_ours t p c)) /\
  (forall k, registry m' !! k = registry m !! k \/ (registry m' !! k = None /\ key_of_ours t m k)).

Lemma removed_refl t m : removed t m m.
Proof. split; intros; by left. Qed.

Lemma key_of_ours_ext t m m' k : registry m' !! k = registry m !! k -> key_of_ours t m' k -> key_of_ours t m k.
Proof.
  destruct k as [hive key]. unfold key_of_ours. cbn [fst snd pointer_slot]. intros H.
  rewrite (registry_slot_ext m m') by done. intros [(path & Ht & Ho)|?]; [|by right].
  left. exists path. by rewrite <- (registry_slot_ext m m').
Qed.

Lemma removed_trans t m1 m2 m3 : removed t m1 m2 -> removed t m2 m3 -> removed t m1 m3.
Proof.
  intros [F1 K1] [F2 K2]. split.
  - intros p. destruct (F2 p) as [->|(-> & c & mode & Hf & Hc)]; [done|]. right. split; [done|].
    destruct (F1 p) as [E|(E & _)]; [|congruence]. exists c, mode. by rewrite <- E.
  - intros k. destruct (K2 k) as [->|[E Hk]]; [done|]. destruct (K1 k) as [E1|[E1 Hk1]].
    + right. split; [done|]. by eapply key_of_ours_ext.
    + by right.
Qed.

Lemma file_slot_ours m p own c :
  file_slot m p own = SlotOurs c -> exists mode, files m !! p = Some (NFile c mode) /\ own c = Ours.
Proof.
  unfold file_slot, read_slot, read_to_string. intros H.
  destruct (files m !! p) as [[c' mode| | |e mode|]|] eqn:E; cbn in H;
    repeat (case_match; try done); simplify_eq; eauto.
Qed.

Lemma remove_path_effect io p m m' r :
  remove_path io p m = (m', r) ->
  registry m' = registry m /\ (m' = m /\ is_ok r = false \/ files m' = delete p (files m)).
Proof.
  unfold remove_path, remove_file. destruct (io_remove io p); [intros [= <- <-]; eauto|].
  destruct (files m !! p) as [[? ?|[] ?| |? ?|?]|]; intros [= <- <-]; eauto.
Qed.

Lemma remove_file_removed io t p c mode m m' r :
  files m !! p = Some (NFile c mode) -> file_of_ours t p c -> remove_path io p m = (m', r) -> removed t m m'.
Proof.
  intros Hf Hc H. apply remove_path_effect in H as (Hr & [[-> _]|Hd]); [apply removed_refl|]. split.
  - intros q. rewrite Hd. destruct (decide (q = p)) as [->|Hne]; [right|left; by rewrite lookup_delete_ne by congruence].
    rewrite lookup_delete_eq. eauto.
  - intros k. left. by rewrite Hr.
Qed.

Lemma delete_key_removed io t hive key m m' r :
  key_of_ours t m (hive, key) -> delete_registry_key io hive key m = (m', r) -> removed t m m'.
Proof.
  intros Hk H. apply delete_registry_key_effect in H as (Hf & Hne & Hd & _). split; [intros p; left; by rewrite Hf|].
  intros k. destruct (decide (k = (hive, key))) as [->|]; [|left; auto].
  destruct Hd as [E|E]; [by right|by left; rewrite E].
Qed.

Lemma remove_key_removed io t m r :
  removed t m (remove_key io (t_registration t) (ms_key (manifest_slots m (t_registration t))) m r).1.
Proof.
  unfold remove_key. destruct (t_registration t) as [|hive key path] eqn:Et; [apply removed_refl|].
  cbn [ms_key manifest_slots]. destruct (registry_slot _ _ _ _ _) as [|v| |] eqn:Es; try apply removed_refl.
  cbn [removable]. destruct (delete_registry_key io hive key m) as [m' [[]|e]] eqn:Ed;
    (eapply delete_key_removed; [|exact Ed]; left; exists path; split; [done|]; cbn [fst snd]; cbn [manifest_path] in Es; by rewrite Es).
Qed.

Lemma remove_manifest_removed io t slot m r :
  (forall c, slot = SlotOurs c -> exists mode, files m !! manifest_path (t_registration t) = Some (NFile c mode) /\ manifest_ownership c = Ours) ->
  removed t m (remove_manifest io t slot m r).1.
Proof.
  intros Hs. unfold remove_manifest. destruct slot as [|c| |]; cbn [removable]; try apply removed_refl.
  destruct (Hs c eq_refl) as (mode & Hf & Hc).
  destruct (remove_path io _ m) as [m' [[]|e]] eqn:E; (eapply remove_file_removed; [done|by left|exact E]).
Qed.

Lemma remove_pointer_removed io t p m r : p ∈ t_pointers t -> removed t m (remove_pointer io p m r).1.
Proof.
  intros Hin. unfold remove_pointer. destruct (pointer_slot m p) as [|c| |] eqn:Es; cbn [removable]; try apply removed_refl.
  destruct p as [path|hive key]; cbn [pointer_slot] in Es.
  - apply file_slot_ours in Es as (mode & Hf & Hc).
    destruct (remove_path io path m) as [m' [[]|e]] eqn:E; (eapply remove_file_removed; [done|by right|exact E]).
  - assert (key_of_ours t m (hive, key)) as Hk by (right; split; [done|]; cbn [fst snd pointer_slot]; by rewrite Es).
    destruct (delete_registry_key io hive key m) as [m' [[]|e]] eqn:E; (eapply delete_key_removed; [exact Hk|exact E]).
Qed.

Lemma remove_pointers_removed io t ps m r : ps ⊆ t_pointers t -> removed t m (remove_pointers io ps m r).1.
Proof.
  revert m r. induction ps as [|p ps IH]; intros m r Hsub; cbn [remove_pointers]; [apply removed_refl|].
  pose proof (remove_pointer_removed io t p m r ltac:(set_solver)) as H.
  destruct (remove_pointer io p m r) as [m1 r1]. eapply removed_trans; [exact H|]. apply IH. set_solver.
Qed.

Lemma remove_key_files io reg slot m r : files (remove_key io reg slot m r).1 = files m.
Proof.
  unfold remove_key. destruct slot as [slot|], reg as [|hive key path]; try done.
  destruct (removable slot _) as [[]|]; try done. destruct (delete_registry_key io hive key m) as [m' [[]|e]] eqn:E;
    apply delete_registry_key_effect in E as [E _]; exact E.
Qed.

Lemma uninstall_removed io t m : removed t m (uninstall io t m).1.
Proof.
  unfold uninstall. pose proof (remove_key_removed io t m no_removal) as H1.
  pose proof (remove_key_files io (t_registration t) (ms_key (manifest_slots m (t_registration t))) m no_removal) as Hf.
  destruct (remove_key _ _ _ m _) as [m1 r1]. cbn [fst] in *.
  pose proof (remove_manifest_removed io t (ms_file (manifest_slots m (t_registration t))) m1 r1) as H2.
  destruct (remove_manifest io t _ m1 r1) as [m2 r2]. cbn [fst] in *.
  eapply removed_trans; [exact H1|]. eapply removed_trans; [apply H2|by apply remove_pointers_removed].
  rewrite Hf. intros c Hc. by apply file_slot_ours in Hc.
Qed.

(** ** Completeness *)

(** Nothing the target would remove is left of ours. *)
Definition cleared t m : Prop :=
  is_ours (ms_file (manifest_slots m (t_registration t))) = false /\
  (forall slot, ms_key (manifest_slots m (t_registration t)) = Some slot -> is_ours slot = false) /\
  (forall p, p ∈ t_pointers t -> is_ours (pointer_slot m p) = false).

Lemma file_slot_removed t m m' p own :
  removed t m m' -> is_ours (file_slot m p own) = false -> is_ours (file_slot m' p own) = false.
Proof.
  intros [Hf _] H. destruct (file_slot m' p own) as [|c| |] eqn:E; try done. exfalso.
  apply file_slot_ours in E as (mode & E & Hc). destruct (Hf p) as [E'|[E' _]]; [|congruence].
  rewrite E' in E. rewrite (file_slot_file _ _ _ _ _ E), Hc in H. done.
Qed.

Lemma registry_slot_removed t m m' hive key name expected :
  removed t m m' -> is_ours (registry_slot m hive key name expected) = false ->
  is_ours (registry_slot m' hive key name expected) = false.
Proof.
  intros [_ Hk] H. destruct (Hk (hive, key)) as [E|[E _]]; [by rewrite (registry_slot_ext m)|].
  unfold registry_slot, registry_key. rewrite E. by destruct windows.
Qed.

Lemma pointer_slot_removed t m m' p :
  removed t m m' -> is_ours (pointer_slot m p) = false -> is_ours (pointer_slot m' p) = false.
Proof. destruct p; cbn [pointer_slot]; eauto using file_slot_removed, registry_slot_removed. Qed.

Lemma remove_path_done p c mode m :
  files m !! p = Some (NFile c mode) -> remove_path no_faults p m = (set_files m (delete p (files m)), Ok tt).
Proof. intros H. unfold remove_path, remove_file, no_faults. cbn [io_remove]. by rewrite H. Qed.

Lemma file_slot_deleted m p own : is_ours (file_slot (set_files m (delete p (files m))) p own) = false.
Proof.
  unfold file_slot, read_slot, read_to_string, symlink_metadata. cbn [files set_files]. by rewrite lookup_delete_eq.
Qed.

Lemma delete_key_done m hive key name expected v :
  registry_slot m hive key name expected = SlotOurs v ->
  exists m', delete_registry_key no_faults hive key m = (m', Ok tt) /\ files m' = files m /\
    is_ours (registry_slot m' hive key name expected) = false.
Proof.
  intros H. pose proof (slot_settable m hive key name expected) as Hs. rewrite H in Hs. destruct Hs as [Hw Hs].
  unfold delete_registry_key. rewrite Hw. cbn [io_reg_delete no_faults].
  destruct (registry m !! (hive, key)) as [node|] eqn:E.
  - destruct Hs as (_ & -> & _). eexists. split_and!; [done|done|].
    unfold registry_slot, registry_key. cbn [registry set_registry]. by rewrite Hw, lookup_delete_eq.
  - unfold registry_slot, registry_key in H. by rewrite Hw, E in H.
Qed.

Lemma remove_pointer_cleared p m r :
  is_ours (pointer_slot (remove_pointer no_faults p m r).1 p) = false /\
  rm_failed (remove_pointer no_faults p m r).2 = rm_failed r.
Proof.
  unfold remove_pointer. destruct (pointer_slot m p) as [|c| |] eqn:Es; cbn [removable fst snd]; try (by rewrite Es).
  destruct p as [path|hive key]; cbn [pointer_slot] in Es.
  - apply file_slot_ours in Es as (mode & Hf & Hc). rewrite (remove_path_done _ _ _ _ Hf). cbn [fst snd].
    split; [apply file_slot_deleted|done].
  - destruct (delete_key_done _ _ _ _ _ _ Es) as (m' & -> & _ & Ho). done.
Qed.

Lemma remove_pointers_cleared t ps m r :
  ps ⊆ t_pointers t ->
  (forall p, p ∈ ps -> is_ours (pointer_slot (remove_pointers no_faults ps m r).1 p) = false) /\
  rm_failed (remove_pointers no_faults ps m r).2 = rm_failed r.
Proof.
  revert m r. induction ps as [|p ps IH]; intros m r Hsub; cbn [remove_pointers]; [split; [set_solver|done]|].
  pose proof (remove_pointer_cleared p m r) as [H1 H2]. destruct (remove_pointer no_faults p m r) as [m1 r1].
  cbn [fst snd] in *. destruct (IH m1 r1 ltac:(set_solver)) as [H3 H4]. split; [|by rewrite H4].
  intros q [->|Hq]%elem_of_cons; [|auto]. eapply pointer_slot_removed; [|exact H1].
  apply (remove_pointers_removed no_faults t). set_solver.
Qed.

Lemma remove_key_cleared t m :
  let (m', r) := remove_key no_faults (t_registration t) (ms_key (manifest_slots m (t_registration t))) m no_removal in
  rm_failed r = [] /\ forall slot, ms_key (manifest_slots m' (t_registration t)) = Some slot -> is_ours slot = false.
Proof.
  unfold remove_key, manifest_slots. destruct (t_registration t) as [|hive key path]; [done|]. cbn [ms_key manifest_path].
  destruct (registry_slot m hive key "" _) as [|v| |] eqn:Es; cbn [removable];
    try (split; [done|]; intros slot [= <-]; by rewrite Es).
  destruct (delete_key_done _ _ _ _ _ _ Es) as (m' & -> & _ & Ho). split; [done|]. by intros slot [= <-].
Qed.

Lemma remove_manifest_cleared t slot m r :
  slot = ms_file (manifest_slots m (t_registration t)) ->
  let (m', r') := remove_manifest no_faults t slot m r in
  rm_failed r' = rm_failed r /\ is_ours (ms_file (manifest_slots m' (t_registration t))) = false.
Proof.
  intros Hs. unfold remove_manifest. destruct slot as [|c| |]; cbn [removable]; try (by rewrite <- Hs).
  symmetry in Hs. apply file_slot_ours in Hs as (mode & Hf & _). rewrite (remove_path_done _ _ _ _ Hf).
  split; [done|apply file_slot_deleted].
Qed.

Lemma uninstall_clears t m : cleared t (uninstall no_faults t m).1 /\ rm_failed (uninstall no_faults t m).2 = [].
Proof.
  unfold uninstall. pose proof (remove_key_cleared t m) as Hk.
  pose proof (remove_key_files no_faults (t_registration t) (ms_key (manifest_slots m (t_registration t))) m no_removal) as Hf.
  destruct (remove_key _ _ _ m _) as [m1 r1]. destruct Hk as [Hr1 Hk]. cbn [fst] in Hf.
  set (slot := ms_file (manifest_slots m (t_registration t))).
  assert (slot = ms_file (manifest_slots m1 (t_registration t))) as Hslot.
  { subst slot. unfold manifest_slots, file_slot, read_slot, read_to_string, symlink_metadata. cbn [ms_file]. by rewrite Hf. }
  pose proof (remove_manifest_cleared t slot m1 r1 Hslot) as Hm.
  pose proof (remove_manifest_removed no_faults t slot m1 r1 ltac:(rewrite Hslot; intros c Hc; by apply file_slot_ours in Hc)) as Hrm.
  destruct (remove_manifest no_faults t slot m1 r1) as [m2 r2]. destruct Hm as [Hr2 Hm]. cbn [fst] in Hrm.
  pose proof (remove_pointers_removed no_faults t (t_pointers t) m2 r2 ltac:(done)) as Hp.
  destruct (remove_pointers_cleared t (t_pointers t) m2 r2 ltac:(done)) as [Hpc Hr3].
  split; [|by rewrite Hr3, Hr2]. split_and!; [|..|exact Hpc].
  - cbn [manifest_slots ms_file] in *. eauto using file_slot_removed.
  - intros s Hs. destruct (t_registration t) as [|hive key path]; [done|]. cbn [ms_key manifest_slots] in *.
    injection Hs as <-. eapply registry_slot_removed; [exact Hp|]. eapply registry_slot_removed; [exact Hrm|]. by apply Hk.
Qed.

(** C25: [uninstall] removes exactly what this project wrote. Under any faults, each file it
    changes is now absent and held a manifest or pointer of ours at a location of the
    target, and each key likewise; with no faults none of the target's locations is left
    ours and no removal is reported failed, whatever else sat beside them. *)
Theorem uninstall_removes_exactly_ours io t m :
  removed t m (uninstall io t m).1 /\
  cleared t (uninstall no_faults t m).1 /\ rm_failed (uninstall no_faults t m).2 = [].
Proof. split; [apply uninstall_removed|apply uninstall_clears]. Qed.

(** A value that cannot be set wedges its pointer on Windows. Setting the pointer's
    value creates the key first; when the value then fails, the empty key that remains is
    judged foreign, so every later [register] of the target refuses it, under either
    policy and with the machine unchanged, and no [uninstall] removes it. *)
Theorem failed_value_wedges_the_pointer io t hive key e m :
  windows = true -> PointerRegistry hive key ∈ t_pointers t ->
  registry m !! (hive, key) = None -> io_reg_set io hive key = Some (SetValue e) ->
  let m' := (set_registry_value io hive key POINTER_VALUE_NAME WEB_STORE_UPDATE_URL m).1 in
  (forall R io', exists e', register R io' t m' = (m', Err e')) /\
  (forall io', registry (uninstall io' t m').1 !! (hive, key) = Some fresh_key).
Proof.
  intros Hw Hin Hn He. cbv zeta. unfold set_registry_value. rewrite Hw, He, Hn. cbn [fst default].
  set (m' := set_registry m (<[(hive, key) := fresh_key]> (registry m))).
  assert (registry m' !! (hive, key) = Some fresh_key) as Hk by (cbn [m' registry set_registry]; by rewrite lookup_insert_eq).
  assert (forall name expected, exists why, registry_slot m' hive key name expected = SlotForeign why None Replaceable) as Hf.
  { intros name expected. eexists. unfold registry_slot, registry_key. rewrite Hw, Hk. reflexivity. }
  split.
  - intros R io'. destruct (judge_slots_refuses R t m') as [e' He']; [|exists e'; unfold register; by rewrite He'].
    unfold must_refuse. apply orb_true_iff. right. apply existsb_true_iff. exists (PointerRegistry hive key).
    split; [done|]. cbn [pointer_slot]. by destruct (Hf POINTER_VALUE_NAME (fun url => String.eqb url WEB_STORE_UPDATE_URL)) as [why ->].
  - intros io'. destruct (uninstall_removed io' t m') as [_ Hr]. destruct (Hr (hive, key)) as [->|[_ Ho]]; [done|]. exfalso.
    unfold key_of_ours in Ho. cbn [fst snd pointer_slot] in Ho. destruct Ho as [(path & _ & Ho)|[_ Ho]].
    + by destruct (Hf "" (fun v => same_windows_path v path)) as [why E]; rewrite E in Ho.
    + by destruct (Hf POINTER_VALUE_NAME (fun url => String.eqb url WEB_STORE_UPDATE_URL)) as [why E]; rewrite E in Ho.
Qed.
End removal.

(** * An example machine *)

Module RegistrationExample.
#[export] Instance quoted : StrDebug := {| str_debug s := dquote +:+ s +:+ dquote |}.

Definition unix_registrar : Registrar :=
  mkRegistrar "/usr/bin/genkan" "/home/u/.genkan" RsUser Refuse PINNED_EXTENSION_ID.

(** A codec of the two documents the engine writes: a manifest is its launch path. *)
Fixpoint strip_last (s : string) : string :=
  match s with "" => "" | String c "" => "" | String c s => String c (strip_last s) end.

Definition toy_from_str (s : string) : result string json :=
  if String.eqb s pointer_json then Ok (JObj [("external_update_url", JStr WEB_STORE_UPDATE_URL)])
  else match s with
       | String "M"%char s => Ok (manifest_value unix_registrar (strip_last s))
       | _ => Err "expected value at line 1 column 1"
       end.
Definition toy_pretty (v : json) : result string string :=
  let launch := default "" (json_get "path" v ≫= as_str) in
  if bool_decide (v = manifest_value unix_registrar launch) then Ok (String "M"%char launch) else Err "not a manifest".

#[export] Instance toy_json : JsonValue := {| from_str := toy_from_str; to_string_pretty := toy_pretty |}.

Lemma strip_last_nl s : strip_last (s +:+ nl) = s.
Proof.
  induction s as [|c s IH]; [done|]. rewrite str_app_cons. cbn [strip_last].
  destruct (s +:+ nl) as [|c' s'] eqn:E; [by destruct s|]. by rewrite IH.
Qed.

#[export] Instance toy_json_ok : JsonValueOk.
Proof.
  constructor; [|reflexivity]. intros v text _ H. cbn [to_string_pretty toy_json] in H. unfold toy_pretty in H.
  destruct (bool_decide _) eqn:E; [|done]. apply bool_decide_eq_true in E. injection H as <-.
  set (launch := default "" (json_get "path" v ≫= as_str)) in *. rewrite E.
  exists (manifest_value unix_registrar launch). split; [|done].
  cbn [from_str toy_json]. unfold toy_from_str. rewrite str_app_cons. cbn [String.eqb pointer_json]. by rewrite strip_last_nl.
Qed.

#[export] Existing Instance unix_style.
#[export] Existing Instance unix_build.

(** Chrome's own target on macOS, with its pointer. *)
Definition chrome_dirs : string := "/home/u/Chrome/NativeMessagingHosts".
Definition target : Target :=
  mkTarget (Some Chrome) "chrome" (ManifestDir chrome_dirs) [PointerFile "/home/u/Chrome/External Extensions/id.json"].
Definition mac : Machine :=
  mkMachine (list_to_map [("/", NDir false 493); ("/home", NDir false 493); ("/home/u", NDir false 448)]) ∅.
Definition registered : Machine := (register unix_registrar no_faults target mac).1.

Example registers : exists lines, register unix_registrar no_faults target mac = (registered, Ok lines).
Proof. eexists. vm_compute. reflexivity. Qed.
End RegistrationExample.

Section witnesses.
Import RegistrationExample.

Lemma registered_target_reads_ok_witness :
  assess registered (ManifestDir chrome_dirs) = RegOk /\
  forall R', must_refuse R' target registered = false.
Proof.
  destruct registers as [lines H].
  destruct (registered_target_reads_ok unix_registrar no_faults target mac registered lines) as (H1 & _ & H3);
    [|done|exact H|by split].
  split_and!; [by vm_compute| |done].
  intros path Hp. apply list_elem_of_singleton in Hp as [= ->]. by vm_compute.
Defined.

Definition pointer_key_path : string := "Software\Google\Chrome\Extensions\id".
Definition windows_target : Target :=
  mkTarget (Some Chrome) "chrome" (RegistryReg CurrentUser "Software\Google\Chrome\NativeMessagingHosts\id" "/m.json")
    [PointerRegistry CurrentUser pointer_key_path].
Definition denied : Io := {|
  io_write _ := None; io_remove _ := None; io_mkdir _ := None; io_chmod _ := None;
  io_reg_set _ key := if String.eqb key pointer_key_path then Some (SetValue "Access is denied. (os error 5)") else None;
  io_reg_delete _ _ := None; io_has_children := "has child keys"; io_umask := 18 |}.

Lemma failed_value_wedges_the_pointer_witness :
  let m' := (@set_registry_value windows_build denied CurrentUser pointer_key_path POINTER_VALUE_NAME WEB_STORE_UPDATE_URL mac).1 in
  exists e, @register unix_style windows_build quoted toy_json unix_registrar no_faults windows_target m' = (m', Err e).
Proof.
  intros m'. apply (@failed_value_wedges_the_pointer unix_style windows_build quoted toy_json denied windows_target
    CurrentUser pointer_key_path "Access is denied. (os error 5)" mac).
  - reflexivity.
  - by apply list_elem_of_singleton.
  - reflexivity.
  - reflexivity.
Defined.
End witnesses.
