(* ===== verification/Oracles.v ===== *)
(** Oracles: the fuzz targets (src/src/packages/core/fuzz/src/targets.rs). A target runs one
    parser of a trust boundary on any bytes and checks what its module says of the outcome;
    here it is a function that answers [true] when it runs to its end and [false] where an
    assertion of it would fail or an [expect] would panic, and the theorems say that no
    input makes one answer [false].

    [from_utf8_lossy] has run before [registration_manifest], whose argument is the text.
    The external codecs are assumed to read back what they print, and base64 to accept one
    spelling per byte string ([StrictBase64], from the documentation of the crate's
    [STANDARD] engine). Of [webauthn_authdata], the two verifier calls whose results the
    target drops are left out, being total functions here. *)
From S2P Require Import Prelude Json RuntimeRecord Policy Identity Trust PolicyRecord PrefixCodec World Messages PolicyStore PolicyPlan ToolArgs Catalogue Wire LineCodec AuthData WebAuthn EnrollStore Presence Frames Control Replies Handshake Connection Serve Envelopes Browsers Machine Registration.
From stdpp Require Import base list sets strings.

(** * Framing targets *)

Section framing.
Context {T : Type} `{JC : !JsonCodec T} (to_value : T -> json).

(** [bridge_round_trips] and [mcp_jsonrpc], under either cap. *)
Definition line_round_trips (max_line : Z) (leg : string) (data : bytes) : bool :=
  match ndjson_read_capped max_line leg data with
  | (Ok (Some first), _) =>
      let line := bridge_write first in
      if (max_line <? Z.of_nat (length line))%Z then true
      else
        match ndjson_read_capped max_line leg line with
        | (Ok (Some second), _) => bool_decide (to_value first = to_value second)
        | _ => false
        end
  | _ => true
  end.

Definition bridge_round_trips : bytes -> bool := line_round_trips BRIDGE_MAX_LINE "bridge".
End framing.

Definition nm_frame `{JV : !JsonCodec json} (data : bytes) : bool :=
  match nm_read_frame data with
  | (Ok (Some value), _) =>
      match nm_write_frame value with
      | Ok out =>
          match nm_read_frame out with
          | (Ok (Some again), _) => bool_decide (again = value)
          | _ => false
          end
      | Err _ => (NM_MAX_OUTGOING <? Z.of_nat (length (to_vec value)))%Z
      end
  | _ => true
  end.

Section envelopes.
Context `{JT : !JsonText, JV : !JsonCodec json}.
#[local] Existing Instances envelope_codec parsed_codec.

Definition mcp_jsonrpc : bytes -> bool := line_round_trips (T := JsonRpc) env_put MCP_MAX_LINE "mcp".

(** The one reading a response admits. *)
Definition consistent_reading (wire : BridgeResp) : option (result string json) :=
  match rs_ok wire, rs_data wire, rs_error wire with
  | true, data, None => Some (Ok (default JNull data))
  | false, None, Some error => Some (Err error)
  | true, _, Some _ | false, Some _, _ | false, None, None => None
  end.

Definition response_oracle (data : bytes) : bool :=
  match bridge_read (T := BridgeResp) data, bridge_read (T := ParsedResp) data with
  | (Ok (Some wire), _), (Ok (Some parsed), _) =>
      match consistent_reading wire with
      | None => false
      | Some expected =>
          bool_decide (pr_id parsed = rs_id wire) && bool_decide (pr_outcome parsed = expected) &&
          let line := bridge_write wire in
          if (Z.of_nat (length line) <=? BRIDGE_MAX_LINE)%Z then
            match bridge_read (T := ParsedResp) line with
            | (Ok (Some again), _) =>
                bool_decide (pr_id again = pr_id parsed) && bool_decide (pr_outcome again = pr_outcome parsed)
            | _ => false
            end
          else true
      end
  | (Ok (Some wire), _), _ => bool_decide (consistent_reading wire = None)
  | _, (Ok (Some _), _) => false
  | _, _ => true
  end.

Definition bridge_envelope (data : bytes) : bool :=
  bridge_round_trips (T := json) (fun v => v) data && bridge_round_trips (T := BridgeReq) env_put data &&
  response_oracle data.

Definition handshake : bytes -> bool := bridge_round_trips (T := Handshake) env_put.
Definition attach : bytes -> bool := bridge_round_trips (T := AttachRequest) env_put.
End envelopes.

(** * The classifier *)

Definition spelled_tag (type_field : option string) : option HostControlTag := type_field ≫= tag_of_name.

(** [frame.get("type").and_then(Value::as_str)]. *)
Definition type_field (frame : json) : option string := json_get "type" frame ≫= as_str.

#[export] Instance AuditKind_eq_dec : EqDecision AuditKind.
Proof. solve_decision. Defined.
#[export] Instance HostRequest_eq_dec : EqDecision HostRequest.
Proof. solve_decision. Defined.

Definition classify_oracle (frame : json) : bool :=
  match classify_nm_frame frame with
  | Forward => bool_decide (spelled_tag (type_field frame) = None)
  | Handle request =>
      let again := JObj (request_ser request) in
      bool_decide (type_field again = type_field frame) &&
      match classify_nm_frame again with
      | Handle reparsed => bool_decide (reparsed = request)
      | Forward | Malformed _ _ => false
      end
  | Malformed tag _ => bool_decide (type_field frame = Some (tag_name tag))
  end.

Definition classify_frame `{JV : !JsonCodec json} (data : bytes) : bool :=
  match from_slice data with Ok frame => classify_oracle frame | Err _ => true end.

(** * Registrations *)

Definition is_ours_owner (o : Ownership) : bool := match o with Ours => true | ForeignOwner _ => false end.

Definition expect_ours `{JV : JsonValue} (contents : string) : bool :=
  match ok (from_str contents) with
  | Some manifest =>
      bool_decide (json_get "name" manifest ≫= as_str = Some NATIVE_HOST_ID) &&
      bool_decide (json_get "description" manifest ≫= as_str = Some MANIFEST_DESCRIPTION)
  | None => false
  end.

Definition expect_pointer_ours `{JV : JsonValue} (contents : string) : bool :=
  match ok (from_str contents) ≫= as_object with
  | Some object =>
      (length object =? 1)%nat &&
      bool_decide (member "external_update_url" object ≫= as_str = Some WEB_STORE_UPDATE_URL)
  | None => false
  end.

Definition registration_manifest `{JV : JsonValue, SD : StrDebug} (contents : string) : bool :=
  Bool.eqb (is_ours_owner (manifest_ownership contents)) (expect_ours contents) &&
  Bool.eqb (is_ours_owner (pointer_ownership contents)) (expect_pointer_ours contents).

(** * Policy records *)

(** [std::str::from_utf8]: the well-formed sequences of the standard's table. *)
Definition in_range (lo hi : Z) (b : Byte.byte) : bool := ((lo <=? byte_Z b) && (byte_Z b <=? hi))%Z.
Definition continuation : Byte.byte -> bool := in_range 128 191.

(** The second byte that may follow a lead byte of three or four. *)
Definition second_ok (lead second : Byte.byte) : bool :=
  let l := byte_Z lead in
  if (l =? 224)%Z then in_range 160 191 second
  else if (l =? 237)%Z then in_range 128 159 second
  else if (l =? 240)%Z then in_range 144 191 second
  else if (l =? 244)%Z then in_range 128 143 second
  else continuation second.

Fixpoint is_utf8 (data : bytes) : bool :=
  match data with
  | [] => true
  | a :: rest =>
      if in_range 0 127 a then is_utf8 rest
      else if in_range 194 223 a then
        match rest with b :: rest => continuation b && is_utf8 rest | _ => false end
      else if in_range 224 239 a then
        match rest with b :: c :: rest => second_ok a b && continuation c && is_utf8 rest | _ => false end
      else if in_range 240 244 a then
        match rest with
        | b :: c :: d :: rest => second_ok a b && continuation c && continuation d && is_utf8 rest
        | _ => false
        end
      else false
  end.

Example utf8_two_bytes : is_utf8 [Byte.xc3; Byte.xa9; Byte.x41] = true. Proof. reflexivity. Qed.
Example utf8_overlong : is_utf8 [Byte.xe0; Byte.x9f; Byte.xbf] = false. Proof. reflexivity. Qed.
Example utf8_surrogate : is_utf8 [Byte.xed; Byte.xa0; Byte.x80] = false. Proof. reflexivity. Qed.

Definition from_utf8 (data : bytes) : option string := if is_utf8 data then Some (utf8 data) else None.

Section policy.
Context `{CO : PolicyCodec}.
(** [serde_json] on an overlay and the record decoder on a store. *)
Context (read_overlay : bytes -> option PolicyOverlay) (decode_store : bytes -> option PolicyStore).

Definition check_doc (doc : PolicyDoc) : bool := bool_decide (doc_of_bytes (doc_to_bytes doc) = Ok doc).

(** The folded values, and whether folding again changes them. *)
Definition check_fold (baseline : PolicyValues) (overlay : PolicyOverlay) : bool * PolicyValues :=
  let once := fold baseline overlay in (values_eq (fold once overlay) once, once).

Definition by_hand (store : PolicyStore) : option PolicyDoc :=
  b ← ok (base64_decode (ps_baseline_b64 store));
  doc ← ok (doc_of_bytes b);
  if is_ok (doc_validate doc) then Some doc else None.

(** Whether the checks on a store hold, and the values it contributes. *)
Definition check_store (store : PolicyStore) : bool * list PolicyValues :=
  let via_store := ok (baseline_doc store) in
  let agree := bool_decide (by_hand store = via_store) in
  match via_store with
  | Some doc =>
      let baseline := doc_values doc in
      let '(idempotent, eff) := check_fold baseline (overlay_or_default (ps_overlay store)) in
      (agree && check_doc doc && idempotent &&
       match effective store with
       | Ok from_store => values_eq from_store eff
       | Err _ => relaxes eff baseline
       end, [baseline; eff])
  | None => (agree && negb (is_ok (effective store)), [])
  end.

Definition partition_oracle (values : list PolicyValues) : bool :=
  forallb (fun a => forallb (fun b => negb (Bool.eqb (relaxes a b) (restricts_or_equal a b))) values) values.

(** Encoding an accepted text's bytes gives the text again. *)
Definition spelling_oracle (data : bytes) : bool :=
  match from_utf8 data with
  | Some text =>
      match base64_decode text with
      | Ok b => bool_decide (base64_encode b = text)
      | Err _ => true
      end
  | None => true
  end.

Definition policy_doc (data : bytes) : bool :=
  let '(ok1, v1) := match ok (doc_of_bytes data) with
                    | Some doc => (check_doc doc, [doc_values doc])
                    | None => (true, [])
                    end in
  let '(ok2, v2) := match read_overlay data with
                    | Some overlay => let '(b, v) := check_fold values_default overlay in (b, [v])
                    | None => (true, [])
                    end in
  let '(ok3, v3) := match decode_store data with Some store => check_store store | None => (true, []) end in
  ok1 && ok2 && ok3 && partition_oracle (v1 ++ v2 ++ v3) && spelling_oracle data.
End policy.

(** The documented strictness of the engine: padding and trailing bits are checked, so
    two accepted spellings of the same bytes are the same text. *)
Class StrictBase64 `{CO : !PolicyCodec} :=
  one_spelling : forall s s' b, base64_decode s = Ok b -> base64_decode s' = Ok b -> s = s'.

(** * Authenticator data *)

Definition webauthn_authdata `{CL : CoseLib} (data : bytes) : bool :=
  match ok (AuthenticatorData_parse data) ≫= ad_attested with
  | Some attested =>
      match from_sec1 (sec1 (ac_public_key attested)) with
      | Ok pk => bool_decide (pk = ac_public_key attested)
      | Err _ => false
      end
  | None => true
  end.

(** * Challenges and MACs (fuzz_targets/enclave_challenge.rs, handshake_verify.rs) *)

(** [split(|b| *b == 0)]: never empty. *)
Fixpoint split_nul (b : bytes) : list bytes :=
  match b with
  | [] => [[]]
  | x :: b =>
      if Byte.eqb x Byte.x00 then [] :: split_nul b
      else match split_nul b with part :: parts => (x :: part) :: parts | [] => [[x]] end
  end.

Definition enclave_challenge (nonce : string) (context : option string) : bool :=
  let nonce_ok := negb (str_is_empty nonce) && (str_len nonce <=? MAX_NONCE_LEN)%Z && negb (str_contains NUL nonce) in
  let context_ok := match context with
                    | Some c => (str_len c <=? MAX_CONTEXT_LEN)%Z && negb (str_contains NUL c)
                    | None => true
                    end in
  match challenge_message nonce context with
  | Ok message =>
      nonce_ok && context_ok &&
      bool_decide (split_nul message = [as_bytes CHALLENGE_DOMAIN; as_bytes nonce; as_bytes (default "" context)])
  | Err _ => negb (nonce_ok && context_ok)
  end.

(** The correct MAC must verify; the other calls of the target drop their results. *)
Definition handshake_verify `{DG : Digest, ML : MacLib} (key : bytes) (nonce : string) (label : option string) : bool :=
  let msg := handshake_mac_message nonce label in
  match compute_mac key msg with Ok mac => is_ok (verify_mac key msg mac) | Err _ => true end.

(** * Lemmas *)

(** ** Framing *)

Section framing_lemmas.
Context {T : Type} `{JC : !JsonCodec T} (to_value : T -> json).

(** What a line was read from. *)
Lemma ndjson_loop_source fuel max_line leg s (t : T) rest :
  ndjson_loop fuel max_line leg s = Some (Ok (Some t), rest) -> exists b, from_slice b = Ok t.
Proof.
  revert s. induction fuel as [|fuel IH]; intros s; [done|]. cbn [ndjson_loop].
  destruct (read_until _ s) as [line rest']. destruct (length line =? 0)%nat; [done|].
  destruct (max_line <? Z.of_nat (length line))%Z; [done|]. cbv zeta.
  destruct (length (pop_eols line) =? 0)%nat; [apply IH|].
  destruct (from_slice (pop_eols line)) as [x|] eqn:E; [|done]. intros [= -> _]. eauto.
Qed.

Lemma ndjson_read_source max_line leg s (t : T) rest :
  ndjson_read_capped max_line leg s = (Ok (Some t), rest) -> exists b, from_slice b = Ok t.
Proof.
  unfold ndjson_read_capped. destruct (u64_max <? max_line + 1)%Z; [done|].
  destruct (ndjson_loop _ max_line leg s) as [[r rest']|] eqn:E; [|done]. cbn. intros [= -> _].
  by eapply ndjson_loop_source.
Qed.

Lemma line_round_trips_true max_line leg data :
  (forall b t, from_slice b = Ok t -> rereads t) -> (0 <= max_line < u64_max)%Z ->
  line_round_trips to_value max_line leg data = true.
Proof.
  intros Hr Hm. unfold line_round_trips.
  destruct (ndjson_read_capped max_line leg data) as [[[first|]|] rest] eqn:E; try done.
  apply ndjson_read_source in E as (b & Hb). apply Hr in Hb. cbv zeta.
  destruct (Z.ltb_spec max_line (Z.of_nat (length (bridge_write first)))) as [|Hl]; [done|].
  rewrite <- (app_nil_r (bridge_write first)). rewrite ndjson_read_written; [by apply bool_decide_eq_true_2|done|].
  unfold bridge_write in Hl. rewrite length_app in Hl. cbn [length] in Hl. lia.
Qed.
End framing_lemmas.

Lemma nm_frame_true `{JV : !JsonCodec json} data :
  (forall b (v : json), from_slice b = Ok v -> from_slice (to_vec v) = Ok v) -> nm_frame data = true.
Proof.
  intros Hr. unfold nm_frame. destruct (nm_read_frame data) as [[[v|]|] rest] eqn:E; try done.
  assert (exists b, from_slice b = Ok v) as (b & Hb).
  { unfold nm_read_frame in E. destruct (read_exact 4 data) as [[h|] s1]; [|done]. cbv zeta in E.
    destruct (_ <? _)%Z; [done|]. destruct (read_exact _ s1) as [[buf|] s2]; [|done].
    destruct (from_slice buf) as [x|] eqn:Ex; [|done]. injection E as <- _. eauto. }
  apply Hr, nm_write_cases in Hb. destruct (nm_write_frame v) as [out|e].
  - destruct Hb as [Hb _]. specialize (Hb []). rewrite app_nil_r in Hb. rewrite Hb. by apply bool_decide_eq_true_2.
  - apply Z.ltb_lt. apply Hb.
Qed.

Lemma reading_is_try_from wire :
  match ParsedResp_try_from wire with
  | Ok p => pr_id p = rs_id wire /\ consistent_reading wire = Some (pr_outcome p)
  | Err _ => consistent_reading wire = None
  end.
Proof. unfold ParsedResp_try_from, consistent_reading. by destruct (rs_ok wire), (rs_data wire), (rs_error wire). Qed.

Section responses.
Context `{JC : !JsonCodec BridgeResp}.
#[local] Existing Instance parsed_codec.

(** A response is read exactly where its wire form is read and consistent. *)
Lemma parsed_read data :
  match bridge_read (T := BridgeResp) data with
  | (Ok (Some wire), rest) =>
      match ParsedResp_try_from wire with
      | Ok p => bridge_read (T := ParsedResp) data = (Ok (Some p), rest)
      | Err _ => exists e, bridge_read (T := ParsedResp) data = (Err e, rest)
      end
  | (Ok None, rest) => bridge_read (T := ParsedResp) data = (Ok None, rest)
  | (Err _, rest) => exists e, bridge_read (T := ParsedResp) data = (Err e, rest)
  end.
Proof.
  unfold bridge_read, ndjson_read_capped.
  destruct (Z.ltb_spec u64_max (BRIDGE_MAX_LINE + 1)); [unfold u64_max, BRIDGE_MAX_LINE in *; lia|].
  pose proof (ndjson_loop_through _ _ ParsedResp_try_from (S (length data)) BRIDGE_MAX_LINE "bridge" data
    (fun b => eq_refl : @from_slice ParsedResp parsed_codec b = _)) as H0.
  destruct (ndjson_loop (T := BridgeResp) _ _ _ _) as [[ra rest]|], (ndjson_loop (T := ParsedResp) _ _ _ _) as [[rb rest']|];
    try done; cbn [default id]; destruct H0 as [-> H0]; cbn [id].
  destruct ra as [[wire|]|e]; [|by subst|destruct rb; [done|cbn; eauto]].
  cbn. revert H0. destruct (ParsedResp_try_from wire); intros H0; [by subst|]. destruct rb; [done|eauto].
Qed.

Lemma response_oracle_wire data :
  (forall b (t : BridgeResp), from_slice b = Ok t -> rereads t) ->
  match bridge_read (T := BridgeResp) data with
  | (Ok (Some wire), _) =>
      (Z.of_nat (length (bridge_write wire)) <= BRIDGE_MAX_LINE)%Z ->
      bridge_read (T := BridgeResp) (bridge_write wire) = (Ok (Some wire), [])
  | _ => True
  end.
Proof.
  intros Hr. destruct (bridge_read (T := BridgeResp) data) as [[[wire|]|] rest] eqn:E; try done. intros Hl.
  apply ndjson_read_source in E as (b & Hb). apply Hr in Hb.
  rewrite <- (app_nil_r (bridge_write wire)). apply ndjson_read_written; [done|].
  unfold bridge_write, u64_max, BRIDGE_MAX_LINE in *. rewrite length_app in Hl. cbn [length] in Hl. lia.
Qed.
End responses.

Lemma response_oracle_true `{JT : !JsonText, JO : !JsonTextOk} data : response_oracle data = true.
Proof.
  unfold response_oracle. pose proof (parsed_read (JC := envelope_codec) data) as Hp.
  pose proof (response_oracle_wire (JC := envelope_codec) data (envelope_rereads (T := BridgeResp))) as Hw.
  destruct (@bridge_read BridgeResp envelope_codec data) as [[[wire|]|e] rest].
  - pose proof (reading_is_try_from wire) as Hr. destruct (ParsedResp_try_from wire) as [p|] eqn:Et.
    + rewrite Hp. destruct Hr as [Hid ->]. rewrite (bool_decide_eq_true_2 _ Hid), bool_decide_eq_true_2 by done.
      cbn [andb]. cbv zeta. destruct (Z.leb_spec (Z.of_nat (length (@bridge_write _ envelope_codec wire))) BRIDGE_MAX_LINE) as [Hl|]; [|done].
      specialize (Hw Hl). pose proof (parsed_read (JC := envelope_codec) (@bridge_write _ envelope_codec wire)) as Ha.
      rewrite Hw, Et in Ha. rewrite Ha. by rewrite !bool_decide_eq_true_2.
    + destruct Hp as [x ->]. by apply bool_decide_eq_true_2.
  - by rewrite Hp.
  - by destruct Hp as [x ->].
Qed.

(** ** The classifier *)

Lemma unique_browsers_spec seen l :
  NoDup (unique_browsers seen l) /\ forall b, b ∈ unique_browsers seen l <-> b ∈ l /\ b ∉ seen.
Proof.
  revert seen. induction l as [|b l IH]; intros seen; cbn [unique_browsers]; [split; [constructor|set_solver]|].
  case_bool_decide as Hb; [destruct (IH seen) as [H1 H2]; split; [done|set_solver]|].
  destruct (IH (b :: seen)) as [H1 H2]. split; [constructor; [rewrite H2; set_solver|done]|].
  intros x. rewrite !elem_of_cons, H2, not_elem_of_cons. destruct (decide (x = b)); naive_solver.
Qed.

Lemma unique_browsers_cons b l : unique_browsers [] (b :: l) <> [].
Proof.
  intros H. pose proof (proj2 (unique_browsers_spec [] (b :: l)) b) as [_ Hb]. rewrite H in Hb.
  assert (b ∈ []) by (apply Hb; set_solver). set_solver.
Qed.

Lemma overlay_take_field_ok m o f o' :
  overlay_ok o -> overlay_take_field m (Ok o) f = Ok o' -> overlay_ok o'.
Proof.
  intros Ho H. unfold overlay_take_field in H. cbn [mbind result_mbind] in H. destruct (kind f) as [g|g|g].
  - apply fmap_Ok in H as (x & _ & <-). intros h z Hz. apply (Ho h). by destruct o, g.
  - apply fmap_Ok in H as (x & Hx & <-). intros h z Hz. destruct (decide (h = g)) as [->|Hne].
    + assert (x = Some z) as -> by (by destruct o, g). apply optional_Ok in Hx as (j & Hj).
      unfold ms_take in Hj. inv_res. unfold u64_take in *. destruct j; try done. destruct (_ && _) eqn:E; [|done].
      apply andb_true_iff in E as [E _]. apply Z.leb_le in E. inv_res. unfold Ms_try_from in *.
      match goal with H : (if (?a <? ?b)%Z then _ else _) = _ |- _ => destruct (Z.ltb_spec a b); [done|] end.
      inv_res. lia.
    + apply (Ho h). by destruct o, g, h.
  - apply fmap_Ok in H as (x & _ & <-). intros h z Hz. apply (Ho h). by destruct o, g.
Qed.

Lemma overlay_de_ok m o : overlay_de m = Ok o -> overlay_ok o.
Proof.
  unfold overlay_de. intros H. inv_res.
  assert (forall l o0, overlay_ok o0 -> foldl (overlay_take_field m) (Ok o0) l = Ok o -> overlay_ok o) as Hfold.
  { induction l as [|f l IH]; intros o0 Ho0 Hf; cbn [foldl] in Hf; [by injection Hf as <-|].
    destruct (overlay_take_field m (Ok o0) f) as [o1|e] eqn:E.
    - eapply IH; [|exact Hf]. by eapply overlay_take_field_ok.
    - exfalso. clear -Hf. induction l as [|g l IH]; [done|]. by apply IH. }
  eapply Hfold; [|done]. by intros [].
Qed.

Lemma repair_take_ok name j l : repair_take name j = Ok l -> l <> [] /\ NoDup l.
Proof.
  unfold repair_take. intros H. apply bind_Ok in H as (keys & _ & H). destruct keys as [|k keys]; [done|].
  cbn [length Nat.eqb] in H. apply bind_Ok in H as (bs & Hb & H). injection H as <-.
  destruct bs as [|b bs].
  - exfalso. unfold ok_or in Hb. destruct (mapM browser_from_key (k :: keys)) as [x|] eqn:E; [|done].
    injection Hb as ->. apply mapM_Some_1 in E. inversion E.
  - split; [apply unique_browsers_cons|apply unique_browsers_spec].
Qed.

Lemma name_take_ok name j n : name_take name j = Ok n -> ClientName_try_from n = Ok n.
Proof.
  unfold name_take. intros H. inv_res. unfold ClientName_try_from in *. destruct (validate_label _) eqn:E; [|done].
  inv_res. by rewrite E.
Qed.

Lemma anchor_de_ok name m a :
  anchor_de name m = Ok a ->
  match a with AnchorHash h => HashDigest_try_from h = Ok h | AnchorSigner s => SignerId_try_from s = Ok s end.
Proof.
  unfold anchor_de. intros H.
  apply bind_Ok in H as (u & _ & H). apply bind_Ok in H as (k & _ & H). apply bind_Ok in H as (v & _ & H).
  destruct (String.eqb k "hash"); [|destruct (String.eqb k "signer"); [|done]];
    apply fmap_Ok in H as (x & Hx & <-); apply map_err_Ok in Hx.
  - unfold HashDigest_try_from in *. destruct (_ && _) eqn:E; [|done]. injection Hx as <-. by rewrite E.
  - unfold SignerId_try_from in *. destruct (str_is_empty v) eqn:E1; [done|].
    destruct (str_contains NUL v) eqn:E2; [done|]. injection Hx as <-. by rewrite E1, E2.
Qed.

Lemma anchor_take_ok name j a :
  anchor_take name j = Ok a ->
  match a with AnchorHash h => HashDigest_try_from h = Ok h | AnchorSigner s => SignerId_try_from s = Ok s end.
Proof.
  unfold anchor_take. destruct j as [| | | | |[|? [|? []]]|]; try (by intros [=]); apply anchor_de_ok.
Qed.

Lemma limit_take_ok name j n : limit_take name j = Ok n -> (1 <= n <= MAX_AUDIT_READ_LIMIT)%Z.
Proof.
  unfold limit_take. intros H. inv_res. destruct (_ && _) eqn:E; [|done]. inv_res.
  apply andb_true_iff in E as [E1 E2]. apply Z.leb_le in E1, E2. done.
Qed.

Lemma extension_kind_take_ok name j k : extension_kind_take name j = Ok k -> k ∈ EXTENSION_AUDIT_KINDS.
Proof.
  unfold extension_kind_take. intros H. apply bind_Ok in H as (s & _ & H). unfold ok_or in H.
  destruct (extension_kind s) as [x|] eqn:E; [|done]. injection H as <-. unfold extension_kind in E.
  by apply find_Some_iff in E as [E _].
Qed.

Lemma u64_take_range name j n : u64_take name j = Ok n -> (0 <= n <= u64_max)%Z.
Proof.
  unfold u64_take. destruct j; try done. destruct (_ && _) eqn:E; [|done]. intros [= <-].
  apply andb_true_iff in E as [E1 E2]. apply Z.leb_le in E1, E2. done.
Qed.

Lemma overlay_take_ok name j o : overlay_take name j = Ok o -> overlay_ok o.
Proof. unfold overlay_take. destruct j; try done; [destruct (_ =? _)%nat; [|done]|]; apply overlay_de_ok. Qed.

(** A request that was read holds what its types guarantee. *)
Lemma request_de_ok t m r : request_de t m = Ok r -> request_ok r.
Proof.
  destruct t; unfold request_de, empty_request; intros H; try discriminate H; inv_res; try exact I.
  all: repeat match goal with
       | H : needed name_take _ _ = Ok _ |- _ => apply needed_Ok in H as (? & ?%name_take_ok)
       | H : needed anchor_take _ _ = Ok _ |- _ => apply needed_Ok in H as (? & ?%anchor_take_ok)
       | H : needed extension_kind_take _ _ = Ok _ |- _ => apply needed_Ok in H as (? & ?%extension_kind_take_ok)
       | H : needed overlay_take _ _ = Ok _ |- _ => apply needed_Ok in H as (? & ?%overlay_take_ok)
       | H : needed u64_take _ _ = Ok _ |- _ => apply needed_Ok in H as (? & ?%u64_take_range)
       | H : optional limit_take _ _ = Ok ?o |- _ => apply optional_Ok in H; destruct o; [destruct H as (? & ?%limit_take_ok)|]
       | H : optional repair_take _ _ = Ok ?o |- _ => apply optional_Ok in H; destruct o; [destruct H as (? & ?%repair_take_ok)|]
       end; done.
Qed.

Lemma HostRequest_de_ok frame r : HostRequest_de frame = Ok r -> request_ok r.
Proof.
  unfold HostRequest_de. destruct frame; try done. intros H. inv_res. by eapply request_de_ok.
Qed.

Lemma type_field_tag frame t : host_control_type frame = Some t <-> type_field frame = Some (tag_name t).
Proof.
  unfold host_control_type, type_field, json_get. destruct (as_object frame) as [m|]; [|done]. cbn [mbind option_bind].
  destruct (member "type" m) as [j|]; [|done]. cbn [mbind option_bind]. destruct (as_str j) as [s|]; [|done].
  cbn [mbind option_bind]. rewrite tag_of_name_Some. naive_solver.
Qed.

Lemma control_handled frame r :
  classify_nm_frame frame = Handle r -> host_control_type frame = Some (request_tag r) /\ HostRequest_de frame = Ok r.
Proof.
  unfold classify_nm_frame. destruct (host_control_type frame) as [t|] eqn:E; [|done].
  destruct (HostRequest_de frame) as [q|] eqn:Er; [|done]. intros [= ->]. split; [|done].
  destruct frame as [| | | | | |m]; try done. apply host_control_type_Some in E.
  unfold HostRequest_de, needed in Er. rewrite E in Er. cbn [str_take mbind result_mbind] in Er.
  rewrite tag_of_name_name in Er. cbn [ok_or mbind result_mbind] in Er. by apply request_de_tag in Er as [-> _].
Qed.

Lemma classify_oracle_true frame : classify_oracle frame = true.
Proof.
  unfold classify_oracle. unfold classify_nm_frame at 1.
  destruct (host_control_type frame) as [t|] eqn:Et.
  - pose proof (proj1 (type_field_tag _ _) Et) as Hf. destruct (HostRequest_de frame) as [r|e] eqn:Er.
    + pose proof (HostRequest_de_ok _ _ Er) as Hok. cbv zeta. rewrite (classify_request r Hok).
      assert (classify_nm_frame frame = Handle r) as Hc by (unfold classify_nm_frame; by rewrite Et, Er).
      rewrite !bool_decide_eq_true_2; [done|done|]. rewrite Hf.
      assert (request_tag r = t) as <-.
      { apply (inj Some). rewrite <- Et. symmetry. by apply control_handled in Hc as [? _]. }
      apply type_field_tag, host_control_type_Some. by destruct r.
    + by apply bool_decide_eq_true_2.
  - apply bool_decide_eq_true_2. unfold spelled_tag. destruct (type_field frame) as [s|] eqn:Es; [|done].
    cbn [mbind option_bind]. destruct (tag_of_name s) as [t|] eqn:E; [|done].
    apply tag_of_name_Some in E as ->. apply type_field_tag in Es. congruence.
Qed.

(** ** Registrations *)

Lemma registration_manifest_true `{JV : JsonValue, SD : StrDebug} contents : registration_manifest contents = true.
Proof.
  unfold registration_manifest, expect_ours, expect_pointer_ours, manifest_ownership, pointer_ownership.
  destruct (from_str contents) as [v|e]; [|done]. cbn [ok mbind option_bind]. apply andb_true_iff. split.
  - repeat case_bool_decide; done.
  - destruct (as_object v) as [object|]; [|done]. destruct (length object =? 1)%nat; [|done]. cbn [negb andb].
    by case_bool_decide.
Qed.

(** ** Policy records *)

Lemma fold_idempotent b o : fold (fold b o) o = fold b o.
Proof. apply values_ext. intros f. rewrite !fold_get. by destruct (overlay_get o f). Qed.

Lemma values_eq_refl v : values_eq v v = true.
Proof.
  apply forallb_forall. intros f _. apply negb_true_iff. unfold field_differs. by rewrite field_relaxes_refl.
Qed.

Lemma check_fold_true b o : (check_fold b o).1 = true.
Proof. unfold check_fold. cbv zeta. cbn [fst]. rewrite fold_idempotent. apply values_eq_refl. Qed.

Lemma partition_true values : partition_oracle values = true.
Proof.
  apply forallb_forall. intros a _. apply forallb_forall. intros b _. unfold restricts_or_equal. by destruct (relaxes a b).
Qed.

Section policy_lemmas.
Context `{CO : PolicyCodec, OK : !PolicyCodecOk, SB : !StrictBase64}.

Lemma spelling_true data : spelling_oracle data = true.
Proof using OK SB.
  unfold spelling_oracle. destruct (from_utf8 data) as [text|]; [|done].
  destruct (base64_decode text) as [b|] eqn:E; [|done]. apply bool_decide_eq_true_2.
  exact (one_spelling _ _ b (base64_roundtrip b) E).
Qed.

Lemma check_doc_true b doc : doc_of_bytes b = Ok doc -> check_doc doc = true.
Proof. intros H. apply bool_decide_eq_true_2. by eapply doc_roundtrip, doc_parse_ok. Qed.

Lemma by_hand_eq store : by_hand store = ok (baseline_doc store).
Proof.
  unfold by_hand, baseline_doc. destruct (base64_decode _) as [b|]; [|done]. cbn [ok map_err mbind option_bind result_mbind].
  destruct (doc_of_bytes b) as [doc|]; [|done]. cbn [ok map_err mbind option_bind result_mbind].
  by destruct (doc_validate doc).
Qed.

Lemma check_store_true store : (check_store store).1 = true.
Proof.
  unfold check_store, effective. rewrite by_hand_eq, bool_decide_eq_true_2 by done.
  destruct (baseline_doc store) as [doc|] eqn:E; [|done]. cbn [ok mbind result_mbind].
  assert (exists b, doc_of_bytes b = Ok doc) as (b & Hb) by (unfold baseline_doc in E; inv_res; eauto).
  unfold check_fold. cbv zeta. cbn [fst]. rewrite (check_doc_true b doc Hb), fold_idempotent, values_eq_refl. cbn [andb].
  unfold restricts_or_equal. destruct (relaxes _ (doc_values doc)); cbn [negb]; [done|apply values_eq_refl].
Qed.

Lemma policy_doc_true read_overlay decode_store data : policy_doc read_overlay decode_store data = true.
Proof.
  unfold policy_doc.
  set (d1 := match ok (doc_of_bytes data) with Some doc => _ | None => _ end).
  set (d2 := match read_overlay data with Some o => _ | None => _ end).
  set (d3 := match decode_store data with Some s => _ | None => _ end).
  assert (d1.1 = true) as H1.
  { unfold d1. destruct (doc_of_bytes data) as [doc|] eqn:E; [|done]. by eapply check_doc_true. }
  assert (d2.1 = true) as H2.
  { unfold d2. destruct (read_overlay data) as [o|]; [|done]. pose proof (check_fold_true values_default o) as H.
    by destruct (check_fold values_default o). }
  assert (d3.1 = true) as H3.
  { unfold d3. destruct (decode_store data) as [s|]; [|done]. apply check_store_true. }
  destruct d1 as [o1 v1], d2 as [o2 v2], d3 as [o3 v3]. cbn [fst] in *. subst.
  by rewrite partition_true, spelling_true.
Qed.
End policy_lemmas.

(** ** Authenticator data *)

Lemma parse_attested_on_curve `{CL : CoseLib} b attested rest :
  parse_attested b = Ok (attested, rest) -> on_curve (sec1 (ac_public_key attested)) = true.
Proof.
  unfold parse_attested. intros H.
  apply bind_Ok in H as ([? ?] & _ & H). apply bind_Ok in H as ([? ?] & _ & H). apply bind_Ok in H as ([? ?] & _ & H).
  apply bind_Ok in H as (? & _ & H). apply bind_Ok in H as ([pk r] & Hk & H). injection H as <- _.
  apply map_err_Ok in Hk. unfold parse_cose_prefix in Hk. apply bind_Ok in Hk as ([key r'] & _ & Hk).
  apply bind_Ok in Hk as (pk' & Hk & H). injection H as -> _. cbn [ac_public_key].
  unfold from_cose_key in Hk. destruct (negb _); [done|]. destruct (negb _); [done|]. destruct (negb _); [done|].
  apply bind_Ok in Hk as (s & _ & Hk). destruct (_ || _); [done|]. unfold from_sec1 in Hk.
  destruct (on_curve s) eqn:E; [|done]. by injection Hk as <-.
Qed.

Lemma parsed_key_on_curve `{CL : CoseLib} b a :
  AuthenticatorData_parse b = Ok a -> forall attested, ad_attested a = Some attested ->
  on_curve (sec1 (ac_public_key attested)) = true.
Proof.
  unfold AuthenticatorData_parse. intros H attested Ha.
  repeat match type of H with
         | (_ ≫= _) = Ok _ => apply bind_Ok in H as ([? ?] & _ & H)
         end.
  destruct (has_flag _ RESERVED_FLAGS); [done|]. destruct (has_flag _ FLAG_EXTENSIONS); [done|].
  apply bind_Ok in H as (backup & _ & H). apply bind_Ok in H as ([att rest] & Hatt & H).
  destruct (negb _); [done|]. injection H as <-. cbn [ad_attested] in Ha. subst att.
  destruct (has_flag _ FLAG_ATTESTED_CREDENTIAL); [|done].
  apply bind_Ok in Hatt as ([at_ r] & Hp & Hatt). injection Hatt as -> _. by eapply parse_attested_on_curve.
Qed.

Lemma webauthn_authdata_true `{CL : CoseLib} data : webauthn_authdata data = true.
Proof.
  unfold webauthn_authdata. destruct (AuthenticatorData_parse data) as [a|] eqn:E; [|done]. cbn [ok mbind option_bind].
  destruct (ad_attested a) as [attested|] eqn:Ea; [|done]. unfold from_sec1.
  rewrite (parsed_key_on_curve _ _ E _ Ea). apply bool_decide_eq_true_2. by destruct (ac_public_key attested).
Qed.

(** ** Challenges and MACs *)

Lemma split_nul_free b : Byte.x00 ∉ b -> split_nul b = [b].
Proof.
  induction b as [|x b IH]; intros H; [done|]. cbn [split_nul].
  destruct (Byte.eqb x Byte.x00) eqn:E; [apply Byte.byte_dec_bl in E; set_solver|]. by rewrite IH by set_solver.
Qed.

Lemma split_nul_app b c : Byte.x00 ∉ b -> split_nul (b ++ Byte.x00 :: c) = b :: split_nul c.
Proof.
  induction b as [|x b IH]; intros H; [done|]. cbn [app split_nul].
  destruct (Byte.eqb x Byte.x00) eqn:E; [apply Byte.byte_dec_bl in E; set_solver|]. by rewrite IH by set_solver.
Qed.

(** The builder accepts exactly the documented fields. *)
Lemma challenge_matrix nonce context :
  is_ok (challenge_message nonce context) =
  (negb (str_is_empty nonce) && (str_len nonce <=? MAX_NONCE_LEN)%Z && negb (str_contains NUL nonce)) &&
  match context with
  | Some c => (str_len c <=? MAX_CONTEXT_LEN)%Z && negb (str_contains NUL c)
  | None => true
  end.
Proof.
  unfold challenge_message, domain_message, bounded_nul_free. rewrite !Z.leb_antisym.
  destruct (str_is_empty nonce); [done|]. destruct (MAX_NONCE_LEN <? str_len nonce)%Z; [done|].
  destruct (str_contains NUL nonce); [done|]. cbn [negb andb].
  destruct context as [c|]; [|done]. cbn [default id]. rewrite Z.leb_antisym.
  destruct (str_is_empty c) eqn:E; [by destruct c|]. destruct (MAX_CONTEXT_LEN <? str_len c)%Z; [done|].
  by destruct (str_contains NUL c).
Qed.

Lemma enclave_challenge_true nonce context : enclave_challenge nonce context = true.
Proof.
  unfold enclave_challenge. cbv zeta. rewrite <- challenge_matrix.
  destruct (challenge_message nonce context) as [m|e] eqn:Em; [|done]. cbn [is_ok andb].
  apply domain_message_Ok in Em as (Hn & Hc & ->). apply bool_decide_eq_true_2.
  rewrite !split_nul_app, split_nul_free by (by apply nul_not_in_bytes || by apply (nul_not_in_bytes CHALLENGE_DOMAIN)).
  done.
Qed.

Lemma handshake_verify_true `{DG : Digest, ML : MacLib} key nonce label :
  (forall b, hex_decode (hex_encode b) = Some b) -> handshake_verify key nonce label = true.
Proof.
  intros Hhex. unfold handshake_verify, compute_mac, verify_mac. destruct (hmac_new key) as [mac|]; [|done].
  cbn [ok_or mbind result_mbind]. rewrite Hhex. cbn [ok_or mbind result_mbind]. by rewrite bool_decide_eq_true_2.
Qed.

(** * Properties *)

(** C6: No assertion of a fuzz target can fail, provided the external codecs read back
    what they print and base64 accepts one spelling per byte string. On any bytes: a
    native-messaging frame that decodes re-encodes to one that decodes to the same value,
    or is over the outgoing cap; a line that reads as a harness message, a bridge request, a
    handshake or a role re-encodes to a line, cap permitting, that reads as the same
    message; a bridge response is read as the one consistent reading of its fields, or
    refused; the classifier's verdict agrees with the frame's [type], and a request
    classifies to itself from its serialization; a manifest and a pointer are ours exactly
    in the one shape this project writes; a stored policy means what its bytes spell, in
    their one base64 spelling, and folding is idempotent; a credential key survives its
    storage spelling; the challenge builder accepts exactly the documented fields and its
    message splits back into them; a MAC verifies under its key. *)
Theorem no_input_trips_an_oracle `{JT : !JsonText, JTO : !JsonTextOk, JC : !JsonCodec json, JCO : !JsonCodecOk json}
    `{JV : JsonValue, SD : StrDebug, CO : PolicyCodec, OK : !PolicyCodecOk, SB : !StrictBase64, CL : CoseLib, DG : Digest, ML : MacLib}
    (data : bytes) (contents : string) (read_overlay : bytes -> option PolicyOverlay)
    (decode_store : bytes -> option PolicyStore) (key : bytes) (nonce : string) (context label : option string) :
  (forall b, hex_decode (hex_encode b) = Some b) ->
  nm_frame data = true /\ mcp_jsonrpc data = true /\ bridge_envelope data = true /\ handshake data = true /\
  attach data = true /\ classify_frame data = true /\ registration_manifest contents = true /\
  policy_doc read_overlay decode_store data = true /\ webauthn_authdata data = true /\
  enclave_challenge nonce context = true /\ handshake_verify key nonce label = true.
Proof.
  intros Hhex.
  assert (0 <= BRIDGE_MAX_LINE < u64_max)%Z as Hb by (unfold BRIDGE_MAX_LINE, u64_max; lia).
  split; [apply nm_frame_true; intros b v _; apply json_roundtrip|].
  split; [by apply line_round_trips_true; [apply envelope_rereads|]|].
  split.
  { unfold bridge_envelope, bridge_round_trips. rewrite !line_round_trips_true; [apply response_oracle_true|..]; try done.
    - apply envelope_rereads.
    - intros b t _. apply codec_rereads. }
  split; [by apply line_round_trips_true; [apply envelope_rereads|]|].
  split; [by apply line_round_trips_true; [apply envelope_rereads|]|].
  split; [unfold classify_frame; destruct (from_slice data); [apply classify_oracle_true|done]|].
  split; [apply registration_manifest_true|]. split; [apply policy_doc_true|].
  split; [apply webauthn_authdata_true|]. split; [apply enclave_challenge_true|by apply handshake_verify_true].
Qed.

(** * Witness *)

Module OraclesExample.
#[export] Instance frames : JsonCodec json := line_codec c_json.
#[export] Instance frames_ok : JsonCodecOk json := line_codec_ok c_json.
#[export] Instance text : JsonText := {| parse_text := from_slice; print_text := to_vec; refusal_text _ := "refused" |}.
#[export] Instance text_ok : JsonTextOk.
Proof. split; [apply json_roundtrip|apply json_one_line|apply json_no_cr]. Qed.

#[export] Instance spelled_once : StrictBase64.
Proof.
  intros s s' b H H'. assert (String.list_byte_of_string s = String.list_byte_of_string s') as E
    by (change (Ok (E := string) (String.list_byte_of_string s) = Ok b) in H;
        change (Ok (E := string) (String.list_byte_of_string s') = Ok b) in H'; congruence).
  apply (f_equal String.string_of_list_byte) in E. by rewrite !String.string_of_list_byte_of_string in E.
Qed.

Definition spoken : Handshake := Response "00ff" (Some "work").
Definition data : bytes := @bridge_write _ envelope_codec spoken.
End OraclesExample.

Section witness.
Import OraclesExample.
#[local] Existing Instances RegistrationExample.toy_json RegistrationExample.quoted CoseExample.lib
  HandshakeExample.digest HandshakeExample.mac_lib.

Lemma no_input_trips_an_oracle_witness :
  @bridge_read _ envelope_codec data = (Ok (Some spoken), []) /\ handshake data = true.
Proof.
  split.
  - unfold data. rewrite <- (app_nil_r (@bridge_write _ envelope_codec spoken)). apply ndjson_read_written.
    + eapply (envelope_rereads (to_vec (env_put spoken))). vm_compute. reflexivity.
    + split; vm_compute; reflexivity.
  - destruct (no_input_trips_an_oracle data "" (fun _ => None) (fun _ => None) [] "n0" None None) as (_ & _ & _ & H & _);
      [|exact H].
    intros b. change (Some (as_bytes (String.string_of_list_byte b)) = Some b). f_equal.
    apply String.list_byte_of_string_of_list_byte.
Defined.
End witness.
