(* ===== verification/Install.v ===== *)
(** Install: [doctor --fix] and [uninstall] as commands
    (src/src/packages/core/src/registration/command.rs and privilege.rs, with
    [remove_wrappers] of wrapper.rs): who may run them, which targets they select, and the
    engine of Registration.v driven over each.

    The process facts the commands read (privilege, environment, this binary's resolved
    path) are the record [Env]; what they print or log is a list of [Output]. *)
From S2P Require Import Prelude Json Control WebAuthn Browsers Presence Wrapper Machine Registration.
From Stdlib Require Import Ascii.
From stdpp Require Import base list gmap sets strings pretty.

(** * Privilege *)

Inductive Privilege := PrivUser | PrivRoot | PrivElevated.

(** [Privilege::current]: root by the effective user id on Unix, elevation by a writable
    handle on HKLM on Windows. *)
Definition privilege_current `{Build} (is_root hklm_writable : bool) : Privilege :=
  if windows then (if hklm_writable then PrivElevated else PrivUser)
  else if is_root then PrivRoot else PrivUser.

(** [Privilege::admit]. *)
Definition privilege_allows (p : Privilege) (scope : Scope) : result string unit :=
  match p, scope with
  | PrivUser, ScopeUser | PrivRoot, ScopeSystem | PrivElevated, _ => Ok tt
  | PrivUser, ScopeSystem =>
      Err "--system writes the root-owned directories every account's browser reads; run it as root (sudo), or drop --system to register for this account"
  | PrivRoot, ScopeUser =>
      Err "running as root, which has no browser of its own: pass --system for the machine-wide registration, or run this as the account whose browser it is"
  end.

(** * Targets *)

Inductive FixTargets :=
| FixDetected
| FixAll
| FixBrowsers (browsers : list Browser)
| FixManifestDirs (dirs : list string).

Inductive FixError :=
| FixEnvironment (e : string)
| FixPrivilege (e : string)
| FixNoTargets (e : string)
| FixHostExe (e : io_error)
| FixUnlaunchable (why : string).

Definition FixError_display (e : FixError) : string :=
  match e with
  | FixEnvironment e | FixPrivilege e | FixNoTargets e => e
  | FixHostExe e => "cannot resolve this binary's path: " +:+ io_msg e
  | FixUnlaunchable why => why
  end.

Definition NOTHING_TO_REGISTER : Z := 3.

Definition fix_exit_code (e : FixError) : Z :=
  match e with
  | FixNoTargets _ => NOTHING_TO_REGISTER
  | FixEnvironment _ | FixPrivilege _ | FixHostExe _ | FixUnlaunchable _ => 1
  end.

Definition cli_guidance (e : FixError) (scope : Scope) : string :=
  match e with
  | FixNoTargets reason =>
      reason +:+ "; or pass "
      +:+ match scope with
          | ScopeUser => "--browser <keys>, --all, or --manifest-dir <dir>"
          | ScopeSystem => "--browser <keys> or --all"
          end
  | FixEnvironment _ | FixPrivilege _ | FixHostExe _ | FixUnlaunchable _ => FixError_display e
  end.

Record TargetOutcome := mkOutcome { o_target : string; o_result : result string (list string) }.

Definition known_keys : string := str_join "," (browser_key <$> ALL_BROWSERS).

(** The pointers of [more] that [ps] lacks, appended in order. *)
Definition add_pointers (ps more : list ExtensionPointer) : list ExtensionPointer :=
  foldl (fun ps p => if bool_decide (p ∈ ps) then ps else ps ++ [p]) ps more.

Fixpoint merge_target (out : list Target) (t : Target) : list Target :=
  match out with
  | [] => [t]
  | shared :: out =>
      if bool_decide (t_registration shared = t_registration t) then
        mkTarget (t_label shared) (t_name shared) (t_registration shared) (add_pointers (t_pointers shared) (t_pointers t)) :: out
      else shared :: merge_target out t
  end.

Definition browser_targets (entries : list BrowserEntry) (scope : Scope) : list Target :=
  foldl merge_target [] ((fun e => for_browser e scope) <$> entries).

(** [Path::is_dir]. *)
Definition is_dir (m : Machine) (path : string) : bool :=
  match files m !! path with Some (NDir _ _) => true | _ => false end.

Section commands.
Context `{PS : PathStyle} `{BL : Build} `{SD : StrDebug} `{JV : JsonValue}.
Implicit Types (m : Machine) (io : Io).

Fixpoint select_entries (entries : list BrowserEntry) (browsers : list Browser) : result FixError (list BrowserEntry) :=
  match browsers with
  | [] => Ok []
  | b :: browsers =>
      entry ← ok_or (List.find (fun e => bool_decide (be_browser e = b)) entries)
                (FixNoTargets ("browser " +:+ str_debug (browser_key b) +:+ " missing from the resolved set"));
      rest ← select_entries entries browsers;
      Ok (entry :: rest)
  end.

Definition NO_BROWSER : string :=
  "no Chromium-family browser detected (looked for " +:+ known_keys
  +:+ "): install Chrome, Brave or Edge and open it once, then repair again".

Definition select_targets (targets : FixTargets) (entries : list BrowserEntry) (scope : Scope) m :
    result FixError (list Target) :=
  match targets with
  | FixManifestDirs dirs => Ok (for_explicit_dir <$> dirs)
  | FixAll => Ok (browser_targets entries scope)
  | FixBrowsers browsers => (fun selected => browser_targets selected scope) <$> select_entries entries browsers
  | FixDetected =>
      match browser_targets (List.filter (fun e => detected (is_dir m) e scope) entries) scope with
      | [] => Err (FixNoTargets NO_BROWSER)
      | found => Ok found
      end
  end.

(** * doctor --fix *)

Record Env := mkEnv {
  env_os : Os;
  env_privilege : Privilege;
  env_var : string -> option string;
  (** [resolve_host_exe]: this binary's canonical path. *)
  env_exe : result io_error string
}.

Definition registrar_for (env : Env) (dirs : BaseDirs) (scope : Scope) (foreign : ForeignManifest) (exe : string) : Registrar :=
  mkRegistrar exe (install_dir (env_os env) dirs scope)
    (match scope with ScopeUser => RsUser | ScopeSystem => RsSystem (system_root dirs) end)
    foreign PINNED_EXTENSION_ID.

Fixpoint register_all (R : Registrar) io (ts : list Target) m : Machine * list TargetOutcome :=
  match ts with
  | [] => (m, [])
  | t :: ts =>
      let (m, r) := register R io t m in
      let (m, os) := register_all R io ts m in
      (m, mkOutcome (t_name t) r :: os)
  end.

(** Everything decided before the first write. *)
Definition plan_fix (env : Env) (targets : FixTargets) (scope : Scope) (foreign : ForeignManifest) m :
    result FixError (Registrar * list Target) :=
  _ ← map_err FixPrivilege (privilege_allows (env_privilege env) scope);
  dirs ← map_err FixEnvironment (from_env (env_os env) (env_var env) scope);
  ts ← select_targets targets (resolve (env_os env) dirs) scope m;
  exe ← map_err FixHostExe (env_exe env);
  _ ← match scope with
      | ScopeSystem => map_err FixUnlaunchable (launchable_by_every_account m exe (system_root dirs))
      | ScopeUser => Ok tt
      end;
  Ok (registrar_for env dirs scope foreign exe, ts).

Definition fix_ (env : Env) io (targets : FixTargets) (scope : Scope) (foreign : ForeignManifest) m :
    Machine * result FixError (list TargetOutcome) :=
  match plan_fix env targets scope foreign m with
  | Err e => (m, Err e)
  | Ok (R, ts) => let (m, os) := register_all R io ts m in (m, Ok os)
  end.

Inductive Output := Stdout (line : string) | Warn (line : string) | Error (line : string).

Definition NEXT_STEP : string :=
  "next: restart the browser so it re-reads its registrations. Until the extension's Web Store" +:+ nl +:+
  "listing is published, load the extension unpacked (chrome://extensions, Developer mode:" +:+ nl +:+
  "extension/dist from the release archive, build/extension/chrome-mv3 from a source build);" +:+ nl +:+
  "once it is, browsers registered by name on macOS and Windows offer to enable Genkan" +:+ nl +:+
  "(no pointer is written on Linux or for --manifest-dir). Re-check with" +:+ nl +:+
  "`genkan doctor`.".

Definition outcome_output (o : TargetOutcome) : list Output :=
  match o_result o with
  | Ok lines => Stdout <$> lines
  | Err e => [Error (o_target o +:+ ": " +:+ e)]
  end.

Definition failures (os : list TargetOutcome) : nat := length (List.filter (fun o => negb (is_ok (o_result o))) os).

Definition run_fix (env : Env) io (targets : FixTargets) (scope : Scope) m : Machine * list Output * Z :=
  match fix_ env io targets scope Replace m with
  | (m, Err e) =>
      let code := fix_exit_code e in
      (m, [(if (code =? NOTHING_TO_REGISTER)%Z then Warn else Error) (cli_guidance e scope)], code)
  | (m, Ok os) =>
      let report := Stdout ("genkan doctor --fix (host id " +:+ NATIVE_HOST_ID +:+ ")")
        :: mjoin (outcome_output <$> os)
        ++ [Stdout ("allowed origin: chrome-extension://" +:+ PINNED_EXTENSION_ID +:+ "/"); Stdout NEXT_STEP] in
      if (failures os =? 0)%nat then (m, report, 0%Z)
      else (m, report ++ [Error (pretty (failures os) +:+ " target(s) failed; see above")], 1%Z)
  end.

(** * uninstall *)

Definition wrapper_names : list string :=
  wrapper_name None :: ((fun b => wrapper_name (Some (browser_key b))) <$> ALL_BROWSERS).

Definition remove_wrapper io (path : string) m (r : Removal) : Machine * Removal :=
  match read_to_string m path with
  | Err e =>
      if bool_decide (io_kind e = NotFound) then (m, r)
      else (m, refused_line r ("could not read " +:+ path +:+ ": " +:+ io_msg e +:+ " (left in place)"))
  | Ok contents =>
      if wrapper_is_ours contents then
        match remove_path io path m with
        | (m, Ok _) => (m, removed_line r ("removed wrapper " +:+ path))
        | (m, Err e) => (m, failed_line r e)
        end
      else (m, refused_line r ("refusing to remove " +:+ path +:+ ": not a genkan wrapper (left in place)"))
  end.

Fixpoint remove_each_wrapper io (paths : list string) m (r : Removal) : Machine * Removal :=
  match paths with
  | [] => (m, r)
  | path :: paths => let (m, r) := remove_wrapper io path m r in remove_each_wrapper io paths m r
  end.

(** [fs::remove_dir], whose result is ignored: an empty directory goes. *)
Definition remove_dir io (dir : string) m : Machine :=
  match io_remove io dir, files m !! dir with
  | None, Some (NDir false _) =>
      if bool_decide (map_Forall (fun p _ => parent p <> Some dir) (files m))
      then set_files m (delete dir (files m)) else m
  | _, _ => m
  end.

Definition remove_wrappers io (install_dir : string) m : Machine * Removal :=
  let (m, r) := remove_each_wrapper io (Browsers.join install_dir <$> wrapper_names) m no_removal in
  (remove_dir io install_dir m, r).

Fixpoint uninstall_all io (ts : list Target) m : Machine * list Removal :=
  match ts with
  | [] => (m, [])
  | t :: ts =>
      let (m, r) := uninstall io t m in
      let (m, rs) := uninstall_all io ts m in
      (m, r :: rs)
  end.

Definition uninstall_exit_code (rs : list Removal) : Z :=
  if existsb (fun r => negb (match rm_failed r with [] => true | _ => false end)) rs then 1 else 0.

Definition removal_output (name : string) (r : Removal) : list Output :=
  (Stdout <$> rm_lines r) ++ ((fun e => Warn (name +:+ ": " +:+ e)) <$> rm_refused r)
  ++ ((fun e => Error (name +:+ ": " +:+ e)) <$> rm_failed r).

Definition LEFT_UNTOUCHED : string :=
  "left untouched: this binary and your browsers. A browser drops the extension its pointer" +:+ nl +:+
  "installed on its next start; remove an unpacked extension yourself via chrome://extensions.".

(** The targets [uninstall] visits. *)
Definition uninstall_targets (os : Os) (dirs : BaseDirs) (scope : Scope) (manifest_dirs : list string) : list Target :=
  browser_targets (resolve os dirs) scope ++ (for_explicit_dir <$> manifest_dirs).

Definition run_uninstall (env : Env) io (scope : Scope) (manifest_dirs : list string) m : Machine * list Output * Z :=
  match privilege_allows (env_privilege env) scope with
  | Err e => (m, [Error e], 1%Z)
  | Ok _ =>
      match from_env (env_os env) (env_var env) scope with
      | Err e => (m, [Error e], 1%Z)
      | Ok dirs =>
          let ts := uninstall_targets (env_os env) dirs scope manifest_dirs in
          let (m, rs) := uninstall_all io ts m in
          let (m, w) := remove_wrappers io (install_dir (env_os env) dirs scope) m in
          (m, Stdout ("genkan uninstall (host id " +:+ NATIVE_HOST_ID +:+ ")")
              :: mjoin (zip_with (fun t r => removal_output (t_name t) r) ts rs)
              ++ (Stdout <$> rm_lines w) ++ (Warn <$> rm_refused w) ++ (Error <$> rm_failed w)
              ++ [Stdout LEFT_UNTOUCHED],
           uninstall_exit_code (rs ++ [w]))
      end
  end.
End commands.

(** * What a repair writes, a removal takes away *)

Section no_trace.
Context `{PS : PathStyle} `{BL : Build} `{SD : StrDebug} `{JV : JsonValue} `{JO : !JsonValueOk}.
Implicit Types (m : Machine) (io : Io) (R : Registrar) (t u : Target).

(** The targets to remove, the wrapper directory, and the paths and keys they stand for. *)
Context (us : list Target) (dir : string).

Definition manifest_paths : list string := (fun u => manifest_path (t_registration u)) <$> us.
Definition pointer_paths : list string := us ≫= (fun u => omap pointer_path (t_pointers u)).
Definition wrapper_paths : list string := Browsers.join dir <$> wrapper_names.

Definition manifest_key_of (hive : Hive) (key path : string) : Prop :=
  exists u, u ∈ us /\ t_registration u = RegistryReg hive key path.
Definition pointer_key_of (hive : Hive) (key : string) : Prop :=
  exists u, u ∈ us /\ PointerRegistry hive key ∈ t_pointers u.

(** Locations of different kinds never coincide. *)
Record Apart : Prop := mkApart {
  apart_mp p : p ∈ manifest_paths -> p ∉ pointer_paths;
  apart_mw p : p ∈ manifest_paths -> p ∉ wrapper_paths;
  apart_pw p : p ∈ pointer_paths -> p ∉ wrapper_paths;
  apart_key hive key path path' : manifest_key_of hive key path -> manifest_key_of hive key path' -> path = path';
  apart_keys hive key path : manifest_key_of hive key path -> ~ pointer_key_of hive key
}.
Context (apart : Apart).

Definition holds (own : string -> Prop) (node : option Node) : Prop :=
  fileview node = None \/ exists c mode, node = Some (NFile c mode) /\ own c.

Definition key_holds m (hive : Hive) (key name : string) (expected : string -> bool) : Prop :=
  registry m !! (hive, key) = None \/ is_ours (registry_slot m hive key name expected) = true.

Definition store_url (url : string) : bool := String.eqb url WEB_STORE_UPDATE_URL.

(** [m] is [m0] except that the locations of [us] may hold what this project writes there. *)
Record Managed m0 m : Prop := mkManaged {
  mg_rest p : p ∉ manifest_paths -> p ∉ pointer_paths -> p ∉ wrapper_paths ->
    fileview (files m !! p) = fileview (files m0 !! p);
  mg_manifest p : p ∈ manifest_paths -> holds (fun c => manifest_ownership c = Ours) (files m !! p);
  mg_pointer p : p ∈ pointer_paths -> holds (fun c => pointer_ownership c = Ours) (files m !! p);
  mg_wrapper p : p ∈ wrapper_paths -> holds (fun c => wrapper_is_ours c = true) (files m !! p);
  mg_key_rest k : (forall path, ~ manifest_key_of k.1 k.2 path) -> ~ pointer_key_of k.1 k.2 ->
    registry m !! k = registry m0 !! k;
  mg_key hive key path : manifest_key_of hive key path -> key_holds m hive key "" (fun v => same_windows_path v path);
  mg_pointer_key hive key : pointer_key_of hive key -> key_holds m hive key POINTER_VALUE_NAME store_url
}.

(** A repair whose targets and wrappers are among those. *)
Definition covered R (ts : list Target) : Prop :=
  r_install_dir R = dir /\ str_contains LF (host_exe R) = false /\
  forall t, t ∈ ts -> exists u, u ∈ us /\ t_registration u = t_registration t /\ t_pointers t ⊆ t_pointers u.

(** No failure of this kind leaves an empty key behind. *)
Definition no_half_set io : Prop := forall hive key e, io_reg_set io hive key <> Some (SetValue e).

Lemma label_wrapper_path R t : r_install_dir R = dir -> wrapper_path R (target_label t) ∈ wrapper_paths.
Proof.
  intros Hd. unfold wrapper_path, wrapper_paths. rewrite Hd. apply list_elem_of_fmap_2.
  unfold wrapper_names, target_label. destruct (t_label t) as [b|]; [|set_solver].
  cbn [fmap option_fmap option_map]. apply elem_of_cons. right. apply list_elem_of_fmap. exists b.
  split; [done|]. apply (bool_decide_unpack _). by destruct b.
Qed.

Lemma label_valid (t : Target) k : target_label t = Some k -> Identity.validate_label k = true.
Proof. unfold target_label. destruct (t_label t) as [[]|]; intros [= <-]; reflexivity. Qed.

(** Each planned file has a place among the managed ones, and holds what belongs there. *)
Lemma planned_file_managed R ts t path text x :
  covered R ts -> t ∈ ts -> planned_file R t path text x ->
  (path ∈ manifest_paths /\ manifest_ownership text = Ours) \/
  (path ∈ pointer_paths /\ pointer_ownership text = Ours) \/
  (path ∈ wrapper_paths /\ wrapper_is_ours text = true).
Proof.
  intros (Hd & Hlf & Hc) Hin Hp. destruct (Hc t Hin) as (u & Hu & Hreg & Hps).
  destruct Hp as [d Hr|text Hj|path Hpp].
  - right. right. split; [by apply label_wrapper_path|].
    rewrite script_recognised by (intros k Hk; eapply label_valid; eauto). by rewrite Hlf.
  - left. split; [|by eapply manifest_text_is_ours]. unfold manifest_paths. rewrite <- Hreg.
    by apply list_elem_of_fmap_2 with (f := fun u => manifest_path (t_registration u)).
  - right. left. split; [|apply pointer_text_is_ours]. apply list_elem_of_bind. exists u. split; [|done].
    by apply pointer_path_elem, Hps.
Qed.

Lemma planned_value_managed R ts t hive key name value :
  covered R ts -> t ∈ ts -> planned_value t hive key name value ->
  (name = "" /\ manifest_key_of hive key value) \/
  (name = POINTER_VALUE_NAME /\ value = WEB_STORE_UPDATE_URL /\ pointer_key_of hive key).
Proof.
  intros (_ & _ & Hc) Hin Hp. destruct (Hc t Hin) as (u & Hu & Hreg & Hps).
  destruct Hp as [h k path Hr|h k Hpp].
  - left. split; [done|]. exists u. by rewrite Hreg.
  - right. split_and!; [done..|]. exists u. split; [done|by apply Hps].
Qed.

Lemma holds_insert own c mode m p q :
  own c -> holds own (files m !! q) -> holds own (files (set_files m (<[p := NFile c mode]> (files m))) !! q).
Proof.
  intros Ho H. cbn [files set_files]. destruct (decide (q = p)) as [->|]; [|by rewrite lookup_insert_ne].
  rewrite lookup_insert_eq. right. eauto.
Qed.

Lemma insert_elsewhere m p node q : q <> p -> files (set_files m (<[p := node]> (files m))) !! q = files m !! q.
Proof. intros H. cbn [files set_files]. by rewrite lookup_insert_ne. Qed.

Lemma key_holds_ext m m' hive key name expected :
  registry m' !! (hive, key) = registry m !! (hive, key) ->
  key_holds m hive key name expected -> key_holds m' hive key name expected.
Proof. intros H. unfold key_holds. by rewrite H, (registry_slot_ext m m') by done. Qed.

Lemma write_managed m0 m path text mode :
  ((path ∈ manifest_paths /\ manifest_ownership text = Ours) \/
   (path ∈ pointer_paths /\ pointer_ownership text = Ours) \/
   (path ∈ wrapper_paths /\ wrapper_is_ours text = true)) ->
  Managed m0 m -> Managed m0 (set_files m (<[path := NFile text mode]> (files m))).
Proof.
  intros Hk [H1 H2 H3 H4 H5 H6 H7]. pose proof (apart_mp apart). pose proof (apart_mw apart). pose proof (apart_pw apart).
  constructor; [..|exact H5|exact H6|exact H7].
  - intros p Hm Hp Hw. rewrite insert_elsewhere; [by apply H1|]. intros ->. naive_solver.
  - intros p Hp. destruct Hk as [[Hk Ho]|[[Hk Ho]|[Hk Ho]]]; [apply holds_insert; auto|..];
      (rewrite insert_elsewhere; [by apply H2|]; intros ->; naive_solver).
  - intros p Hp. destruct Hk as [[Hk Ho]|[[Hk Ho]|[Hk Ho]]]; [|apply holds_insert; auto|];
      (rewrite insert_elsewhere; [by apply H3|]; intros ->; naive_solver).
  - intros p Hp. destruct Hk as [[Hk Ho]|[[Hk Ho]|[Hk Ho]]]; [..|apply holds_insert; auto];
      (rewrite insert_elsewhere; [by apply H4|]; intros ->; naive_solver).
Qed.

(** Changing only the key [k], to nothing or to a key of ours. *)
Lemma key_managed m0 m m' hive key :
  files m' = files m -> (forall k, k <> (hive, key) -> registry m' !! k = registry m !! k) ->
  (exists path, manifest_key_of hive key path) \/ pointer_key_of hive key ->
  (forall path, manifest_key_of hive key path -> key_holds m' hive key "" (fun v => same_windows_path v path)) ->
  (pointer_key_of hive key -> key_holds m' hive key POINTER_VALUE_NAME store_url) ->
  Managed m0 m -> Managed m0 m'.
Proof.
  intros Hf Hk Hkind Hm Hp [H1 H2 H3 H4 H5 H6 H7]. constructor; rewrite ?Hf; try done.
  - intros k Hn Hn'. rewrite <- H5 by done. apply Hk. intros ->. cbn in *. naive_solver.
  - intros h k path Hmk. destruct (decide ((h, k) = (hive, key))) as [[= -> ->]|Hne]; [auto|].
    eapply key_holds_ext; [by apply Hk|auto].
  - intros h k Hpk. destruct (decide ((h, k) = (hive, key))) as [[= -> ->]|Hne]; [auto|].
    eapply key_holds_ext; [by apply Hk|auto].
Qed.

Lemma holds_settable m hive key name expected :
  key_holds m hive key name expected -> settable name (registry m !! (hive, key)).
Proof.
  intros [->|H]; [done|]. pose proof (slot_settable m hive key name expected) as Hs.
  destruct (registry_slot _ _ _ _ _); try done. by destruct Hs.
Qed.

Lemma set_value_holds io hive key name value expected m m' r :
  no_half_set io -> expected value = true -> key_holds m hive key name expected ->
  set_registry_value io hive key name value m = (m', r) -> key_holds m' hive key name expected.
Proof.
  intros Hio He Hh H. destruct r as [[]|e].
  - right. destruct (set_value_ours _ _ _ _ _ expected _ _ _ (holds_settable _ _ _ _ _ Hh) He H) as [-> _]. done.
  - unfold set_registry_value in H. destruct windows; [|by injection H as <-].
    destruct (io_reg_set io hive key) as [[]|] eqn:E; [by injection H as <-|by destruct (Hio hive key e0)|done].
Qed.

Lemma edit_managed m0 R ts io t m m' :
  covered R ts -> t ∈ ts -> no_half_set io -> edit io R t m m' -> Managed m0 m -> Managed m0 m'.
Proof.
  intros Hc Hin Hio He Hm. destruct He as [path text x r Hp H|hive key name value r Hp H|hive key path r Hp H].
  - eapply planned_file_managed in Hp; [|done..]. apply write_atomic_effect in H as [[-> _]|[mode ->]]; [done|].
    by apply write_managed.
  - eapply planned_value_managed in Hp; [|done..]. pose proof (set_registry_value_effect _ _ _ _ _ _ _ _ H) as [Hf Hk].
    destruct Hp as [[-> Hmk]|(-> & -> & Hpk)].
    + eapply (key_managed m0 m m' hive key); eauto.
      * intros path Hmk'. rewrite (apart_key apart _ _ _ _ Hmk' Hmk).
        eapply set_value_holds; [done|apply String.eqb_refl|by apply (mg_key _ _ Hm)|exact H].
      * intros Hpk. by destruct (apart_keys apart _ _ _ Hmk).
    + eapply (key_managed m0 m m' hive key); eauto.
      * intros path Hmk. by destruct (apart_keys apart _ _ _ Hmk).
      * intros _. eapply set_value_holds; [done|apply String.eqb_refl|by apply (mg_pointer_key _ _ Hm)|exact H].
  - destruct Hc as (_ & _ & Hc). destruct (Hc t Hin) as (u & Hu & Hreg & _). rewrite <- Hreg in Hp.
    assert (manifest_key_of hive key path) as Hmk by by exists u.
    pose proof (delete_registry_key_effect _ _ _ _ _ _ H) as (Hf & Hk & Hd & _).
    eapply (key_managed m0 m m' hive key); eauto.
    + intros path' Hmk'. destruct Hd as [E|E]; [by left|]. eapply key_holds_ext; [by rewrite E|by apply (mg_key _ _ Hm)].
    + intros Hpk. by destruct (apart_keys apart _ _ _ Hmk).
Qed.

Lemma managed_equiv m0 m m' : m' ≡ m -> Managed m0 m -> Managed m0 m'.
Proof.
  intros [Hr Hf] [H1 H2 H3 H4 H5 H6 H7].
  assert (forall own p, holds own (files m !! p) -> holds own (files m' !! p)) as Hh.
  { intros own p [H|(c & mode & E & Ho)]; [left; by rewrite Hf|]. right. specialize (Hf p). rewrite E in Hf.
    destruct (files m' !! p) as [[]|] eqn:E'; cbn in Hf; try done. injection Hf as -> ->. eauto. }
  constructor; eauto.
  - intros p Ha Hb Hc. rewrite Hf. auto.
  - intros k Ha Hb. rewrite Hr. auto.
  - intros hive key path Hk. eapply key_holds_ext; [by rewrite Hr|auto].
  - intros hive key Hk. eapply key_holds_ext; [by rewrite Hr|auto].
Qed.

Lemma register_managed m0 R ts io t m :
  covered R ts -> t ∈ ts -> no_half_set io -> Managed m0 m -> Managed m0 (register R io t m).1.
Proof.
  intros Hc Hin Hio Hm. destruct (register_steps io R t m) as (m1 & He & Hs).
  assert (Managed m0 m1) as Hm1 by by eapply managed_equiv.
  clear Hm He. induction Hs; [done|]. apply IHHs. by eapply edit_managed.
Qed.

Lemma register_all_managed m0 R io ts m :
  covered R ts -> no_half_set io -> Managed m0 m -> Managed m0 (register_all R io ts m).1.
Proof.
  intros Hc Hio. assert (ts ⊆ ts) as Hsub by done. revert Hsub m. generalize ts at 1 3. intros l.
  induction l as [|t l IH]; intros Hsub m Hm; cbn [register_all]; [done|].
  pose proof (register_managed m0 R ts io t m Hc ltac:(set_solver) Hio Hm) as H1.
  destruct (register R io t m) as [m1 r]. specialize (IH ltac:(set_solver) m1 H1).
  by destruct (register_all R io l m1) as [m2 os].
Qed.

(** ** Removing *)

Lemma removed_managed m0 u m m' : u ∈ us -> removed u m m' -> Managed m0 m -> Managed m0 m'.
Proof.
  intros Hu [Hf Hk] [H1 H2 H3 H4 H5 H6 H7].
  assert (forall own p, holds own (files m !! p) -> holds own (files m' !! p)) as Hh.
  { intros own p H. destruct (Hf p) as [->|[-> _]]; [done|by left]. }
  assert (forall hive key name expected, key_holds m hive key name expected -> key_holds m' hive key name expected) as Hkh.
  { intros hive key name expected H. destruct (Hk (hive, key)) as [E|[E _]]; [by eapply key_holds_ext|by left]. }
  constructor; eauto.
  - intros p Ha Hb Hc. destruct (Hf p) as [->|(_ & c & mode & _ & Ho)]; [auto|]. exfalso. destruct Ho as [[-> _]|[Hp _]].
    + apply Ha. by apply list_elem_of_fmap_2 with (f := fun u => manifest_path (t_registration u)).
    + apply Hb, list_elem_of_bind. exists u. split; [by apply pointer_path_elem|done].
  - intros [hive key] Ha Hb. destruct (Hk (hive, key)) as [->|[_ Ho]]; [auto|]. exfalso. cbn [fst snd] in *.
    destruct Ho as [(path & Hr & _)|[Hp _]]; [apply (Ha path)|apply Hb]; by exists u.
Qed.

Lemma cleared_removed t u m m' : removed u m m' -> cleared t m -> cleared t m'.
Proof.
  intros Hr (H1 & H2 & H3). split_and!.
  - cbn [manifest_slots ms_file] in *. eauto using file_slot_removed.
  - intros slot Hs. destruct (t_registration t) as [|hive key path]; [done|]. cbn [ms_key manifest_slots] in *.
    injection Hs as <-. eapply registry_slot_removed; [exact Hr|]. by apply H2.
  - eauto using pointer_slot_removed.
Qed.

Lemma uninstall_all_spec m0 l m :
  l ⊆ us -> Managed m0 m ->
  let (m', rs) := uninstall_all no_faults l m in
  Managed m0 m' /\ (forall t, cleared t m -> cleared t m') /\ (forall t, t ∈ l -> cleared t m') /\
  Forall (fun r => rm_failed r = []) rs.
Proof.
  revert m. induction l as [|t l IH]; intros m Hsub Hm; cbn [uninstall_all]; [split_and!; [done..|set_solver|constructor]|].
  pose proof (uninstall_removed no_faults t m) as Hr. pose proof (uninstall_clears t m) as [Hc Hfail].
  destruct (uninstall no_faults t m) as [m1 r]. cbn [fst snd] in *.
  assert (Managed m0 m1) as Hm1 by (eapply removed_managed; [|exact Hr|done]; set_solver).
  specialize (IH m1 ltac:(set_solver) Hm1). destruct (uninstall_all no_faults l m1) as [m2 rs].
  destruct IH as (H1 & H2 & H3 & H4). split_and!; [done| | |by constructor].
  - intros t' Ht'. apply H2. by eapply cleared_removed.
  - intros t' [->|Ht']%elem_of_cons; [by apply H2|auto].
Qed.

(** One wrapper path after its removal: no file of ours there, all else as it was. *)
Lemma remove_wrapper_spec path m r :
  let (m', r') := remove_wrapper no_faults path m r in
  registry m' = registry m /\ rm_failed r' = rm_failed r /\
  (forall q, q <> path -> files m' !! q = files m !! q) /\
  (holds (fun c => wrapper_is_ours c = true) (files m !! path) -> fileview (files m' !! path) = None).
Proof.
  assert (forall c mode, files m !! path = Some (NFile c mode) -> wrapper_is_ours c = false ->
    holds (fun c => wrapper_is_ours c = true) (files m !! path) -> fileview (files m !! path) = None) as Hno.
  { intros c mode E Hw [?|(c' & mode' & E' & Hw')]; [done|congruence]. }
  unfold remove_wrapper, read_to_string. destruct (files m !! path) as [[c mode|link mode| |e mode|e]|] eqn:E.
  - destruct (wrapper_is_ours c) eqn:Ew.
    + rewrite (remove_path_done _ _ _ _ E). cbn [files registry set_files]. split_and!; [done..| |by rewrite lookup_delete_eq].
      intros q Hq. by rewrite lookup_delete_ne.
    + split_and!; [done..|]. rewrite E. by eapply Hno.
  - cbn. split_and!; try done. by rewrite E.
  - cbn. split_and!; try done. rewrite E. intros [?|(c' & mode' & E' & _)]; [done|congruence].
  - destruct (bool_decide _); (split_and!; try done; rewrite E; intros [?|(c' & mode' & E' & _)]; [done|congruence]).
  - cbn. split_and!; try done. rewrite E. intros [?|(c' & mode' & E' & _)]; [done|congruence].
  - cbn. split_and!; try done. by rewrite E.
Qed.

Lemma remove_each_wrapper_spec paths m r :
  let (m', r') := remove_each_wrapper no_faults paths m r in
  registry m' = registry m /\ rm_failed r' = rm_failed r /\
  (forall q, q ∉ paths -> files m' !! q = files m !! q) /\
  (forall q, holds (fun c => wrapper_is_ours c = true) (files m !! q) ->
     (q ∈ paths \/ fileview (files m !! q) = None) -> fileview (files m' !! q) = None).
Proof.
  revert m r. induction paths as [|p paths IH]; intros m r; cbn [remove_each_wrapper].
  { split_and!; try done. intros q _ [Hq|]; [by apply elem_of_nil in Hq|done]. }
  pose proof (remove_wrapper_spec p m r) as H. destruct (remove_wrapper no_faults p m r) as [m1 r1].
  destruct H as (Hr & Hfail & Ho & Hp). specialize (IH m1 r1). destruct (remove_each_wrapper no_faults paths m1 r1) as [m2 r2].
  destruct IH as (Hr2 & Hfail2 & Ho2 & Hp2). split_and!; [congruence..| |].
  - intros q Hq. rewrite Ho2, Ho; [done|set_solver..].
  - intros q Hh Hq. destruct (decide (q = p)) as [->|Hne].
    + apply Hp2; [left|right]; by apply Hp.
    + apply Hp2; rewrite Ho by done; [done|]. destruct Hq as [[->|Hq]%elem_of_cons|Hq]; [done|by left|by right].
Qed.

Lemma remove_dir_equiv io d m : remove_dir io d m ≡ m.
Proof.
  unfold remove_dir. destruct (io_remove io d); [done|]. destruct (files m !! d) as [[| [] | | |]|] eqn:E; try done.
  destruct (bool_decide _); [|done]. split; [done|]. intros q. cbn [files set_files].
  destruct (decide (q = d)) as [->|]; [by rewrite lookup_delete_eq, E|by rewrite lookup_delete_ne].
Qed.

(** Nothing of ours at any of the locations. *)
Record Vacant m : Prop := mkVacant {
  vac_file p : p ∈ manifest_paths ++ pointer_paths ++ wrapper_paths -> fileview (files m !! p) = None;
  vac_key hive key path : manifest_key_of hive key path -> registry m !! (hive, key) = None;
  vac_pointer_key hive key : pointer_key_of hive key -> registry m !! (hive, key) = None
}.

Lemma vacant_managed m0 : Vacant m0 -> Managed m0 m0.
Proof.
  intros [Hf Hk Hp]. constructor; [done|..|done| |].
  1-3: intros p Hin; left; apply Hf; rewrite !elem_of_app; auto.
  - intros hive key path H. left. by apply (Hk hive key path).
  - intros hive key H. left. by apply Hp.
Qed.

(** Whether a key is one of the managed ones is decidable: the targets are listed. *)
Lemma managed_key_cases hive key :
  (exists path, manifest_key_of hive key path) \/ pointer_key_of hive key \/
  ((forall path, ~ manifest_key_of hive key path) /\ ~ pointer_key_of hive key).
Proof.
  destruct (decide (Exists (fun u => registration_key (t_registration u) = Some (hive, key)) us)) as [H|H].
  { left. apply Exists_exists in H as (u & Hu & Hk). destruct (t_registration u) as [|h k path] eqn:E; [done|].
    injection Hk as -> ->. exists path, u. done. }
  right. destruct (decide (Exists (fun u => PointerRegistry hive key ∈ t_pointers u) us)) as [H'|H'].
  { left. apply Exists_exists in H' as (u & Hu & Hk). by exists u. }
  right. split; [intros path|]; intros (u & Hu & Hk); [apply H|apply H']; apply Exists_exists; exists u; [|done].
  by rewrite Hk.
Qed.

Lemma cleared_vacant m0 m :
  Managed m0 m -> (forall u, u ∈ us -> cleared u m) ->
  (forall p, p ∈ manifest_paths ++ pointer_paths -> fileview (files m !! p) = None) /\
  (forall hive key path, manifest_key_of hive key path -> registry m !! (hive, key) = None) /\
  (forall hive key, pointer_key_of hive key -> registry m !! (hive, key) = None).
Proof.
  intros Hm Hc. split_and!.
  - intros p [Hp|Hp]%elem_of_app.
    + destruct (mg_manifest _ _ Hm p Hp) as [?|(c & mode & E & Ho)]; [done|]. exfalso.
      apply list_elem_of_fmap in Hp as (u & -> & Hu). destruct (Hc u Hu) as (Hcl & _ & _).
      cbn [manifest_slots ms_file] in Hcl. by rewrite (file_slot_file _ _ _ _ _ E), Ho in Hcl.
    + destruct (mg_pointer _ _ Hm p Hp) as [?|(c & mode & E & Ho)]; [done|]. exfalso.
      apply list_elem_of_bind in Hp as (u & Hp & Hu). apply list_elem_of_omap in Hp as ([path|] & Hin & [= ->]).
      destruct (Hc u Hu) as (_ & _ & Hcl). specialize (Hcl _ Hin). cbn [pointer_slot] in Hcl.
      by rewrite (file_slot_file _ _ _ _ _ E), Ho in Hcl.
  - intros hive key path Hk. destruct (mg_key _ _ Hm _ _ _ Hk) as [?|Ho]; [done|]. exfalso. destruct Hk as (u & Hu & Hr).
    destruct (Hc u Hu) as (_ & Hcl & _). rewrite Hr in Hcl. specialize (Hcl _ eq_refl). cbn [manifest_path] in Hcl. congruence.
  - intros hive key Hk. destruct (mg_pointer_key _ _ Hm _ _ Hk) as [?|Ho]; [done|]. exfalso. destruct Hk as (u & Hu & Hr).
    destruct (Hc u Hu) as (_ & _ & Hcl). specialize (Hcl _ Hr). cbn [pointer_slot] in Hcl. unfold store_url in Ho. congruence.
Qed.

Lemma removal_restores m0 m :
  Vacant m0 -> Managed m0 m ->
  let (m1, rs) := uninstall_all no_faults us m in
  let (m2, w) := remove_wrappers no_faults dir m1 in
  m2 ≡ m0 /\ uninstall_exit_code (rs ++ [w]) = 0%Z.
Proof.
  intros Hv Hm. pose proof (uninstall_all_spec m0 us m ltac:(done) Hm) as H.
  destruct (uninstall_all no_faults us m) as [m1 rs]. destruct H as (Hm1 & _ & Hc & Hfail).
  destruct (cleared_vacant m0 m1 Hm1 Hc) as (Hf & Hk & Hpk). unfold remove_wrappers. fold wrapper_paths.
  pose proof (remove_each_wrapper_spec wrapper_paths m1 no_removal) as H.
  destruct (remove_each_wrapper no_faults wrapper_paths m1 no_removal) as [m2 w]. destruct H as (Hr & Hwf & Ho & Hw). split.
  - rewrite remove_dir_equiv. split.
    + rewrite Hr. apply map_eq. intros [hive key].
      destruct (managed_key_cases hive key) as [(path & E)|[E|[E1 E2]]].
      * by rewrite (Hk _ _ _ E), (vac_key _ Hv _ _ _ E).
      * by rewrite (Hpk _ _ E), (vac_pointer_key _ Hv _ _ E).
      * by apply (mg_key_rest _ _ Hm1).
    + intros p. destruct (decide (p ∈ manifest_paths ++ pointer_paths ++ wrapper_paths)) as [Hin|Hin].
      * rewrite (vac_file _ Hv p Hin). destruct (decide (p ∈ wrapper_paths)) as [Hpw|Hpw].
        { apply Hw; [by apply (mg_wrapper _ _ Hm1)|by left]. }
        rewrite Ho by done. apply Hf. rewrite !elem_of_app in *. naive_solver.
      * rewrite !elem_of_app in Hin. rewrite Ho by naive_solver. apply (mg_rest _ _ Hm1); naive_solver.
  - unfold uninstall_exit_code. rewrite existsb_app. cbn [existsb]. rewrite Hwf. cbn [rm_failed no_removal negb orb].
    assert (existsb (fun r => negb (match rm_failed r with [] => true | _ => false end)) rs = false) as ->; [|done].
    apply existsb_false_iff. intros r Hin. rewrite Forall_forall in Hfail. by rewrite (Hfail r Hin).
Qed.
End no_trace.

(** * Each registration once *)

Section merging.
Implicit Types (t s : Target) (out seen : list Target).

(** [out] is [seen] with the targets of one registration merged into the first. *)
Record Merged out seen : Prop := mkMerged {
  mr_nodup : NoDup (t_registration <$> out);
  mr_from t : t ∈ out ->
    (exists s, s ∈ seen /\ t_registration s = t_registration t /\ t_label s = t_label t /\ t_name s = t_name t) /\
    (forall p, p ∈ t_pointers t -> exists s, s ∈ seen /\ t_registration s = t_registration t /\ p ∈ t_pointers s);
  mr_all s : s ∈ seen -> exists t, t ∈ out /\ t_registration t = t_registration s /\ t_pointers s ⊆ t_pointers t
}.

Lemma add_pointers_spec ps more p : p ∈ add_pointers ps more <-> p ∈ ps \/ p ∈ more.
Proof.
  unfold add_pointers. revert ps. induction more as [|q more IH]; intros ps; cbn [foldl]; [set_solver|].
  rewrite IH. destruct (bool_decide (q ∈ ps)) eqn:E; [apply bool_decide_eq_true in E|]; set_solver.
Qed.

(** Where [t] goes: into the first target of its registration, or last. *)
Lemma merge_target_spec out t :
  ((t_registration t ∉ (t_registration <$> out)) /\ merge_target out t = out ++ [t]) \/
  (exists out1 s out2, out = out1 ++ s :: out2 /\ t_registration s = t_registration t /\
     merge_target out t
     = out1 ++ mkTarget (t_label s) (t_name s) (t_registration s) (add_pointers (t_pointers s) (t_pointers t)) :: out2).
Proof.
  induction out as [|s out IH]; cbn [merge_target]; [left; split; [set_solver|done]|].
  destruct (bool_decide (t_registration s = t_registration t)) eqn:E.
  - apply bool_decide_eq_true in E. right. by exists [], s, out.
  - apply bool_decide_eq_false in E. destruct IH as [[Hn ->]|(out1 & s' & out2 & -> & Hr & ->)].
    + left. split; [|done]. cbn. apply not_elem_of_cons. split; [congruence|done].
    + right. by exists (s :: out1), s', out2.
Qed.

Lemma merge_merged out seen t : Merged out seen -> Merged (merge_target out t) (seen ++ [t]).
Proof.
  intros [Hn Hf Ha]. destruct (merge_target_spec out t) as [[Ht ->]|(out1 & s & out2 & -> & Hr & ->)].
  - constructor.
    + rewrite fmap_app. apply NoDup_app. split_and!; [done| |apply NoDup_singleton]. set_solver.
    + intros u [Hu|Hu]%elem_of_app.
      * destruct (Hf u Hu) as [(s & Hs & H) Hp]. split; [exists s; set_solver|]. intros p Hpp.
        destruct (Hp p Hpp) as (s' & Hs' & H'). exists s'. set_solver.
      * apply list_elem_of_singleton in Hu as ->. split; [exists t; set_solver|]. intros p Hp. exists t. set_solver.
    + intros s [Hs|Hs]%elem_of_app.
      * destruct (Ha s Hs) as (u & Hu & H). exists u. set_solver.
      * apply list_elem_of_singleton in Hs as ->. exists t. set_solver.
  - set (s' := mkTarget _ _ _ _). assert (forall p, p ∈ t_pointers s' <-> p ∈ t_pointers s \/ p ∈ t_pointers t) as Hp'
      by apply add_pointers_spec. constructor.
    + by rewrite fmap_app, fmap_cons in *.
    + intros u Hu. assert (u = s' \/ u ∈ out1 ++ s :: out2) as [->|Hu'] by set_solver.
      * destruct (Hf s ltac:(set_solver)) as [(s0 & Hs0 & H) Hp]. split; [exists s0; set_solver|].
        intros p [Hpp|Hpp]%Hp'; [destruct (Hp p Hpp) as (s1 & Hs1 & H1); exists s1; set_solver|].
        exists t. split_and!; [set_solver|by rewrite <- Hr|done].
      * destruct (Hf u Hu') as [(s0 & Hs0 & H) Hp]. split; [exists s0; set_solver|]. intros p Hpp.
        destruct (Hp p Hpp) as (s1 & Hs1 & H'). exists s1. set_solver.
    + assert (forall u, u ∈ out1 ++ s :: out2 -> exists u', u' ∈ out1 ++ s' :: out2 /\
        t_registration u' = t_registration u /\ t_pointers u ⊆ t_pointers u') as Hup.
      { intros u Hu. assert (u = s \/ u ∈ out1 ++ s' :: out2) as [->|Hu'] by set_solver.
        - exists s'. split_and!; [set_solver|done|]. intros p Hpp. apply Hp'. by left.
        - by exists u. }
      intros s0 [Hs0|Hs0]%elem_of_app.
      * destruct (Ha s0 Hs0) as (u & Hu & Hru & Hpu). destruct (Hup u Hu) as (u' & Hu' & Hru' & Hpu').
        exists u'. split_and!; [done|congruence|set_solver].
      * apply list_elem_of_singleton in Hs0 as ->. exists s'. split_and!; [set_solver|done|].
        intros p Hpp. apply Hp'. by right.
Qed.

Lemma browser_targets_merged es scope :
  Merged (browser_targets es scope) ((fun e => for_browser e scope) <$> es).
Proof.
  unfold browser_targets. generalize ((fun e => for_browser e scope) <$> es). intros l.
  enough (forall l out seen, Merged out seen -> Merged (foldl merge_target out l) (seen ++ l)) as H.
  { apply (H l [] []). constructor; [constructor|set_solver..]. }
  clear l. intros l. induction l as [|t l IH]; intros out seen Hm; cbn [foldl]; [by rewrite app_nil_r|].
  replace (seen ++ t :: l) with ((seen ++ [t]) ++ l) by by rewrite <- app_assoc. by apply IH, merge_merged.
Qed.

(** Fewer browsers give targets inside those of more. *)
Lemma browser_targets_sub es es' scope t :
  es' ⊆ es -> t ∈ browser_targets es' scope ->
  exists u, u ∈ browser_targets es scope /\ t_registration u = t_registration t /\ t_pointers t ⊆ t_pointers u.
Proof.
  intros Hsub Ht. pose proof (browser_targets_merged es' scope) as M'. pose proof (browser_targets_merged es scope) as M.
  assert (forall s, s ∈ (fun e => for_browser e scope) <$> es' -> s ∈ (fun e => for_browser e scope) <$> es) as Hs.
  { intros s Hin. apply list_elem_of_fmap in Hin as (e & -> & He).
    by apply list_elem_of_fmap_2 with (f := fun e => for_browser e scope), Hsub. }
  destruct (mr_from _ _ M' t Ht) as [(s & Hin & Hr & _) Hp].
  destruct (mr_all _ _ M s (Hs s Hin)) as (u & Hu & Hru & _). exists u. split_and!; [done|congruence|].
  intros p Hpp. destruct (Hp p Hpp) as (s' & Hs' & Hr' & Hp'). destruct (mr_all _ _ M s' (Hs s' Hs')) as (u' & Hu' & Hru' & Hpu').
  assert (u' = u) as <-; [|by apply Hpu'].
  apply (list_elem_of_lookup_1) in Hu as [i Hi]. apply (list_elem_of_lookup_1) in Hu' as [j Hj].
  assert (i = j) as <-; [|congruence]. eapply NoDup_lookup; [exact (mr_nodup _ _ M)|..];
    rewrite list_lookup_fmap; [rewrite Hi|rewrite Hj]; cbn; [done|]. f_equal. congruence.
Qed.
End merging.

(** * Labels *)

Section labels.
#[local] Existing Instance unix_style.

Lemma chrome_readers_spec os d scope b :
  b ∈ chrome_readers os d scope <-> b <> Chrome /\ own_registration os d scope b = None.
Proof.
  unfold chrome_readers. rewrite elem_of_bfilter, andb_true_iff, negb_true_iff, bool_decide_eq_false, bool_decide_eq_true.
  assert (b ∈ ALL_BROWSERS) by (apply (bool_decide_unpack _); by destruct b). naive_solver.
Qed.

Definition reads os d scope (b : Browser) (r : Registration) : Prop := lookup_registration (Browsers.lookup os d scope b) = r.

Lemma for_browser_label os d scope b :
  let t := for_browser (entry os d b) scope in
  reads os d scope b (t_registration t) /\
  match t_label t with
  | Some b0 => forall b', reads os d scope b' (t_registration t) <-> b' = b0
  | None => exists b1 b2, b1 <> b2 /\ reads os d scope b1 (t_registration t) /\ reads os d scope b2 (t_registration t)
  end.
Proof.
  assert (scoped_get (be_manifest (entry os d b)) scope = Browsers.lookup os d scope b) as El by by destruct scope.
  unfold for_browser, reads. rewrite El. destruct (Browsers.lookup os d scope b) as [r readers|owner r] eqn:E;
    cbn [t_registration t_label]; (split; [done|]); unfold Browsers.lookup in E;
    destruct (own_registration os d scope b) as [rb|] eqn:Eb; try done.
  - assert (Browsers.lookup os d scope b = LookupOwn r readers) as E' by (unfold Browsers.lookup; by rewrite Eb).
    injection E as -> Hr. destruct readers as [|b2 readers].
    + intros b'. rewrite (reads_own _ _ _ _ _ _ _ E'). split; [|by left]. intros [->|[-> Hn]]; [done|]. exfalso.
      destruct (decide (b' = Chrome)) as [->|Hc]; [by rewrite Eb in Hn|].
      assert (b' ∈ chrome_readers os d scope) as Hin by by apply chrome_readers_spec. rewrite Hr in Hin. by apply elem_of_nil in Hin.
    + assert (b = Chrome) as -> by (destruct b; done). assert (b2 ∈ chrome_readers os d scope) as Hin by (rewrite Hr; set_solver).
      apply chrome_readers_spec in Hin as [Hne Hn]. exists Chrome, b2. split; [done|].
      split; apply (reads_own _ _ _ _ _ _ _ E'); [by left|by right].
  - injection E as <- <-. exists Chrome, b.
    split; [intros <-; by rewrite chrome_owns in Eb|]. unfold Browsers.lookup. by rewrite chrome_owns, Eb.
Qed.

(** A label names the only browser that launches its manifest. Over every operating
    system, directory layout and scope, the targets of the known browsers have distinct
    registrations, each browser reads exactly one of them and finds its pointer there, a
    labelled target is read by its browser and no other, and an unlabelled one by two. *)
Theorem label_names_the_only_reader os d scope :
  let ts := browser_targets (resolve os d) scope in
  NoDup (t_registration <$> ts) /\
  (forall b, exists t, t ∈ ts /\ reads os d scope b (t_registration t) /\
     t_pointers (for_browser (entry os d b) scope) ⊆ t_pointers t) /\
  (forall t, t ∈ ts ->
     match t_label t with
     | Some b0 => forall b, reads os d scope b (t_registration t) <-> b = b0
     | None => exists b1 b2, b1 <> b2 /\ reads os d scope b1 (t_registration t) /\ reads os d scope b2 (t_registration t)
     end).
Proof.
  pose proof (browser_targets_merged (resolve os d) scope) as [Hn Hf Ha]. split_and!; [done|..].
  - intros b. destruct (Ha (for_browser (entry os d b) scope)) as (t & Ht & Hr & Hp).
    { unfold resolve. rewrite <- list_fmap_compose. apply list_elem_of_fmap. exists b. split; [done|].
      apply (bool_decide_unpack _). by destruct b. }
    exists t. split_and!; [done| |done]. rewrite Hr. apply for_browser_label.
  - intros t Ht. destruct (Hf t Ht) as [(s & Hs & Hr & Hl & _) _]. rewrite <- Hl, <- Hr.
    unfold resolve in Hs. rewrite <- list_fmap_compose in Hs. apply list_elem_of_fmap in Hs as (b & -> & _).
    apply for_browser_label.
Qed.
End labels.

(** * The commands together *)

Section together.
Context `{PS : PathStyle} `{BL : Build} `{SD : StrDebug} `{JV : JsonValue} `{JO : !JsonValueOk}.
Implicit Types (m : Machine) (io : Io).

Definition MANIFEST_FILE : string := NATIVE_HOST_ID +:+ ".json".
Definition POINTER_FILE : string := PINNED_EXTENSION_ID +:+ ".json".

Lemma suffix_rev a p : ends_with a p = true -> exists y, str_rev p = str_rev a +:+ y.
Proof. intros H. apply ends_with_inv in H as [t ->]. exists (str_rev t). apply str_rev_app. Qed.

Lemma ends_with_trans a b p : ends_with a b = true -> ends_with b p = true -> ends_with a p = true.
Proof.
  intros Ha Hb. apply ends_with_inv in Ha as [x ->]. apply ends_with_inv in Hb as [y ->].
  rewrite <- str_app_assoc. apply ends_with_app.
Qed.

Lemma wrapper_suffix dir p : p ∈ wrapper_paths dir -> ends_with ".sh" p = true.
Proof.
  intros H. apply list_elem_of_fmap in H as (n & -> & Hn). eapply ends_with_trans; [|apply join_suffix].
  revert n Hn. apply forallb_true_iff. vm_compute. reflexivity.
Qed.

(** What resolution says of a target: the manifest's and the pointers' names, and on
    Windows the one store file and the names of the keys. *)
Definition well_named (store : string) (t : Target) : Prop :=
  ends_with MANIFEST_FILE (manifest_path (t_registration t)) = true /\
  (forall hive key path, t_registration t = RegistryReg hive key path ->
     path = store /\ ends_with NATIVE_HOST_ID key = true) /\
  (forall path, PointerFile path ∈ t_pointers t -> ends_with POINTER_FILE path = true) /\
  (forall hive key, PointerRegistry hive key ∈ t_pointers t -> ends_with PINNED_EXTENSION_ID key = true).

Definition store_file (os : Os) (d : BaseDirs) (scope : Scope) : string :=
  Browsers.join (install_dir os d scope) MANIFEST_FILE.

Lemma resolved_registration os d scope b :
  (exists dir, lookup_registration (Browsers.lookup os d scope b) = ManifestDir dir) \/
  (exists b', lookup_registration (Browsers.lookup os d scope b) = (windows_slot os d scope b').1).
Proof.
  unfold Browsers.lookup. destruct os, scope, b; cbn [own_registration lookup_registration]; try (left; by eexists);
    right; by eexists.
Qed.

Lemma resolved_pointer os d scope b p :
  p ∈ option_list ((fun q => scoped_get q scope) <$> be_pointer (entry os d b)) ->
  (exists dir, p = pointer_file dir) \/ (exists b', p = (windows_slot os d scope b').2).
Proof.
  cbn [entry be_pointer pointers]. destruct os; cbn [fmap option_fmap option_map option_list]; intros H;
    [|by apply elem_of_nil in H|]; apply list_elem_of_singleton in H as ->; destruct scope; cbn [scoped_get sc_user sc_system];
    eauto.
Qed.

Lemma for_browser_registration os d scope b :
  t_registration (for_browser (entry os d b) scope) = lookup_registration (Browsers.lookup os d scope b) /\
  t_pointers (for_browser (entry os d b) scope) = option_list ((fun q => scoped_get q scope) <$> be_pointer (entry os d b)).
Proof.
  unfold for_browser. assert (scoped_get (be_manifest (entry os d b)) scope = Browsers.lookup os d scope b) as -> by by destruct scope.
  by destruct (Browsers.lookup os d scope b).
Qed.

Lemma for_browser_named os d scope b : well_named (store_file os d scope) (for_browser (entry os d b) scope).
Proof.
  destruct (for_browser_registration os d scope b) as [Hr Hp]. unfold well_named. rewrite Hr, Hp. split_and!.
  - destruct (resolved_registration os d scope b) as [[dir ->]|[b' ->]]; apply join_suffix.
  - intros hive key path E. destruct (resolved_registration os d scope b) as [[dir E']|[b' E']]; rewrite E' in E; [done|].
    injection E as <- <- <-. split; [done|]. rewrite <- !str_app_assoc. apply ends_with_app.
  - intros path H. destruct (resolved_pointer _ _ _ _ _ H) as [[dir [= ->]]|[b' E]]; [apply join_suffix|done].
  - intros hive key H. destruct (resolved_pointer _ _ _ _ _ H) as [[dir E]|[b' [= _ ->]]]; [done|].
    rewrite <- !str_app_assoc. apply ends_with_app.
Qed.

Lemma uninstall_targets_named os d scope manifest_dirs t :
  t ∈ uninstall_targets os d scope manifest_dirs -> well_named (store_file os d scope) t.
Proof.
  unfold uninstall_targets. rewrite elem_of_app. intros [H|H].
  - destruct (mr_from _ _ (browser_targets_merged (resolve os d) scope) t H) as [(s & Hs & Hr & _) Hp].
    assert (forall s, s ∈ (fun e => for_browser e scope) <$> resolve os d -> well_named (store_file os d scope) s) as Hall.
    { intros s' Hs'. apply list_elem_of_fmap in Hs' as (e & -> & He). apply list_elem_of_fmap in He as (b & -> & _).
      apply for_browser_named. }
    destruct (Hall s Hs) as (H1 & H2 & _). rewrite Hr in H1, H2. split_and!; [done..| |].
    + intros path Hin. destruct (Hp _ Hin) as (s' & Hs' & _ & Hin'). by apply (Hall s' Hs').
    + intros hive key Hin. destruct (Hp _ Hin) as (s' & Hs' & _ & Hin'). by eapply (Hall s' Hs').
  - apply list_elem_of_fmap in H as (dir & -> & _). split_and!; [apply join_suffix|done| |];
      intros *; cbn; intros H; by apply elem_of_nil in H.
Qed.

Lemma named_apart os d scope manifest_dirs :
  Apart (uninstall_targets os d scope manifest_dirs) (install_dir os d scope).
Proof.
  pose proof (uninstall_targets_named os d scope manifest_dirs) as Hn. set (us := uninstall_targets _ _ _ _) in *.
  assert (forall p, p ∈ manifest_paths us -> ends_with MANIFEST_FILE p = true) as Hm.
  { intros p Hp. apply list_elem_of_fmap in Hp as (u & -> & Hu). by apply Hn. }
  assert (forall p, p ∈ pointer_paths us -> ends_with POINTER_FILE p = true) as Hpt.
  { intros p Hp. apply list_elem_of_bind in Hp as (u & Hp & Hu). apply list_elem_of_omap in Hp as ([path|] & Hin & [= ->]).
    by apply (Hn u Hu). }
  assert (forall a b p, ends_with a p = true -> ends_with b p = true -> exists x y, str_rev a +:+ x = str_rev b +:+ y) as Hclash.
  { intros a b p Ha Hb. destruct (suffix_rev _ _ Ha) as [x Hx]. destruct (suffix_rev _ _ Hb) as [y Hy]. exists x, y. congruence. }
  constructor.
  - intros p H1 H2. destruct (Hclash _ _ _ (Hm p H1) (Hpt p H2)) as (x & y & E). discriminate E.
  - intros p H1 H2. destruct (Hclash _ _ _ (Hm p H1) (wrapper_suffix _ _ H2)) as (x & y & E). discriminate E.
  - intros p H1 H2. destruct (Hclash _ _ _ (Hpt p H1) (wrapper_suffix _ _ H2)) as (x & y & E). discriminate E.
  - intros hive key path path' (u & Hu & E) (u' & Hu' & E').
    destruct (proj1 (proj2 (Hn u Hu)) _ _ _ E) as [-> _]. by destruct (proj1 (proj2 (Hn u' Hu')) _ _ _ E') as [-> _].
  - intros hive key path (u & Hu & E) (u' & Hu' & E').
    destruct (proj1 (proj2 (Hn u Hu)) _ _ _ E) as [_ Hk]. destruct (Hn u' Hu') as (_ & _ & _ & Hk').
    destruct (Hclash _ _ _ Hk (Hk' _ _ E')) as (x & y & Ec). discriminate Ec.
Qed.

Lemma select_entries_sub entries l out : select_entries entries l = Ok out -> out ⊆ entries.
Proof.
  revert out. induction l as [|b l IH]; intros out; cbn [select_entries]; [intros [= <-]; set_solver|].
  intros H. apply bind_Ok in H as (e & He & H). apply bind_Ok in H as (rest & Hr & H). injection H as <-.
  apply ok_or_Ok in He. apply find_Some_iff in He as [He _]. specialize (IH rest Hr). set_solver.
Qed.

(** An explicit directory is removed only when [uninstall] is given it again. *)
Definition repassed (targets : FixTargets) (manifest_dirs : list string) : Prop :=
  match targets with FixManifestDirs dirs => dirs ⊆ manifest_dirs | _ => True end.

Lemma select_targets_covered os d scope targets manifest_dirs m ts t :
  repassed targets manifest_dirs -> select_targets targets (resolve os d) scope m = Ok ts -> t ∈ ts ->
  exists u, u ∈ uninstall_targets os d scope manifest_dirs /\ t_registration u = t_registration t /\ t_pointers t ⊆ t_pointers u.
Proof.
  intros Hre H Ht. unfold uninstall_targets. setoid_rewrite elem_of_app.
  assert (forall es, es ⊆ resolve os d -> t ∈ browser_targets es scope -> exists u, (u ∈ browser_targets (resolve os d) scope \/
    u ∈ (for_explicit_dir <$> manifest_dirs)) /\ t_registration u = t_registration t /\ t_pointers t ⊆ t_pointers u) as Hsub.
  { intros es Hes Hin. destruct (browser_targets_sub _ _ _ _ Hes Hin) as (u & Hu & H1 & H2). exists u. auto. }
  destruct targets as [| |browsers|dirs]; cbn [select_targets repassed] in *.
  - eapply (Hsub (List.filter (fun e => detected (is_dir m) e scope) (resolve os d))).
    + intros e He. by apply elem_of_bfilter in He as [He _].
    + by destruct (browser_targets _ scope); [|injection H as <-].
  - injection H as <-. eapply Hsub; [|exact Ht]. done.
  - apply fmap_Ok in H as (es & He & <-). eapply Hsub; [|exact Ht]. by eapply select_entries_sub.
  - injection H as <-. apply list_elem_of_fmap in Ht as (dir & -> & Hd). exists (for_explicit_dir dir).
    split; [right|done]. apply list_elem_of_fmap_2, Hre, Hd.
Qed.

Lemma plan_fix_covered env targets scope foreign manifest_dirs dirs m R ts :
  repassed targets manifest_dirs -> from_env (env_os env) (env_var env) scope = Ok dirs ->
  (forall exe, env_exe env = Ok exe -> str_contains LF exe = false) ->
  plan_fix env targets scope foreign m = Ok (R, ts) ->
  covered (uninstall_targets (env_os env) dirs scope manifest_dirs) (install_dir (env_os env) dirs scope) R ts.
Proof.
  intros Hre Hd Hlf H. unfold plan_fix in H. rewrite Hd in H. apply bind_Ok in H as (u & _ & H).
  apply bind_Ok in H as (d & [= ->] & H). apply bind_Ok in H as (ts' & Hts & H). apply bind_Ok in H as (exe & He & H).
  apply bind_Ok in H as (u' & _ & H). injection H as <- <-. apply map_err_Ok in He. split_and!; [done|by apply Hlf|].
  intros t Ht. by eapply select_targets_covered.
Qed.

(** C19: what [doctor --fix] writes, [uninstall] takes away. Let the path of this binary have no
    line feed (a wrapper naming one that has is not recognised as ours), the process have
    the privilege its scope needs, and the base directories resolve. Start from a machine with
    nothing at the locations of the known browsers and of the directories passed to both
    commands, repair with any targets, either policy and any failures on the way short of a
    registry value that fails after its key was made, then uninstall in the same scope
    without failures: every file and every registry key is as it was at the start,
    directories aside, and the exit code is 0. *)
Theorem fix_then_uninstall_leaves_no_trace env io targets scope foreign manifest_dirs dirs m :
  no_half_set io ->
  from_env (env_os env) (env_var env) scope = Ok dirs ->
  privilege_allows (env_privilege env) scope = Ok tt ->
  (forall exe, env_exe env = Ok exe -> str_contains LF exe = false) ->
  repassed targets manifest_dirs ->
  Vacant (uninstall_targets (env_os env) dirs scope manifest_dirs) (install_dir (env_os env) dirs scope) m ->
  let m1 := (fix_ env io targets scope foreign m).1 in
  let '(m2, _, code) := run_uninstall env no_faults scope manifest_dirs m1 in
  m2 ≡ m /\ code = 0%Z.
Proof.
  intros Hio Hd Hp Hlf Hre Hv m1. set (us := uninstall_targets _ _ _ _) in *. set (dir := install_dir _ _ _) in *.
  pose proof (named_apart (env_os env) dirs scope manifest_dirs) as Hap.
  assert (Managed us dir m m1) as Hm1.
  { subst m1. unfold fix_. destruct (plan_fix env targets scope foreign m) as [[R ts]|e] eqn:E; [|by apply vacant_managed].
    pose proof (plan_fix_covered _ _ _ _ _ _ _ _ _ Hre Hd Hlf E) as Hc.
    pose proof (register_all_managed us dir Hap m R io ts m Hc Hio (vacant_managed us dir m Hv)) as H.
    by destruct (register_all R io ts m). }
  pose proof (removal_restores us dir Hap m m1 Hv Hm1) as H. unfold run_uninstall. rewrite Hp, Hd. fold us dir.
  destruct (uninstall_all no_faults us m1) as [m2 rs]. by destruct (remove_wrappers no_faults dir m2).
Qed.
End together.

Section witness.
Import RegistrationExample.
#[local] Existing Instances unix_style unix_build quoted toy_json toy_json_ok.

(** A Mac with Chrome and Brave in [/Applications], as the user [u] sees it. *)
Definition mac_env : Env :=
  mkEnv MacOs PrivUser (fun v => if String.eqb v "HOME" then Some "/home/u" else None) (Ok "/usr/bin/genkan").
Definition mac_dirs : BaseDirs := mkDirs "/home/u" None None None None None "/".
Definition two_browsers : Machine :=
  mkMachine (list_to_map [("/", NDir false 493); ("/home", NDir false 493); ("/home/u", NDir false 448);
    ("/Applications", NDir false 493); ("/Applications/Google Chrome.app", NDir false 493);
    ("/Applications/Brave Browser.app", NDir false 493); ("/usr/bin/genkan", NFile "ELF" 493)]) ∅.

(** The repair registers both browsers, which share Chrome's manifest, in one target. *)
Example repair_two_browsers :
  exists m lines, fix_ mac_env no_faults FixDetected ScopeUser Refuse two_browsers = (m, Ok [mkOutcome "chrome" (Ok lines)]).
Proof. do 2 eexists. vm_compute. reflexivity. Qed.

Lemma vacant_example :
  Vacant (uninstall_targets MacOs mac_dirs ScopeUser []) (install_dir MacOs mac_dirs ScopeUser) two_browsers.
Proof.
  constructor.
  - intros p Hp.
    assert (forallb (fun p => match fileview (files two_browsers !! p) with None => true | Some _ => false end)
      (manifest_paths (uninstall_targets MacOs mac_dirs ScopeUser []) ++ pointer_paths (uninstall_targets MacOs mac_dirs ScopeUser [])
       ++ wrapper_paths (install_dir MacOs mac_dirs ScopeUser)) = true) as H by (vm_compute; reflexivity).
    rewrite forallb_true_iff in H. specialize (H p Hp). by destruct (fileview _).
  - intros hive key path _. apply lookup_empty.
  - intros hive key _. apply lookup_empty.
Qed.

Lemma fix_then_uninstall_leaves_no_trace_witness :
  let m1 := (fix_ mac_env no_faults FixDetected ScopeUser Refuse two_browsers).1 in
  let '(m2, _, code) := run_uninstall mac_env no_faults ScopeUser [] m1 in
  m2 ≡ two_browsers /\ code = 0%Z.
Proof.
  apply (fix_then_uninstall_leaves_no_trace mac_env no_faults FixDetected ScopeUser Refuse [] mac_dirs two_browsers).
  - intros hive key e. discriminate.
  - reflexivity.
  - reflexivity.
  - intros exe [= <-]. reflexivity.
  - exact I.
  - exact vacant_example.
Defined.
End witness.
