(* ===== verification/Lockfile.v ===== *)
(** Lockfile: the published runtime state, the lock file and the socket, and the critical
    sections that change it (src/src/packages/core/src/ipc/lockfile.rs, ipc/socket.rs,
    ipc/attest.rs, ipc/runtime_dir.rs).

    Each operation is one critical section under the runtime mutex, a function of the
    published state and of what the operating system answers in it ([LockIo]); [System]
    composes them over the processes of one user. The lock's bytes are read back as they
    were written: a lock is the record or the error reading it gives. *)
From S2P Require Import Prelude Browsers Machine.
From stdpp Require Import base list gmap sets strings pretty.

Record LockFile := mkLock { endpoint : string; secret : string; lf_pid : Z }.

Definition LOCK_FILENAME : string := "run.lock".
Definition SOCKET_FILENAME : string := "run.sock".

Inductive LockNode := LockRead (lf : LockFile) | LockUnreadable (e : io_error).

(** The runtime directory's published files. A socket file is named by the listener that
    bound it: a process, whether or not it still runs. On Windows there is no file, and the
    field is the listener that last bound its own pipe. *)
Record Published := mkPublished { pb_lock : option LockNode; pb_socket : option nat }.

Record LockIo := mkLockIo {
  (** Entering the section: the directory, the mutex file and its lock. *)
  lk_acquire : result io_error unit;
  (** Reading the lock file fails although it is there. *)
  lk_read : option io_error;
  lk_unlink_lock : bool;
  lk_unlink_socket : bool;
  lk_bind : option io_error;
  lk_secure : option io_error;
  lk_secret : result io_error string;
  lk_write : option io_error;
  lk_alive : Z -> bool;
  (** [os::pid_identity] and the cached [own_identity]. *)
  lk_identity : Z -> result io_error string;
  lk_own : result io_error string
}.

Inductive PublishOutcome := WasPublished (lf : LockFile) | WasLost (current : LockFile).

Section lock_ops.
Context `{BL : Build}.
Implicit Types (s : Published) (io : LockIo).

(** [LockFile::read]. *)
Definition lock_read io s : result io_error (option LockFile) :=
  match lk_read io, pb_lock s with
  | Some e, _ => Err e
  | None, None => Ok None
  | None, Some (LockRead lf) => Ok (Some lf)
  | None, Some (LockUnreadable e) => Err e
  end.

(** [LockFile::remove]: each file on its own, failures ignored. *)
Definition lock_remove io s : Published :=
  mkPublished (if lk_unlink_lock io then None else pb_lock s)
    (if windows then pb_socket s else if lk_unlink_socket io then None else pb_socket s).

(** [LockFile::remove_if_owned]. *)
Definition remove_if_owned io (pid : Z) s : Published :=
  match lk_acquire io with
  | Err _ => s
  | Ok _ =>
      match lock_read io s with
      | Ok (Some lf) => if (lf_pid lf =? pid)%Z then lock_remove io s else s
      | _ => s
      end
  end.

(** [attest_pid]. *)
Definition attest_pid io (pid : Z) : result io_error unit :=
  measured ← lk_identity io pid;
  own ← lk_own io;
  if String.eqb measured own then Ok tt
  else Err (IoError PermissionDenied "pid executable identity mismatch").

(** [listen]: unlink a leftover socket, bind, restrict its mode, draw a secret. A socket
    whose later step fails stays bound to nothing that listens. *)
Definition listen io (me : nat) (pid : Z) (path : string) s : Published * result io_error LockFile :=
  let s := if windows then s else mkPublished (pb_lock s) (if lk_unlink_socket io then None else pb_socket s) in
  match lk_bind io with
  | Some e => (s, Err e)
  | None =>
      let s := mkPublished (pb_lock s) (Some me) in
      match (if windows then None else lk_secure io) with
      | Some e => (s, Err e)
      | None =>
          match lk_secret io with
          | Err e => (s, Err e)
          | Ok drawn => (s, Ok (mkLock path drawn pid))
          end
      end
  end.

Definition listen_and_publish io (me : nat) (pid : Z) (path : string) s :
    Published * result io_error PublishOutcome :=
  match lk_acquire io with
  | Err e => (s, Err e)
  | Ok _ =>
      let live_server :=
        match lock_read io s with
        | Ok (Some cur) =>
            if negb (lf_pid cur =? pid)%Z && lk_alive io (lf_pid cur) && is_ok (attest_pid io (lf_pid cur))
            then Some cur else None
        | _ => None
        end in
      match live_server with
      | Some cur => (s, Ok (WasLost cur))
      | None =>
          match listen io me pid path (lock_remove io s) with
          | (s, Err e) => (s, Err e)
          | (s, Ok lf) =>
              match lk_write io with
              | Some e => (s, Err e)
              | None => (mkPublished (Some (LockRead lf)) (pb_socket s), Ok (WasPublished lf))
              end
          end
      end
  end.

Definition NO_LOCK : io_error := IoError NotFound "genkan lock file not found - is the MCP server running?".

Definition read_lock_or_err io s : result io_error LockFile :=
  lock ← lock_read io s; ok_or lock NO_LOCK.

Definition cleanup_stale_lock io (dialed : LockFile) s : Published :=
  match lk_acquire io with
  | Err _ => s
  | Ok _ =>
      match lock_read io s with
      | Ok (Some cur) =>
          if (lf_pid cur =? lf_pid dialed)%Z && String.eqb (endpoint cur) (endpoint dialed)
             && negb (lk_alive io (lf_pid cur))
          then lock_remove io s else s
      | _ => s
      end
  end.

(** [connect]: the lock is read in one state of the files and dialed outside the mutex;
    a failed dial cleans up in the state the files have then. [pipe_name] is the check of a
    pipe's name, which only Windows makes. *)
Definition connect (pipe_name : string -> result string unit) (dial : LockFile -> result io_error unit)
    io_read s_read io s : Published * result io_error unit :=
  match read_lock_or_err io_read s_read with
  | Err e => (s, Err e)
  | Ok lf =>
      match (if windows then pipe_name (endpoint lf) else Ok tt) with
      | Err e => (s, Err (IoError InvalidData ("lock endpoint: " +:+ e)))
      | Ok _ =>
          match dial lf with
          | Ok _ => (s, Ok tt)
          | Err e => (cleanup_stale_lock io lf s, Err e)
          end
      end
  end.

End lock_ops.

(** * The runtime directory *)

Section runtime_dir.
Context `{PS : PathStyle}.

Definition runtime_dir_var (os : Os) : string :=
  match os with Windows => "LOCALAPPDATA" | MacOs | Linux => "XDG_RUNTIME_DIR" end.

(** [resolve_from_env], with the temporary directory and the effective user id. *)
Definition resolve_from_env (os : Os) (var : string -> option string) (temp_dir : string) (uid : Z) : string :=
  match os with
  | Windows =>
      Browsers.join (match var "LOCALAPPDATA", var "USERPROFILE" with
            | Some p, _ => p
            | None, Some p => Browsers.join p "AppData/Local"
            | None, None => temp_dir
            end) "genkan"
  | MacOs =>
      match var "XDG_RUNTIME_DIR" with
      | Some xdg => Browsers.join xdg "genkan"
      | None => Browsers.join (default "/tmp" (var "HOME")) "Library/Application Support/genkan"
      end
  | Linux =>
      match var "XDG_RUNTIME_DIR", var "XDG_CACHE_HOME", var "HOME" with
      | Some xdg, _, _ | None, Some xdg, _ => Browsers.join xdg "genkan"
      | None, None, Some home => Browsers.join home ".cache/genkan"
      | None, None, None => Browsers.join temp_dir ("genkan-" +:+ pretty uid)
      end
  end.

Definition refuse_unbindable_socket (os : Os) (socket_path_max : nat) (dir : string) : result io_error unit :=
  let sock := Browsers.join dir SOCKET_FILENAME in
  let len := String.length sock in
  if (socket_path_max <? len)%nat then
    Err (IoError InvalidInput ("runtime dir refused: the bridge socket path " +:+ sock +:+ " is " +:+ pretty len
      +:+ " bytes, over the " +:+ pretty socket_path_max +:+ "-byte sun_path limit; point " +:+ runtime_dir_var os
      +:+ " at a shorter directory"))
  else Ok tt.

(** [RuntimeDir::resolve]. *)
Definition runtime_dir_resolve (os : Os) (socket_path_max : nat) (var : string -> option string) (temp_dir : string) (uid : Z) :
    result io_error string :=
  let dir := resolve_from_env os var temp_dir uid in
  _ ← match os with Windows => Ok tt | MacOs | Linux => refuse_unbindable_socket os socket_path_max dir end;
  Ok dir.

(** [RuntimeDir::ensure], over the machine's files. *)
Definition runtime_dir_ensure `{BL : Build} (io : Io) (os : Os) (socket_path_max : nat) (var : string -> option string)
    (temp_dir : string) (uid : Z) (m : Machine) : Machine * result io_error string :=
  match runtime_dir_resolve os socket_path_max var temp_dir uid with
  | Err e => (m, Err e)
  | Ok dir =>
      match (if windows then create_dir_all io dir m else ensure_private_dir io dir m) with
      | (m, Err e) =>
          (m, Err (IoError (io_kind e) ("runtime dir refused: " +:+ dir +:+ " could not be created and secured ("
             +:+ io_msg e +:+ "); point " +:+ runtime_dir_var os +:+ " at a directory this user can own")))
      | (m, Ok _) => (m, Ok dir)
      end
  end.

Definition is_link (m : Machine) (path : string) : Prop :=
  match files m !! path with Some NDangling | Some (NDir true _) => True | _ => False end.

(** A runtime directory that was ensured is a directory of our own with mode 0700, no link,
    and its socket's path fits the limit of [bind]. *)
Theorem runtime_dir_is_private_and_bindable `{BL : Build} io os max var temp uid m m' dir :
  windows = false -> os <> Windows ->
  runtime_dir_ensure io os max var temp uid m = (m', Ok dir) ->
  metadata_mode m' dir = Ok 448%Z /\ ~ is_link m' dir /\ (String.length (Browsers.join dir SOCKET_FILENAME) <= max)%nat.
Proof.
  intros Hw Hos. unfold runtime_dir_ensure, runtime_dir_resolve. set (d := resolve_from_env os var temp uid).
  assert (match os with Windows => Ok tt | MacOs | Linux => refuse_unbindable_socket os max d end
    = refuse_unbindable_socket os max d) as -> by by destruct os.
  unfold refuse_unbindable_socket. destruct (Nat.ltb_spec max (String.length (Browsers.join d SOCKET_FILENAME))) as [|Hlen];
    [done|]. cbn [mbind result_mbind]. rewrite Hw. destruct (ensure_private_dir io d m) as [m1 [[]|e]] eqn:E; [|done].
  intros [= <- <-]. unfold ensure_private_dir in E. destruct (create_dir_all io d m) as [m0 [[]|e]]; [|done]. rewrite Hw in E.
  split; [|split; [|done]]; unfold is_link;
    destruct (files m0 !! d) as [[]|] eqn:Ed; try done; try (destruct link; [done|]);
    try (by apply set_dir_mode_Ok in E as [? _]);
    unfold set_dir_mode in E; destruct (io_chmod io d); try done; rewrite Ed in E; injection E as <-;
    cbn [files set_files]; rewrite lookup_insert_eq; tauto.
Qed.
End runtime_dir.

(** * The processes of one user *)

Module System.
Section system.
Context `{BL : Build}.

(** A running process: its pid, and the lock it serves under once it published. *)
Record Proc := mkProc { pr_pid : Z; pr_serving : option LockFile }.

Record state := mkState { pub : Published; procs : gmap nat Proc }.

(** What happens to the files: a process starts, publishes, removes its own files (at its
    end, or from its signal handler), dials and cleans up, and ends, however it ends. *)
Inductive label :=
| Spawn (i : nat)
| Publish (i : nat) (io : LockIo) (path : string)
| Retire (i : nat)
| Connect (i : nat)
| Exit (i : nat).

(** What the operating system says in a section: a running process is seen alive. It may
    fail to read the lock or to measure a process, and may say anything of other pids. *)
Definition sees (io : LockIo) (s : state) : Prop :=
  forall j p, procs s !! j = Some p -> lk_alive io (pr_pid p) = true.

Definition served (r : result io_error PublishOutcome) (p : Proc) : Proc :=
  match r with
  | Ok (WasPublished lf) => mkProc (pr_pid p) (Some lf)
  | Ok (WasLost _) | Err _ => p
  end.

Inductive step : state -> label -> state -> Prop :=
| step_spawn s i p :
    procs s !! i = None -> pr_serving p = None -> (forall j q, procs s !! j = Some q -> pr_pid q <> pr_pid p) ->
    step s (Spawn i) (mkState (pub s) (<[i := p]> (procs s)))
| step_publish s i p io path pub' r :
    procs s !! i = Some p -> pr_serving p = None -> sees io s ->
    listen_and_publish io i (pr_pid p) path (pub s) = (pub', r) ->
    step s (Publish i io path) (mkState pub' (<[i := served r p]> (procs s)))
| step_retire s i p io :
    procs s !! i = Some p -> sees io s ->
    step s (Retire i) (mkState (remove_if_owned io (pr_pid p) (pub s)) (procs s))
| step_connect s i p pipe_name dial io_read s_read io :
    procs s !! i = Some p -> sees io s ->
    step s (Connect i) (mkState (connect pipe_name dial io_read s_read io (pub s)).1 (procs s))
| step_exit s i : step s (Exit i) (mkState (pub s) (delete i (procs s))).

(** Any files left from before may lie in the directory; no process runs yet. *)
Definition initial (s : state) : Prop := procs s = ∅.

Definition serving (s : state) (i : nat) (lf : LockFile) : Prop :=
  exists p, procs s !! i = Some p /\ pr_serving p = Some lf.

(** What a serving process can rely on: the files name it. *)
Definition names (s : state) (i : nat) (lf : LockFile) : Prop :=
  pb_lock (pub s) = Some (LockRead lf) /\ pb_socket (pub s) = Some i.

(** A publisher that entered the section and did not recognise the server the files name: it could not
    read the lock, or could not verify the process in it. *)
Definition overlooks (io : LockIo) (s : Published) : bool :=
  is_ok (lk_acquire io) &&
  match lock_read io s with
  | Err _ => true
  | Ok None => false
  | Ok (Some cur) => negb (is_ok (attest_pid io (lf_pid cur)))
  end.

(** Steps that must not touch the files of a server [i]. *)
Definition spares (i : nat) (s : state) (l : label) : Prop :=
  match l with
  | Publish _ io _ => overlooks io (pub s) = false
  | Retire j | Exit j => j <> i
  | Spawn _ | Connect _ => True
  end.

(** A run, every step of which satisfies a condition. *)
Inductive run (ok : state -> label -> Prop) : state -> state -> Prop :=
| run_nil s : run ok s s
| run_cons s l s1 s' : step s l s1 -> ok s l -> run ok s1 s' -> run ok s s'.

Record inv (s : state) : Prop := mkInv {
  inv_pids i j p q : procs s !! i = Some p -> procs s !! j = Some q -> pr_pid p = pr_pid q -> i = j;
  inv_lock i p lf : procs s !! i = Some p -> pr_serving p = Some lf -> lf_pid lf = pr_pid p
}.

(** ** The sections *)

Lemma publish_defers io s i pid path lf :
  overlooks io s = false -> pb_lock s = Some (LockRead lf) -> lf_pid lf <> pid -> lk_alive io (lf_pid lf) = true ->
  (listen_and_publish io i pid path s).1 = s /\
  forall lf', (listen_and_publish io i pid path s).2 <> Ok (WasPublished lf').
Proof.
  unfold overlooks, listen_and_publish, lock_read. intros Ho Hl Hne Ha. rewrite Hl in Ho |- *.
  destruct (lk_acquire io); [|done]. cbn [is_ok andb] in Ho. destruct (lk_read io); [done|]. apply Z.eqb_neq in Hne.
  apply negb_false_iff in Ho. by rewrite Hne, Ha, Ho.
Qed.

Lemma publish_names io s i pid path pub' lf :
  listen_and_publish io i pid path s = (pub', Ok (WasPublished lf)) ->
  lf_pid lf = pid /\ pb_lock pub' = Some (LockRead lf) /\ pb_socket pub' = Some i.
Proof.
  unfold listen_and_publish. destruct (lk_acquire io); [|done]. cbv zeta.
  destruct (match lock_read io s with Ok (Some cur) => _ | _ => _ end); [done|].
  unfold listen. destruct (lk_bind io); [done|]. destruct (if windows then None else lk_secure io); [done|].
  destruct (lk_secret io); [|done]. destruct (lk_write io); [done|]. by intros [= <- <-].
Qed.

(** A failed dial removes no files whose owner is alive. *)
Lemma connect_keeps_live pipe_name dial io_read s_read io s lf :
  pb_lock s = Some (LockRead lf) -> lk_alive io (lf_pid lf) = true ->
  (connect pipe_name dial io_read s_read io s).1 = s.
Proof.
  intros Hl Ha. unfold connect. destruct (read_lock_or_err io_read s_read) as [d|]; [|done].
  destruct (if windows then _ else _); [|done]. destruct (dial d); [done|]. cbn [fst].
  unfold cleanup_stale_lock, lock_read. rewrite Hl. destruct (lk_acquire io), (lk_read io); try done.
  by rewrite Ha, andb_false_r.
Qed.

(** Another process's cleanup at its end removes nothing. *)
Lemma retire_keeps_others io pid s lf :
  pb_lock s = Some (LockRead lf) -> lf_pid lf <> pid -> remove_if_owned io pid s = s.
Proof.
  intros Hl Hne. apply Z.eqb_neq in Hne. unfold remove_if_owned, lock_read. rewrite Hl.
  destruct (lk_acquire io), (lk_read io); try done. by rewrite Hne.
Qed.

(** ** The invariant *)

Lemma served_pid r p : pr_pid (served r p) = pr_pid p.
Proof. by destruct r as [[]|]. Qed.

Lemma inv_step s l s' : inv s -> step s l s' -> inv s'.
Proof.
  intros [Hp Hl] Hs. destruct Hs as [s i p Hi Hsv Hfresh|s i p io path pub' r Hi Hsv Hsee H|s i p io Hi Hsee
    |s i p pipe_name dial io_read s_read io Hi Hsee|s i]; cbn [procs pub] in *; [| |by constructor|by constructor|].
  - constructor; cbn [procs pub].
    + intros a b x y Ha Hb. apply lookup_insert_Some in Ha as [[<- <-]|[Ha1 Ha]], Hb as [[<- <-]|[Hb1 Hb]]; intros E;
        [done|by destruct (Hfresh _ _ Hb)|by destruct (Hfresh _ _ Ha)|by eapply Hp].
    + intros a x lf Ha Hx. apply lookup_insert_Some in Ha as [[<- <-]|[Ha1 Ha]]; [congruence|]. by apply (Hl a x lf).
  - pose proof (served_pid r p) as Hpid. constructor; cbn [procs pub].
    + intros a b x y Ha Hb. apply lookup_insert_Some in Ha as [[<- <-]|[Ha1 Ha]], Hb as [[<- <-]|[Hb1 Hb]]; intros E;
        [done| | |by eapply Hp]; [apply (Hp i b p y)|apply (Hp a i x p)]; congruence.
    + intros a x lf Ha Hx. apply lookup_insert_Some in Ha as [[<- <-]|[Ha1 Ha]]; [|by apply (Hl a x lf)].
      destruct r as [[lf'|]|]; cbn [served pr_serving] in Hx; try congruence. injection Hx as ->.
      by destruct (publish_names _ _ _ _ _ _ _ H) as (-> & _).
  - constructor; cbn [procs pub].
    + intros a b x y Ha Hb. apply lookup_delete_Some in Ha as [_ Ha], Hb as [_ Hb]. by apply Hp.
    + intros a x lf Ha Hx. apply lookup_delete_Some in Ha as [_ Ha]. by apply (Hl a x lf).
Qed.

Lemma inv_reachable s : reachable step initial s -> inv s.
Proof.
  apply reachable_invariant; [|apply inv_step]. intros s0 E. unfold initial in E.
  constructor; rewrite E; intros; by simplify_map_eq.
Qed.

(** What a server keeps over a step that must not touch its files. *)
Definition kept (i : nat) (lf : LockFile) (s s' : state) : Prop :=
  serving s' i lf /\ names s' i lf /\ forall j lf', serving s' j lf' -> serving s j lf'.

Lemma spared_step s l s' i lf :
  inv s -> serving s i lf -> names s i lf -> step s l s' -> spares i s l -> kept i lf s s'.
Proof.
  intros [Hp Hpid] (p & Hi & Hsv) [Hl Hsock] Hs Hsp. pose proof (Hpid _ _ _ Hi Hsv) as Elf.
  destruct Hs as [s j q Hj Hq Hfresh|s j q io path pub' r Hj Hq Hsee H|s j q io Hj Hsee
    |s j q pipe_name dial io_read s_read io Hj Hsee|s j]; cbn [spares] in Hsp; unfold kept, serving, names;
    cbn [procs pub]; setoid_rewrite lookup_insert_Some || setoid_rewrite lookup_delete_Some || idtac.
  - split_and!; [|done..|].
    + exists p. split; [right; split; [by intros ->; congruence|done]|done].
    + intros a lf' (x & [[<- <-]|[_ Ha]] & Hx); [congruence|by exists x].
  - assert (j <> i) as Hji by (intros ->; congruence).
    destruct (publish_defers io (pub s) j (pr_pid q) path lf Hsp Hl) as [Hpub Hlost].
    { rewrite Elf. intros E. apply Hji. symmetry. by apply (Hp i j p q). }
    { rewrite Elf. by apply (Hsee i). }
    rewrite H in Hpub, Hlost. cbn [fst snd] in Hpub, Hlost. subst pub'. split_and!; [|done..|].
    + exists p. by split; [right|].
    + intros a lf' (x & [[<- <-]|[_ Ha]] & Hx); [|by exists x].
      destruct r as [[lf1|]|]; cbn [served pr_serving] in Hx; [by destruct (Hlost lf1)|congruence|congruence].
  - rewrite (retire_keeps_others io (pr_pid q) (pub s) lf Hl); [split_and!; [by exists p|done..]|].
    rewrite Elf. intros E. apply Hsp. symmetry. by apply (Hp i j p q).
  - rewrite (connect_keeps_live _ _ _ _ _ _ lf Hl); [split_and!; [by exists p|done..]|].
    rewrite Elf. by apply (Hsee i).
  - split_and!; [exists p; by split|done..|]. intros a lf' (x & [_ Ha] & Hx). by exists x.
Qed.

Lemma spared_run i lf s s' :
  run (spares i) s s' -> inv s -> serving s i lf -> names s i lf -> kept i lf s s'.
Proof.
  induction 1 as [s|s l s1 s' Hs Hsp Hr IH]; intros Hinv Hsv Hn; [by split_and!|].
  destruct (spared_step s l s1 i lf Hinv Hsv Hn Hs Hsp) as (Hsv1 & Hn1 & Hb1).
  destruct (IH (inv_step _ _ _ Hinv Hs) Hsv1 Hn1) as (Hsv2 & Hn2 & Hb2). split_and!; eauto.
Qed.

Lemma published_is_named s i io path s' lf :
  step s (Publish i io path) s' -> serving s' i lf -> names s' i lf.
Proof.
  intros Hs (p & Hi & Hsv). inversion Hs as [|? ? q ? ? pub' r Hj Hq Hsee H| | |]; subst.
  cbn [procs] in Hi. rewrite lookup_insert_eq in Hi. injection Hi as <-.
  destruct r as [[lf1|]|]; cbn [served pr_serving] in Hsv; [|congruence..]. injection Hsv as ->.
  by destruct (publish_names _ _ _ _ _ _ _ H) as (_ & ? & ?).
Qed.
End system.
End System.

(** C16: a server that published stays discoverable. Once a process published, whatever
    the runtime directory held before, the lock file and the socket name it; and they go on
    naming it, and no other process begins to serve, in every interleaving of starts,
    publications, exits, crashes, clean-ups at exit and clean-ups after failed dials by the
    other processes of our binary under this user, pid reuse and failing calls included,
    until it removes its files itself, ends, or is overlooked: a later publisher could not
    read the lock or could not verify the process in it, which is when the code supersedes
    a live server on purpose. A running process is assumed to be seen alive. *)
Theorem one_server_stays_discoverable `{BL : Build} s0 i io path s lf s' :
  reachable System.step System.initial s0 ->
  System.step s0 (System.Publish i io path) s -> System.serving s i lf ->
  System.run (System.spares i) s s' ->
  System.names s i lf /\ System.serving s' i lf /\ System.names s' i lf /\
  forall j lf', System.serving s' j lf' -> System.serving s j lf'.
Proof.
  intros Hr Hs Hsv Hrun. pose proof (System.published_is_named _ _ _ _ _ _ Hs Hsv) as Hn. split; [done|].
  apply (System.spared_run i lf s s' Hrun); [|done|done].
  apply (System.inv_step _ _ _ (System.inv_reachable s0 Hr) Hs).
Qed.

(** Startup is never wedged by what lies in the runtime directory: when nothing fails, a
    process either publishes, with the files naming it, or defers to a live server proved
    to run the same binary, whose files it leaves alone. *)
Theorem startup_is_never_wedged `{BL : Build} io me pid path s drawn :
  lk_acquire io = Ok tt -> lk_bind io = None -> lk_secure io = None -> lk_secret io = Ok drawn -> lk_write io = None ->
  (exists lf, listen_and_publish io me pid path s = (mkPublished (Some (LockRead lf)) (Some me), Ok (WasPublished lf)) /\
     lf = mkLock path drawn pid) \/
  (exists cur, listen_and_publish io me pid path s = (s, Ok (WasLost cur)) /\ pb_lock s = Some (LockRead cur) /\
     lf_pid cur <> pid /\ lk_alive io (lf_pid cur) = true /\ attest_pid io (lf_pid cur) = Ok tt).
Proof.
  intros Ha Hb Hsec Hd Hw. unfold listen_and_publish. rewrite Ha. cbv zeta.
  destruct (match lock_read io s with Ok (Some cur) => _ | _ => _ end) as [cur|] eqn:E.
  - right. unfold lock_read in E. destruct (lk_read io); [done|]. destruct (pb_lock s) as [[lf|]|] eqn:El; try done.
    destruct (negb _ && _ && _) eqn:Eb; [|done]. injection E as ->. rewrite !andb_true_iff, negb_true_iff, Z.eqb_neq in Eb.
    destruct Eb as [[H1 H2] H3]. exists cur. split_and!; try done. by destruct (attest_pid io (lf_pid cur)) as [[]|].
  - left. unfold listen. rewrite Hb, Hsec, Hd, Hw. destruct windows; by eexists.
Qed.

Lemma runtime_dir_is_private_and_bindable_witness :
  let m := mkMachine {[ "/run" := NDir false 493%Z ]} ∅ in
  let var v := if String.eqb v "XDG_RUNTIME_DIR" then Some "/run" else None in
  let m' := (@runtime_dir_ensure unix_style unix_build no_faults Linux 107 var "/tmp" 1000 m).1 in
  metadata_mode m' "/run/genkan" = Ok 448%Z /\ ~ is_link m' "/run/genkan" /\
  (String.length (@Browsers.join unix_style "/run/genkan" SOCKET_FILENAME) <= 107)%nat.
Proof.
  intros m var m'. apply (@runtime_dir_is_private_and_bindable unix_style unix_build no_faults Linux 107 var "/tmp" 1000 m);
    [reflexivity|discriminate|vm_compute; reflexivity].
Defined.

Module LockExample.
#[export] Existing Instance unix_build.
Definition quiet : LockIo :=
  mkLockIo (Ok tt) None true true None None (Ok "5ec2e7") None (fun p => (p =? 10)%Z || (p =? 11)%Z)
    (fun _ => Ok "image") (Ok "image").
Definition path : string := "/run/user/1000/genkan/run.sock".
(** A crashed server's files; then one instance publishes and a second finds it. *)
Definition s0 : System.state := System.mkState (mkPublished (Some (LockRead (mkLock path "old" 7))) (Some 0)) ∅.
Definition first : System.Proc := System.mkProc 10 None.
Definition second : System.Proc := System.mkProc 11 None.
Definition lf : LockFile := mkLock path "5ec2e7" 10.
Definition files : Published := mkPublished (Some (LockRead lf)) (Some 1).
Definition s1 : System.state := System.mkState (System.pub s0) (<[1 := first]> (System.procs s0)).
Definition s2 : System.state :=
  System.mkState files (<[1 := System.served (Ok (WasPublished lf)) first]> (System.procs s1)).
Definition s3 : System.state := System.mkState (System.pub s2) (<[2 := second]> (System.procs s2)).
Definition s4 : System.state :=
  System.mkState files (<[2 := System.served (Ok (WasLost lf)) second]> (System.procs s3)).

Lemma spawned : reachable System.step System.initial s1.
Proof.
  apply (reach_step _ _ s0 (System.Spawn 1)); [by apply reach_init|].
  apply (System.step_spawn s0 1 first); [done..|]. intros j q Hq. unfold s0 in Hq. cbn in Hq. by simplify_map_eq.
Qed.

Lemma published : System.step s1 (System.Publish 1 quiet path) s2.
Proof.
  apply (System.step_publish s1 1 first quiet path files (Ok (WasPublished lf))); try done.
  intros j p Hp. unfold s1 in Hp. cbn [System.procs] in Hp.
  apply lookup_insert_Some in Hp as [[<- <-]|[_ Hp]]; [done|]. unfold s0 in Hp. cbn in Hp. by simplify_map_eq.
Qed.

Lemma lost_run : System.run (System.spares 1) s2 s4.
Proof.
  apply (System.run_cons _ s2 (System.Spawn 2) s3); [|done|].
  - apply (System.step_spawn s2 2 second); [done..|]. intros j q Hq. unfold s2, s1, s0 in Hq. cbn [System.procs] in Hq.
    apply lookup_insert_Some in Hq as [[<- <-]|[Hn Hq]]; [done|]. by rewrite lookup_insert_ne in Hq.
  - apply (System.run_cons _ s3 (System.Publish 2 quiet path) s4); [|done|constructor].
    apply (System.step_publish s3 2 second quiet path files (Ok (WasLost lf))); try done.
    intros j p Hp. unfold s3, s2, s1, s0 in Hp. cbn [System.procs] in Hp.
    apply lookup_insert_Some in Hp as [[<- <-]|[_ Hp]]; [done|].
    apply lookup_insert_Some in Hp as [[<- <-]|[Hn Hp]]; [done|]. by rewrite lookup_insert_ne in Hp.
Qed.
End LockExample.

(** A second instance starts and finds the first, whose files stay as they are. *)
Lemma one_server_stays_discoverable_witness :
  System.names LockExample.s2 1 LockExample.lf /\ System.serving LockExample.s4 1 LockExample.lf /\
  System.names LockExample.s4 1 LockExample.lf /\
  forall j lf', System.serving LockExample.s4 j lf' -> System.serving LockExample.s2 j lf'.
Proof.
  apply (@one_server_stays_discoverable unix_build LockExample.s1 1 LockExample.quiet LockExample.path
    LockExample.s2 LockExample.lf LockExample.s4).
  - exact LockExample.spawned.
  - exact LockExample.published.
  - by exists (System.served (Ok (WasPublished LockExample.lf)) LockExample.first).
  - exact LockExample.lost_run.
Defined.

Lemma startup_is_never_wedged_witness :
  exists lf, @listen_and_publish unix_build LockExample.quiet 3 12 LockExample.path (mkPublished (Some (LockUnreadable not_found)) (Some 9))
    = (mkPublished (Some (LockRead lf)) (Some 3), Ok (WasPublished lf)).
Proof.
  destruct (@startup_is_never_wedged unix_build LockExample.quiet 3 12 LockExample.path
    (mkPublished (Some (LockUnreadable not_found)) (Some 9)) "5ec2e7" eq_refl eq_refl eq_refl eq_refl eq_refl)
    as [(lf & H & _)|(cur & _ & H & _)]; [by exists lf|discriminate H].
Defined.
