(* ===== verification/Peers.v ===== *)
(** Peers: who is at the other end. Measuring an executable image and comparing it with
    this one's (src/src/packages/core/src/ipc/attest.rs, ipc/identity.rs [of_file],
    ipc/platform/linux.rs, ipc/peercred.rs), and what the Windows platform parses and decides
    without a system call (ipc/platform/windows/mod.rs, signer.rs): pipe names, the access
    descriptor's text, the creator of a pipe, the verdict on a signature.

    What the system measures is an argument. *)
From S2P Require Import Prelude RuntimeRecord Identity Trust PolicyRecord World Messages Browsers Wrapper Machine Lockfile.
From Stdlib Require Import Ascii.
From stdpp Require Import base list sets strings pretty.

(** * Measuring an image *)

Section measure.
Context `{DG : Digest}.

(** [HashDigest::try_from(&[u8])]. *)
Definition digest_of_bytes (b : bytes) : result string HashDigest :=
  if existsb (Nat.eqb (length b)) DIGEST_WIDTHS then Ok (hex_encode b)
  else Err ("digest must be 20 or 32 bytes, got " +:+ pretty (length b)).

(** The read loop of [HashDigest::of_file]: [reads] is what each read gives, and an empty
    one is the end of the file; [None] while the file goes on. *)
Fixpoint hash_reads (hashed : bytes) (reads : list (result io_error bytes)) : option (result io_error bytes) :=
  match reads with
  | [] => None
  | Err e :: _ => Some (Err e)
  | Ok [] :: _ => Some (Ok (sha256 hashed))
  | Ok chunk :: reads => hash_reads (hashed ++ chunk) reads
  end.

(** [HashDigest::of_file]; [opened] is the open. *)
Definition of_file (opened : result io_error unit) (reads : list (result io_error bytes)) : option (result io_error HashDigest) :=
  match opened with
  | Err e => Some (Err e)
  | Ok _ =>
      r ← hash_reads [] reads;
      Some (digest ← r; map_err invalid_data (digest_of_bytes digest))
  end.
End measure.

(** * This binary *)

(** [own_identity]: the cell is filled by the first call, a failure too. *)
Definition own_identity (own_error : string) (measured : result io_error HashDigest) (cache : option (option HashDigest)) :
    result io_error HashDigest * option (option HashDigest) :=
  let own := default (match measured with Ok d => Some d | Err _ => None end) cache in
  (ok_or own (IoError Other own_error), Some own).

(** [attest_peer] and [attest_pid]: the peer is measured first. *)
Definition attest (mismatch own_error : string) (peer measured : result io_error HashDigest) (cache : option (option HashDigest)) :
    result io_error unit * option (option HashDigest) :=
  match peer with
  | Err e => (Err e, cache)
  | Ok peer =>
      let '(own, cache) := own_identity own_error measured cache in
      (own ← own; if String.eqb peer own then Ok tt else Err (IoError PermissionDenied mismatch), cache)
  end.

Definition attest_peer := attest "peer executable identity mismatch".

(** A process's attestations in order, each with what a measurement of itself would give. *)
Fixpoint attestations (own_error : string) (l : list (result io_error HashDigest * result io_error HashDigest))
    (cache : option (option HashDigest)) : list (result io_error unit) :=
  match l with
  | [] => []
  | (peer, measured) :: l =>
      let '(r, cache) := attest_peer own_error peer measured cache in r :: attestations own_error l cache
  end.

(** * Processes *)

Definition I32_MAX : Z := 2 ^ 31 - 1.

(** [checked_pid]: [pid_t::try_from(u32)], positive. *)
Definition checked_pid (pid : Z) : option Z :=
  if (pid <=? I32_MAX)%Z && (0 <? pid)%Z then Some pid else None.

Definition EPERM : Z := 1.

(** [pid_is_alive] on Unix: [kill pid] is [kill(pid, 0)], the errno of a failure. *)
Definition pid_is_alive (kill : Z -> option Z) (pid : Z) : bool :=
  match checked_pid pid with
  | None => false
  | Some pid => match kill pid with None => true | Some errno => (errno =? EPERM)%Z end
  end.

(** [linux::pid_client_identity]. *)
Definition linux_client_identity (measured : result io_error HashDigest) : result io_error ClientIdentity :=
  hash ← measured; Ok {| ci_hash := hash; ci_signer := None |}.

(** [attest_parent] on Unix: the parent pid, and what measures a pid. *)
Definition attest_parent (parent_pid : Z) (client_identity : Z -> result io_error ClientIdentity) : result io_error ClientIdentity :=
  if (parent_pid <? 0)%Z then Err (invalid_data "parent pid out of range") else client_identity parent_pid.

(** * Windows *)

Definition backslash : string := String "\"%char "".
Definition PIPE_NAMESPACE : string := backslash +:+ backslash +:+ "." +:+ backslash +:+ "pipe" +:+ backslash.
Definition PIPE_NAME_MAX : nat := 256.

(** [PipeName::try_from]. *)
Definition PipeName_try_from (value : string) : result string string :=
  leaf ← ok_or (Prelude.strip_prefix PIPE_NAMESPACE value) ("pipe name must start with " +:+ PIPE_NAMESPACE);
  if str_is_empty leaf || str_contains "\"%char leaf || str_contains "/"%char leaf
  then Err "pipe name must be one leaf under the local pipe namespace"
  else if (PIPE_NAME_MAX <? String.length value)%nat
  then Err ("pipe name exceeds " +:+ pretty PIPE_NAME_MAX +:+ " characters")
  else Ok value.

(** [PipeName::for_broker]. *)
Definition for_broker `{DG : Digest} (runtime_dir : string) (pid : Z) : string :=
  let leaf := hex_encode (firstn 16 (sha256 (as_bytes runtime_dir))) in
  PIPE_NAMESPACE +:+ "genkan-" +:+ leaf +:+ "-" +:+ pretty pid.

Definition digit_or_dash (c : ascii) : bool := byte_in 48 57 c || Ascii.eqb c "-".

(** [SidString::try_from]. *)
Definition SidString_try_from (value : string) : result string string :=
  match Prelude.strip_prefix "S-1-" value with
  | Some rest =>
      if negb (str_is_empty rest) && forallb digit_or_dash (String.list_ascii_of_string rest) then Ok value
      else Err "SID must be S-1- followed by digits and dashes"
  | None => Err "SID must be S-1- followed by digits and dashes"
  end.

Definition user_only_sddl (sid : string) : string := "D:P(A;;GA;;;" +:+ sid +:+ ")".

Definition pipe_creator (client server me : Z) : result string Z :=
  if negb (client =? server)%Z then
    Err ("stdin pipe ends belong to different processes (" +:+ pretty client +:+ " and " +:+ pretty server +:+ "); the harness cannot be attested")
  else if (client =? me)%Z then Err "stdin pipe was created by this process"
  else Ok client.

Inductive TrustStatus := TsTrusted (subject : string) | TsUnsigned | TsTampered | TsUntrusted (code : Z).

(** [hresult]: the bits of a [u32] as an [i32]. *)
Definition hresult (code : Z) : Z := if (code <? 2 ^ 31)%Z then code else code - 2 ^ 32.
Definition TRUST_E_NOSIGNATURE : Z := hresult 2148204800.
Definition TRUST_E_BAD_DIGEST : Z := hresult 2148098064.

(** [TrustStatus::classify]: the subject is read only of a trusted image. *)
Definition classify_signature (code : Z) (subject : result io_error string) : result io_error TrustStatus :=
  if (code =? 0)%Z then TsTrusted <$> subject
  else if (code =? TRUST_E_NOSIGNATURE)%Z then Ok TsUnsigned
  else if (code =? TRUST_E_BAD_DIGEST)%Z then Ok TsTampered
  else Ok (TsUntrusted code).

Definition publisher_anchor (status : TrustStatus) : result io_error (option SignerId) :=
  match status with
  | TsTrusted subject => map_err invalid_data (Some <$> SignerId_try_from subject)
  | TsUnsigned | TsUntrusted _ => Ok None
  | TsTampered => Err (IoError PermissionDenied "image signature does not match its contents")
  end.

(** [publisher_of]: what [WinVerifyTrust] returned, and the subject behind it. *)
Definition publisher_of (verified : result io_error Z) (subject : result io_error string) : result io_error (option SignerId) :=
  code ← verified; status ← classify_signature code subject; publisher_anchor status.

(** [windows::pid_client_identity]. *)
Definition windows_client_identity (image : result io_error string) (hash : string -> result io_error HashDigest)
    (publisher : string -> result io_error (option SignerId)) : result io_error ClientIdentity :=
  image ← image; hash ← hash image; signer ← publisher image; Ok {| ci_hash := hash; ci_signer := signer |}.

(** * Lemmas *)

Lemma hash_reads_spec `{DG : Digest} hashed reads r :
  hash_reads hashed reads = Some r ->
  exists chunks rest, reads = (Ok <$> chunks) ++ rest /\ Forall (fun c => c <> []) chunks /\
    match r with
    | Ok digest => head rest = Some (Ok []) /\ digest = sha256 (hashed ++ concat chunks)
    | Err e => head rest = Some (Err e)
    end.
Proof.
  revert hashed. induction reads as [|[[|b chunk]|e] reads IH]; intros hashed; cbn [hash_reads]; [done|..].
  - intros [= <-]. exists [], (Ok [] :: reads). cbn. by rewrite app_nil_r.
  - intros (chunks & rest & -> & Hc & Hr)%IH. exists ((b :: chunk) :: chunks), rest. split_and!; [done|by constructor|].
    destruct r; [|done]. cbn [concat]. by rewrite app_assoc.
  - intros [= <-]. by exists [], (Err e :: reads).
Qed.

Lemma attestations_cached own_error l cache :
  attestations own_error l (Some cache) =
    (fun p => peer ← p.1; own ← ok_or cache (IoError Other own_error);
       if String.eqb peer own then Ok tt else Err (IoError PermissionDenied "peer executable identity mismatch")) <$> l.
Proof.
  induction l as [|[[peer|e] measured] l IH]; [done|..]; cbn [attestations].
  - unfold attest_peer, attest, own_identity. cbn. rewrite IH. by destruct cache.
  - unfold attest_peer, attest. by rewrite IH.
Qed.

Definition digit_char (c : ascii) : bool := byte_in 48 57 c.

Lemma digit_char_spec d : (d < 10)%N -> digit_char (pretty_N_char d) = true.
Proof.
  intros Hd. assert (d = 0 \/ d = 1 \/ d = 2 \/ d = 3 \/ d = 4 \/ d = 5 \/ d = 6 \/ d = 7 \/ d = 8 \/ d = 9)%N as H by lia.
  repeat destruct H as [->|H]; [reflexivity..|]. subst. reflexivity.
Qed.

(** A number below [10 ^ k] prints as at most [k] digits. *)
Lemma decimal_go (k : nat) x s :
  (Z.of_N x < 10 ^ Z.of_nat k)%Z ->
  String.length (pretty_N_go x s) <= k + String.length s /\
  forallb digit_char (String.list_ascii_of_string (pretty_N_go x s)) = forallb digit_char (String.list_ascii_of_string s).
Proof.
  revert x s. induction k as [|k IH]; intros x s Hx.
  { assert (x = 0%N) as -> by lia. rewrite pretty_N_go_0. split; [lia|done]. }
  destruct (decide (x = 0)%N) as [->|Hn]; [rewrite pretty_N_go_0; split; [lia|done]|].
  rewrite pretty_N_go_step by lia. pose proof (N.mod_lt x 10 ltac:(done)) as Hm.
  pose proof (N.div_mod x 10 ltac:(done)) as Hdm. rewrite Nat2Z.inj_succ, Z.pow_succ_r in Hx by lia.
  destruct (IH (x `div` 10)%N (String (pretty_N_char (x `mod` 10)) s)) as [H1 H2].
  { rewrite N2Z.inj_div. apply Z.div_lt_upper_bound; lia. }
  split; [cbn [String.length] in H1; lia|]. rewrite H2. cbn [String.list_ascii_of_string forallb].
  by rewrite digit_char_spec.
Qed.

Lemma decimal_pid pid :
  (0 <= pid < 2 ^ 32)%Z ->
  String.length (pretty pid) <= 10 /\ forallb digit_char (String.list_ascii_of_string (pretty pid)) = true.
Proof.
  intros Hp. assert (pretty pid = pretty (Z.to_N pid)) as -> by (destruct pid; [done|done|lia]).
  unfold pretty, pretty_N. case_decide; [split; [cbn; lia|done]|].
  destruct (decimal_go 10 (Z.to_N pid) "") as [H1 H2]; [cbn; lia|]. cbn [String.length] in H1. split; [lia|done].
Qed.

Lemma without_char (p : ascii -> bool) c s :
  p c = false -> forallb p (String.list_ascii_of_string s) = true -> str_contains c s = false.
Proof.
  intros Hc Hs. apply not_true_iff_false. rewrite str_contains_spec. intros Hin.
  rewrite forallb_true_iff in Hs. rewrite (Hs _ Hin) in Hc. done.
Qed.

Lemma str_app_inj (a a' b b' : string) : String.length a = String.length a' -> a +:+ b = a' +:+ b' -> a = a' /\ b = b'.
Proof.
  revert a'. induction a as [|c a IH]; intros [|c' a'] Hl H; try done. cbn in *.
  injection Hl as Hl. injection H as -> H. by destruct (IH _ Hl H) as [-> ->].
Qed.

Lemma strip_prefix_app p s : Prelude.strip_prefix p (p +:+ s) = Some s.
Proof.
  induction p as [|c p IH]; [done|]. change (String c p +:+ s) with (String c (p +:+ s)).
  cbn [Prelude.strip_prefix]. by rewrite Ascii.eqb_refl.
Qed.

(** * Properties *)

(** A process keeps the identity it measured at its start. Once [ensure_own_identity] ran,
    every later attestation compares the peer with that first measurement, whatever this
    image would measure as by then; and a process that could not measure itself accepts no
    peer, ever. *)
Theorem self_is_measured_once (own_error : string) (measured : result io_error HashDigest)
    (l : list (result io_error HashDigest * result io_error HashDigest)) :
  let '(own, cache) := own_identity own_error measured None in
  is_ok own = is_ok measured /\
  Forall2 (fun p r => is_ok r = true <-> exists d, measured = Ok d /\ p.1 = Ok d) l (attestations own_error l cache).
Proof.
  unfold own_identity. cbn. split; [by destruct measured|].
  rewrite attestations_cached. apply Forall2_fmap_r, Forall_Forall2_diag, Forall_true.
  intros [[peer|e] m]; unfold compose; cbn [fst mbind result_mbind]; [|split; [done|by intros (d & _ & [=])]].
  destruct measured as [own|]; cbn [ok_or mbind result_mbind]; [|split; [done|by intros (d & [=] & _)]].
  destruct (String.eqb_spec peer own) as [->|Hn].
  - split; [|done]. by exists own.
  - split; [done|]. by intros (d & [= <-] & [= ->]).
Qed.

(** The digest of an image does not depend on how its bytes were read: chunks of any size
    give the digest of the file's contents, and a read that fails gives its error. *)
Theorem image_digest_ignores_chunking `{DG : Digest} (reads : list (result io_error bytes)) (d : HashDigest) :
  of_file (Ok tt) reads = Some (Ok d) ->
  exists chunks rest, reads = (Ok <$> chunks) ++ Ok [] :: rest /\ Forall (fun c => c <> []) chunks /\
    digest_of_bytes (sha256 (concat chunks)) = Ok d.
Proof.
  unfold of_file. cbn. destruct (hash_reads [] reads) as [r|] eqn:E; [|done]. cbn.
  intros [= H]. apply hash_reads_spec in E as (chunks & rest & -> & Hc & Hr). destruct r as [digest|]; [|done].
  destruct Hr as [Hh ->]. destruct rest as [|r rest]; [done|]. injection Hh as ->. exists chunks, rest.
  split_and!; [done|done|]. apply map_err_Ok in H. exact H.
Qed.

(** A pid that reaches a system call names one process: it is the pid asked for, positive,
    and fits [pid_t]; any other is not alive, and no call is made for it. *)
Theorem checked_pid_is_one_process (pid : Z) (kill : Z -> option Z) :
  (0 <= pid < 2 ^ 32)%Z ->
  match checked_pid pid with
  | Some p => p = pid /\ (0 < p <= I32_MAX)%Z
  | None => (pid = 0 \/ I32_MAX < pid)%Z /\ pid_is_alive kill pid = false
  end.
Proof.
  intros Hp. unfold pid_is_alive, checked_pid.
  destruct (Z.leb_spec pid I32_MAX), (Z.ltb_spec 0 pid); cbn; (split; [try done; lia|try done; lia]).
Qed.

(** The pipe a broker binds is one every client of the same machine accepts by name: it is a
    single leaf of the local namespace, within the length Windows allows. Two brokers share
    a name only if they share the pid and the digest of their runtime directories, so a
    broker that survives keeps a name its successor does not take. *)
Theorem broker_pipe_is_dialable `{DG : Digest} (dir : string) (pid : Z) :
  (forall b, length (sha256 b) = 32) ->
  (forall b, String.length (hex_encode b) = 2 * length b /\ forallb hex_char (String.list_ascii_of_string (hex_encode b)) = true) ->
  (forall b b', hex_encode b = hex_encode b' -> b = b') ->
  (0 <= pid < 2 ^ 32)%Z ->
  PipeName_try_from (for_broker dir pid) = Ok (for_broker dir pid) /\
  forall dir' pid', (0 <= pid' < 2 ^ 32)%Z -> for_broker dir pid = for_broker dir' pid' ->
    pid = pid' /\ firstn 16 (sha256 (as_bytes dir)) = firstn 16 (sha256 (as_bytes dir')).
Proof.
  intros Hsha Hhex Hinj Hp.
  assert (forall d, String.length (hex_encode (firstn 16 (sha256 (as_bytes d)))) = 32) as Hlen.
  { intros d. rewrite (proj1 (Hhex _)), length_firstn, Hsha. lia. }
  split.
  - unfold PipeName_try_from, for_broker. set (leaf := hex_encode _). rewrite strip_prefix_app.
    cbn [ok_or mbind result_mbind]. destruct (decimal_pid pid Hp) as [Hl Hd].
    assert (forall c, hex_char c = false -> digit_char c = false -> c <> "-"%char -> str_contains c "genkan-" = false ->
      str_contains c ("genkan-" +:+ leaf +:+ "-" +:+ pretty pid) = false) as Hno.
    { intros c H1 H2 H3 H4. rewrite !str_contains_app, H4, (without_char hex_char) by (done || apply Hhex).
      rewrite (without_char digit_char c (pretty pid)) by done. cbn. rewrite !orb_false_r. by apply Ascii.eqb_neq. }
    rewrite !Hno by done. cbn [str_is_empty String.append orb].
    assert (String.length (PIPE_NAMESPACE +:+ "genkan-" +:+ leaf +:+ "-" +:+ pretty pid) <= PIPE_NAME_MAX) as Hmax.
    { rewrite !str_length_app. unfold leaf. rewrite Hlen. change (String.length PIPE_NAMESPACE) with 9.
      change (String.length "genkan-") with 7. change (String.length "-") with 1. unfold PIPE_NAME_MAX. lia. }
    by apply Nat.ltb_ge in Hmax as ->.
  - intros dir' pid' Hp' H. unfold for_broker in H. apply (inj (String.append PIPE_NAMESPACE)) in H.
    apply (inj (String.append "genkan-")) in H. apply str_app_inj in H as [Hl H]; [|by rewrite !Hlen].
    apply (inj (String.append "-")) in H. split; [by apply (inj pretty) in H|by apply Hinj].
Qed.

(** The descriptor of a pipe names the one account it was built for, and grants nothing
    else: whatever account the text was made from, the text is that account between the two
    halves of a single entry, and no character of it can open or close another. *)
Theorem pipe_descriptor_is_one_entry (sid sid' : string) :
  SidString_try_from sid = Ok sid' ->
  sid' = sid /\ user_only_sddl sid = "D:P(A;;GA;;;" +:+ sid +:+ ")" /\
  (forall c, c ∈ String.list_ascii_of_string sid -> c <> "("%char /\ c <> ")"%char /\ c <> ";"%char) /\
  (forall other, user_only_sddl other = user_only_sddl sid -> other = sid).
Proof.
  unfold SidString_try_from. destruct (Prelude.strip_prefix "S-1-" sid) as [rest|] eqn:E; [|done].
  destruct (str_is_empty rest); [done|]. destruct (forallb digit_or_dash _) eqn:Ed; [|done]. intros [= <-].
  split_and!; [done|done| |].
  - apply strip_prefix_Some in E as ->. rewrite forallb_true_iff in Ed. intros c Hc.
    assert (c ∈ String.list_ascii_of_string "S-1-" \/ c ∈ String.list_ascii_of_string rest) as [H|H].
    { cbn in Hc. cbn. set_solver. }
    + cbn in H. set_solver.
    + apply Ed in H. split_and!; by intros ->.
  - unfold user_only_sddl. intros other H. apply (inj (String.append "D:P(A;;GA;;;")) in H.
    clear E Ed. revert sid H. induction other as [|c other IH]; intros [|d sid] H; cbn in H; try done.
    + injection H as <- H. by destruct sid.
    + injection H as -> H. by destruct other.
    + injection H as -> H. by rewrite (IH _ H).
Qed.

(** A publisher anchors an image only through a signature that verified. *)
Theorem publisher_needs_a_valid_signature (verified : result io_error Z) (subject : result io_error string) (signer : SignerId) :
  publisher_of verified subject = Ok (Some signer) ->
  verified = Ok 0%Z /\ subject = Ok signer /\ SignerId_try_from signer = Ok signer.
Proof.
  unfold publisher_of, classify_signature. destruct verified as [code|]; [|done]. cbn [mbind result_mbind].
  destruct (Z.eqb_spec code 0) as [->|]; cycle 1.
  { destruct (code =? TRUST_E_NOSIGNATURE)%Z; [done|]. by destruct (code =? TRUST_E_BAD_DIGEST)%Z. }
  destruct subject as [subject|]; [|done]. cbn. destruct (SignerId_try_from subject) as [x|] eqn:E; [|done].
  cbn. intros [= <-]. assert (x = subject) as ->; [|done].
  unfold SignerId_try_from in E. destruct (str_is_empty subject); [done|]. by destruct (str_contains NUL subject); simplify_eq.
Qed.
