(* ===== verification/Pipe.v ===== *)
(** Pipe: the bridge stream of Windows, a named pipe with overlapped operations
    (src/src/packages/core/src/ipc/platform/windows/pipe.rs).

    A system call is an argument with what it answers: [None] for success, the error code
    otherwise. [Call] records the calls an operation made, so that a theorem can say that no
    operation is left running when its buffers go out of scope. The last section runs a
    read against a shutdown from another thread. *)
From S2P Require Import Prelude RuntimeRecord Peers.
From stdpp Require Import base list sets strings.

(** * Codes and waits *)

Inductive PipeErr := OsErr (code : Z) | PipeIo (e : io_error).

(** [error_code]. *)
Definition error_code (e : PipeErr) : option Z :=
  match e with OsErr code => if (0 <=? code)%Z then Some code else None | PipeIo _ => None end.

Definition ERROR_BROKEN_PIPE : Z := 109.
Definition ERROR_SEM_TIMEOUT : Z := 121.
Definition ERROR_PIPE_BUSY : Z := 231.
Definition ERROR_NO_DATA : Z := 232.
Definition ERROR_PIPE_NOT_CONNECTED : Z := 233.
Definition ERROR_PIPE_CONNECTED : Z := 535.
Definition ERROR_OPERATION_ABORTED : Z := 995.
Definition ERROR_IO_PENDING : Z := 997.
Definition INFINITE : Z := 2 ^ 32 - 1.

Definition is_code (e : PipeErr) (code : Z) : bool := bool_decide (error_code e = Some code).

(** [millis] of a duration in nanoseconds. *)
Definition millis (duration : Z) : Z :=
  let ms := (duration / 1000000)%Z in
  Z.max 1 (Z.min (if (ms <=? u32_max)%Z then ms else INFINITE - 1) (INFINITE - 1)).

Inductive Waited := Signaled | WaitTimedOut.

Definition WAIT_OBJECT_0 : Z := 0.
Definition WAIT_TIMEOUT : Z := 258.
Definition WAIT_FAILED : Z := 2 ^ 32 - 1.

(** [Event::wait], from what [WaitForSingleObject] returned and the last error. *)
Definition wait_outcome (returned last_error : Z) : result PipeErr Waited :=
  if (returned =? WAIT_OBJECT_0)%Z then Ok Signaled
  else if (returned =? WAIT_TIMEOUT)%Z then Ok WaitTimedOut
  else if (returned =? WAIT_FAILED)%Z then Err (OsErr last_error)
  else Err (PipeIo (IoError Other "unexpected wait result")).

(** The milliseconds an [Event::wait] asks for. *)
Definition wait_ms (timeout : option Z) : Z := match timeout with None => INFINITE | Some d => millis d end.

(** * Streams *)

Inductive PipeEnd := PipeServer | PipeClient.

Record Shared := mkShared { sh_end : PipeEnd; sh_read_timeout : option Z; sh_closed : bool }.

(** [set_read_timeout]. *)
Definition set_read_timeout (timeout : option Z) (s : Shared) : result PipeErr unit * Shared :=
  if bool_decide (timeout = Some 0%Z) then (Err (PipeIo (IoError InvalidInput "cannot set a 0 duration timeout")), s)
  else (Ok tt, mkShared (sh_end s) timeout (sh_closed s)).

Inductive Call := CallIssue | CallWait (ms : Z) | CallCancel | CallFinish | CallDisconnect | CallCancelAll.

#[export] Instance Call_eq_dec : EqDecision Call.
Proof. solve_decision. Defined.

(** [shutdown]: the flag, and the calls; their failures are ignored. *)
Definition shutdown (s : Shared) : Shared * list Call :=
  (mkShared (sh_end s) (sh_read_timeout s) true,
   match sh_end s with PipeServer => [CallDisconnect] | PipeClient => [] end ++ [CallCancelAll]).

(** What the system answers to one operation: issuing it, waiting for it, and its result. *)
Record OpIo := mkOp {
  op_issue : option Z;
  op_wait : result PipeErr Waited;
  op_finish : result PipeErr Z
}.

(** [read_outcome], with the flag as it is then. *)
Definition read_outcome (closed : bool) (finished : result PipeErr Z) (timed_out : bool) : result PipeErr Z :=
  match finished with
  | Ok n => Ok n
  | Err err =>
      if is_code err ERROR_BROKEN_PIPE || is_code err ERROR_PIPE_NOT_CONNECTED || is_code err ERROR_NO_DATA then Ok 0%Z
      else if is_code err ERROR_OPERATION_ABORTED && timed_out then Err (PipeIo (IoError TimedOut "read timed out"))
      else if is_code err ERROR_OPERATION_ABORTED && closed then Ok 0%Z
      else Err err
  end.

(** [read], between the shared state it starts in and the one it ends in. *)
Definition read (io : OpIo) (s s_end : Shared) : result PipeErr Z * list Call :=
  if sh_closed s then (Ok 0%Z, [])
  else
    match op_issue io with
    | None => (read_outcome (sh_closed s_end) (op_finish io) false, [CallIssue; CallFinish])
    | Some code =>
        if negb (is_code (OsErr code) ERROR_IO_PENDING) then
          (read_outcome (sh_closed s_end) (Err (OsErr code)) false, [CallIssue])
        else
          let waited := op_wait io in
          let completed := match waited with Ok Signaled => true | _ => false end in
          let calls := [CallIssue; CallWait (wait_ms (sh_read_timeout s))]
                       ++ (if completed then [] else [CallCancel]) ++ [CallFinish] in
          match waited with
          | Err e => (Err e, calls)
          | Ok _ => (read_outcome (sh_closed s_end) (op_finish io) (negb completed), calls)
          end
    end.

(** [write]. *)
Definition write (io : OpIo) : result PipeErr Z * list Call :=
  match op_issue io with
  | Some code =>
      if negb (is_code (OsErr code) ERROR_IO_PENDING) then (Err (OsErr code), [CallIssue])
      else (op_finish io, [CallIssue; CallFinish])
  | None => (op_finish io, [CallIssue; CallFinish])
  end.

(** [wait_for_client], its event created. *)
Definition wait_for_client (io : OpIo) : result PipeErr unit * list Call :=
  match op_issue io with
  | None => (Ok tt, [CallIssue])
  | Some code =>
      if is_code (OsErr code) ERROR_PIPE_CONNECTED then (Ok tt, [CallIssue])
      else if is_code (OsErr code) ERROR_IO_PENDING then
        (_ ← op_finish io; _ ← op_wait io; Ok tt, [CallIssue; CallWait (wait_ms None); CallFinish])
      else (Err (OsErr code), [CallIssue])
  end.

(** * The listener *)

(** An instance is named by a number; [pending] is the one made ahead of [accept]. *)
Record PipeListener := mkListener { pl_pending : option nat }.

(** Answers to one [accept], by turn: creating an instance, waiting on it, and at the end
    making the next instance and the stream's event. *)
Record AcceptIo := mkAccept {
  ac_create : nat -> result PipeErr nat;
  ac_client : nat -> result PipeErr unit;
  ac_again : result PipeErr nat;
  ac_event : result PipeErr unit
}.

(** [PipeListener::bind], its descriptor built. *)
Definition bind (first : result PipeErr nat) : result PipeErr PipeListener :=
  instance ← first; Ok (mkListener (Some instance)).

(** [listen_again]. *)
Definition listen_again (io : AcceptIo) (l : PipeListener) : PipeListener :=
  match ac_again io with Ok next => mkListener (Some next) | Err _ => l end.

(** The loop of [accept]; [None] while clients come and go. *)
Fixpoint accept_loop (fuel i : nat) (io : AcceptIo) (instance : nat) (l : PipeListener) :
    option (result PipeErr nat * PipeListener) :=
  match fuel with
  | O => None
  | S fuel =>
      match ac_client io i with
      | Ok _ =>
          let l := listen_again io l in
          Some (_ ← ac_event io; Ok instance, l)
      | Err err =>
          if is_code err ERROR_NO_DATA then
            match ac_create io (S i) with
            | Ok instance => accept_loop fuel (S i) io instance l
            | Err e => Some (Err e, l)
            end
          else Some (Err err, l)
      end
  end.

(** [accept]. *)
Definition accept (fuel : nat) (io : AcceptIo) (l : PipeListener) : option (result PipeErr nat * PipeListener) :=
  let taken := mkListener None in
  match pl_pending l with
  | Some instance => accept_loop fuel 0 io instance taken
  | None =>
      match ac_create io 0 with
      | Ok instance => accept_loop fuel 0 io instance taken
      | Err e => Some (Err e, taken)
      end
  end.

(** * Connecting *)

(** One turn of [connect]: the open, the clock after it, and the wait for an instance. *)
Record DialTurn := mkDial { dl_open : option Z; dl_now : Z; dl_wait : option Z }.

(** The turns of [connect] up to its end, with the milliseconds each wait asked for. *)
Fixpoint connect_loop (deadline : Z) (turns : list DialTurn) : option (result PipeErr unit * list Z) :=
  match turns with
  | [] => None
  | t :: turns =>
      match dl_open t with
      | None => Some (Ok tt, [])
      | Some code =>
          if negb (is_code (OsErr code) ERROR_PIPE_BUSY) then Some (Err (OsErr code), [])
          else
            let remaining := Z.max 0 (deadline - dl_now t) in
            if (remaining =? 0)%Z then Some (Err (PipeIo (IoError TimedOut "no free pipe instance")), [])
            else
              let more := '(r, waits) ← connect_loop deadline turns; Some (r, millis remaining :: waits) in
              match dl_wait t with
              | None => more
              | Some code =>
                  if is_code (OsErr code) ERROR_SEM_TIMEOUT then more else Some (Err (OsErr code), [millis remaining])
              end
      end
  end.

(** * Properties of one operation *)

(** Whether the system still runs an operation that was issued so. *)
Definition left_running (issued : option Z) (calls : list Call) : bool :=
  bool_decide (CallIssue ∈ calls) && negb (bool_decide (CallFinish ∈ calls))
  && match issued with Some code => is_code (OsErr code) ERROR_IO_PENDING | None => false end.

(** No operation outlives the call that issued it: whatever the system answers, a read, a
    write or a wait for a client that was left pending has been finished before its buffers
    and its record go out of scope. *)
Theorem no_operation_outlives_its_buffers (io : OpIo) (s s_end : Shared) :
  left_running (op_issue io) (read io s s_end).2 = false /\
  left_running (op_issue io) (write io).2 = false /\
  left_running (op_issue io) (wait_for_client io).2 = false.
Proof.
  unfold left_running, read, write, wait_for_client.
  destruct (sh_closed s), (op_issue io) as [code|]; try done.
  all: destruct (is_code (OsErr code) ERROR_IO_PENDING) eqn:E; cbn [negb]; rewrite ?andb_false_r; try done.
  all: assert (is_code (OsErr code) ERROR_PIPE_CONNECTED = false) as ->
    by (unfold is_code in *; apply bool_decide_eq_true in E; apply bool_decide_eq_false; by rewrite E).
  all: by destruct (op_wait io) as [[]|].
Qed.

Definition peer_gone (e : PipeErr) : bool :=
  is_code e ERROR_BROKEN_PIPE || is_code e ERROR_PIPE_NOT_CONNECTED || is_code e ERROR_NO_DATA.

Lemma gone_not_aborted e : is_code e ERROR_OPERATION_ABORTED = true -> peer_gone e = false.
Proof. unfold peer_gone, is_code. intros E%bool_decide_eq_true. by rewrite !bool_decide_eq_false_2 by (by rewrite E). Qed.

(** A timeout loses no bytes and no end: once a read was issued and its wait did not fail,
    what the system transferred is returned even if the wait for it ran out, and a peer that
    is gone reads as the end of the stream; only a read that the system aborted is reported
    as timed out, and only if its own wait ran out. A stream that was shut down before is at
    its end, and makes no call. *)
Theorem timeout_loses_nothing (io : OpIo) (s s_end : Shared) :
  (sh_closed s = true -> read io s s_end = (Ok 0%Z, [])) /\
  (sh_closed s = false -> op_issue io = Some ERROR_IO_PENDING -> forall w, op_wait io = Ok w ->
     (read io s s_end).1 =
       match op_finish io with
       | Ok n => Ok n
       | Err e =>
           if peer_gone e then Ok 0%Z
           else if is_code e ERROR_OPERATION_ABORTED then
             match w with
             | WaitTimedOut => Err (PipeIo (IoError TimedOut "read timed out"))
             | Signaled => if sh_closed s_end then Ok 0%Z else Err e
             end
           else Err e
       end).
Proof.
  unfold read. split; [by intros ->|]. intros -> -> w ->. cbn.
  unfold read_outcome, peer_gone. destruct (op_finish io) as [n|e]; [by destruct w|].
  destruct (is_code e ERROR_BROKEN_PIPE), (is_code e ERROR_PIPE_NOT_CONNECTED), (is_code e ERROR_NO_DATA),
    (is_code e ERROR_OPERATION_ABORTED), w; try done; by destruct (sh_closed s_end).
Qed.

(** * Waiting *)

Lemma millis_bounds d : (1 <= millis d < INFINITE)%Z.
Proof. unfold millis, INFINITE. case_match; lia. Qed.

Lemma millis_within d : (0 < d)%Z -> (millis d * 1000000 <= Z.max d 1000000)%Z.
Proof.
  intros Hd. unfold millis, INFINITE. pose proof (Z.mul_div_le d 1000000 ltac:(lia)).
  pose proof (Z.div_pos d 1000000 ltac:(lia) ltac:(lia)). case_match eqn:E; [lia|]. apply Z.leb_gt in E.
  unfold u32_max in E. lia.
Qed.

Definition no_free_instance : PipeErr := PipeIo (IoError TimedOut "no free pipe instance").

(** What is promised of a dial that ended so, over the turns it could take. *)
Definition dial_within (deadline : Z) (turns : list DialTurn) (r : result PipeErr unit) (waits : list Z) : Prop :=
  length waits <= length turns /\
  Forall (fun ms => (1 <= ms < INFINITE)%Z) waits /\
  Forall2 (fun ms t => (ms * 1000000 <= Z.max (deadline - dl_now t) 1000000)%Z) waits (take (length waits) turns) /\
  (r = Err no_free_instance ->
     exists t, t ∈ turns /\ (deadline <= dl_now t)%Z /\ dl_open t = Some ERROR_PIPE_BUSY).

Lemma dial_stops deadline turns r : r <> Err no_free_instance -> dial_within deadline turns r [].
Proof. intros Hr. split_and!; [cbn; lia|constructor..|]. by intros ->. Qed.

Lemma dial_waits deadline t turns r waits :
  (dl_now t < deadline)%Z -> dial_within deadline turns r waits ->
  dial_within deadline (t :: turns) r (millis (Z.max 0 (deadline - dl_now t)) :: waits).
Proof.
  intros Ht (Hl & Hw & Hm & Ho). split_and!; [cbn; lia|constructor; [apply millis_bounds|done]| |].
  - cbn. constructor; [|done]. replace (Z.max 0 (deadline - dl_now t)) with (deadline - dl_now t)%Z by lia.
    apply millis_within. lia.
  - intros E. destruct (Ho E) as (u & Hu & Hd & Hb). exists u. split; [set_solver|done].
Qed.

Lemma busy_code code : is_code (OsErr code) ERROR_PIPE_BUSY = true -> code = ERROR_PIPE_BUSY.
Proof. unfold is_code, error_code. intros H%bool_decide_eq_true. case_match; by simplify_eq. Qed.

(** Dialing ends. With the clock past the deadline at some turn, [connect] has returned by
    that turn: with the stream, with the first error that is not a busy pipe, or timed out on
    a busy pipe past the deadline. No wait it made is endless or polls, and none asks for
    more than what was left, a last millisecond aside. *)
Theorem dialing_ends (deadline : Z) (turns rest : list DialTurn) (t : DialTurn) :
  (deadline <= dl_now t)%Z ->
  exists r waits, connect_loop deadline (turns ++ t :: rest) = Some (r, waits) /\
    dial_within deadline (turns ++ [t]) r waits.
Proof.
  intros Ht. induction turns as [|u turns (r & waits & IH & Hd)]; cbn [app connect_loop].
  - destruct (dl_open t) as [code|] eqn:Eo; [|eexists _, []; split; [done|by apply dial_stops]].
    destruct (is_code (OsErr code) ERROR_PIPE_BUSY) eqn:Eb; cbn [negb]; [|eexists _, []; split; [done|by apply dial_stops]].
    apply busy_code in Eb as ->. replace (Z.max 0 (deadline - dl_now t)) with 0%Z by lia. cbn.
    eexists _, []. split; [done|]. split_and!; [cbn; lia|constructor..|]. intros _. exists t. split; [set_solver|done].
  - destruct (dl_open u) as [code|] eqn:Eo; [|eexists _, []; split; [done|by apply dial_stops]].
    destruct (is_code (OsErr code) ERROR_PIPE_BUSY) eqn:Eb; cbn [negb]; [|eexists _, []; split; [done|by apply dial_stops]].
    apply busy_code in Eb as ->. cbv zeta. destruct (Z.eqb_spec (Z.max 0 (deadline - dl_now u)) 0) as [Hz|Hz].
    { eexists _, []. split; [done|]. split_and!; [cbn; lia|constructor..|]. intros _. exists u.
      split_and!; [set_solver|lia|done]. }
    assert (exists r waits, ('(r, waits) ← connect_loop deadline (turns ++ t :: rest);
              Some (r, millis (Z.max 0 (deadline - dl_now u)) :: waits)) = Some (r, waits) /\
              dial_within deadline (u :: turns ++ [t]) r waits) as Hmore.
    { rewrite IH. eexists _, _. split; [done|]. apply dial_waits; [lia|done]. }
    destruct (dl_wait u) as [code|]; [|exact Hmore].
    destruct (is_code (OsErr code) ERROR_SEM_TIMEOUT); [exact Hmore|]. eexists _, _. split; [done|].
    apply dial_waits; [lia|by apply dial_stops].
Qed.

(** * Accepting *)

(** A client that came and went costs only its instance. However many probes open and drop
    an instance before one stays, [accept] returns the stream of the client that stayed, on
    an instance that no probe spent, and leaves the next instance pending. *)
Theorem probes_do_not_stop_the_listener (io : AcceptIo) (first : nat) (n : nat) (next : nat) :
  (forall i, i < n -> exists e, ac_client io i = Err e /\ is_code e ERROR_NO_DATA = true) ->
  (forall i, 0 < i <= n -> exists instance, ac_create io i = Ok instance) ->
  ac_client io n = Ok tt -> ac_again io = Ok next -> ac_event io = Ok tt ->
  exists instance, accept (S n) io (mkListener (Some first)) = Some (Ok instance, mkListener (Some next)) /\
    (n = 0 -> instance = first) /\ (0 < n -> ac_create io n = Ok instance).
Proof.
  intros Hp Hc Hk Ha He. unfold accept. cbn [pl_pending].
  assert (forall m i instance l, i + m = n -> (0 < i -> ac_create io i = Ok instance) -> exists instance',
    accept_loop (S m) i io instance l = Some (Ok instance', mkListener (Some next)) /\
    (n = i -> instance' = instance) /\ (0 < n -> i < n \/ 0 < i -> ac_create io n = Ok instance')) as H.
  { induction m as [|m IH]; intros i instance l Hi Hin.
    - assert (i = n) as -> by lia. cbn [accept_loop]. rewrite Hk. unfold listen_again. rewrite Ha, He.
      exists instance. split; [done|]. split; [done|]. intros _ [?|?]; [lia|by apply Hin].
    - cbn [accept_loop]. destruct (Hp i ltac:(lia)) as (e & -> & ->). destruct (Hc (S i) ltac:(lia)) as (inst & Ei).
      rewrite Ei. destruct (IH (S i) inst l ltac:(lia) (fun _ => Ei)) as (inst' & Hr & _ & Hn).
      exists inst'. split; [exact Hr|]. split; [lia|]. intros ? _. apply Hn; lia. }
  destruct (H n 0 first (mkListener None) ltac:(lia) ltac:(lia)) as (inst & Hr & H0 & Hn).
  exists inst. split; [exact Hr|]. split; [intros ->; by apply H0|]. intros Hpos. apply Hn; lia.
Qed.

(** * A read against a shutdown *)

(** How the reader's wait ended. *)
Inductive WaitEnd := WaitSignaled | WaitTimeout | WaitError (e : PipeErr).

(** Where the reader is, and what the system keeps of its operation. *)
Inductive ReaderPc :=
| ReadStarts | ReadIssues | ReadWaits | ReadCancels (w : WaitEnd) | ReadFinishes (w : WaitEnd)
| ReadDone (r : result PipeErr Z).
Inductive OpState := OpNone | OpPending | OpEnded (r : result PipeErr Z).

(** Where the other thread's [shutdown] is. *)
Inductive ShutdownPc := ShutIdle | ShutStored | ShutDisconnected | ShutDone.

Record Race := mkRace {
  rc_closed : bool;
  rc_disconnected : bool;
  rc_op : OpState;
  rc_reader : ReaderPc;
  rc_shutdown : ShutdownPc
}.

Definition at_reader (r : Race) (op : OpState) (pc : ReaderPc) : Race :=
  mkRace (rc_closed r) (rc_disconnected r) op pc (rc_shutdown r).

(** An operation that is pending ends so. *)
Definition end_op (res : result PipeErr Z) (op : OpState) : OpState :=
  match op with OpPending => OpEnded res | _ => op end.

Section race.
(** The stream's read timeout, and the failures the system reports of its own accord: any
    code at all, of a read, or of a wait. *)
Variable timeout : option Z.
Variable fault : PipeErr -> Prop.

(** What ends a read that nobody cancelled: bytes, a peer that is gone, or a fault. *)
Definition uncancelled (res : result PipeErr Z) : Prop :=
  match res with Ok _ => True | Err e => peer_gone e = true \/ fault e end.

(** What ends a read that was cancelled: that it was, or anything that came first. *)
Definition cancelled (res : result PipeErr Z) : Prop := res = Err (OsErr ERROR_OPERATION_ABORTED) \/ uncancelled res.

(** What [read] returns, by how its wait ended. *)
Definition returned (closed : bool) (w : WaitEnd) (res : result PipeErr Z) : result PipeErr Z :=
  match w with
  | WaitSignaled => read_outcome closed res false
  | WaitTimeout => read_outcome closed res true
  | WaitError e => Err e
  end.

(** One step of the reader, in the order of [read]: the flag, [ReadFile], the wait and, when
    it did not end with the operation, the cancellation of this read, whose failure is
    ignored; then [finish], which waits for the operation, and the result with the flag as
    it is then. A read issued on a disconnected instance fails at once. *)
Inductive reader_step (r : Race) : Race -> Prop :=
| reads_closed : rc_reader r = ReadStarts -> rc_closed r = true -> reader_step r (at_reader r (rc_op r) (ReadDone (Ok 0%Z)))
| reads_open : rc_reader r = ReadStarts -> rc_closed r = false -> reader_step r (at_reader r (rc_op r) ReadIssues)
| issues_done res : rc_reader r = ReadIssues -> uncancelled res ->
    reader_step r (at_reader r (OpEnded res) (ReadFinishes WaitSignaled))
| issues_pending : rc_reader r = ReadIssues -> rc_disconnected r = false -> reader_step r (at_reader r OpPending ReadWaits)
| issues_fails code : rc_reader r = ReadIssues -> uncancelled (Err (OsErr code)) ->
    is_code (OsErr code) ERROR_IO_PENDING = false ->
    reader_step r (at_reader r (rc_op r) (ReadDone (read_outcome (rc_closed r) (Err (OsErr code)) false)))
| wakes res : rc_reader r = ReadWaits -> rc_op r = OpEnded res ->
    reader_step r (at_reader r (rc_op r) (ReadFinishes WaitSignaled))
| times_out : rc_reader r = ReadWaits -> rc_op r = OpPending -> timeout <> None ->
    reader_step r (at_reader r (rc_op r) (ReadCancels WaitTimeout))
| wait_fails e : rc_reader r = ReadWaits -> fault e -> reader_step r (at_reader r (rc_op r) (ReadCancels (WaitError e)))
| cancels_own w res : rc_reader r = ReadCancels w -> cancelled res ->
    reader_step r (at_reader r (end_op res (rc_op r)) (ReadFinishes w))
| cancels_nothing w : rc_reader r = ReadCancels w -> reader_step r (at_reader r (rc_op r) (ReadFinishes w))
| finishes w res : rc_reader r = ReadFinishes w -> rc_op r = OpEnded res ->
    reader_step r (at_reader r OpNone (ReadDone (returned (rc_closed r) w res))).

(** One step of [shutdown]: the flag, the disconnect of a server end, the cancellation. The
    failure of either call is ignored. *)
Inductive shutdown_step (pend : PipeEnd) (r : Race) : Race -> Prop :=
| stores : rc_shutdown r = ShutIdle ->
    shutdown_step pend r (mkRace true (rc_disconnected r) (rc_op r) (rc_reader r) ShutStored)
| disconnects e : rc_shutdown r = ShutStored -> pend = PipeServer -> uncancelled (Err e) ->
    shutdown_step pend r (mkRace (rc_closed r) true (end_op (Err e) (rc_op r)) (rc_reader r) ShutDisconnected)
| disconnect_fails : rc_shutdown r = ShutStored -> pend = PipeServer ->
    shutdown_step pend r (mkRace (rc_closed r) (rc_disconnected r) (rc_op r) (rc_reader r) ShutDisconnected)
| no_disconnect : rc_shutdown r = ShutStored -> pend = PipeClient ->
    shutdown_step pend r (mkRace (rc_closed r) (rc_disconnected r) (rc_op r) (rc_reader r) ShutDisconnected)
| cancels res : rc_shutdown r = ShutDisconnected -> cancelled res ->
    shutdown_step pend r (mkRace (rc_closed r) (rc_disconnected r) (end_op res (rc_op r)) (rc_reader r) ShutDone)
| cancel_fails : rc_shutdown r = ShutDisconnected ->
    shutdown_step pend r (mkRace (rc_closed r) (rc_disconnected r) (rc_op r) (rc_reader r) ShutDone).

(** The peer and the system: a pending read ends with bytes, with a peer that left, or with a fault. *)
Inductive peer_step (r : Race) : Race -> Prop :=
| peer_ends res : uncancelled res -> peer_step r (at_reader r (end_op res (rc_op r)) (rc_reader r)).

Definition race_new : Race := mkRace false false OpNone ReadStarts ShutIdle.

Inductive race (pend : PipeEnd) : Race -> Prop :=
| race_here : race pend race_new
| race_reader r r' : race pend r -> reader_step r r' -> race pend r'
| race_shutdown r r' : race pend r -> shutdown_step pend r r' -> race pend r'
| race_peer r r' : race pend r -> peer_step r r' -> race pend r'.

(** The reader ends, whatever the system answers, and what it returns satisfies [P]: it can
    take a step until it is done, and every step it can take leads there. *)
Inductive reader_ends (P : result PipeErr Z -> Prop) (r : Race) : Prop :=
| ends_here res : rc_reader r = ReadDone res -> P res -> reader_ends P r
| ends_later : (exists r', reader_step r r') -> (forall r', reader_step r r' -> reader_ends P r') -> reader_ends P r.

(** What a read may return: bytes or the end of the stream, its own timeout when it has
    one, or a fault of the system. *)
Definition fair_result (res : result PipeErr Z) : Prop :=
  match res with
  | Ok _ => True
  | Err e => fault e \/ (timeout <> None /\ e = PipeIo (IoError TimedOut "read timed out"))
  end.

(** The reader gave up its wait, for a reason it may. *)
Definition gave_up (w : WaitEnd) : Prop :=
  match w with WaitSignaled => False | WaitTimeout => timeout <> None | WaitError e => fault e end.

(** What an ended operation can have ended with. *)
Definition fair_end (closed : bool) (pc : ReaderPc) (res : result PipeErr Z) : Prop :=
  uncancelled res \/
  (res = Err (OsErr ERROR_OPERATION_ABORTED) /\ (closed = true \/ exists w, pc = ReadFinishes w /\ gave_up w)).

Record race_ok (r : Race) : Prop := {
  ro_stored : rc_shutdown r <> ShutIdle -> rc_closed r = true;
  ro_dropped : rc_disconnected r = true -> rc_op r <> OpPending;
  ro_fair : forall res, rc_op r = OpEnded res -> fair_end (rc_closed r) (rc_reader r) res;
  ro_waits : match rc_reader r with ReadWaits | ReadCancels _ | ReadFinishes _ => rc_op r <> OpNone | _ => rc_op r = OpNone end;
  ro_gave_up : match rc_reader r with
               | ReadCancels w => gave_up w
               | ReadFinishes w => w = WaitSignaled \/ gave_up w
               | _ => True
               end;
  ro_done : forall res, rc_reader r = ReadDone res -> fair_result res
}.

Lemma outcome_fair closed w res :
  fair_end closed (ReadFinishes w) res -> w = WaitSignaled \/ gave_up w -> fair_result (returned closed w res).
Proof.
  destruct w as [| |e]; cbn [returned]; [| |by intros _ [[=]|H]; [left; exact H]..].
  - intros Hf _. destruct res as [n|e]; [done|]. unfold read_outcome. fold (peer_gone e). rewrite andb_false_r.
    destruct Hf as [[->|Hf]|([= ->] & [->|(w & [= <-] & [])])]; [done| |done].
    destruct (peer_gone e); [done|]. destruct (_ && closed); [done|by left].
  - intros Hf [[=]|Ht]. destruct res as [n|e]; [done|]. unfold read_outcome. fold (peer_gone e). rewrite andb_true_r.
    destruct Hf as [[->|Hf]|([= ->] & _)]; [done| |by right]. destruct (peer_gone e); [done|].
    destruct (is_code e _); [by right|]. by left.
Qed.

Lemma fair_end_closed closed pc res : fair_end closed pc res -> fair_end true pc res.
Proof. intros [H|[H _]]; [by left|right; by eauto]. Qed.

Lemma fair_end_moves closed pc pc' (P : Prop) res :
  (match pc with ReadFinishes _ => false | _ => true end) = true ->
  (P -> fair_end closed pc res) -> P -> fair_end closed pc' res.
Proof. intros Hpc H HP. destruct (H HP) as [?|(? & [?|(w & -> & _)])]; [by left|right; by eauto|done]. Qed.

Lemma end_op_cases res op : op = OpPending /\ end_op res op = OpEnded res \/ op <> OpPending /\ end_op res op = op.
Proof. by destruct op; [right|left|right]. Qed.

Lemma reader_keeps r r' : race_ok r -> reader_step r r' -> race_ok r'.
Proof.
  intros [H1 H2 H3 H4 H5 H6] Hs.
  destruct Hs as [Hr Hc|Hr Hc|res Hr Hi|Hr Hi|code Hr Hi Hn|res Hr Ho|Hr Ho Ht|e Hr He|w res Hr Hx|w Hr|w res Hr Ho];
    rewrite Hr in *; split; cbn -[read_outcome returned]; try done; try (by eauto).
  - intros res H. congruence.
  - by intros res [= <-].
  - intros res H. congruence.
  - intros res' [= <-]. by left.
  - congruence.
  - intros res H. congruence.
  - intros x Hx. assert (x = read_outcome (rc_closed r) (Err (OsErr code)) false) as -> by congruence.
    apply (outcome_fair (rc_closed r) WaitSignaled (Err (OsErr code))); by left.
  - intros res'. by eapply fair_end_moves, H3.
  - intros res'. by eapply fair_end_moves, H3.
  - intros res'. by eapply fair_end_moves, H3.
  - intros Hd. specialize (H2 Hd). by destruct (rc_op r).
  - intros res' Ho'. destruct (end_op_cases res (rc_op r)) as [[_ E]|[_ E]]; rewrite E in Ho'.
    + injection Ho' as <-. destruct Hx as [->|Hx]; [right|by left]. split; [done|]. right. by exists w.
    + revert Ho'. by eapply fair_end_moves, H3.
  - by destruct (rc_op r).
  - intros res'. by eapply fair_end_moves, H3.
  - intros x Hx. assert (x = returned (rc_closed r) w res) as -> by congruence. apply outcome_fair; [by apply H3|done].
Qed.

(** A step of another thread ends a pending operation at most. *)
Lemma other_keeps r closed disconnected pc op :
  race_ok r -> (rc_closed r = true -> closed = true) -> (pc <> ShutIdle -> closed = true) ->
  (op = rc_op r \/ rc_op r = OpPending /\ exists res, op = OpEnded res /\ fair_end closed (rc_reader r) res) ->
  (disconnected = true -> op <> OpPending) ->
  race_ok (mkRace closed disconnected op (rc_reader r) pc).
Proof.
  intros [H1 H2 H3 H4 H5 H6] Hc Hp Hop Hd. split; cbn; try done.
  - intros res Ho. destruct Hop as [->|(_ & x & -> & Hf)]; [|by injection Ho as <-].
    apply H3 in Ho. destruct (rc_closed r) eqn:E; [by rewrite Hc|]. destruct closed; [by eapply fair_end_closed|done].
  - destruct Hop as [->|(Ho & x & -> & _)]; [done|]. destruct (rc_reader r); congruence.
Qed.

Lemma shutdown_keeps pend r r' : race_ok r -> shutdown_step pend r r' -> race_ok r'.
Proof.
  intros K Hs. pose proof (ro_stored _ K) as H1.
  destruct Hs as [Hp|e Hp _ He|Hp _|Hp _|res Hp Hx|Hp]; apply other_keeps; try done; try (intros _; apply H1; by rewrite Hp);
    try (by left); try apply (ro_dropped _ K).
  - destruct (end_op_cases (Err e) (rc_op r)) as [[? ->]|[_ ->]]; [right; split; [done|]|by left]. eexists. split; [done|by left].
  - intros _. by destruct (rc_op r).
  - destruct (end_op_cases res (rc_op r)) as [[? ->]|[_ ->]]; [right; split; [done|]|by left]. eexists. split; [done|].
    destruct Hx as [->|Hx]; [right|by left]. split; [done|left]. apply H1. by rewrite Hp.
  - intros Hd. pose proof (ro_dropped _ K Hd). by destruct (rc_op r).
Qed.

Lemma peer_keeps r r' : race_ok r -> peer_step r r' -> race_ok r'.
Proof.
  intros K [res Hx]. apply other_keeps; try done; [apply (ro_stored _ K)| |].
  - destruct (end_op_cases res (rc_op r)) as [[? ->]|[_ ->]]; [right; split; [done|]|by left]. eexists. split; [done|by left].
  - intros Hd. pose proof (ro_dropped _ K Hd). by destruct (rc_op r).
Qed.

Lemma race_keeps pend r : race pend r -> race_ok r.
Proof.
  induction 1 as [|r r' _ IH Hs|r r' _ IH Hs|r r' _ IH Hs];
    [split; cbn; done|by eapply reader_keeps|by eapply shutdown_keeps|by eapply peer_keeps].
Qed.

(** The one read a shutdown does not reach: nothing was disconnected, and the read passed the
    flag before it was stored and is still to be issued, or is pending after the calls. *)
Definition missed (r : Race) : Prop := rc_disconnected r = false /\ (rc_reader r = ReadIssues \/ rc_op r = OpPending).

Lemma ends_from_finish r w :
  race_ok r -> rc_reader r = ReadFinishes w -> rc_op r <> OpPending -> reader_ends fair_result r.
Proof.
  intros K Hr Hp. pose proof (ro_waits _ K) as Hw. rewrite Hr in Hw. destruct (rc_op r) as [| |res] eqn:Eo; [done|done|].
  apply ends_later; [eexists; by eapply finishes|]. intros r' Hs. pose proof (reader_keeps _ _ K Hs) as K'.
  destruct Hs; try congruence. eapply ends_here; [reflexivity|]. by apply (ro_done _ K').
Qed.

Lemma ends_from_cancel r w :
  race_ok r -> rc_reader r = ReadCancels w -> rc_op r <> OpPending -> reader_ends fair_result r.
Proof.
  intros K Hr Hp. apply ends_later; [eexists; by eapply cancels_nothing|]. intros r' Hs.
  pose proof (reader_keeps _ _ K Hs) as K'. destruct Hs; try congruence; eapply ends_from_finish; try done.
  cbn. by destruct (rc_op r).
Qed.

End race.

(** The exception is real, on a client end and on a server end whose disconnect fails: a read
    that passed the flag before the shutdown and is issued after it waits for the peer. The
    comment on [shutdown] promises no more than that a reader already blocked wakes. *)
Lemma missed_read_waits (timeout : option Z) (fault : PipeErr -> Prop) (pend : PipeEnd) :
  exists r, race timeout fault pend r /\ rc_shutdown r = ShutDone /\ rc_reader r = ReadWaits /\ rc_op r = OpPending.
Proof.
  set (at_ closed pc := mkRace closed false OpNone ReadIssues pc).
  assert (race timeout fault pend (at_ true ShutDone)) as R.
  { eapply race_shutdown, (cancel_fails fault pend (at_ true ShutDisconnected)); [|done].
    assert (shutdown_step fault pend (at_ true ShutStored) (at_ true ShutDisconnected)) as Hs
      by (destruct pend; [by apply disconnect_fails|by apply no_disconnect]).
    eapply race_shutdown, Hs. eapply race_shutdown, (stores fault pend (at_ false ShutIdle)); [|done].
    eapply race_reader, (reads_open timeout fault race_new); [constructor|done|done]. }
  eexists. split; [by eapply race_reader, issues_pending|done].
Qed.

(** * Witnesses *)

Module PipeExample.
Definition no_fault (e : PipeErr) : Prop := False.
(** The reader is blocked when the other thread shuts the stream down. *)
Definition blocked (closed : bool) (pc : ShutdownPc) : Race := mkRace closed false OpPending ReadWaits pc.
Definition ended : Race := mkRace true true (OpEnded (Err (OsErr ERROR_BROKEN_PIPE))) ReadWaits ShutDone.

Lemma blocked_run : race (Some 5%Z) no_fault PipeServer ended.
Proof.
  pose proof (race_here (Some 5%Z) no_fault PipeServer) as R.
  pose proof (race_reader _ _ _ _ _ R (reads_open _ _ race_new eq_refl eq_refl)) as R1.
  pose proof (race_reader _ _ _ _ _ R1 (issues_pending _ _ (mkRace false false OpNone ReadIssues ShutIdle) eq_refl eq_refl)) as R2.
  pose proof (race_shutdown _ _ _ _ _ R2 (stores _ _ (blocked false ShutIdle) eq_refl)) as R3.
  pose proof (race_shutdown _ _ _ _ _ R3 (disconnects _ _ (blocked true ShutStored) (OsErr ERROR_BROKEN_PIPE) eq_refl eq_refl
    (or_introl eq_refl))) as R4.
  exact (race_shutdown _ _ _ _ _ R4 (cancels _ _
    (mkRace true true (OpEnded (Err (OsErr ERROR_BROKEN_PIPE))) ReadWaits ShutDisconnected)
    (Err (OsErr ERROR_OPERATION_ABORTED)) eq_refl (or_introl eq_refl))).
Qed.

Definition probed : AcceptIo :=
  mkAccept (fun i => Ok (10 + i)) (fun i => if (i <? 2)%nat then Err (OsErr ERROR_NO_DATA) else Ok tt) (Ok 20) (Ok tt).
End PipeExample.


Lemma dialing_ends_witness :
  exists r waits, connect_loop 2000000000 [mkDial (Some ERROR_PIPE_BUSY) 500000000 None;
      mkDial (Some ERROR_PIPE_BUSY) 2000000000 None] = Some (r, waits) /\ r = Err no_free_instance.
Proof.
  destruct (dialing_ends 2000000000 [mkDial (Some ERROR_PIPE_BUSY) 500000000 None] []
    (mkDial (Some ERROR_PIPE_BUSY) 2000000000 None)) as (r & waits & H & _).
  - vm_compute. discriminate.
  - exists r, waits. split; [exact H|]. vm_compute in H. injection H as <- _. reflexivity.
Defined.

Lemma probes_do_not_stop_the_listener_witness :
  exists instance, accept 3 PipeExample.probed (mkListener (Some 9)) = Some (Ok instance, mkListener (Some 20)) /\ instance = 12.
Proof.
  destruct (probes_do_not_stop_the_listener PipeExample.probed 9 2 20) as (instance & H & _).
  - intros i Hi. exists (OsErr ERROR_NO_DATA). split; [|reflexivity]. destruct i as [|[|i]]; [reflexivity|reflexivity|lia].
  - intros i _. eexists. reflexivity.
  - reflexivity.
  - reflexivity.
  - reflexivity.
  - exists instance. split; [exact H|]. vm_compute in H. injection H as <-. reflexivity.
Defined.
