(* ===== verification/PolicyCli.v ===== *)
(** PolicyCli: the [genkan policy] commands (src/src/packages/core/src/policy/cli.rs): the
    status and history reports, their printed form, and the two write lanes and the
    rollback driven from a terminal.

    A command is a host program that returns what it printed and its exit code. JSON is the
    codec class [ReportJson]; the terminal's answers, and what other processes do to the
    records while the prompt waits, are a [Terminal]. The prompt's own text is left out. *)
From S2P Require Import Prelude RuntimeRecord Policy Identity Trust PolicyRecord World Messages PolicyStore PolicyPlan Gating AuthData WebAuthn EnrollStore Presence Allowlist PrefixCodec AuditTrail.
From stdpp Require Import base list sets strings pretty.

Inductive Console := Println (text : string) | PrintText (text : string) | Eprintln (text : string).

(** * Reports *)

Definition PRE_CUTOVER_STORE_NOTE : string :=
  "none yet (pre-cutover; the extension keeps enforcing its deny baseline until `genkan policy set` or the options page's Security policy section signs a baseline)".

Inductive PolicyStoreState := PssNone | PssPresent | PssError.

Inductive PolicyStatusReport :=
| StatusNone (v : Z)
| StatusPresent (v revision : Z) (signed overlay_active : bool) (eff : PolicyValues)
| StatusError (v : Z) (detail : string).

Definition status_store (r : PolicyStatusReport) : PolicyStoreState :=
  match r with
  | StatusNone _ => PssNone
  | StatusPresent _ _ _ _ _ => PssPresent
  | StatusError _ _ => PssError
  end.

Record PolicyHistoryEntryReport := mkEntryReport {
  er_id : string;
  er_signed : bool;
  er_overlay_active : bool;
  er_superseded_unix : Z;
  er_held : option HeldPolicy
}.

Record PolicyHistoryReport := mkHistoryReport { hrp_v : Z; hrp_entries : list PolicyHistoryEntryReport }.

Record PolicyErrorReport := mkErrorReport { per_v : Z; per_error : string }.

Definition is_some {A} (o : option A) : bool := match o with Some _ => true | None => false end.

Section reports.
Context `{CO : PolicyCodec, DG : Digest}.

Definition status_from_store (store : PolicyStore) : PolicyStatusReport :=
  match baseline_doc store, effective store with
  | Err e, _ | _, Err e => StatusError 1 (io_msg e)
  | Ok doc, Ok eff =>
      StatusPresent 1 (pd_revision doc) (is_some (ps_sig_b64 store)) (is_some (ps_overlay store)) eff
  end.

Definition gather_policy_status : host PolicyStatusReport :=
  let! loaded := load_policy in
  hret (match loaded with
        | Ok None => StatusNone 1
        | Ok (Some store) => status_from_store store
        | Err e => StatusError 1 (io_msg e)
        end).

Definition history_report (history : PolicyHistory) : PolicyHistoryReport :=
  mkHistoryReport 1
    ((fun e => mkEntryReport (entry_id e) (is_some (he_sig_b64 e)) (is_some (he_overlay e))
                 (he_superseded_unix e) (entry_state e)) <$> entries history).

Definition gather_history_report : host (result string PolicyHistoryReport) :=
  let! loaded := load_history in
  hret (match loaded with
        | Ok None => Ok (mkHistoryReport 1 [])
        | Ok (Some history) => Ok (history_report history)
        | Err e => Err (io_msg e)
        end).
End reports.

(** * Rendering *)

Definition signed_line (signed : bool) : string :=
  if signed then "signed (the extension verifies it against its pinned key; not verifiable here)" else "unsigned".

Definition render_value (v : PolicyValues) (field : PolicyField) : string :=
  match kind field with
  | KBool f => if get_bool v f then "on" else "off"
  | KMs f => pretty (get_ms v f)
  | KToolSet f => match get_tools v f with [] => "(none)" | tools => str_join "," tools end
  end.

Definition render_values (v : PolicyValues) : string :=
  foldr (fun field out => "  " +:+ pad_right 22 (wire_name field) +:+ " " +:+ render_value v field +:+ LF +:+ out)
    "" ALL.

Definition render_status (r : PolicyStatusReport) : string :=
  "genkan policy" +:+ LF +:+
  match r with
  | StatusNone _ => "store:      " +:+ PRE_CUTOVER_STORE_NOTE +:+ LF
  | StatusError _ detail => "store:      present but UNREADABLE (" +:+ detail +:+ ") - failing closed" +:+ LF
  | StatusPresent _ revision signed overlay_active eff =>
      "store:      present (revision " +:+ pretty revision +:+ ")" +:+ LF +:+
      "baseline:   " +:+ signed_line signed +:+ LF +:+
      "overlay:    " +:+ (if overlay_active then "restriction overlay active" else "none") +:+ LF +:+
      "effective policy:" +:+ LF +:+ render_values eff
  end.

Definition render_history_entry (e : PolicyHistoryEntryReport) : string :=
  let '(revision, eff) :=
    match er_held e with
    | Some held => (pretty (hp_revision held), summarize (hp_effective held) ALL)
    | None => ("?", "?")
    end in
  "  revision " +:+ pad_right 6 revision +:+ " " +:+ (if er_signed e then "signed  " else "unsigned") +:+ " "
  +:+ (if er_overlay_active e then "overlay" else "no-overlay") +:+ " superseded_unix=" +:+ pretty (er_superseded_unix e)
  +:+ " entry=" +:+ er_id e +:+ " effective=" +:+ eff +:+ LF.

Definition render_history (r : PolicyHistoryReport) : string :=
  match hrp_entries r with
  | [] => "genkan policy history" +:+ LF +:+ "  (empty)" +:+ LF
  | es => "genkan policy history (oldest first)" +:+ LF
          +:+ foldr (fun e out => render_history_entry e +:+ out) "" es
  end.

(** * Commands *)

Inductive PolicyCommand :=
| PcShow (json : bool)
| PcHistory (json : bool)
| PcSet (overlay : PolicyOverlay) (json : bool)
| PcRestrict (overlay : PolicyOverlay)
| PcRollback (revision : Z) (entry : option string) (json : bool).

(** [serde_json::to_value] and its display, per report. *)
Class ReportJson := {
  status_json : PolicyStatusReport -> result string string;
  history_json : PolicyHistoryReport -> result string string;
  error_json : PolicyErrorReport -> result string string
}.

(** What standard input is at the check and at the prompt, the line read there, and what
    the records become meanwhile. *)
Record Terminal := mkTerminal {
  tm_is_terminal : bool;
  tm_still_terminal : bool;
  tm_line : result io_error (option string);
  tm_meanwhile : world -> world
}.

Section commands.
Context `{CO : PolicyCodec, DG : Digest, SD : StrDebug, RJ : ReportJson}.
Context `{ST : !Sized Trust, SP : !Sized PolicyStore, SH : !Sized PolicyHistory}.
Implicit Types (tm : Terminal).

(** [TerminalStdin::require] then [presence::tty_confirm], as a host program. *)
Definition tty_confirm tm : host (result PresenceError PresenceAttestation) := fun _ w =>
  (tty_verdict (tm_still_terminal tm) (tm_line tm), tm_meanwhile tm w).

(** [cli_attest]. *)
Definition cli_attest tm : host (result string PresenceAttestation) :=
  let! r := tty_confirm tm in hret (map_err presence_error_display r).

Definition emit_status_json (sub : string) : host (list Console * Z) :=
  let! report := gather_policy_status in
  hret (match status_json report with
        | Ok value => ([Println value], 0%Z)
        | Err e => ([Eprintln (sub +:+ " --json failed to serialize the report: " +:+ e)], 1%Z)
        end).

Definition refuse_write (sub : string) (json : bool) (error : string) : list Console * Z :=
  (if json then
     match error_json (mkErrorReport 1 error) with
     | Ok value => [Println value]
     | Err e => [Eprintln (sub +:+ " --json failed to serialize the error report: " +:+ e)]
     end
   else [Eprintln (sub +:+ ": " +:+ error)], 1%Z).

Definition run_show (json : bool) : host (list Console * Z) :=
  let! report := gather_policy_status in
  hret (if json then
          match status_json report with
          | Ok value => ([Println value], 0%Z)
          | Err e => ([Eprintln ("policy show --json failed to serialize the report: " +:+ e)], 1%Z)
          end
        else ([PrintText (render_status report)], 0%Z)).

Definition run_history (json : bool) : host (list Console * Z) :=
  let! r := gather_history_report in
  hret (match r with
        | Ok report =>
            if json then
              match history_json report with
              | Ok value => ([Println value], 0%Z)
              | Err e => ([Eprintln ("policy history --json failed to serialize the report: " +:+ e)], 1%Z)
              end
            else ([PrintText (render_history report)], 0%Z)
        | Err e => ([Eprintln ("policy history: " +:+ e)], 1%Z)
        end).

Definition do_set (overlay : PolicyOverlay) tm : host (result string PresencePath) :=
  match TerminalStdin_require (tm_is_terminal tm) with
  | Err e =>
      let! refused := refused_grant SurfCli (touched_fields overlay) (presence_error_display e) in
      hret (Err refused)
  | Ok _ =>
      let? grant := plan_grant overlay in
      hmap_err write_error_display (set_signed (g_values grant) (g_touched grant) SurfCli (cli_attest tm))
  end.

Definition run_set (overlay : PolicyOverlay) (json : bool) tm : host (list Console * Z) :=
  let! r := do_set overlay tm in
  match r with
  | Ok rung =>
      if json then emit_status_json "policy set"
      else hret ([Println ("policy updated: a fresh signed baseline (authorized by " +:+ path_wire_name rung +:+ ").")], 0%Z)
  | Err error => hret (refuse_write "policy set" json error)
  end.

Definition run_restrict (overlay : PolicyOverlay) : host (list Console * Z) :=
  let! r := restrict_ overlay SurfCli in
  hret (match r with
        | Ok _ => ([Println "policy restriction applied (unsigned overlay)."], 0%Z)
        | Err e => ([Eprintln ("policy restrict failed: " +:+ write_error_display e)], 1%Z)
        end).

(** The lines of [printed] come before those of the rest of a run. *)
Definition after (printed : list Console) (m : host (list Console * Z)) : host (list Console * Z) :=
  let! r := m in hret (printed ++ r.1, r.2).

(** How a rollback's write ends. *)
Definition rollback_end (json : bool) (done_line : string) (r : result PolicyWriteError unit) : host (list Console * Z) :=
  match r with
  | Ok _ => if json then emit_status_json "policy rollback" else hret ([Println done_line], 0%Z)
  | Err e => hret (refuse_write "policy rollback" json (write_error_display e))
  end.

(** The attested grant of a relaxing rollback, held to the store its plan was read over. *)
Definition rollback_grant (g : Grant) (over : StoreObservation) tm : host (result PolicyWriteError PresencePath) :=
  let? prepared := prepare_grant (g_values g) (g_touched g) SurfCli in
  let? prepared := hret (planned_over prepared over) in
  attest_and_commit prepared (cli_attest tm).

Definition run_rollback (revision : Z) (entry : option string) (json : bool) tm : host (list Console * Z) :=
  let! inputs := rollback_inputs revision entry in
  match inputs with
  | Err error => hret (refuse_write "policy rollback" json error)
  | Ok inputs =>
      match inputs_plan inputs with
      | NoChange =>
          let! r := confirm_unmoved (ri_over inputs) in
          rollback_end json ("policy already matches revision " +:+ pretty revision
            +:+ "'s effective policy; nothing to do.") r
      | Tighten overlay fields =>
          after (if json then [] else
            [Println ("rolling back to revision " +:+ pretty revision +:+ ": tighten-only (free) - restricting "
              +:+ wire_names fields)])
          (let! r := restrict_planned overlay (ri_over inputs) SurfCli in
           rollback_end json "done: a fresh restriction overlay (the old artifact is never replayed)." r)
      | Relax g =>
          match TerminalStdin_require (tm_is_terminal tm) with
          | Err e =>
              let! refused := refused_grant SurfCli (g_touched g) (presence_error_display e) in
              hret (refuse_write "policy rollback" json refused)
          | Ok _ =>
              after (if json then [] else
                [Println ("rolling back to revision " +:+ pretty revision +:+ ": this relaxes the effective policy ("
                  +:+ wire_names (g_touched g)
                  +:+ "), so it mints a fresh signed revision (never a replay of the old artifact) and requires your confirmation.")])
              (let! r := rollback_grant g (ri_over inputs) tm in
               match r with
               | Ok rung => rollback_end json ("done: a fresh signed revision (authorized by " +:+ path_wire_name rung +:+ ").") (Ok tt)
               | Err e => rollback_end json "" (Err e)
               end)
          end
      end
  end.

Definition run_policy (command : PolicyCommand) tm : host (list Console * Z) :=
  match command with
  | PcShow json => run_show json
  | PcHistory json => run_history json
  | PcSet overlay json => run_set overlay json tm
  | PcRestrict overlay => run_restrict overlay
  | PcRollback revision entry json => run_rollback revision entry json tm
  end.


(** * Lemmas *)

Lemma fold_ok b o :
  values_ok b -> (forall f m, oget_ms o f = Some m -> (0 <= m <= JS_SAFE_INT_MAX)%Z) -> values_ok (fold b o).
Proof.
  intros Hb Ho f. pose (pf := match f with
    | MF_HostReverifyMs => HostReverifyMs | MF_ConfirmGraceMs => ConfirmGraceMs
    | MF_ClickToastTimeoutMs => ClickToastTimeoutMs | MF_EvalToastTimeoutMs => EvalToastTimeoutMs end).
  pose proof (fold_get b o pf) as H. unfold field_get, overlay_get in H.
  assert (kind pf = KMs f) as Hk by by destruct f. rewrite Hk in H.
  destruct (oget_ms o f) as [m|] eqn:E; cbn in H; injection H as ->; [by apply (Ho f)|apply Hb].
Qed.

Lemma emit_status_cases sub e w :
  emit_status_json sub e w =
  (match status_json (gather_policy_status e w).1 with
   | Ok value => ([Println value], 0%Z)
   | Err er => ([Eprintln (sub +:+ " --json failed to serialize the report: " +:+ er)], 1%Z)
   end, w).
Proof. reflexivity. Qed.

Lemma refused_grant_same surface touched text e w : same_records w (refused_grant surface touched text e w).2.
Proof. done. Qed.

(** A plan is made over the stored baseline, and changes nothing. *)
Lemma plan_grant_Ok `{OK : !PolicyCodecOk} overlay e w g w' :
  plan_grant overlay e w = (Ok g, w') ->
  w' = w /\ g_touched g = touched_fields overlay /\
  exists base, values_ok base /\ g_values g = fold base overlay.
Proof.
  unfold plan_grant, hbind, load_policy, asks, hret. intros [= H <-]. split; [done|].
  destruct (slot_load (w_policy w)) as [[s|]|]; try done.
  - destruct (baseline_doc s) as [d|] eqn:Ed; [|done]. injection H as <-. cbn. split; [done|].
    exists (doc_values d). split; [|done]. apply baseline_doc_Ok in Ed. unfold decode_entry_doc in Ed. inv_res.
    match goal with H : doc_of_bytes _ = Ok _ |- _ => by apply doc_parse_ok in H as [_ ?] end.
  - injection H as <-. cbn. split; [done|]. exists values_default. split; [|done].
    intros []; vm_compute; split; discriminate.
Qed.

(** A signed write: every refusal leaves the records of the moment it was refused in. *)
Lemma attested_write g tm e w1 r w' :
  attest_and_commit g (cli_attest tm) e w1 = (r, w') ->
  match r with
  | Ok path => exists auth, tty_verdict (tm_still_terminal tm) (tm_line tm) = Ok auth /\
      commit g auth e (tm_meanwhile tm w1) = (Ok path, w')
  | Err _ => same_records (tm_meanwhile tm w1) w'
  end.
Proof.
  unfold attest_and_commit, cli_attest, tty_confirm, hbind, hret.
  destruct (tty_verdict _ _) as [auth|pe]; cbn [map_err].
  - intros H. destruct r; [by exists auth|]. by eapply commit_Err.
  - by intros [= <- <-].
Qed.

(** ** What a command achieved *)

Definition reads (w : world) (s : PolicyStore) (eff : PolicyValues) : Prop :=
  w_policy w = Stored s /\ effective s = Ok eff.

Definition overlay_ok (o : PolicyOverlay) : Prop :=
  forall f m, oget_ms o f = Some m -> (0 <= m <= JS_SAFE_INT_MAX)%Z.

(** Every field the overlay names holds the overlay's value. *)
Definition asked (o : PolicyOverlay) (eff : PolicyValues) : Prop :=
  forall f v, overlay_get o f = Some v -> field_get eff f = v.

(** Every record was left as it was found, or as the prompt's wait left it. *)
Definition records_left tm (w w' : world) : Prop := same_records w w' \/ same_records (tm_meanwhile tm w) w'.

Definition achieved (e : env) (c : PolicyCommand) tm (w w' : world) : Prop :=
  match c with
  | PcShow _ | PcHistory _ => w' = w
  | PcSet overlay _ =>
      tm_is_terminal tm = true /\ is_ok (tty_verdict (tm_still_terminal tm) (tm_line tm)) = true /\
      exists next eff, reads w' next eff /\ asked overlay eff /\ is_some (ps_sig_b64 next) = true
  | PcRestrict overlay =>
      exists prev next eff eff', reads w prev eff /\ reads w' next eff' /\
        restricts_or_equal eff' eff = true /\ asked overlay eff'
  | PcRollback revision entry _ =>
      exists i next eff, (rollback_inputs revision entry e w).1 = Ok i /\ reads w' next eff /\
        values_eq eff (ri_target i) = true
  end.

Lemma touched_fields_elem o f v : overlay_get o f = Some v -> f ∈ touched_fields o.
Proof.
  intros H. unfold touched_fields. apply list_elem_of_In, filter_In. split; [apply list_elem_of_In, elem_of_ALL|].
  revert H. unfold overlay_get, overlay_has. destruct (kind f) as [b|m|s];
    [by destruct (oget_bool o b)|by destruct (oget_ms o m)|by destruct (oget_tools o s)].
Qed.

Lemma do_set_Ok `{OK : !PolicyCodecOk} overlay tm e w rung w' :
  overlay_ok overlay -> do_set overlay tm e w = (Ok rung, w') -> achieved e (PcSet overlay false) tm w w'.
Proof.
  intros Ho. unfold do_set. destruct (tm_is_terminal tm) eqn:Et; [|done]. cbn [TerminalStdin_require].
  unfold htry at 1, hbind at 1. destruct (plan_grant overlay e w) as [[g|] w1] eqn:Ep; [|done].
  apply plan_grant_Ok in Ep as (-> & Htd & base & Hb & Hv). unfold hmap_err, hbind.
  destruct (set_signed _ _ _ _ e w) as [[path|] w2] eqn:Es; cbn [map_err]; intros [= <- <-].
  unfold set_signed, htry, hbind in Es.
  destruct (prepare_grant (g_values g) (g_touched g) SurfCli e w) as [[pg|] w3] eqn:Eg; [|done].
  pose proof Eg as (? & ? & ? & ? & ? & ? & ? & ? & _ & _ & _ & _ & _ & _ & -> & _)%prepare_grant_Ok.
  apply attested_write in Es as (auth & Ha & Hc). cbn [achieved]. rewrite Et, Ha. split_and!; [done..|].
  assert (values_ok (g_values g)) as Hok by (rewrite Hv; by apply fold_ok).
  destruct (commit_lands _ _ _ _ _ _ _ _ _ _ _ _ Hok Eg Hc) as
    (st & b & eff & rev & key & sig & next & dc & _ & _ & _ & _ & Hn & _ & _ & _ & Hsig & Heff & _).
  eexists next, _. split; [done|]. split; [|by rewrite Hsig]. intros f v Hf.
  rewrite fold_get, retained_overlay_get, decide_True, Hv, fold_get, Hf; [done|].
  rewrite Htd. by eapply touched_fields_elem.
Qed.

Lemma do_set_Err overlay tm e w err w' : do_set overlay tm e w = (Err err, w') -> records_left tm w w'.
Proof.
  unfold do_set. destruct (tm_is_terminal tm); cbn [TerminalStdin_require].
  - unfold htry at 1, hbind at 1. destruct (plan_grant overlay e w) as [[g|er] w1] eqn:Ep.
    + assert (w1 = w) as -> by by injection Ep. unfold hmap_err, hbind.
      destruct (set_signed _ _ _ _ e w) as [[path|] w2] eqn:Es; cbn [map_err]; intros [= _ <-].
      unfold set_signed, htry, hbind in Es.
      destruct (prepare_grant (g_values g) (g_touched g) SurfCli e w) as [[pg|] w3] eqn:Eg.
      * apply prepare_grant_Ok in Eg as (? & ? & ? & ? & ? & ? & ? & ? & _ & _ & _ & _ & _ & _ & -> & _).
        apply attested_write in Es. by right.
      * injection Es as _ <-. left. by eapply prepare_grant_Err.
    + assert (w1 = w) as -> by by injection Ep. intros [= _ <-]. by left.
  - unfold hbind. intros [= _ <-]. by left.
Qed.

Lemma restrict_asked overlay e w w' u :
  restrict_ overlay SurfCli e w = (Ok u, w') -> achieved e (PcRestrict overlay) (mkTerminal false false (Ok None) id) w w'.
Proof.
  intros H. apply restrict_with_split in H as (w1 & H & Hs).
  apply locked_io_cases in H as [H|[[er Hc] ->]]; [|discriminate Hc].
  apply restrict_locked_Ok in H as (prev & doc & eff & Hp & Hd & He & Ho & Hr & Hn).
  destruct Hs as (_ & Hpol & _). cbn [achieved]. exists prev, (restricted_store prev overlay), eff, (fold (doc_values doc)
    (merge_overlay (overlay_or_default (ps_overlay prev)) overlay)).
  split_and!; [done|split; [congruence|by apply (restricted_store_effective _ _ _ eff)]|by apply restricts_or_equal_spec|].
  intros f v Hf. by rewrite fold_get, merge_overlay_get, Hf.
Qed.

#[local] Instance Ok_inj E A : Inj (=) (=) (@Ok E A).
Proof. by intros x y [= ->]. Qed.

(** Each record of the ring came through the parsers that bound every window. *)
Definition ring_ok (w : world) : Prop :=
  forall h en o, slot_load (w_history w) = Ok (Some h) -> en ∈ entries h -> he_overlay en = Some o -> overlay_ok o.

Lemma overlay_ok_default o : (forall x, o = Some x -> overlay_ok x) -> overlay_ok (overlay_or_default o).
Proof. intros H. destruct o as [x|]; cbn; [by apply H|]. intros []; done. Qed.

Lemma decoded_ok `{OK : !PolicyCodecOk} b d : decode_entry_doc b = Ok d -> values_ok (doc_values d).
Proof.
  unfold decode_entry_doc. intros H. inv_res.
  match goal with H : doc_of_bytes _ = Ok _ |- _ => by apply doc_parse_ok in H as [_ ?] end.
Qed.

Lemma values_ok_mixed p a b :
  (forall f, field_get p f = field_get a f \/ field_get p f = field_get b f) ->
  values_ok a -> values_ok b -> values_ok p.
Proof.
  intros H Ha Hb f. pose (pf := match f with
    | MF_HostReverifyMs => HostReverifyMs | MF_ConfirmGraceMs => ConfirmGraceMs
    | MF_ClickToastTimeoutMs => ClickToastTimeoutMs | MF_EvalToastTimeoutMs => EvalToastTimeoutMs end).
  assert (kind pf = KMs f) as Hk by by destruct f.
  specialize (H pf). unfold field_get in H. rewrite Hk in H. destruct H as [[= ->]|[= ->]]; [apply Ha|apply Hb].
Qed.

Lemma entry_ok `{OK : !PolicyCodecOk} w h en d :
  ring_ok w -> slot_load (w_history w) = Ok (Some h) -> en ∈ entries h ->
  decode_entry_doc (he_baseline_b64 en) = Ok d ->
  values_ok (fold (doc_values d) (overlay_or_default (he_overlay en))).
Proof.
  intros Hr Hh Hen Hd. apply fold_ok; [by eapply decoded_ok|]. apply overlay_ok_default. intros x Hx. by eapply Hr.
Qed.

Lemma found_entry_ok `{OK : !PolicyCodecOk} w h revision id target :
  ring_ok w -> slot_load (w_history w) = Ok (Some h) ->
  find_history_entry h revision id = Ok target -> values_ok target.
Proof.
  intros Hr Eh. unfold find_history_entry. destruct (List.find _ _) as [en|] eqn:Ef; [|done].
  cbn [ok_or mbind result_mbind]. apply find_some in Ef as [Hin _]. apply list_elem_of_In in Hin.
  destruct (decode_entry_doc (he_baseline_b64 en)) as [d|] eqn:Ed; [|done]. cbn [map_err mbind result_mbind].
  destruct (negb _); [done|]. intros H. apply (inj Ok) in H as <-. by eapply entry_ok.
Qed.

Lemma entry_state_eq en : entry_state en =
  match decode_entry_doc (he_baseline_b64 en) with
  | Ok d =>
      let eff := fold (doc_values d) (overlay_or_default (he_overlay en)) in
      match validate_disabled_tools (pv_disabled_tools eff) with
      | Ok _ => Some (mkHeld (pd_revision d) eff)
      | Err _ => None
      end
  | Err _ => None
  end.
Proof.
  unfold entry_state. destruct (decode_entry_doc _) as [d|]; [|reflexivity].
  unfold mbind, option_bind, ok. cbv zeta. destruct (validate_disabled_tools _); reflexivity.
Qed.

Lemma entry_state_ok `{OK : !PolicyCodecOk} w h en hp :
  ring_ok w -> slot_load (w_history w) = Ok (Some h) -> en ∈ entries h ->
  entry_state en = Some hp -> values_ok (hp_effective hp).
Proof.
  intros Hr Eh Hen. rewrite entry_state_eq. cbv zeta.
  destruct (decode_entry_doc (he_baseline_b64 en)) as [d|] eqn:Ed; [|intros H; discriminate H].
  pose proof (entry_ok w h en d Hr Eh Hen Ed) as Hok.
  revert Hok. generalize (fold (doc_values d) (overlay_or_default (he_overlay en))). intros eff Hok.
  destruct (validate_disabled_tools _); intros H; [|discriminate H]. injection H as <-. exact Hok.
Qed.

(** A revision that resolves, resolves to the first record that holds it. *)
Lemma find_history_effective_Ok history revision target :
  find_history_effective history revision = Ok target ->
  exists en hp, en ∈ entries history /\ entry_state en = Some hp /\ target = hp_effective hp.
Proof.
  unfold find_history_effective.
  destruct (hp_effective <$> _) as [|first l] eqn:El; [intros H; discriminate H|].
  destruct (forallb _ _); intros H; [|discriminate H]. apply (inj Ok) in H as <-.
  assert (first ∈ first :: l) as Hin by (apply elem_of_cons; by left).
  rewrite <- El in Hin. apply list_elem_of_fmap in Hin as (hp & -> & Hin). apply list_elem_of_In, filter_In in Hin as [Hin _].
  apply list_elem_of_In, list_elem_of_omap in Hin as (en & Hen & Hs). by exists en, hp.
Qed.

Lemma found_effective_ok `{OK : !PolicyCodecOk} w h revision target :
  ring_ok w -> slot_load (w_history w) = Ok (Some h) ->
  find_history_effective h revision = Ok target -> values_ok target.
Proof. intros Hr Eh (en & hp & Hen & Hs & ->)%find_history_effective_Ok. by eapply entry_state_ok. Qed.

Lemma rollback_target_ok `{OK : !PolicyCodecOk} revision entry e w i w1 :
  ring_ok w -> rollback_inputs revision entry e w = (Ok i, w1) -> values_ok (ri_target i) /\ w1 = w.
Proof.
  intros Hr. unfold rollback_inputs, with_runtime_lock, load_history, load_policy, asks, hbind, hret.
  destruct (e_lock e); [done|]. intros H. apply pair_eq in H as [H <-]. split; [|done].
  destruct (slot_load (w_history w)) as [[h|]|] eqn:Eh; try done. cbn [mbind result_mbind] in H.
  destruct (match entry with Some id => _ | None => _ end) as [target|] eqn:Et; [|done]. cbn [mbind result_mbind] in H.
  destruct (rollback_current _) as [[[current baseline] over]|]; [|done]. apply (inj Ok) in H as <-. cbn [ri_target].
  destruct entry as [id|]; [by eapply found_entry_ok|by eapply found_effective_ok].
Qed.

Lemma plan_values_ok `{OK : !PolicyCodecOk} revision entry e w i w1 g :
  ring_ok w -> rollback_inputs revision entry e w = (Ok i, w1) -> inputs_plan i = Relax g -> values_ok (g_values g).
Proof.
  intros Hr Hi Hp. pose proof Hi as [Ht _]%rollback_target_ok; [|done].
  apply rollback_inputs_Ok in Hi as (store & doc & _ & Hd & _ & Hb & _).
  unfold inputs_plan, plan_rollback in Hp. rewrite diff_overlay_eq in Hp.
  destruct (is_empty _); [done|]. destruct (restricts_or_equal _ _); [done|]. injection Hp as <-. cbn [g_values].
  apply (values_ok_mixed _ (ri_target i) (ri_baseline i)); [|done|].
  - intros f. rewrite copy_fields_get. case_decide; [by left|by right].
  - rewrite Hb. apply baseline_doc_Ok in Hd. by eapply decoded_ok.
Qed.

(** How a rollback's write ends, given what it achieved. *)
Lemma rollback_end_cases json line r e w out code w' :
  (forall s, is_ok (status_json s) = true) ->
  rollback_end json line r e w = ((out, code), w') ->
  w' = w /\ code = (if is_ok r then 0 else 1)%Z /\
  (json = true -> is_ok r = true -> exists v, out = [Println v] /\ status_json (gather_policy_status e w).1 = Ok v).
Proof.
  intros Hj. unfold rollback_end. destruct r as [u|er].
  - destruct json; [|by intros [= <- <- <-]]. rewrite emit_status_cases. specialize (Hj (gather_policy_status e w).1).
    destruct (status_json _) as [v|]; [|done]. intros [= <- <- <-]. eauto.
  - unfold hret, refuse_write. by intros [= <- <- <-].
Qed.

Lemma after_cases printed m e w out code w' :
  after printed m e w = ((out, code), w') -> exists out', m e w = ((out', code), w') /\ out = printed ++ out'.
Proof. unfold after, hbind, hret. destruct (m e w) as [[o c] w1]. intros [= <- <- <-]. by exists o. Qed.

Lemma rollback_grant_cases g over tm e w r w' :
  rollback_grant g over tm e w = (r, w') ->
  match r with
  | Ok path => exists p auth, prepare_grant (g_values g) (g_touched g) SurfCli e w = (Ok p, w) /\
      planned_over p over = Ok p /\ tty_verdict (tm_still_terminal tm) (tm_line tm) = Ok auth /\
      commit p auth e (tm_meanwhile tm w) = (Ok path, w')
  | Err _ => records_left tm w w'
  end.
Proof.
  unfold rollback_grant, htry at 1, hbind at 1.
  destruct (prepare_grant _ _ _ e w) as [[p|er] w1] eqn:Eg.
  - pose proof Eg as (? & ? & ? & ? & ? & ? & ? & ? & _ & _ & _ & _ & _ & _ & -> & _)%prepare_grant_Ok.
    unfold htry, hbind, hret. destruct (planned_over p over) as [p'|er] eqn:Ep; [|intros [= <- <-]; by left].
    pose proof Ep as [-> _]%planned_over_Ok. intros H. apply attested_write in H. destruct r as [path|].
    + destruct H as (auth & Ha & Hc). by exists p, auth.
    + by right.
  - intros [= <- <-]. left. by eapply prepare_grant_Err.
Qed.

(** What is printed under [--json] by a command that ends well: the status report of the
    records it leaves, or the ring's. *)
Definition reports (e : env) (c : PolicyCommand) (out : list Console) (w' : world) : Prop :=
  match c with
  | PcShow true | PcSet _ true | PcRollback _ _ true =>
      exists v, out = [Println v] /\ status_json (gather_policy_status e w').1 = Ok v
  | _ => True
  end.

(** A command's exit code against the records it found and left. *)
Definition outcome (e : env) (c : PolicyCommand) tm (w : world) (out : list Console) (code : Z) (w' : world) : Prop :=
  (code = 0%Z /\ achieved e c tm w w' /\ reports e c out w') \/ (code = 1%Z /\ records_left tm w w').

Lemma rollback_end_outcome revision entry json line r tm printed e w w1 out code w' :
  (forall s, is_ok (status_json s) = true) ->
  rollback_end json line r e w1 = ((out, code), w') ->
  (is_ok r = true -> achieved e (PcRollback revision entry json) tm w w1) ->
  (is_ok r = false -> records_left tm w w1) ->
  outcome e (PcRollback revision entry json) tm w ((if json then [] else printed) ++ out) code w'.
Proof.
  intros Hj H Hok Herr. apply rollback_end_cases in H as (-> & -> & Hout); [|done]. unfold outcome. destruct (is_ok r).
  - left. split_and!; [done|by apply Hok|]. destruct json; cbn [reports]; [|done]. by apply Hout.
  - right. split; [done|by apply Herr].
Qed.

Lemma run_rollback_outcome `{OK : !PolicyCodecOk} revision entry json tm e w out code w' :
  (forall s, is_ok (status_json s) = true) -> ring_ok w ->
  run_rollback revision entry json tm e w = ((out, code), w') ->
  outcome e (PcRollback revision entry json) tm w out code w'.
Proof.
  intros Hj Hr. unfold run_rollback, hbind at 1. destruct (rollback_inputs revision entry e w) as [[i|er] w1] eqn:Ei; cycle 1.
  { intros [= <- <- <-]. right. split; [done|]. left. unfold rollback_inputs, hbind, with_runtime_lock in Ei.
    destruct (e_lock e); by apply pair_eq in Ei as [_ <-]. }
  pose proof Ei as [_ ->]%rollback_target_ok; [|done].
  pose proof Ei as (store & doc & Hs & _ & He & _ & Ho & _)%rollback_inputs_Ok.
  destruct (inputs_plan i) as [|ov fs|g] eqn:Ep.
  - unfold hbind at 1. destruct (confirm_unmoved (ri_over i) e w) as [r w2] eqn:Ec.
    assert (w2 = w) as -> by (unfold confirm_unmoved, htry, hbind, hmap_err, hbind, with_runtime_lock in Ec;
      destruct (e_lock e); [by injection Ec|]; unfold load_policy, asks in Ec; cbn in Ec;
      destruct (slot_load (w_policy w)); cbn in Ec; by injection Ec).
    intros H. replace out with ((if json then [] else []) ++ out) by by destruct json.
    eapply rollback_end_outcome; [done|exact H| |].
    + intros _. exists i, store, (ri_current i). rewrite Ei. split_and!; [done..|]. by eapply nochange_reads.
    + by left.
  - intros H. apply after_cases in H as (out' & H & ->). unfold hbind in H.
    destruct (restrict_planned ov (ri_over i) SurfCli e w) as [r w2] eqn:Er.
    eapply rollback_end_outcome; [done|exact H| |].
    + intros Hok. destruct r as [[]|]; [|done].
      destruct (restrict_planned_lands _ _ _ _ _ _ _ _ _ _ _ _ Ei Ep Er) as (next & eff & Hn & Hef & Hv).
      exists i, next, eff. by rewrite Ei.
    + intros Herr. destruct r; [done|]. left. by eapply restrict_with_Err.
  - destruct (tm_is_terminal tm); cbn [TerminalStdin_require]; cycle 1.
    { intros H. right. unfold hbind, hret, refuse_write in H. injection H as _ <- <-. split; [done|]. by left. }
    intros H. apply after_cases in H as (out' & H & ->). unfold hbind in H.
    destruct (rollback_grant g (ri_over i) tm e w) as [r w2] eqn:Eg. apply rollback_grant_cases in Eg.
    destruct r as [path|]; (eapply rollback_end_outcome; [done|exact H| |done]).
    + intros _. destruct Eg as (p & auth & Hprep & Hpl & _ & Hc).
      destruct (planned_grant_lands _ _ _ _ _ _ _ _ _ _ _ _ _ _ _ _ _ _ Ei Ep (plan_values_ok _ _ _ _ _ _ _ Hr Ei Ep) Hprep Hpl Hc)
        as (next & eff & Hn & Hef & Hv). exists i, next, eff. by rewrite Ei.
    + intros [=].
Qed.

(** The window bounds of the flags a command carries. *)
Definition command_ok (c : PolicyCommand) : Prop :=
  match c with PcSet overlay _ | PcRestrict overlay => overlay_ok overlay | _ => True end.

Lemma run_set_outcome `{OK : !PolicyCodecOk} overlay json tm e w out code w' :
  (forall s, is_ok (status_json s) = true) -> overlay_ok overlay ->
  run_set overlay json tm e w = ((out, code), w') -> outcome e (PcSet overlay json) tm w out code w'.
Proof.
  intros Hj Ho. unfold run_set, hbind at 1. destruct (do_set overlay tm e w) as [[rung|er] w1] eqn:Ed.
  - apply do_set_Ok in Ed; [|done]. destruct json; [|intros [= <- <- <-]; by left].
    rewrite emit_status_cases. specialize (Hj (gather_policy_status e w1).1).
    destruct (status_json _) as [v|] eqn:Ev; [|done]. intros [= <- <- <-]. left. split_and!; [done..|]. cbn [reports]. eauto.
  - apply do_set_Err in Ed. intros [= _ <- <-]. by right.
Qed.

Lemma run_show_outcome json tm e w out code w' :
  (forall s, is_ok (status_json s) = true) ->
  run_show json e w = ((out, code), w') -> outcome e (PcShow json) tm w out code w'.
Proof.
  intros Hj H. unfold outcome. cbn [achieved]. unfold run_show, hbind in H.
  destruct (gather_policy_status e w) as [r w1] eqn:E. assert (w1 = w) as -> by by injection E.
  destruct json; [|injection H as <- <- <-; by left]. specialize (Hj r).
  destruct (status_json r) as [v|] eqn:Ev; [|done]. injection H as <- <- <-. left. split_and!; [done..|]. cbn [reports].
  rewrite E. eauto.
Qed.

Lemma run_history_outcome json tm e w out code w' :
  (forall r, is_ok (history_json r) = true) ->
  run_history json e w = ((out, code), w') -> outcome e (PcHistory json) tm w out code w'.
Proof.
  intros Hj H. unfold outcome. cbn [achieved reports]. unfold run_history, hbind in H.
  destruct (gather_history_report e w) as [r w1] eqn:E. assert (w1 = w) as -> by by injection E.
  destruct r as [r|]; [|injection H as _ <- <-; right; split; [done|by left]].
  destruct json; [|injection H as <- <- <-; by left]. specialize (Hj r).
  destruct (history_json r); [|done]. injection H as <- <- <-. by left.
Qed.


(** ** Without a confirmation *)

(** The phrase was typed at a terminal that still was one. *)
Definition confirmed tm : bool :=
  tm_is_terminal tm && is_ok (tty_verdict (tm_still_terminal tm) (tm_line tm)).

Lemma unconfirmed_verdict tm auth :
  confirmed tm = false -> tm_is_terminal tm = true -> tty_verdict (tm_still_terminal tm) (tm_line tm) <> Ok auth.
Proof. unfold confirmed. intros H Ht Hv. by rewrite Ht, Hv in H. Qed.

Lemma rollback_end_same json line r e w : (rollback_end json line r e w).2 = w.
Proof. unfold rollback_end. destruct r; [|done]. by destruct json. Qed.

Lemma rollback_unconfirmed revision entry json tm e w out w' :
  confirmed tm = false -> run_rollback revision entry json tm e w = (out, w') ->
  records_left tm w w' \/ exists overlay over u, restrict_with overlay over SurfCli e w = (Ok u, w').
Proof.
  intros Hc. unfold run_rollback, hbind at 1.
  assert ((rollback_inputs revision entry e w).2 = w) as Hw
    by (unfold rollback_inputs, hbind, with_runtime_lock; by destruct (e_lock e)).
  destruct (rollback_inputs revision entry e w) as [[i|er] w1]; cbn in Hw; subst w1; [|intros [= _ <-]; left; by left].
  assert (forall line r w1, rollback_end json line r e w1 = (out, w') -> w' = w1) as Hend.
  { intros line r w1 H. pose proof (rollback_end_same json line r e w1) as Hs. by rewrite H in Hs. }
  assert (forall m printed, after printed m e w = (out, w') -> exists out', m e w = (out', w')) as Haft.
  { intros m printed H. destruct out as [out code]. apply after_cases in H as (out' & H & _). eauto. }
  destruct (inputs_plan i) as [|ov fs|g].
  - unfold hbind at 1. destruct (confirm_unmoved (ri_over i) e w) as [r w2] eqn:Ec. intros H%Hend. subst w2.
    left. left. unfold confirm_unmoved, htry, hbind, hmap_err, hbind, with_runtime_lock, load_policy, asks in Ec.
    destruct (e_lock e); [by injection Ec as _ <-|]. cbn in Ec. destruct (slot_load (w_policy w)); by injection Ec as _ <-.
  - intros H. apply Haft in H as [out' H]. unfold hbind in H.
    destruct (restrict_planned ov (ri_over i) SurfCli e w) as [r w2] eqn:Er.
    pose proof (rollback_end_same json "done: a fresh restriction overlay (the old artifact is never replayed)." r e w2) as Hs.
    rewrite H in Hs. cbn in Hs. subst w2. destruct r as [u|]; [right; by exists ov, (Some (ri_over i)), u|].
    left. left. by eapply restrict_with_Err.
  - destruct (tm_is_terminal tm) eqn:Et; cbn [TerminalStdin_require]; [|intros [= _ <-]; left; by left].
    intros H. apply Haft in H as [out' H]. unfold hbind in H.
    destruct (rollback_grant g (ri_over i) tm e w) as [r w2] eqn:Eg. apply rollback_grant_cases in Eg.
    destruct r as [path|er]; [destruct Eg as (p & auth & _ & _ & Ha & _); by apply unconfirmed_verdict in Ha|].
    pose proof (rollback_end_same json "" (Err er) e w2) as Hs. rewrite H in Hs. cbn in Hs. subst w2. by left.
Qed.

(** A policy command the user did not confirm leaves the records, or restricts. *)
Lemma run_policy_unconfirmed c tm e w out w' :
  confirmed tm = false -> run_policy c tm e w = (out, w') ->
  records_left tm w w' \/ exists overlay over u, restrict_with overlay over SurfCli e w = (Ok u, w').
Proof.
  intros Hc. destruct c; cbn [run_policy].
  - intros H. left. left. by injection H as _ <-.
  - intros H. left. left. by injection H as _ <-.
  - unfold run_set, hbind at 1. destruct (do_set overlay tm e w) as [[rung|er] w1] eqn:Ed.
    + exfalso. unfold do_set in Ed. destruct (tm_is_terminal tm) eqn:Et; cbn [TerminalStdin_require] in Ed; [|done].
      unfold htry at 1, hbind at 1 in Ed. destruct (plan_grant overlay e w) as [[g|] w2]; [|done].
      unfold hmap_err, hbind in Ed. destruct (set_signed _ _ _ _ e w2) as [[path|] w3] eqn:Es; [|done].
      unfold set_signed, htry, hbind in Es. destruct (prepare_grant _ _ _ e w2) as [[pg|] w4]; [|done].
      apply attested_write in Es as (auth & Ha & _). by apply unconfirmed_verdict in Ha.
    + apply do_set_Err in Ed. intros [= _ <-]. by left.
  - unfold run_restrict, hbind. destruct (restrict_ overlay SurfCli e w) as [[u|er] w1] eqn:E; intros [= _ <-].
    + right. by exists overlay, None, u.
    + left. left. by eapply restrict_with_Err.
  - by apply rollback_unconfirmed.
Qed.

(** The report is what the gate enforces. The status that [policy show] prints and the
    doctor reads names the very policy the dispatch gate checks tool calls against: no
    store where the gate sees none, the same effective values where it sees them, and an
    error exactly where the gate fails closed, with the gate's reason. *)
Theorem status_is_what_the_gate_enforces e w :
  (load_effective e w).1 =
  match (gather_policy_status e w).1 with
  | StatusNone _ => Ok None
  | StatusPresent _ _ _ _ eff => Ok (Some eff)
  | StatusError _ detail => Err detail
  end.
Proof.
  unfold load_effective, gather_policy_status, hbind, load_policy, asks, hret. cbn [fst].
  destruct (slot_load (w_policy w)) as [[s|]|]; [|done..]. unfold status_from_store, effective.
  destruct (baseline_doc s) as [d|]; [|done]. cbn [mbind result_mbind]. by destruct (negb _).
Qed.
End commands.

Module PolicyCliExample.
#[export] Existing Instances PolicyExample.digest PolicyExample.trust_sized PolicyExample.policy_sized
  PolicyExample.history_sized AllowlistExample.debug.
#[export] Instance json : ReportJson := {|
  status_json r := Ok (match r with StatusNone _ => "none" | StatusPresent _ _ _ _ _ => "present" | StatusError _ d => d end);
  history_json r := Ok "history"; error_json r := Ok (per_error r) |}.
Definition typed : Terminal := mkTerminal true true (Ok (Some "release")) id.
(** [policy set --json --page-eval on] on a paired host without a policy. *)
Definition overlay : PolicyOverlay := overlay_set_from overlay_default PageEvalEnabled PolicyExample.grants.
Definition after_set : world := Eval vm_compute in (run_policy (PcSet overlay true) typed calm PolicyExample.w0).2.
End PolicyCliExample.
#[local] Existing Instances PolicyExample.digest PolicyExample.trust_sized PolicyExample.policy_sized
  PolicyExample.history_sized AllowlistExample.debug PolicyCliExample.json.

