(* ===== verification/Enclave.v ===== *)
(** Enclave: the host identity key
    (src/src/packages/core/src/enclave/): the two places it may live, the lookup,
    the mint behind a presence proof, the disposal every revocation shares, the
    challenge responder and the pairing commands.

    The OS credential store is whatever the [keyring] crate answers: its state is
    what [get_secret] would say, and what setting and deleting do to it are
    arbitrary functions of the environment, so nothing is assumed of a store that
    lies or loses a delete. P-256 is a class of functions. *)
From S2P Require Import Prelude Json RuntimeRecord Policy Identity Trust PolicyRecord PrefixCodec World Messages PolicyStore Gating Wire AuthData WebAuthn EnrollStore Presence Allowlist Frames.
From Stdlib Require Import Strings.Byte.
From stdpp Require Import base list sets strings pretty.

(** * Errors *)

(** [Display for EnclaveError]. *)
Definition enclave_error_display (e : EnclaveError) : string :=
  match e with
  | NotEnrolled => "no host key found - run `genkan pair` first"
  | InvalidChallenge why => "invalid challenge: " +:+ why
  | KeyInvalid why => "host key rejected: " +:+ why
  | Keychain why => "key store: " +:+ why
  | Signing why => "signing: " +:+ why
  end.

Definition reason_code (e : EnclaveError) : string :=
  match e with
  | NotEnrolled => "not_enrolled"
  | InvalidChallenge _ => "invalid_challenge"
  | KeyInvalid _ => "key_invalid"
  | Keychain _ => "keychain_error"
  | Signing _ => "signing_failed"
  end.

Definition record_error (e : io_error) : EnclaveError := Keychain ("host key record: " +:+ io_msg e).

(** * Keys (record.rs, pubkey.rs, key.rs) *)

Inductive KeyStore := CredentialStore | KeyFile.

#[export] Instance KeyStore_eq_dec : EqDecision KeyStore.
Proof. solve_decision. Defined.

Definition PUBKEY_LEN : Z := 65.
Definition FIXTURE_KEY_ID : string :=
  "4269889431e3131966fcaf6a457141943ed2c35b5b917ae62cb339546f523551".

Abbreviation Scalar := bytes (only parsing).
Abbreviation EnclavePublicKey := bytes (only parsing).

(** What the key code uses of the [p256] crate. *)
Class P256 := {
  secret_ok : bytes -> bool;
  public_point : Scalar -> bytes;
  try_sign : Scalar -> bytes -> result string bytes
}.

Record HostKeyFile := mkKeyFile { hf_scalar : Scalar }.

Record HostKey := mkHostKey {
  hk_signing : Scalar;
  hk_public : EnclavePublicKey;
  hk_store : KeyStore
}.

(** [EnclavePublicKey::from_x963]. *)
Definition from_x963 (b : bytes) : result EnclaveError EnclavePublicKey :=
  if negb (Z.of_nat (length b) =? PUBKEY_LEN)%Z then
    Err (Keychain ("public key is " +:+ pretty (Z.of_nat (length b)) +:+ " bytes, expected "
      +:+ pretty PUBKEY_LEN +:+ " (X9.63 uncompressed P-256)"))
  else
    let lead := default x00 (head b) in
    if negb (Byte.eqb lead x04) then
      Err (Keychain ("public key does not start with 0x04 (uncompressed point), got 0x"
        +:+ hex2 (byte_Z lead)))
    else Ok b.

(** * The credential store (store.rs) *)

Inductive KeyringError := NoEntry | Ambiguous | KeyringOther (what : string).

(** [Display for keyring::Error]. *)
Class Keyring := { keyring_display : KeyringError -> string }.

Definition classify `{!Keyring} (e : KeyringError) : EnclaveError :=
  match e with
  | Ambiguous => KeyInvalid "multiple credential-store entries carry the host key name"
  | other => Keychain ("credential store: " +:+ keyring_display other)
  end.

(** What [get_secret] would answer now. *)
Abbreviation CredState := (result KeyringError bytes) (only parsing).

Record Keys := mkKeys { ks_file : slot HostKeyFile; ks_cred : CredState }.

Record khost := mkKHost { kh_keys : Keys; kh_world : world }.

Record kenv := mkKEnv {
  ke_env : env;
  ke_entry : option EnclaveError;
  ke_set : bytes -> CredState -> result KeyringError unit * CredState;
  ke_delete : CredState -> result KeyringError unit * CredState;
  ke_random : result string Scalar
}.

Definition keyed (A : Type) : Type := kenv -> khost -> A * khost.

Definition kret {A} (a : A) : keyed A := fun _ k => (a, k).
Definition kbind {A B} (m : keyed A) (f : A -> keyed B) : keyed B :=
  fun e k => let '(a, k') := m e k in f a e k'.
Definition ktry {E A B} (m : keyed (result E A)) (f : A -> keyed (result E B)) : keyed (result E B) :=
  kbind m (fun r => match r with Ok a => f a | Err e => kret (Err e) end).

Declare Scope keyed_scope.
Delimit Scope keyed_scope with keyed.
Notation "'do!' x := m 'in' k" := (kbind m (fun x => k))
  (at level 10, x pattern, m at level 100, k at level 200) : keyed_scope.
Notation "'do?' x := m 'in' k" := (ktry m (fun x => k))
  (at level 10, x pattern, m at level 100, k at level 200) : keyed_scope.
Open Scope keyed_scope.

Definition kmap_err {E F A} (f : E -> F) (m : keyed (result E A)) : keyed (result F A) :=
  do! r := m in kret (map_err f r).

Section enclave.
Context `{CO : PolicyCodec, DG : Digest, PK : P256, KR : Keyring}.
Context `{ST : !Sized Trust, SP : !Sized PolicyStore, SH : !Sized PolicyHistory, SK : !Sized HostKeyFile}.

(** [real::entry]: the runtime directory may not resolve. *)
Definition store_entry : keyed (result EnclaveError unit) := fun e k =>
  (match ke_entry e with Some err => Err err | None => Ok tt end, k).

(** [store::get]. *)
Definition store_get : keyed (result EnclaveError (option bytes)) :=
  do? _ := store_entry in fun _ k =>
  (match ks_cred (kh_keys k) with
   | Ok secret => Ok (Some secret)
   | Err NoEntry => Ok None
   | Err e => Err (classify e)
   end, k).

(** [store::set]. *)
Definition store_set (scalar : Scalar) : keyed (result EnclaveError unit) :=
  do? _ := store_entry in fun e k =>
  let '(r, c) := ke_set e scalar (ks_cred (kh_keys k)) in
  (map_err classify r, mkKHost (mkKeys (ks_file (kh_keys k)) c) (kh_world k)).

(** [store::delete]: deleted only when the read-back says so. *)
Definition store_delete : keyed (result EnclaveError unit) :=
  do? _ := store_entry in
  do? _ := (fun e k =>
    let '(r, c) := ke_delete e (ks_cred (kh_keys k)) in
    (match r with Ok _ | Err NoEntry => Ok tt | Err err => Err (classify err) end,
     mkKHost (mkKeys (ks_file (kh_keys k)) c) (kh_world k))) in
  do? held := store_get in
  kret (match held with
        | None => Ok tt
        | Some _ => Err (Keychain "the credential store still holds the host key after deleting it")
        end).

(** * The key *)

(** [EnclavePublicKey::fingerprint_hex]. *)
Definition fingerprint_hex (p : EnclavePublicKey) : string := hex_encode (sha256 p).

(** [EnclavePublicKey::fingerprint_display]: groups of four. *)
Fixpoint chunks4 (s : string) : list string :=
  match s with
  | String a (String b (String c (String d rest))) =>
      String a (String b (String c (String d ""))) :: chunks4 rest
  | EmptyString => []
  | short => [short]
  end.

Definition fingerprint_display (p : EnclavePublicKey) : string :=
  str_join " " (chunks4 (fingerprint_hex p)).

Definition ensure_not_fixture_key (p : EnclavePublicKey) : result EnclaveError unit :=
  if String.eqb (fingerprint_hex p) FIXTURE_KEY_ID
  then Err (KeyInvalid "the public golden-fixture key is never enrollable")
  else Ok tt.

(** [Scalar::from_bytes]. *)
Definition Scalar_from_bytes (b : bytes) : result EnclaveError Scalar :=
  if negb (length b =? 32)%nat then Err (KeyInvalid "the stored scalar is not 32 bytes")
  else if secret_ok b then Ok b
  else Err (KeyInvalid "the stored scalar is not a P-256 private key").

(** [Scalar::random]. *)
Definition Scalar_random : keyed (result EnclaveError Scalar) := fun e k =>
  (map_err (fun m => Keychain ("csprng: " +:+ m)) (ke_random e), k).

(** [EnrollmentKey::from_scalar]. *)
Definition from_scalar (scalar : Scalar) (store : KeyStore) : result EnclaveError HostKey :=
  public ← from_x963 (public_point scalar);
  _ ← ensure_not_fixture_key public;
  Ok (mkHostKey scalar public store).

(** [HostKeyFile::load], [write] and [remove] of the record seam. *)
Definition key_file_load : keyed (result io_error (option HostKeyFile)) := fun _ k =>
  (slot_load (ks_file (kh_keys k)), k).
Definition key_file_write (f : HostKeyFile) : keyed (result io_error unit) := fun e k =>
  let '(r, s) := slot_write (e_write (ke_env e) "host_key.json") f (ks_file (kh_keys k)) in
  (r, mkKHost (mkKeys s (ks_cred (kh_keys k))) (kh_world k)).
Definition key_file_remove : keyed (result io_error unit) := fun e k =>
  let '(r, s) := slot_remove (e_remove (ke_env e) "host_key.json") (ks_file (kh_keys k)) in
  (r, mkKHost (mkKeys s (ks_cred (kh_keys k))) (kh_world k)).

(** [EnrollmentKey::lookup]: the file first. *)
Definition lookup_key : keyed (result EnclaveError (option HostKey)) :=
  do? file := kmap_err record_error key_file_load in
  match file with
  | Some file => kret (Some <$> from_scalar (hf_scalar file) KeyFile)
  | None =>
      do? held := store_get in
      kret (match held with
            | Some secret => scalar ← Scalar_from_bytes secret;
                             Some <$> from_scalar scalar CredentialStore
            | None => Ok None
            end)
  end.

(** [EnrollmentKey::sign_message], and the key as the policy lane holds it: its
    fingerprint and its signing function, errors as their text. *)
Definition sign_message (k : HostKey) (message : bytes) : result EnclaveError bytes :=
  map_err Signing (try_sign (hk_signing k) message).

Definition signer (k : HostKey) : EnrollmentKey :=
  mkKey (fingerprint_hex (hk_public k))
    (fun message => map_err enclave_error_display (sign_message k message)).

(** Run a host program where [EnrollmentKey::lookup] answers from these keys. *)
Definition on_host {A} (m : host A) : keyed A := fun e k =>
  let looked := map_err enclave_error_display (option_map signer <$> (lookup_key e k).1) in
  let w := kh_world k in
  let '(a, w') := m (ke_env e)
    (mkWorld (w_trust w) (w_policy w) (w_history w) (w_lang w) looked (w_audit w) (w_now w)) in
  (a, mkKHost (kh_keys k) w').

(** [ipc::with_runtime_lock] around a keyed body. *)
Definition key_lock {A} (f : keyed (result io_error A)) : keyed (result io_error A) := fun e k =>
  match e_lock (ke_env e) with Some err => (Err err, k) | None => f e k end.

Definition KEY_EXISTS : EnclaveError :=
  KeyInvalid "a host key already exists; `pair --reset` replaces it".

(** [EnrollmentKey::mint], under the lock. *)
Definition mint (store : KeyStore) (auth : PresenceAttestation) : keyed (result EnclaveError HostKey) :=
  do? file := kmap_err record_error key_file_load in
  match file with
  | Some _ => kret (Err KEY_EXISTS)
  | None =>
      do! held := store_get in
      match store, held with
      | _, Ok (Some _) => kret (Err KEY_EXISTS)
      | CredentialStore, Err e => kret (Err e)
      | _, Ok None | KeyFile, Err _ =>
          do! _ := on_host clear_baseline_locked in
          do? scalar := Scalar_random in
          do? key := kret (from_scalar scalar store) in
          do? _ := match store with
                   | CredentialStore => store_set scalar
                   | KeyFile => kmap_err record_error (key_file_write (mkKeyFile scalar))
                   end in
          kret (Ok key)
      end
  end.

(** * Revocation *)

Inductive StoreOutcome :=
| Cleared (existed : bool)
| Unanswered (e : EnclaveError).

Record Revoked := mkKeyRevoked { rk_file : bool; rk_store : StoreOutcome }.

Definition is_cleared (s : StoreOutcome) : bool :=
  match s with Cleared _ => true | Unanswered _ => false end.

(** [Revoked::key_in_use_is_gone] and [Revoked::existed]. *)
Definition key_in_use_is_gone (r : Revoked) : bool := rk_file r || is_cleared (rk_store r).
Definition existed (r : Revoked) : bool :=
  rk_file r || match rk_store r with Cleared existed => existed | Unanswered _ => false end.

(** [EnrollmentKey::revoke]. *)
Definition revoke_key : keyed (result EnclaveError Revoked) :=
  do! file := key_file_load in
  let file := match file with Ok None => false | Ok (Some _) | Err _ => true end in
  do? _ := kmap_err record_error key_file_remove in
  do! store := (do? held := store_get in
                do? _ := store_delete in
                kret (Ok (bool_decide (is_Some held)))) in
  kret (Ok (mkKeyRevoked file match store with
                              | Ok existed => Cleared existed
                              | Err e => Unanswered e
                              end)).

Record Disposal (T : Type) := mkDisposal {
  dp_revoked : Revoked;
  dp_baseline : result io_error bool;
  dp_trust : result io_error (Trust * T)
}.
Arguments mkDisposal {T}.
Arguments dp_revoked {T}.
Arguments dp_baseline {T}.
Arguments dp_trust {T}.

(** [dispose_locked]. *)
Definition dispose_locked {T} (edit : Trust -> T * Trust) :
    keyed (result io_error (result EnclaveError (Disposal T))) :=
  do! revoked := revoke_key in
  match revoked with
  | Err e => kret (Ok (Err e))
  | Ok revoked =>
      do! baseline := on_host clear_baseline_locked in
      do! trust := on_host (mutate_locked_with ScopeHostKey edit) in
      kret (Ok (Ok (mkDisposal revoked baseline trust)))
  end.

(** [with_lock]. *)
Definition dispose_under_lock {T} (edit : Trust -> T * Trust) :
    keyed (result EnclaveError (Disposal T)) :=
  do! r := key_lock (dispose_locked edit) in
  kret (match r with
        | Ok inner => inner
        | Err e => Err (Keychain ("runtime lock unavailable during host key disposal: " +:+ io_msg e))
        end).

Definition dispose_enrollment_and_policy_baseline : keyed (result EnclaveError Revoked) :=
  do? disposal := dispose_under_lock (fun t => (tt, t)) in
  kret (Ok (dp_revoked disposal)).

(** [audit_host_key_revoke]. *)
Definition host_key_revoke_record (surface : Surface) (revoked : Revoked) : AuditRecord :=
  match rk_store revoked with
  | Unanswered e =>
      if negb (rk_file revoked) then
        audit_of HostKeyRevoke surface "error"
          (Some ("credential store did not answer: " +:+ enclave_error_display e))
      else
        audit_of HostKeyRevoke surface "ok"
          (Some ("file key removed; credential store did not answer: " +:+ enclave_error_display e))
  | Cleared _ => audit_of HostKeyRevoke surface "ok" None
  end.

Definition audit_host_key_revoke (surface : Surface) (revoked : Revoked) : keyed unit :=
  on_host (audit_record (host_key_revoke_record surface revoked)).

Record ForgottenPairings := mkForgotten {
  fg_trust : Trust;
  fg_enrollments : list Enrollment;
  fg_clients : list ClientEntry
}.

Record KeyReset := mkReset {
  rs_revoked : Revoked;
  rs_baseline : result io_error bool;
  rs_pairings : result io_error ForgottenPairings
}.

Fixpoint audit_clients_revoked (surface : Surface) (l : list ClientEntry) : host unit :=
  match l with
  | [] => hret tt
  | c :: l' => let! _ := audit_client_revoked surface (ce_name c) in audit_clients_revoked surface l'
  end.

Definition dispose_everything (surface : Surface) : keyed (result EnclaveError KeyReset) :=
  do? disposal := dispose_under_lock forget_pairings in
  do! _ := audit_host_key_revoke surface (dp_revoked disposal) in
  let pairings := (fun r => mkForgotten r.1 r.2.1 r.2.2) <$> dp_trust disposal in
  do! _ := match pairings with
           | Ok forgotten => on_host (
               let! _ := audit_browsers_revoked surface (fg_enrollments forgotten) in
               audit_clients_revoked surface (fg_clients forgotten))
           | Err _ => kret tt
           end in
  kret (Ok (mkReset (dp_revoked disposal) (dp_baseline disposal) pairings)).

(** [run_revoke_all]: its exit code. *)
Definition run_revoke_all : keyed Z :=
  do! reset := dispose_everything SurfCli in
  kret (match reset with
        | Err _ => 1
        | Ok reset =>
            let code := if is_ok (rs_pairings reset) && is_ok (rs_baseline reset) then 0 else 1 in
            match rk_store (rs_revoked reset) with
            | Unanswered _ => if negb (rk_file (rs_revoked reset)) then 1 else code
            | Cleared _ => code
            end
        end)%Z.

(** * The pairing command *)

Definition store_wire_name (s : KeyStore) : string :=
  match s with CredentialStore => "credential_store" | KeyFile => "file" end.

Definition host_key_pair_record (store : KeyStore) (reset : bool) (presence : string) : AuditRecord :=
  audit_of HostKeyPair SurfCli "ok"
    (Some ("store=" +:+ store_wire_name store +:+ "; reset=" +:+ bool_display reset
           +:+ "; auth=" +:+ presence)).

(** [run_pair --reset]'s disposal: whether the pairing stops there. *)
Definition pair_reset (file_store : bool) : keyed bool :=
  do! r := dispose_enrollment_and_policy_baseline in
  match r with
  | Ok revoked =>
      do! _ := audit_host_key_revoke SurfCli revoked in
      kret (negb (is_cleared (rk_store revoked)) && negb file_store)
  | Err _ => kret true
  end.

(** [run_pair]: its exit code. [is_terminal], [still_terminal] and [line] are what
    the terminal answers to the check, to the prompt and to the read. *)
Definition run_pair (reset file_store is_terminal still_terminal : bool)
    (line : result io_error (option string)) : keyed Z :=
  let store := if file_store then KeyFile else CredentialStore in
  match TerminalStdin_require is_terminal with
  | Err _ => kret 1%Z
  | Ok _ =>
      match tty_verdict still_terminal line with
      | Err _ => kret 1%Z
      | Ok auth =>
          do! stop := (if reset then pair_reset file_store else kret false) in
          if stop then kret 1%Z
          else
            do! minted := key_lock (do! r := mint store auth in kret (Ok r)) in
            match minted with
            | Ok (Ok key) =>
                do! _ := on_host (audit_record
                           (host_key_pair_record store reset (path_wire_name (att_path auth)))) in
                kret 0%Z
            | Ok (Err _) | Err _ => kret 1%Z
            end
      end
  end.

(** * Challenges *)

Definition challenge_proof (nonce : string) (context : option string) :
    keyed (result EnclaveError HostReply) :=
  do? _ := kret (challenge_message nonce context) in
  do? found := lookup_key in
  do? key := kret (ok_or found NotEnrolled) in
  do? sig := kret (message ← challenge_message nonce context; sign_message key message) in
  kret (Ok (EnclaveProof (base64_encode sig) (fingerprint_hex (hk_public key))
              (base64_encode (hk_public key)))).

Definition respond_to_challenge (nonce : string) (context : option string) : keyed HostReply :=
  do! r := challenge_proof nonce context in
  kret (match r with Ok frame => frame | Err e => EnclaveError_ (reason_code e) end).

(** [revoke_host_key] (native_host.rs). *)
Definition revoke_host_key : keyed HostReply :=
  do! r := dispose_enrollment_and_policy_baseline in
  match r with
  | Ok revoked =>
      do! _ := audit_host_key_revoke SurfExtension revoked in
      kret (if key_in_use_is_gone revoked then EnclaveRevoked
            else match rk_store revoked with
                 | Unanswered e => EnclaveError_ (reason_code e)
                 | Cleared _ => EnclaveRevoked
                 end)
  | Err e => kret (EnclaveError_ (reason_code e))
  end.

(** * Status *)

Inductive EnclaveStatusReport :=
| KeyPresent (store : KeyStore) (public_key_b64 fingerprint : string)
| KeyNone
| KeyRejected (detail : string)
| KeyError (detail : string).

(** [key_report], less the schema version and the key label every report carries. *)
Definition key_report : keyed EnclaveStatusReport :=
  do! looked := lookup_key in
  kret (match looked with
        | Ok (Some key) => KeyPresent (hk_store key) (base64_encode (hk_public key))
                             (fingerprint_display (hk_public key))
        | Ok None => KeyNone
        | Err (KeyInvalid why) => KeyRejected (enclave_error_display (KeyInvalid why))
        | Err e => KeyError (enclave_error_display e)
        end).

(** * Lemmas *)

Lemma from_scalar_Ok scalar store key :
  from_scalar scalar store = Ok key ->
  hk_signing key = scalar /\ hk_store key = store /\ hk_public key = public_point scalar /\
  fingerprint_hex (hk_public key) <> FIXTURE_KEY_ID.
Proof.
  unfold from_scalar. destruct (from_x963 _) as [p|] eqn:Ep; [|done]. cbn [mbind result_mbind].
  unfold ensure_not_fixture_key. destruct (String.eqb_spec (fingerprint_hex p) FIXTURE_KEY_ID); [done|].
  intros [= <-]. split_and!; [done..| |done]. cbn.
  unfold from_x963 in Ep. destruct (negb _); [done|]. destruct (negb _); [done|]. by injection Ep.
Qed.

Lemma store_get_same e k : (store_get e k).2 = k.
Proof. unfold store_get, ktry, kbind, store_entry, kret. by destruct (ke_entry e). Qed.

Lemma lookup_key_same e k : (lookup_key e k).2 = k.
Proof.
  unfold lookup_key, ktry at 1, kbind at 1, kmap_err, kbind at 1, key_file_load, kret at 1.
  destruct (slot_load _) as [[f|]|]; [done| |done]. cbn [map_err].
  unfold ktry, kbind. pose proof (store_get_same e k) as Hg.
  destruct (store_get e k) as [[held|] k1]; cbn in Hg; by subst k1.
Qed.

(** A handle never stands for the public fixture key. *)
Lemma lookup_key_Ok e k key :
  (lookup_key e k).1 = Ok (Some key) ->
  hk_public key = public_point (hk_signing key) /\ fingerprint_hex (hk_public key) <> FIXTURE_KEY_ID.
Proof.
  assert (forall s st, Some <$> from_scalar s st = Ok (Some key) ->
    hk_public key = public_point (hk_signing key) /\ fingerprint_hex (hk_public key) <> FIXTURE_KEY_ID)
    as Hf.
  { intros s st H. destruct (from_scalar s st) as [key'|] eqn:E; [|done]. injection H as ->.
    apply from_scalar_Ok in E as (-> & _ & Hp & Hn). done. }
  unfold lookup_key, ktry at 1, kbind at 1, kmap_err, kbind at 1, key_file_load, kret at 1.
  destruct (slot_load _) as [[f|]|]; cbn [map_err]; [apply Hf| |done].
  unfold ktry, kbind. destruct (store_get e k) as [[[secret|]|] k1]; cbn; [|done..].
  destruct (Scalar_from_bytes secret) as [s|]; [|done]. apply Hf.
Qed.

(** With no file, the lookup is the store's. *)
Lemma lookup_key_absent e k :
  ks_file (kh_keys k) = Absent -> (store_get e k).1 = Ok None -> (lookup_key e k).1 = Ok None.
Proof.
  intros Hf Hg. unfold lookup_key, ktry at 1, kbind at 1, kmap_err, kbind at 1, key_file_load, kret at 1.
  rewrite Hf. cbn [slot_load map_err]. unfold ktry, kbind. by destruct (store_get e k) as [r k1]; cbn in Hg; subst r.
Qed.

Lemma store_delete_cases e k r k' :
  store_delete e k = (r, k') ->
  ks_file (kh_keys k') = ks_file (kh_keys k) /\ kh_world k' = kh_world k /\
  (r = Ok tt -> (store_get e k').1 = Ok None).
Proof.
  unfold store_delete, ktry at 1, kbind at 1, store_entry. destruct (ke_entry e) eqn:Ee;
    [by intros [= <- <-]|].
  unfold ktry at 1, kbind at 1. destruct (ke_delete e _) as [rd c] eqn:Ed.
  assert (forall x, (match rd with Ok _ | Err NoEntry => Ok tt | Err err => Err (classify err) end) = x ->
    x = Ok tt \/ exists er, x = Err er) as Hx by (intros [[]|]; eauto).
  destruct (Hx _ eq_refl) as [->|[er ->]]; [|by intros [= <- <-]].
  unfold ktry, kbind. pose proof (store_get_same e (mkKHost (mkKeys (ks_file (kh_keys k)) c) (kh_world k))) as Hg.
  destruct (store_get e _) as [[held|er] k1] eqn:Eg; cbn in Hg; subst k1; [|by intros [= <- <-]].
  destruct held; intros [= <- <-]; split_and!; try done. intros _. by rewrite Eg.
Qed.

Lemma revoke_key_cases e k r k' :
  revoke_key e k = (r, k') ->
  match r with
  | Err _ => k' = k
  | Ok rv =>
      ks_file (kh_keys k') = Absent /\ kh_world k' = kh_world k /\
      (rk_file rv = true <-> ks_file (kh_keys k) <> Absent) /\
      (is_cleared (rk_store rv) = true -> (store_get e k').1 = Ok None)
  end.
Proof.
  unfold revoke_key, kbind at 1, key_file_load.
  unfold ktry at 1, kbind at 1, kmap_err, kbind at 1, key_file_remove, kret at 1.
  assert (forall f, match slot_load (ks_file (kh_keys k)) with
    | Ok None => false | Ok (Some _) | Err _ => true end = f ->
    (f = true <-> ks_file (kh_keys k) <> Absent)) as Hf.
  { intros f <-. by destruct (ks_file (kh_keys k)). }
  generalize (Hf _ eq_refl). clear Hf.
  generalize (match slot_load (ks_file (kh_keys k)) with
    | Ok None => false | Ok (Some _) | Err _ => true end). intros f Hf.
  destruct (slot_remove _ (ks_file (kh_keys k))) as [[u|er] s] eqn:Er; cbn [map_err]; cycle 1.
  { intros [= <- <-]. apply slot_remove_Err in Er as ->. by destruct k as [[] ?]. }
  apply slot_remove_Ok in Er as ->.
  set (k1 := mkKHost _ _). unfold kbind at 1.
  match goal with |- context [(do? held := store_get in _) e k1] =>
    destruct ((do? held := store_get in do? _ := store_delete in
               kret (Ok (bool_decide (is_Some held)))) e k1) as [rs k2] eqn:Es end.
  intros [= <- <-]. cbn [rk_file rk_store].
  unfold ktry at 1, kbind at 1 in Es. pose proof (store_get_same e k1) as Hg.
  destruct (store_get e k1) as [[held|er] k1'] eqn:Eg; cbn in Hg; subst k1'.
  - unfold ktry, kbind in Es. destruct (store_delete e k1) as [[[]|er] k3] eqn:Ed;
      apply store_delete_cases in Ed as (Hfile & Hw & Hc); injection Es as <- <-;
      (split_and!; [by rewrite Hfile|by rewrite Hw|exact Hf|]); [intros _; by apply Hc|done].
  - injection Es as <- <-. split_and!; [done|done|exact Hf|done].
Qed.

Lemma clear_baseline_cases e w r w' :
  clear_baseline_locked e w = (r, w') ->
  match r with
  | Ok _ => w_policy w' = Absent
  | Err _ => w_policy w' = w_policy w
  end.
Proof.
  unfold clear_baseline_locked, htry at 1, hbind at 1, load_policy, asks.
  destruct (slot_load (w_policy w)) as [[prev|]|] eqn:El; cycle 1.
  { intros [= <- <-]. by apply slot_load_None. }
  { by intros [= <- <-]. }
  unfold hbind at 1. destruct (push_history_locked prev e w) as [u w1] eqn:Ep.
  apply push_history_frame in Ep as (Hp & _).
  unfold htry at 1, hbind at 1, remove_policy.
  destruct (slot_remove _ (w_policy w1)) as [[[]|er] s] eqn:Er; cycle 1.
  { intros [= <- <-]. apply slot_remove_Err in Er as ->. by rewrite <- Hp. }
  apply slot_remove_Ok in Er as ->. unfold hbind.
  destruct (bump_policy_epoch_locked e _) as [[] w2] eqn:Eb.
  apply bump_policy_epoch_frame in Eb as (Hb & _). intros [= <- <-]. by rewrite Hb.
Qed.

(** Running a host program leaves the keys alone. *)
Lemma on_host_keys {A} (m : host A) e k : kh_keys (on_host m e k).2 = kh_keys k.
Proof. unfold on_host. by destruct (m _ _). Qed.

Lemma on_host_cases {A} (m : host A) e k a k' :
  on_host m e k = (a, k') ->
  kh_keys k' = kh_keys k /\
  exists w0, m (ke_env e) w0 = (a, kh_world k') /\ w_trust w0 = w_trust (kh_world k) /\
    w_policy w0 = w_policy (kh_world k) /\ w_audit w0 = w_audit (kh_world k).
Proof.
  unfold on_host. set (w0 := mkWorld _ _ _ _ _ _ _). destruct (m (ke_env e) w0) as [a1 w'] eqn:E.
  intros [= <- <-]. split; [done|]. exists w0. by split_and!.
Qed.

(** The whole disposal, under the lock. *)
Lemma dispose_cases {T} (edit : Trust -> T * Trust) e k r k' :
  dispose_under_lock edit e k = (r, k') ->
  match r with
  | Err _ => k' = k
  | Ok d =>
      ks_file (kh_keys k') = Absent /\
      (rk_file (dp_revoked d) = true <-> ks_file (kh_keys k) <> Absent) /\
      (is_cleared (rk_store (dp_revoked d)) = true -> (lookup_key e k').1 = Ok None) /\
      (is_ok (dp_baseline d) = true -> w_policy (kh_world k') = Absent) /\
      (forall t out, dp_trust d = Ok (t, out) -> w_trust (kh_world k') = Stored t /\
         exists t0 t1, bumped t0 ScopeHostKey = Ok t1 /\ edit t1 = (out, t))
  end.
Proof.
  unfold dispose_under_lock, kbind at 1, key_lock. destruct (e_lock (ke_env e)); [by intros [= <- <-]|].
  unfold dispose_locked, kbind at 1. destruct (revoke_key e k) as [[rv|er] k1] eqn:Er;
    apply revoke_key_cases in Er; [|intros [= <- <-]; done].
  destruct Er as (Hf & Hw & Hfile & Hc). unfold kbind at 1.
  destruct (on_host clear_baseline_locked e k1) as [rb k2] eqn:Eb.
  apply on_host_cases in Eb as (Hk2 & w0 & Eb & _). apply clear_baseline_cases in Eb.
  unfold kbind at 1. destruct (on_host (mutate_locked_with _ _) e k2) as [rt k3] eqn:Et.
  apply on_host_cases in Et as (Hk3 & w1 & Et & _ & Hp1 & _).
  intros [= <- <-]. cbn [dp_revoked dp_baseline dp_trust].
  assert (kh_keys k3 = kh_keys k1) as Hk by congruence.
  split_and!; [by rewrite Hk|exact Hfile| | |].
  - intros Hcl. apply lookup_key_absent; [by rewrite Hk|].
    specialize (Hc Hcl). unfold store_get, ktry, kbind, store_entry in *.
    destruct (ke_entry e); [done|]. cbn in *. by rewrite Hk.
  - destruct rb as [b|]; [|done]. intros _.
    assert (w_policy (kh_world k3) = w_policy w1) as ->; [|by rewrite Hp1].
    destruct rt as [[t out]|]; [apply mutate_locked_with_Ok in Et as (? & ? & _ & _ & _ & ->)|
      apply mutate_locked_with_Err in Et as ->]; done.
  - intros t out ->. apply mutate_locked_with_Ok in Et as (t0 & t1 & _ & Hb & He & ->).
    split; [done|]. by exists t0, t1.
Qed.

(** What a mint found and left. *)
Lemma mint_cases store auth e k r k' :
  mint store auth e k = (r, k') ->
  match r with
  | Err _ => ks_file (kh_keys k') = ks_file (kh_keys k)
  | Ok key =>
      ks_file (kh_keys k) = Absent /\ (forall s, (store_get e k).1 <> Ok (Some s)) /\
      (store = CredentialStore -> (store_get e k).1 = Ok None) /\
      ke_random e = Ok (hk_signing key) /\ from_scalar (hk_signing key) store = Ok key /\
      match store with
      | KeyFile => ks_file (kh_keys k') = Stored (mkKeyFile (hk_signing key)) /\
                   ks_cred (kh_keys k') = ks_cred (kh_keys k)
      | CredentialStore => ks_file (kh_keys k') = Absent /\
          ke_set e (hk_signing key) (ks_cred (kh_keys k)) = (Ok tt, ks_cred (kh_keys k'))
      end
  end.
Proof.
  unfold mint, ktry at 1, kbind at 1, kmap_err at 1, kbind at 1, key_file_load, kret at 1.
  destruct (slot_load (ks_file (kh_keys k))) as [[f|]|] eqn:Ef; cbn [map_err];
    [by intros [= <- <-]| |by intros [= <- <-]].
  apply slot_load_None in Ef. unfold kbind at 1. pose proof (store_get_same e k) as Hg.
  destruct (store_get e k) as [held k1] eqn:Eg; cbn in Hg; subst k1. cbn [fst].
  assert (forall (m : keyed (result EnclaveError HostKey)),
    (match store, held with
     | _, Ok (Some _) => kret (Err KEY_EXISTS)
     | CredentialStore, Err er => kret (Err er)
     | _, Ok None | KeyFile, Err _ => m
     end) e k = (r, k') ->
    (exists er, r = Err er /\ k' = k) \/
    (m e k = (r, k') /\ (forall s, held <> Ok (Some s)) /\ (store = CredentialStore -> held = Ok None)))
    as Hs.
  { intros m. destruct store, held as [[s|]|er]; try (intros [= <- <-]; left; by eexists);
      intros H; right; split_and!; done. }
  intros H. apply Hs in H as [(er & -> & ->)|(H & Hn & Hcs)]; [done|].
  unfold kbind at 1 in H. destruct (on_host clear_baseline_locked e k) as [rb k2] eqn:Eb.
  apply on_host_cases in Eb as (Hk2 & _).
  unfold ktry at 1, kbind at 1, Scalar_random in H.
  destruct (ke_random e) as [scalar|] eqn:Er; cbn [map_err] in H;
    [|injection H as <- <-; by rewrite Hk2].
  unfold ktry at 1, kbind at 1, kret at 1 in H.
  destruct (from_scalar scalar store) as [key|] eqn:Ek; [|injection H as <- <-; by rewrite Hk2].
  pose proof (from_scalar_Ok _ _ _ Ek) as (Hsig & Hst & _).
  unfold ktry, kbind in H. destruct store.
  - unfold store_set, ktry, kbind, store_entry in H.
    destruct (ke_entry e); [injection H as <- <-; by rewrite Hk2|].
    rewrite Hk2 in H. destruct (ke_set e scalar _) as [[[]|er] c] eqn:Es; injection H as <- <-; [|done].
    cbn [kh_keys ks_file ks_cred]. rewrite Hsig. split_and!; auto.
  - unfold kmap_err, kbind, key_file_write, kret in H. rewrite Hk2 in H.
    destruct (slot_write _ _ _) as [[[]|er] s] eqn:Es; injection H as <- <-;
      cbn [kh_keys ks_file ks_cred].
    + apply slot_write_Ok in Es as [-> _]. rewrite Hsig. by split_and!.
    + by apply slot_write_Err in Es.
Qed.

(** A baseline that reads, and may be removed, is removed. *)
Lemma clear_baseline_total e w :
  is_ok (slot_load (w_policy w)) = true -> e_remove e "policy.json" = None ->
  is_ok (clear_baseline_locked e w).1 = true.
Proof.
  intros Hl He. unfold clear_baseline_locked, htry at 1, hbind at 1, load_policy, asks.
  destruct (slot_load (w_policy w)) as [[prev|]|]; [|done..].
  unfold hbind at 1. destruct (push_history_locked prev e w) as [u w1].
  unfold htry at 1, hbind at 1, remove_policy. rewrite He.
  assert (forall s : slot PolicyStore, slot_remove None s = (Ok tt, Absent)) as -> by (by intros []).
  unfold hbind. by destruct (bump_policy_epoch_locked e _).
Qed.

(** What the lookup reads of a host. *)
Lemma lookup_key_keys e k k' : kh_keys k = kh_keys k' -> (lookup_key e k).1 = (lookup_key e k').1.
Proof.
  intros H. unfold lookup_key, ktry, kbind, kmap_err, kbind, key_file_load, store_get, ktry, kbind,
    store_entry, kret. rewrite H.
  destruct (slot_load _) as [[]|]; [done| |done]. cbn [map_err]. destruct (ke_entry e); [done|].
  rewrite H. by destruct (ks_cred (kh_keys k')) as [|[]].
Qed.

(** A minted key is the one the next lookup finds, if the store keeps what it is
    given and the generator yields valid scalars. *)
Lemma minted_key_is_found store auth e k key k' :
  mint store auth e k = (Ok key, k') ->
  (store = CredentialStore -> ke_entry e = None /\ forall s c, ke_set e s c = (Ok tt, Ok s)) ->
  (forall s, ke_random e = Ok s -> length s = 32 /\ secret_ok s = true) ->
  (lookup_key e k').1 = Ok (Some key).
Proof.
  intros Hm Hset Hr. apply mint_cases in Hm as (_ & _ & _ & Hrand & Hk & Hstore).
  unfold lookup_key, ktry at 1, kbind at 1, kmap_err, kbind at 1, key_file_load, kret at 1.
  destruct store.
  - destruct Hstore as [-> Hs]. destruct (Hset eq_refl) as [He Hs']. rewrite Hs' in Hs.
    injection Hs as Hs. cbn [slot_load map_err].
    unfold ktry, kbind, store_get, ktry, kbind, store_entry. rewrite He, <- Hs. cbn.
    destruct (Hr _ Hrand) as [Hl Hok]. unfold Scalar_from_bytes. rewrite Hl, Hok. cbn. by rewrite Hk.
  - destruct Hstore as [-> _]. cbn. by rewrite Hk.
Qed.

(** * Properties *)

(** C38: A revocation is reported only when it is confirmed. If the extension is
    told the host key is revoked, the file key is gone, a machine that kept its
    key in the credential store now looks up as having none, the trail says ok,
    and the policy baseline the key signed is gone too, wherever it could be read
    and removed. Otherwise it is told a reason; then either nothing at all moved,
    or the trail has the error and no file key was in use. *)
Theorem revocation_is_confirmed (e : kenv) (k k' : khost) (reply : HostReply) :
  revoke_host_key e k = (reply, k') ->
  (reply = EnclaveRevoked /\ ks_file (kh_keys k') = Absent /\
   (ks_file (kh_keys k) = Absent -> (lookup_key e k').1 = Ok None) /\
   (is_ok (slot_load (w_policy (kh_world k))) = true ->
    e_remove (ke_env e) "policy.json" = None -> w_policy (kh_world k') = Absent) /\
   exists d, last (w_audit (kh_world k')) = Some (audit_of HostKeyRevoke SurfExtension "ok" d)) \/
  (exists reason, reply = EnclaveError_ reason /\
   (k' = k \/ ks_file (kh_keys k) = Absent /\ exists d,
      last (w_audit (kh_world k')) = Some (audit_of HostKeyRevoke SurfExtension "error" (Some d)))).
Proof.
  unfold revoke_host_key, dispose_enrollment_and_policy_baseline, kbind at 1, ktry, kbind at 1.
  destruct (dispose_under_lock _ e k) as [[d|er] k1] eqn:Ed; cycle 1.
  { apply dispose_cases in Ed as ->. intros [= <- <-]. right. eexists. split; [done|by left]. }
  pose proof Ed as (Hf & Hfile & Hcl & Hpol & _)%dispose_cases.
  assert (is_ok (slot_load (w_policy (kh_world k))) = true ->
    e_remove (ke_env e) "policy.json" = None -> is_ok (dp_baseline d) = true) as Hb.
  { intros Hl He. unfold dispose_under_lock, kbind at 1, key_lock in Ed.
    destruct (e_lock (ke_env e)); [done|]. unfold dispose_locked, kbind at 1 in Ed.
    destruct (revoke_key e k) as [[rv|er] k2] eqn:Er; apply revoke_key_cases in Er; [|done].
    destruct Er as (_ & Hw & _). unfold kbind at 1 in Ed.
    destruct (on_host clear_baseline_locked e k2) as [rb k3] eqn:Eb. unfold kbind in Ed.
    destruct (on_host (mutate_locked_with _ _) e k3) as [rt k4]. injection Ed as <- _.
    apply on_host_cases in Eb as (_ & w0 & Eb & _ & Hp & _).
    pose proof (clear_baseline_total (ke_env e) w0) as Ht. rewrite Eb in Ht. cbn [dp_baseline fst] in *.
    apply Ht; [|done]. by rewrite Hp, Hw. }
  unfold kret at 1, kbind at 1, audit_host_key_revoke.
  destruct (on_host (audit_record _) e k1) as [u k2] eqn:Ea. unfold on_host, audit_record in Ea.
  injection Ea as _ <-. cbn [add_audit kh_world w_audit]. unfold key_in_use_is_gone, host_key_revoke_record.
  destruct (rk_store (dp_revoked d)) as [ex|er] eqn:Es; cbn [is_cleared].
  - rewrite orb_true_r. intros [= <- <-]. left. split_and!; [done|exact Hf| |auto|].
    + intros _. rewrite (lookup_key_keys e _ k1); [by apply Hcl|done].
    + eexists. cbn. by rewrite last_snoc.
  - rewrite orb_false_r. destruct (rk_file (dp_revoked d)) eqn:Erf; cbn [negb];
      intros [= <- <-].
    + left. split_and!; [done|exact Hf| |auto|].
      * intros Habs. by destruct (proj1 Hfile eq_refl).
      * eexists. cbn. by rewrite last_snoc.
    + right. eexists. split; [done|]. right. split.
      * destruct (ks_file (kh_keys k)) eqn:Ek; [done|..]; exfalso;
          (assert (false = true) as Hx by (by apply Hfile)); discriminate Hx.
      * eexists. cbn. by rewrite last_snoc.
Qed.

(** The disposal a reset runs cannot leave a file key behind and go on. *)
Lemma pair_reset_cases file_store e k stop k' :
  pair_reset file_store e k = (stop, k') -> stop = false -> ks_file (kh_keys k') = Absent.
Proof.
  unfold pair_reset, dispose_enrollment_and_policy_baseline, kbind at 1, ktry, kbind at 1.
  destruct (dispose_under_lock _ e k) as [[d|er] k1] eqn:Ed; [|by intros [= <- <-]].
  apply dispose_cases in Ed as (Hf & _). unfold kret at 1, kbind at 1, audit_host_key_revoke.
  destruct (on_host _ e k1) as [u k2] eqn:Ea. apply on_host_cases in Ea as (Hk & _).
  intros [= _ <-] _. by rewrite Hk.
Qed.

(** Pairing mints, and never adopts or replaces. [pair] ends well only if a
    terminal was there before and after the prompt and the phrase was typed, and
    then with a freshly generated key, never the public fixture's, which is the key
    every later lookup finds (given a credential store that keeps what it is
    given). Without [--reset] that means no key was found in either place before;
    and a [pair] without [--reset] that fails leaves the file key as it was. *)
Theorem pairing_never_adopts_a_key (reset file_store is_terminal still_terminal : bool)
    (line : result io_error (option string)) (e : kenv) (k k' : khost) (code : Z) :
  run_pair reset file_store is_terminal still_terminal line e k = (code, k') ->
  (code = 0%Z ->
   is_terminal = true /\ still_terminal = true /\
   (exists s, line = Ok (Some s) /\ trim s = CLI_CONFIRM_PHRASE) /\
   (reset = false -> ks_file (kh_keys k) = Absent /\ forall s, (store_get e k).1 <> Ok (Some s)) /\
   exists key, ke_random e = Ok (hk_signing key) /\
     fingerprint_hex (hk_public key) <> FIXTURE_KEY_ID /\
     ((file_store = false -> ke_entry e = None /\ forall s c, ke_set e s c = (Ok tt, Ok s)) ->
      length (hk_signing key) = 32 -> secret_ok (hk_signing key) = true ->
      (lookup_key e k').1 = Ok (Some key))) /\
  (code <> 0%Z -> reset = false -> ks_file (kh_keys k') = ks_file (kh_keys k)).
Proof.
  unfold run_pair. destruct is_terminal; cbn [TerminalStdin_require]; [|by intros [= <- <-]].
  destruct (tty_verdict still_terminal line) as [auth|er] eqn:Et; [|by intros [= <- <-]].
  apply tty_verdict_Ok in Et as (-> & -> & Hline).
  unfold kbind at 1.
  destruct ((if reset then pair_reset file_store else kret false) e k) as [stop k1] eqn:Es.
  assert (reset = false -> stop = false /\ k1 = k) as Hr
    by (intros ->; by injection Es as <- <-).
  destruct stop.
  { intros [= <- <-]. split; [done|]. intros _ Hre. by destruct (Hr Hre). }
  unfold kbind at 1, key_lock. destruct (e_lock (ke_env e)).
  { intros [= <- <-]. split; [done|]. intros _ Hre. by destruct (Hr Hre) as [_ ->]. }
  unfold kbind at 1. destruct (mint _ _ e k1) as [[key|er] k2] eqn:Em; unfold kret at 1; cycle 1.
  { intros [= <- <-]. split; [done|]. intros _ Hre. destruct (Hr Hre) as [_ ->].
    by apply mint_cases in Em. }
  unfold kbind. destruct (on_host (audit_record _) e k2) as [u k3] eqn:Ea. apply on_host_cases in Ea as (Hk & _).
  intros [= <- <-]. split; [intros _|done].
  pose proof Em as (Hfile & Hn & _ & Hrand & Hfrom & _)%mint_cases. split_and!; try done.
  - intros Hre. by destruct (Hr Hre) as [_ <-].
  - exists key. apply from_scalar_Ok in Hfrom as (_ & _ & _ & Hfx). split_and!; try done.
    intros Hset Hl Hok. rewrite (lookup_key_keys e _ k2) by done.
    eapply minted_key_is_found; [exact Em| |].
    + intros Hst. apply Hset. by destruct file_store.
    + intros s Hs. rewrite Hrand in Hs. injection Hs as <-. done.
Qed.

(** A challenge is answered by the key, about that challenge. Answering moves
    nothing. A proof is the signature of this very nonce and context under the key
    the lookup finds, sent with that key's own fingerprint and point, and never
    the public fixture's; a malformed challenge is refused as such whatever the key
    stores hold. *)
Theorem challenge_proof_is_exact (nonce : string) (context : option string) (e : kenv)
    (k k' : khost) (reply : HostReply) :
  respond_to_challenge nonce context e k = (reply, k') ->
  k' = k /\
  match challenge_message nonce context with
  | Err _ => reply = EnclaveError_ "invalid_challenge"
  | Ok message =>
      match (lookup_key e k).1 with
      | Ok (Some key) =>
          match try_sign (hk_signing key) message with
          | Ok sig => reply = EnclaveProof (base64_encode sig) (fingerprint_hex (hk_public key))
                                (base64_encode (hk_public key)) /\
                      hk_public key = public_point (hk_signing key) /\
                      fingerprint_hex (hk_public key) <> FIXTURE_KEY_ID
          | Err _ => reply = EnclaveError_ "signing_failed"
          end
      | Ok None => reply = EnclaveError_ "not_enrolled"
      | Err er => reply = EnclaveError_ (reason_code er)
      end
  end.
Proof.
  unfold respond_to_challenge, challenge_proof, kbind at 1, ktry at 1, kbind at 1, kret at 1.
  destruct (challenge_message nonce context) as [message|er] eqn:Em; cycle 1.
  { intros [= <- <-]. split; [done|]. unfold challenge_message, domain_message in Em.
    destruct (bounded_nul_free nonce _) as [|[]]; try (by injection Em as <-).
    destruct (bounded_nul_free _ MAX_CONTEXT_LEN) as [|[]]; by simplify_eq. }
  unfold ktry at 1, kbind at 1. pose proof (lookup_key_same e k) as Hk.
  destruct (lookup_key e k) as [[[key|]|er] k1] eqn:El; cbn in Hk; subst k1; cbn;
    [|by intros [= <- <-]..].
  unfold ktry, kbind, kret, sign_message. destruct (try_sign _ message) as [sig|] eqn:Et;
    cbn; intros [= <- <-]; split; try done.
  split; [done|]. apply (lookup_key_Ok e k). by rewrite El.
Qed.
End enclave.

(** ** Witnesses *)

Module EnclaveExample.
#[export] Instance p256 : P256 := {|
  secret_ok b := (length b =? 32)%nat;
  public_point s := x04 :: s ++ s;
  try_sign s m := Ok (firstn 4 s ++ m) |}.
#[export] Instance keyring : Keyring := {| keyring_display _ := "unavailable" |}.
#[export] Instance key_sized : Sized HostKeyFile := {| fits _ := true; too_large _ := invalid_data "" |}.
#[local] Existing Instances PolicyExample.digest PolicyExample.trust_sized
  PolicyExample.policy_sized PolicyExample.history_sized.

Definition e : kenv :=
  mkKEnv calm None (fun s _ => (Ok tt, Ok s)) (fun _ => (Ok tt, Err NoEntry)) (Ok (repeat x07 32)).
Definition w : world := mkWorld Absent Absent Absent Absent (Ok None) [] 1000.
Definition bare : khost := mkKHost (mkKeys Absent (Err NoEntry)) w.
Definition phrase : result io_error (option string) := Ok (Some "release").

Definition paired : khost := Eval vm_compute in (run_pair false false true true phrase e bare).2.
Definition revoked : khost := Eval vm_compute in (revoke_host_key e paired).2.
End EnclaveExample.
#[local] Existing Instances PolicyExample.digest PolicyExample.trust_sized
  PolicyExample.policy_sized PolicyExample.history_sized EnclaveExample.p256
  EnclaveExample.keyring EnclaveExample.key_sized.

Lemma revocation_is_confirmed_witness :
  (lookup_key EnclaveExample.e EnclaveExample.revoked).1 = Ok None /\
  is_ok (lookup_key EnclaveExample.e EnclaveExample.paired).1 = true.
Proof.
  split; [|vm_compute; reflexivity].
  destruct (revocation_is_confirmed EnclaveExample.e EnclaveExample.paired EnclaveExample.revoked
    EnclaveRevoked) as [(_ & _ & H & _)|(r & H & _)].
  - vm_compute. reflexivity.
  - apply H. reflexivity.
  - discriminate H.
Defined.

Lemma pairing_never_adopts_a_key_witness :
  exists key, (lookup_key EnclaveExample.e EnclaveExample.paired).1 = Ok (Some key).
Proof.
  destruct (pairing_never_adopts_a_key false false true true EnclaveExample.phrase EnclaveExample.e
    EnclaveExample.bare EnclaveExample.paired 0) as [H _].
  - vm_compute. reflexivity.
  - destruct (H eq_refl) as (_ & _ & _ & _ & key & Hr & _ & Hl). exists key. injection Hr as Hr.
    apply Hl.
    + intros _. split; reflexivity.
    + rewrite <- Hr. reflexivity.
    + rewrite <- Hr. reflexivity.
Defined.

Lemma challenge_proof_is_exact_witness :
  exists sig kid pub,
    (respond_to_challenge "n" None EnclaveExample.e EnclaveExample.paired).1 = EnclaveProof sig kid pub.
Proof.
  destruct (respond_to_challenge "n" None EnclaveExample.e EnclaveExample.paired) as [reply k'] eqn:E.
  destruct (challenge_proof_is_exact "n" None EnclaveExample.e EnclaveExample.paired k' reply E) as [_ H].
  vm_compute in H. destruct H as (-> & _). eexists _, _, _. reflexivity.
Defined.
