(* ===== verification/Doctor.v ===== *)
(** Doctor: [genkan doctor] (src/src/packages/core/src/doctor.rs): the health report, what
    each of its rows says, the one-line verdict with its exit code, the listing and the
    paths, and the dispatch to the repair of Install.v.

    The report is gathered from the machine's files and registry, the published lock, and the
    host's records; [DoctorEnv] holds what the process and the system answer. *)
From S2P Require Import Prelude Json RuntimeRecord Policy Identity Trust PolicyRecord PrefixCodec World Messages PolicyStore PolicyPlan ToolArgs Catalogue Gating Wire AuthData WebAuthn EnrollStore Presence Allowlist Lang Frames Control AuditTrail Browsers Wrapper Machine Registration Install Lockfile PolicyCli Enclave.
From stdpp Require Import base list gmap sets strings pretty.

Definition REPORT_VERSION : Z := 2.

Inductive LockState :=
| LkAbsent
| LkUnreadable (detail : string)
| LkPresent (endpoint : string) (pid : Z) (secret_len : nat) (reachable : bool).

Record LockReport := mkLockReport { lr_path : string; lr_state : LockState }.

Record SlotStatus := mkSlotStatus { ss_state : RegState; ss_location : string; ss_owner : option string }.
Record PointerStatus := mkPointerStatus { pst_state : PointerState; pst_location : string }.

Record ManifestStatus := mkManifestStatus {
  mst_key : string;
  mst_detected : bool;
  mst_manifest : Scoped SlotStatus;
  mst_effective_scope : Scope;
  mst_pointer : option (Scoped PointerStatus)
}.

Record Report := mkReport {
  rp_v : Z;
  rp_version : string;
  rp_os : string;
  rp_arch : string;
  rp_lock : result string LockReport;
  rp_manifests : result string (list ManifestStatus);
  rp_kill : result string bool;
  rp_policy : PolicyStatusReport
}.

Definition scope_key (s : Scope) : string := match s with ScopeUser => "user" | ScopeSystem => "system" end.

(** [ManifestStatus::effective] and [healthy]. *)
Definition ms_effective (s : ManifestStatus) : SlotStatus := scoped_get (mst_manifest s) (mst_effective_scope s).
Definition ms_healthy (s : ManifestStatus) : bool :=
  match ss_state (ms_effective s) with RegOk => true | _ => false end.

Definition describe_location (s : SlotStatus) : string :=
  match ss_owner s with
  | Some owner => ss_location s +:+ " (reads " +:+ owner +:+ "'s)"
  | None => ss_location s
  end.

(** [From<&RegState> for RegistrationState] and [From<&ManifestStatus> for RegistrationRow]. *)
Definition registration_state (s : RegState) : RegistrationState :=
  match s with
  | RegMissing => RsMissing
  | RegOk => RsOk
  | RegStale why => RsStale why
  | RegForeign why => RsForeign why
  | RegUnreadable why => RsUnreadable why
  end.
Definition registration_row (s : ManifestStatus) : RegistrationRow :=
  mkRegRow (mst_key s) (mst_detected s) (registration_state (ss_state (ms_effective s))) (ss_location (ms_effective s)).

(** * Rows *)

Definition row (value : string) : DoctorRow := mkDoctorRow value [].
Definition row_detail (r : DoctorRow) (line : string) : DoctorRow := mkDoctorRow (dr_value r) (dr_details r ++ [line]).

Definition platform (r : Report) : string := rp_os r +:+ "/" +:+ rp_arch r.

Definition lock_row (r : Report) : DoctorRow :=
  match rp_lock r with
  | Err detail => row ("none (" +:+ detail +:+ ")")
  | Ok lock =>
      let here := row (lr_path lock) in
      match lr_state lock with
      | LkUnreadable detail => row_detail here ("present but unreadable: " +:+ detail)
      | LkPresent endpoint pid secret_len _ =>
          row_detail (row_detail (row_detail (row_detail here "present: yes") ("endpoint: " +:+ endpoint))
            ("pid:     " +:+ pretty pid)) ("secret:  <redacted, " +:+ pretty secret_len +:+ " chars>")
      | LkAbsent => row_detail here "present: no (MCP server not running?)"
      end
  end.

Definition server_row (r : Report) : DoctorRow :=
  row match rp_lock r with
      | Err _ => "not probed (no runtime dir)"
      | Ok lock =>
          match lr_state lock with
          | LkPresent _ _ _ true => "reachable (socket connect OK)"
          | LkPresent _ _ _ false => "not reachable"
          | LkAbsent | LkUnreadable _ => "not probed (no lock file)"
          end
      end.

Definition kill_row (r : Report) : DoctorRow :=
  row match rp_kill r with
      | Ok false => "off (bridge activity permitted)"
      | Ok true => "ENGAGED - all bridge activity is refused until `genkan unkill`"
      | Err e => "state UNREADABLE (" +:+ e
                 +:+ ") - every enforcement point is failing closed; see docs/troubleshooting.md for recovery"
      end.

Definition policy_row (r : Report) : DoctorRow :=
  match rp_policy r with
  | StatusNone _ => row PRE_CUTOVER_STORE_NOTE
  | StatusPresent _ revision signed overlay_active _ =>
      let signed := if signed then "signed (the extension verifies it against its pinned key, not here)" else "unsigned" in
      let here := row ("revision " +:+ pretty revision +:+ ", " +:+ signed) in
      if overlay_active then row_detail here "restriction overlay: active" else here
  | StatusError _ detail => row ("UNREADABLE (" +:+ detail +:+ ") - failing closed; see docs/troubleshooting.md")
  end.

(** [Report::manifest_ok]. *)
Definition manifest_ok (r : Report) : bool :=
  match rp_manifests r with
  | Ok list => existsb (fun m => mst_detected m && ms_healthy m) list
  | Err _ => false
  end.

(** * The verdict *)

Definition summary (r : Report) : string :=
  match rp_lock r with
  | Err _ => "runtime dir refused - see the lock file line for the cause"
  | Ok lock =>
      match rp_kill r with
      | Ok true => "kill switch ENGAGED - release it with `genkan unkill`"
      | Err _ => "kill state unreadable - failing closed; see docs/troubleshooting.md"
      | Ok false =>
          match status_store (rp_policy r) with
          | PssError => "policy store present but unreadable - failing closed; see docs/troubleshooting.md"
          | PssNone | PssPresent =>
              match lr_state lock with
              | LkUnreadable _ => "lock file present but unreadable - try restarting your MCP client"
              | LkAbsent => "server not running - is your MCP client started?"
              | LkPresent _ _ _ true =>
                  if manifest_ok r then "OK"
                  else "server reachable, but no detected browser has a healthy native-host registration - run `genkan doctor --fix`"
              | LkPresent _ _ _ false => "server not reachable - is your MCP client running?"
              end
          end
      end
  end.

Definition exit_code (r : Report) : Z := if String.eqb (summary r) "OK" then 0%Z else 1%Z.

(** [key_line] (enclave/cli.rs). *)
Definition KEY_LABEL : string := "com.vivswan.genkan.enclave.signing.v1".
Definition store_name (s : KeyStore) : string :=
  match s with CredentialStore => "the OS credential store" | KeyFile => "file (host_key.json)" end.
Definition key_line (r : EnclaveStatusReport) : string :=
  match r with
  | KeyPresent store _ _ => "present (" +:+ KEY_LABEL +:+ ", " +:+ store_name store +:+ ")"
  | KeyNone => "none (run `genkan pair`)"
  | KeyRejected detail => "REJECTED - " +:+ detail +:+ "; treat it as untrusted and run `genkan pair --reset` to replace it"
  | KeyError detail => "lookup failed: " +:+ detail
  end.

(** [Report::project]. *)
Definition project (r : Report) (key : EnclaveStatusReport) : HealthReport :=
  mkHealth (rp_version r) (platform r) (lock_row r) (server_row r) (kill_row r) (policy_row r)
    (key_line key) (summary r) (exit_code r =? 0)%Z.

(** * Gathering *)

Record DoctorEnv := mkDoctorEnv {
  de_env : Env;
  de_io : Io;
  de_socket_path_max : nat;
  de_temp_dir : string;
  de_uid : Z;
  de_lock_io : LockIo;
  (** [ipc::probe_endpoint]. *)
  de_probe : string -> bool;
  de_version : string;
  de_os : string;
  de_arch : string
}.

Section doctor.
Context `{PS : PathStyle} `{BL : Build} `{SD : StrDebug} `{JV : JsonValue}.
Context `{CO : PolicyCodec, DG : Digest, ST : !Sized Trust}.
Implicit Types (d : DoctorEnv) (m : Machine).

(** [SlotStatus::assess], [PointerStatus::assess]. *)
Definition slot_status m (l : Browsers.Lookup) : SlotStatus :=
  mkSlotStatus (assess m (lookup_registration l)) (registration_location (lookup_registration l))
    (browser_key <$> lookup_owner l).
Definition pointer_status m (p : ExtensionPointer) : PointerStatus :=
  mkPointerStatus (assess_pointer m p) (pointer_location p).

(** [BrowserEntry::installed]. *)
Definition installed m (e : BrowserEntry) : bool :=
  detected (is_dir m) e ScopeUser || detected (is_dir m) e ScopeSystem.

Definition manifest_status m (e : BrowserEntry) : ManifestStatus :=
  let manifest := be_manifest e in
  mkManifestStatus (browser_key (be_browser e)) (installed m e)
    (mkScoped (slot_status m (sc_user manifest)) (slot_status m (sc_system manifest)))
    (if lookup_hit m (lookup_registration (sc_user manifest)) then ScopeUser else ScopeSystem)
    ((fun p => mkScoped (pointer_status m (sc_user p)) (pointer_status m (sc_system p))) <$> be_pointer e).

Definition gather_manifests d m : result string (list ManifestStatus) :=
  dirs ← from_env (env_os (de_env d)) (env_var (de_env d)) ScopeUser;
  Ok (manifest_status m <$> resolve (env_os (de_env d)) dirs).

Definition lock_state d (s : Published) : LockState :=
  match lock_read (de_lock_io d) s with
  | Ok (Some lf) => LkPresent (endpoint lf) (lf_pid lf) (String.length (secret lf)) (de_probe d (endpoint lf))
  | Ok None => LkAbsent
  | Err e => LkUnreadable (io_msg e)
  end.

Definition gather_runtime_dir d m : Machine * result io_error string :=
  runtime_dir_ensure (de_io d) (env_os (de_env d)) (de_socket_path_max d) (env_var (de_env d)) (de_temp_dir d) (de_uid d) m.

(** The report, and the machine after [RuntimeDir::ensure]. *)
Definition gather d m (s : Published) : host (Report * Machine) :=
  let (m, dir) := gather_runtime_dir d m in
  let lock := map_err io_msg ((fun dir => mkLockReport (Browsers.join dir LOCK_FILENAME) (lock_state d s)) <$> dir) in
  let! kill := is_killed in
  let! policy := gather_policy_status in
  hret (mkReport REPORT_VERSION (de_version d) (de_os d) (de_arch d) lock (gather_manifests d m)
          (map_err io_msg kill) policy, m).

(** * Printing *)

Definition HEALTH_NOTE : string :=
  nl +:+ "note: the checks above cover the MCP server + native-host bridge only." +:+ nl +:+
  "They do NOT confirm the Chrome extension is loaded and connected. Verify" +:+ nl +:+
  "that via the Genkan toolbar icon (approve the target site) and" +:+ nl +:+
  "the extension's Service Worker console at chrome://extensions." +:+ nl.

Definition NO_POINTER_ON_LINUX : string :=
  "none on linux: Chrome would install the extension silently; add it from the Web Store".

Definition detected_word (b : bool) : string := if b then "detected" else "not detected".

Definition render_row (label : string) (r : DoctorRow) : string :=
  pad_right 17 label +:+ dr_value r +:+ nl +:+ foldr (fun detail out => "  " +:+ detail +:+ nl +:+ out) "" (dr_details r).

Definition render_cells (key detected scope what state location : string) : string :=
  "  " +:+ pad_right 9 key +:+ " " +:+ pad_right 13 detected +:+ " " +:+ pad_right 7 scope +:+ " " +:+ what +:+ " "
  +:+ pad_right 10 state +:+ " " +:+ location +:+ nl.

Definition render_manifest (s : ManifestStatus) : string :=
  let user := sc_user (mst_manifest s) in
  let system := sc_system (mst_manifest s) in
  render_cells (mst_key s) (detected_word (mst_detected s)) (scope_key ScopeUser) "manifest" (RegState_describe (ss_state user))
    (describe_location user) +:+
  render_cells "" "" (scope_key ScopeSystem) "manifest" (RegState_describe (ss_state system)) (describe_location system) +:+
  match mst_pointer s with
  | Some pointer =>
      render_cells "" "" (scope_key ScopeUser) "pointer " (PointerState_describe (pst_state (sc_user pointer)))
        (pst_location (sc_user pointer)) +:+
      render_cells "" "" (scope_key ScopeSystem) "pointer " (PointerState_describe (pst_state (sc_system pointer)))
        (pst_location (sc_system pointer))
  | None => render_cells "" "" "" "pointer " "n/a" NO_POINTER_ON_LINUX
  end.

Definition render (r : Report) : string :=
  "genkan doctor - v" +:+ rp_version r +:+ nl +:+
  "platform:        " +:+ platform r +:+ nl +:+
  render_row "lock file:" (lock_row r) +:+ render_row "mcp server:" (server_row r) +:+
  render_row "kill switch:" (kill_row r) +:+ render_row "policy baseline:" (policy_row r) +:+
  "native manifests: (host id " +:+ NATIVE_HOST_ID +:+ ")" +:+ nl +:+
  match rp_manifests r with
  | Err err => "  could not check: " +:+ err +:+ nl
  | Ok list => foldr (fun s out => render_manifest s +:+ out) "" list
  end +:+
  HEALTH_NOTE +:+ nl +:+ summary r +:+ nl.

(** * The command *)

Inductive DoctorCommand :=
| DcReport (json : bool)
| DcList
| DcPaths
| DcFix (targets : FixTargets) (scope : Scope).

(** A line of a command, or of the log under it. *)
Inductive Said := Console_ (c : Console) | Logged (o : Output).

Definition list_line m (e : BrowserEntry) (scope : Scope) : Console :=
  let slot := slot_status m (scoped_get (be_manifest e) scope) in
  let pointer := match be_pointer e with
                 | Some p => PointerState_describe (pst_state (pointer_status m (scoped_get p scope)))
                 | None => "n/a"
                 end in
  Println ("  " +:+ pad_right 9 (browser_key (be_browser e)) +:+ " " +:+ pad_right 13 (detected_word (installed m e)) +:+ " "
    +:+ pad_right 7 (scope_key scope) +:+ " manifest " +:+ pad_right 10 (RegState_describe (ss_state slot)) +:+ " pointer "
    +:+ pad_right 10 pointer +:+ " " +:+ describe_location slot).

Definition run_list d m : list Said * Z :=
  match from_env (env_os (de_env d)) (env_var (de_env d)) ScopeUser with
  | Err e => ([Logged (Install.Error e)], 1%Z)
  | Ok dirs =>
      (Console_ <$> Println ("known browsers (host id " +:+ NATIVE_HOST_ID +:+ "):")
         :: mjoin ((fun e => [list_line m e ScopeUser; list_line m e ScopeSystem]) <$> resolve (env_os (de_env d)) dirs), 0%Z)
  end.

Definition paths_report d : result io_error string :=
  dir ← runtime_dir_resolve (env_os (de_env d)) (de_socket_path_max d) (env_var (de_env d)) (de_temp_dir d) (de_uid d);
  Ok ("runtime dir:     " +:+ dir +:+ nl +:+ "lock file:       " +:+ Browsers.join dir LOCK_FILENAME +:+ nl).

(** [doctor::run]; [report_json] is serde over the report. *)
Definition run_doctor (report_json : Report -> result string string) d (command : DoctorCommand) m (s : Published) :
    host (list Said * Z * Machine) :=
  match command with
  | DcList => hret (run_list d m, m)
  | DcPaths =>
      hret (match paths_report d with
            | Ok text => ([Console_ (PrintText text)], 0%Z, m)
            | Err e => ([Console_ (Eprintln ("doctor: " +:+ io_msg e))], 1%Z, m)
            end)
  | DcFix targets scope =>
      let '(m, out, code) := run_fix (de_env d) (de_io d) targets scope m in hret (Logged <$> out, code, m)
  | DcReport json =>
      let! r := gather d m s in
      let '(report, m) := r in
      hret (if json then
              match report_json report with
              | Ok line => ([Console_ (Println line)], exit_code report, m)
              | Err e => ([Console_ (Eprintln ("doctor: " +:+ e))], 1%Z, m)
              end
            else ([Console_ (PrintText (render report))], exit_code report, m))
  end.

(** * The verdict, in terms of the machine *)

(** The browser acts on a registration that works: on the per-user one when its lookup
    lands there, else on the machine-wide one. *)
Definition browser_served m (e : BrowserEntry) : Prop :=
  let user := lookup_registration (sc_user (be_manifest e)) in
  let system := lookup_registration (sc_system (be_manifest e)) in
  if lookup_hit m user then assess m user = RegOk else assess m system = RegOk.

Lemma summary_OK r :
  exit_code r = 0%Z <->
  exists lock endpoint pid len, rp_lock r = Ok lock /\ lr_state lock = LkPresent endpoint pid len true /\
    rp_kill r = Ok false /\ status_store (rp_policy r) <> PssError /\ manifest_ok r = true.
Proof.
  unfold exit_code, summary. split.
  - destruct (rp_lock r) as [lock|]; [|done]. destruct (rp_kill r) as [[]|]; [done| |done].
    destruct (status_store (rp_policy r)); [| |done];
      (destruct (lr_state lock) as [| |ep pid len []] eqn:E; [done|done| |done]; destruct (manifest_ok r); [|done];
       intros _; by exists lock, ep, pid, len).
  - intros (lock & ep & pid & len & -> & -> & -> & Hp & ->). by destruct (status_store (rp_policy r)).
Qed.

Lemma manifest_ok_spec d m r :
  rp_manifests r = gather_manifests d m ->
  manifest_ok r = true <->
  exists dirs b, from_env (env_os (de_env d)) (env_var (de_env d)) ScopeUser = Ok dirs /\
    installed m (entry (env_os (de_env d)) dirs b) = true /\ browser_served m (entry (env_os (de_env d)) dirs b).
Proof.
  intros Hr. unfold manifest_ok. rewrite Hr. unfold gather_manifests.
  destruct (from_env _ _ ScopeUser) as [dirs|er]; cbn [mbind result_mbind]; [|split; [done|intros (? & ? & [=] & _)]].
  assert (forall e, ms_healthy (manifest_status m e) = true <-> browser_served m e) as Hs.
  { intros e. unfold ms_healthy, ms_effective, browser_served, manifest_status. cbn [mst_manifest mst_effective_scope].
    destruct (lookup_hit _ _); cbn [scoped_get sc_user sc_system slot_status ss_state];
      destruct (assess m _); split; congruence. }
  rewrite existsb_exists. split.
  - intros (st & Hin & Hb). apply andb_true_iff in Hb as [Hd Hh]. apply list_elem_of_In in Hin.
    apply list_elem_of_fmap in Hin as (e & -> & Hin). apply list_elem_of_fmap in Hin as (b & -> & _).
    exists dirs, b. split_and!; [done|done|by apply Hs].
  - intros (dirs' & b & Hd & Hi & Hb). apply Hs in Hb. rename Hd into Hd'. assert (dirs' = dirs) as -> by congruence.
    exists (manifest_status m (entry (env_os (de_env d)) dirs b)). split; [|by rewrite Hb; cbn [mst_detected manifest_status]; rewrite Hi].
    apply list_elem_of_In, list_elem_of_fmap_2, list_elem_of_fmap_2. unfold ALL_BROWSERS. destruct b; set_solver.
Qed.

(** C21: The doctor's verdict is exact. It gathers without moving a record, and exits 0 exactly
    when the bridge can serve: the runtime directory is there and secured, the lock file
    parses and its endpoint answers, the trust record reads with the kill switch off, the
    policy the gate loads reads or is absent, and some browser on this machine acts on a
    registration of ours that launches an existing host. Every other state exits 1. *)
Theorem doctor_verdict_is_exact d m s e w r m' w' :
  gather d m s e w = ((r, m'), w') ->
  w' = w /\ (exit_code r = 0%Z \/ exit_code r = 1%Z) /\
  (exit_code r = 0%Z <->
   (exists dir lf, gather_runtime_dir d m = (m', Ok dir) /\ lock_read (de_lock_io d) s = Ok (Some lf) /\
      de_probe d (endpoint lf) = true) /\
   (is_killed e w).1 = Ok false /\
   (exists policy, (load_effective e w).1 = Ok policy) /\
   exists dirs b, from_env (env_os (de_env d)) (env_var (de_env d)) ScopeUser = Ok dirs /\
     installed m' (entry (env_os (de_env d)) dirs b) = true /\
     browser_served m' (entry (env_os (de_env d)) dirs b)).
Proof.
  unfold gather. destruct (gather_runtime_dir d m) as [m1 dir] eqn:Ed. unfold hbind at 1.
  destruct (is_killed e w) as [kill w1] eqn:Ek. assert (w1 = w) as -> by by injection Ek.
  unfold hbind. pose proof (status_is_what_the_gate_enforces e w) as Hg.
  destruct (gather_policy_status e w) as [policy w2] eqn:Ep. assert (w2 = w) as -> by by injection Ep.
  unfold hret. intros [= <- <- <-]. split; [done|]. split; [unfold exit_code; destruct (String.eqb _ _); [by left|by right]|].
  rewrite summary_OK. match goal with |- context [manifest_ok ?r] => pose proof (manifest_ok_spec d m1 r eq_refl) as Hm end.
  cbn [rp_lock rp_kill rp_policy fst] in *. rewrite Hg. split.
  - intros (lock & ep & pid & len & Hl & Hs & Hk & Hp & Hb%Hm). destruct dir as [dir|]; [|done].
    cbn [fmap result_fmap map_err] in Hl. injection Hl as <-. cbn [lr_state] in Hs. unfold lock_state in Hs.
    destruct (lock_read (de_lock_io d) s) as [[lf|]|] eqn:El; [|done..]. injection Hs as _ _ _ Hr.
    destruct kill as [k|]; [|done]. cbn [map_err] in Hk. injection Hk as ->. split_and!; [by exists dir, lf|done| |done].
    destruct policy; [by eexists..|done].
  - intros ((dir' & lf & [= ->] & El & Hr) & -> & [p Hp] & Hb%Hm). cbn [fmap result_fmap map_err].
    eexists _, (endpoint lf), (lf_pid lf), (String.length (secret lf)). split_and!; [done| |done| |done].
    + cbn [lr_state]. unfold lock_state. by rewrite El, Hr.
    + by destruct policy.
Qed.

Lemma ensure_private_dir_equiv io dir m : (ensure_private_dir io dir m).1 ≡ m.
Proof.
  pose proof (ensure_install_dir_equiv io RsUser dir m) as H. unfold ensure_install_dir in H.
  destruct (ensure_private_dir io dir m) as [m1 [[]|e]]; exact H.
Qed.

Lemma gather_runtime_dir_equiv d m : (gather_runtime_dir d m).1 ≡ m.
Proof.
  unfold gather_runtime_dir, runtime_dir_ensure. destruct (runtime_dir_resolve _ _ _ _ _) as [dir|]; [|done].
  pose proof (create_dir_all_equiv (de_io d) dir m) as H1. pose proof (ensure_private_dir_equiv (de_io d) dir m) as H2.
  destruct windows; [destruct (create_dir_all _ _ _) as [m1 [[]|]]|destruct (ensure_private_dir _ _ _) as [m1 [[]|]]]; done.
Qed.

(** Diagnosis repairs nothing. Every form of [doctor] but [--fix] leaves the host's records
    as they were, every file of the machine and every registry key; only the runtime
    directory may be created or tightened, by the report. *)
Theorem diagnosis_changes_no_file report_json d c m s e w out code m' w' :
  (forall targets scope, c <> DcFix targets scope) ->
  run_doctor report_json d c m s e w = ((out, code, m'), w') -> m' ≡ m /\ w' = w.
Proof.
  intros Hc. destruct c as [json| | |targets scope]; cbn [run_doctor]; [|by intros [= _ <- <-]| |by destruct (Hc targets scope)].
  - unfold hbind at 1. destruct (gather d m s e w) as [[r m1] w1] eqn:Eg. intros H.
    assert (m' = m1 /\ w' = w1) as [-> ->] by (destruct json; [destruct (report_json r)|]; by injection H).
    pose proof (gather_runtime_dir_equiv d m) as He. unfold gather in Eg. destruct (gather_runtime_dir d m) as [m2 dir].
    unfold hbind, hret in Eg. by injection Eg as _ <- <-.
  - intros H. by destruct (paths_report d); injection H as _ _ <- <-.
Qed.

(** A repair is what the doctor sees. Where manifests are files, a browser whose target
    [register] reported written is served from then on: its own lookup lands on the
    per-user manifest, and that manifest launches an existing host. *)
Theorem repaired_browser_is_served `{JO : !JsonValueOk} R io e m m' lines dir :
  lookup_registration (sc_user (be_manifest e)) = ManifestDir dir ->
  target_distinct R (for_browser e ScopeUser) ->
  register R io (for_browser e ScopeUser) m = (m', Ok lines) ->
  browser_served m' e /\ ms_healthy (manifest_status m' e) = true.
Proof.
  intros He Hd H. assert (t_registration (for_browser e ScopeUser) = ManifestDir dir) as Ht.
  { unfold for_browser. cbn [scoped_get]. revert He. destruct (sc_user (be_manifest e)); cbn; congruence. }
  apply registered_assess in H; [|done|rewrite Ht; done]. rewrite Ht in H. pose proof (assess_ok_hit _ _ H) as Hh.
  unfold browser_served, ms_healthy, ms_effective, manifest_status. cbn [mst_manifest mst_effective_scope].
  rewrite He, Hh. cbn [scoped_get sc_user slot_status ss_state]. by rewrite He, H.
Qed.
End doctor.

Module DoctorExample.
Import RegistrationExample.
#[export] Existing Instances unix_style unix_build quoted toy_json toy_json_ok.
#[export] Existing Instances PolicyExample.digest PolicyExample.trust_sized.
(** The Mac of two browsers, repaired, with a server published. *)
Definition d : DoctorEnv :=
  mkDoctorEnv mac_env no_faults 103 "/tmp" 501 LockExample.quiet (fun _ => true) "1.0.0" "macos" "aarch64".
Definition m : Machine := (fix_ mac_env no_faults FixDetected ScopeUser Refuse two_browsers).1.
Definition report : Report := (gather d m LockExample.files calm PolicyExample.w0).1.1.
Definition m' : Machine := (gather d m LockExample.files calm PolicyExample.w0).1.2.

Lemma gathered : gather d m LockExample.files calm PolicyExample.w0 = ((report, m'), PolicyExample.w0).
Proof. vm_compute. reflexivity. Qed.

Definition chrome : BrowserEntry := entry MacOs mac_dirs Chrome.
Definition one_target : Machine * result string (list string) :=
  register unix_registrar no_faults (for_browser chrome ScopeUser) two_browsers.
Lemma one_registered : exists lines, one_target = (one_target.1, Ok lines).
Proof. eexists. vm_compute. reflexivity. Qed.
End DoctorExample.

Section witnesses.
Import DoctorExample.

Lemma doctor_verdict_is_exact_witness :
  exit_code report = 0%Z /\
  exists dirs b, from_env MacOs (env_var mac_env) ScopeUser = Ok dirs /\ browser_served m' (entry MacOs dirs b).
Proof.
  destruct (doctor_verdict_is_exact d m LockExample.files calm PolicyExample.w0 report m' PolicyExample.w0 gathered) as (_ & _ & H).
  assert (exit_code report = 0%Z) as H0 by (vm_compute; reflexivity). split; [exact H0|].
  apply H in H0 as (_ & _ & _ & dirs & b & H1 & _ & H2). exists dirs, b. split; [exact H1|exact H2].
Defined.

Lemma diagnosis_changes_no_file_witness :
  exists out code m1, run_doctor (fun _ => Ok "{}") d (DcReport true) m LockExample.files calm PolicyExample.w0
    = ((out, code, m1), PolicyExample.w0) /\ m1 ≡ m.
Proof.
  exists [Console_ (Println "{}")], 0%Z, m'. assert (run_doctor (fun _ => Ok "{}") d (DcReport true) m LockExample.files calm PolicyExample.w0
    = (([Console_ (Println "{}")], 0%Z, m'), PolicyExample.w0)) as H by (vm_compute; reflexivity).
  split; [exact H|]. apply (diagnosis_changes_no_file (fun _ => Ok "{}") d (DcReport true) m LockExample.files calm PolicyExample.w0
    [Console_ (Println "{}")] 0%Z m' PolicyExample.w0); [intros targets scope; discriminate|exact H].
Defined.

Lemma repaired_browser_is_served_witness : browser_served one_target.1 chrome.
Proof.
  destruct one_registered as [lines H].
  refine (proj1 (repaired_browser_is_served RegistrationExample.unix_registrar no_faults chrome two_browsers one_target.1 lines
    "/home/u/Library/Application Support/Google/Chrome/NativeMessagingHosts" _ _ H)).
  - vm_compute. reflexivity.
  - split; [vm_compute; discriminate|]. split; [|intros hive key path He; discriminate He].
    assert (t_pointers (for_browser chrome ScopeUser) = [PointerFile
      "/home/u/Library/Application Support/Google/Chrome/External Extensions/mkjjlmjbcljpcfkfadfmhblmmddkdihf.json"]) as E
      by (vm_compute; reflexivity).
    intros path Hp. rewrite E in Hp. apply list_elem_of_singleton in Hp. injection Hp as ->. split; vm_compute; discriminate.
Defined.

(** A report creates the runtime directory where there was none. *)
Example report_creates_the_runtime_dir :
  files two_browsers !! "/home/u/Library/Application Support/genkan" = None /\
  is_dir (gather d two_browsers (mkPublished None None) calm PolicyExample.w0).1.2
    "/home/u/Library/Application Support/genkan" = true.
Proof. vm_compute. done. Qed.
End witnesses.
