(* ===== verification/Flags.v ===== *)
(** Flags: the argv boundary (src/src/packages/core/src/cli.rs): the typed commands, the
    flags each is made from, and the value parsers.

    clap reads argv and is a parameter: what it hands over is a record of flags per
    subcommand, and the constraints the source declares to it (conflicts, groups,
    requirements) are the predicates [*_accepted]. *)
From S2P Require Import Prelude Json RuntimeRecord Policy Identity Trust PolicyRecord World Lang Control Browsers Machine Registration Install PolicyPlan PolicyCli Doctor.
From Stdlib Require Import Ascii.
From stdpp Require Import base list gmap sets strings pretty.

(** * Commands *)

Inductive LangCommand := LangShow | LangSet (value : UiLang).
Inductive RevokeTarget := RevokeBrowserTarget (label : BrowserLabel) | RevokeAll.
Inductive AnchorSpec := SpecHash (h : HashDigest) | SpecSigner (s : SignerId) | SpecThisParent.
Record PairClientArgs := mkPairClient { pca_name : ClientName; pca_anchor : AnchorSpec }.
Record UninstallArgs := mkUninstall { ua_manifest_dirs : list string; ua_scope : Scope }.

Inductive Command :=
| CmdMcpServer
| CmdNativeHost (label : option BrowserLabel)
| CmdDoctor (command : DoctorCommand)
| CmdPair (reset file_store : bool)
| CmdRevoke (target : RevokeTarget)
| CmdEnclaveStatus (json : bool)
| CmdPairClient (client : PairClientArgs)
| CmdRevokeClient (name : string)
| CmdListClients
| CmdUninstall (args : UninstallArgs)
| CmdKill
| CmdUnkill
| CmdAudit (limit : Z)
| CmdPolicy (command : PolicyCommand)
| CmdLang (command : LangCommand).

(** * Flags to commands *)

Inductive LangAction := ActShow | ActSet (value : UiLang).

Definition lang_command (action : option LangAction) : LangCommand :=
  match action with None | Some ActShow => LangShow | Some (ActSet value) => LangSet value end.

Record DoctorFlags := mkDoctorFlags {
  df_fix : bool;
  df_list : bool;
  df_paths : bool;
  df_json : bool;
  df_browser : list Browser;
  df_all : bool;
  df_manifest_dir : list string;
  df_system : bool
}.

Definition scope_flag (system : bool) : Scope := if system then ScopeSystem else ScopeUser.

Definition is_nil {A} (l : list A) : bool := match l with [] => true | _ => false end.

Definition doctor_command (f : DoctorFlags) : DoctorCommand :=
  if df_list f then DcList
  else if df_paths f then DcPaths
  else if negb (df_fix f) then DcReport (df_json f)
  else
    DcFix (if df_all f then FixAll
           else if negb (is_nil (df_browser f)) then FixBrowsers (unique_browsers [] (df_browser f))
           else if negb (is_nil (df_manifest_dir f)) then FixManifestDirs (df_manifest_dir f)
           else FixDetected)
      (scope_flag (df_system f)).

Record RevokeFlags := mkRevokeFlags { rf_browser : option BrowserLabel; rf_all : bool }.

Definition revoke_target (f : RevokeFlags) : RevokeTarget :=
  match rf_browser f with Some browser => RevokeBrowserTarget browser | None => RevokeAll end.

Record PairClientFlags := mkPairFlags {
  pf_name : ClientName; pf_hash : option HashDigest; pf_signer : option SignerId; pf_this_parent : bool }.

Definition pair_client_args (f : PairClientFlags) : PairClientArgs :=
  mkPairClient (pf_name f)
    match pf_hash f, pf_signer f with
    | Some hash, _ => SpecHash hash
    | None, Some signer => SpecSigner signer
    | None, None => SpecThisParent
    end.

Record UninstallFlags := mkUninstallFlags { uf_manifest_dir : list string; uf_system : bool }.

Definition uninstall_args (f : UninstallFlags) : UninstallArgs :=
  mkUninstall (uf_manifest_dir f) (scope_flag (uf_system f)).

(** ** The constraints declared to clap *)

Definition given (bs : list bool) : nat := length (List.filter id bs).

(** [conflicts_with_all], [requires = "fix"] and the ["target"] group. *)
Definition doctor_accepted (f : DoctorFlags) : bool :=
  negb (df_fix f && (df_list f || df_paths f || df_json f))
  && negb (df_list f && (df_paths f || df_json f))
  && negb (df_paths f && df_json f)
  && (given [negb (is_nil (df_browser f)); df_all f; negb (is_nil (df_manifest_dir f))] <=? 1)%nat
  && ((given [negb (is_nil (df_browser f)); df_all f; negb (is_nil (df_manifest_dir f))] =? 0)%nat || df_fix f)
  && (negb (df_system f) || df_fix f && is_nil (df_manifest_dir f)).

Definition revoke_accepted (f : RevokeFlags) : bool := (given [is_some (rf_browser f); rf_all f] =? 1)%nat.
Definition pair_accepted (f : PairClientFlags) : bool :=
  (given [is_some (pf_hash f); is_some (pf_signer f); pf_this_parent f] =? 1)%nat.
Definition uninstall_accepted (f : UninstallFlags) : bool := negb (uf_system f && negb (is_nil (uf_manifest_dir f))).

(** * Value parsers *)

Definition ui_lang (value : string) : result string UiLang :=
  ok_or (UiLang_parse value) ("takes one of " +:+ str_join ", " UI_LANGUAGES).

Definition browser_key_arg (key : string) : result string Browser :=
  ok_or (browser_from_key (trim key)) ("unknown browser key; known: " +:+ known_keys).

Definition absolute_dir `{PS : PathStyle} (value : string) : result string string :=
  if is_absolute value then Ok value else Err "must be an absolute path".

Definition browser_label (value : string) : result string BrowserLabel :=
  ok_or (BrowserLabel_parse value) "want 1-32 chars of [A-Za-z0-9._-], starting alphanumeric".

Definition hash_digest (value : string) : result string HashDigest := HashDigest_try_from (to_ascii_lowercase value).

Definition on_off (value : string) : result string bool :=
  if String.eqb value "on" then Ok true
  else if String.eqb value "off" then Ok false
  else Err "takes on|off".

(** [str::parse::<u64>]: an optional plus sign, then decimal digits that fit. *)
Definition U64_MAX : Z := 18446744073709551615.

Definition digit_value (c : ascii) : option Z :=
  let n := Z.of_N (N_of_ascii c) in
  if ((48 <=? n) && (n <=? 57))%Z then Some (n - 48)%Z else None.

Fixpoint parse_digits (acc : Z) (s : string) : option Z :=
  match s with
  | "" => Some acc
  | String c s =>
      d ← digit_value c;
      let acc := (acc * 10 + d)%Z in
      if (acc <=? U64_MAX)%Z then parse_digits acc s else None
  end.

Definition parse_u64 (s : string) : option Z :=
  let digits := match s with String "+"%char s => s | _ => s end in
  if str_is_empty digits then None else parse_digits 0 digits.

(** The text of an out-of-bounds window ([Display for MsOutOfBounds]) is [ms_bounds]. *)
Definition ms (ms_bounds : string) (value : string) : result string Ms :=
  n ← ok_or (parse_u64 value) "takes a non-negative integer (milliseconds)";
  map_err (fun _ => ms_bounds) (Ms_try_from n).

(** * The policy edit flags *)

Definition edit_flag (field : PolicyField) : string :=
  match field with
  | CdpMode => "cdp-mode"
  | FileUploadEnabled => "file-upload"
  | HandleDialogEnabled => "handle-dialog"
  | PageEvalEnabled => "page-eval"
  | ConfirmHighRiskClick => "confirm-high-risk-click"
  | ConfirmPageEval => "confirm-page-eval"
  | PresenceConfirm => "presence-confirm"
  | ConfirmTabClose => "confirm-tab-close"
  | WarnPreciseSnapshot => "warn-precise-snapshot"
  | EvalMask => "eval-mask"
  | HostReverifyMs => "host-reverify-ms"
  | ConfirmGraceMs => "confirm-grace-ms"
  | ClickToastTimeoutMs => "click-toast-timeout-ms"
  | EvalToastTimeoutMs => "eval-toast-timeout-ms"
  | DisabledTools => "disabled-tools"
  end.

(** [edit_arg]'s value parser: the text of a flag as the value its field takes. *)
Definition edit_value (ms_bounds : string) (field : PolicyField) (text : string) : result string FieldVal :=
  match kind field with
  | KBool _ => VBool <$> on_off text
  | KMs _ => VMs <$> ms ms_bounds text
  | KToolSet _ => Ok (VTools (parse_tool_list text))
  end.

(** One step of [from_arg_matches]: the field's parsed flag, where there is one. *)
Definition set_edit (overlay : PolicyOverlay) (field : PolicyField) (value : option FieldVal) : PolicyOverlay :=
  match kind field, value with
  | KBool f, Some (VBool b) => oset_bool overlay f (Some b)
  | KBool f, _ => oset_bool overlay f None
  | KMs f, Some (VMs n) => oset_ms overlay f (Some n)
  | KMs f, _ => oset_ms overlay f None
  | KToolSet f, Some (VTools l) => oset_tools overlay f (Some l)
  | KToolSet f, _ => oset_tools overlay f None
  end.

Definition overlay_from_matches (matches : PolicyField -> option FieldVal) : PolicyOverlay :=
  foldl (fun overlay field => set_edit overlay field (matches field)) overlay_default ALL.

(** The flags of a command line, each parsed by its field's parser, all or nothing: [text]
    gives what was written after [edit_flag field], and the required group refuses none. *)
Fixpoint parse_edits (ms_bounds : string) (text : PolicyField -> option string) (fields : list PolicyField) :
    result string (PolicyField -> option FieldVal) :=
  match fields with
  | [] => Ok (fun _ => None)
  | field :: fields =>
      rest ← parse_edits ms_bounds text fields;
      match text field with
      | None => Ok rest
      | Some t =>
          v ← edit_value ms_bounds field t;
          Ok (fun f => if decide (f = field) then Some v else rest f)
      end
  end.

Definition NO_EDITS : string := "the following required arguments were not provided".

Definition policy_overlay (ms_bounds : string) (text : PolicyField -> option string) : result string PolicyOverlay :=
  if forallb (fun f => negb (is_some (text f))) ALL then Err NO_EDITS
  else overlay_from_matches <$> parse_edits ms_bounds text ALL.

(** * Modes *)

Definition is_native_host_mode `{BL : Build} (args : list string) : bool :=
  match args with
  | _ :: arg :: _ => String.eqb arg "--native-host" || windows && is_some (Prelude.strip_prefix "chrome-extension://" arg)
  | _ => false
  end.

Section parse.
Context `{BL : Build} {E : Type}.
(** The two clap parsers: of the native host's argv, and of the command line. *)
Context (host_args : list string -> result E (option BrowserLabel)).
Context (cli : list string -> result E (option Command)).

Definition parse (args : list string) : result E Command :=
  if is_native_host_mode args then CmdNativeHost <$> host_args args
  else default CmdMcpServer <$> cli args.
End parse.

(** * Every accepted command line is its command *)

(** The flags that spell a doctor command. *)
Definition doctor_flags (c : DoctorCommand) : DoctorFlags :=
  match c with
  | DcList => mkDoctorFlags false true false false [] false [] false
  | DcPaths => mkDoctorFlags false false true false [] false [] false
  | DcReport json => mkDoctorFlags false false false json [] false [] false
  | DcFix targets scope =>
      let system := match scope with ScopeSystem => true | ScopeUser => false end in
      match targets with
      | FixDetected => mkDoctorFlags true false false false [] false [] system
      | FixAll => mkDoctorFlags true false false false [] true [] system
      | FixBrowsers bs => mkDoctorFlags true false false false bs false [] system
      | FixManifestDirs dirs => mkDoctorFlags true false false false [] false dirs system
      end
  end.

(** What a typed command never is: a repair of no browser or no directory, of a browser
    twice, or of explicit directories machine-wide. *)
Definition doctor_wellformed (c : DoctorCommand) : Prop :=
  match c with
  | DcFix (FixBrowsers bs) _ => bs <> [] /\ NoDup bs
  | DcFix (FixManifestDirs dirs) scope => dirs <> [] /\ scope = ScopeUser
  | _ => True
  end.

Lemma unique_browsers_fresh seen l :
  NoDup (unique_browsers seen l) /\ (forall b, b ∈ unique_browsers seen l -> b ∉ seen).
Proof.
  revert seen. induction l as [|b l IH]; intros seen; cbn [unique_browsers]; [split; [constructor|set_solver]|].
  destruct (bool_decide (b ∈ seen)) eqn:E; [by apply IH|]. apply bool_decide_eq_false in E.
  destruct (IH (b :: seen)) as [H1 H2]. split; [constructor; [|done]; intros Hb; apply H2 in Hb; set_solver|].
  intros b' [->|Hb]%elem_of_cons; [done|]. apply H2 in Hb. set_solver.
Qed.

(** The two spellings of [doctor] agree. Each well-formed command has flags clap accepts,
    which read back as it; and flags clap accepts read as a well-formed command whose flags
    they are, browsers named twice aside: no accepted flag is dropped or reinterpreted. *)
Theorem doctor_flags_roundtrip (c : DoctorCommand) (f : DoctorFlags) :
  (doctor_wellformed c -> doctor_accepted (doctor_flags c) = true /\ doctor_command (doctor_flags c) = c) /\
  (doctor_accepted f = true -> doctor_wellformed (doctor_command f) /\
     (NoDup (df_browser f) -> doctor_flags (doctor_command f) = f)).
Proof.
  split.
  - destruct c as [json| | |[| |bs|dirs] scope]; cbn [doctor_wellformed]; try (by destruct json); try done;
      try (by destruct scope).
    + intros [Hne Hn]. destruct bs as [|b bs]; [done|]. destruct scope; (split; [done|]);
        unfold doctor_command; cbn [doctor_flags df_list df_paths df_fix df_all df_browser is_nil negb df_system];
        by rewrite unique_browsers_NoDup by (done || set_solver).
    + intros [Hne ->]. by destruct dirs.
  - destruct f as [fix_ list_ paths json browser all dirs system]. unfold doctor_accepted, doctor_command.
    cbn [df_fix df_list df_paths df_json df_browser df_all df_manifest_dir df_system].
    destruct browser as [|b bs], dirs as [|dir dirs], fix_, list_, paths, json, all, system; cbn [is_nil negb];
      intros H; try (exfalso; vm_compute in H; discriminate H); (split; [|intros Hn; cbn -[unique_browsers];
        rewrite ?unique_browsers_NoDup by (done || set_solver); done]);
      cbn -[unique_browsers]; try done;
      (split; [cbn; rewrite bool_decide_eq_false_2 by set_solver; done|apply unique_browsers_fresh]).
Qed.

(** * Decimals *)

Lemma digit_value_char d : (d < 10)%N -> digit_value (pretty_N_char d) = Some (Z.of_N d).
Proof.
  intros Hd. assert (d = 0 \/ d = 1 \/ d = 2 \/ d = 3 \/ d = 4 \/ d = 5 \/ d = 6 \/ d = 7 \/ d = 8 \/ d = 9)%N as H by lia.
  repeat destruct H as [->|H]; [reflexivity..|]. subst. reflexivity.
Qed.

Lemma parse_digits_go x s :
  (Z.of_N x <= U64_MAX)%Z -> parse_digits 0 (pretty_N_go x s) = parse_digits (Z.of_N x) s.
Proof.
  revert s. induction (N.lt_wf_0 x) as [x _ IH]; intros s Hx.
  destruct (decide (x = 0)%N) as [->|Hn]; [by rewrite pretty_N_go_0|].
  rewrite pretty_N_go_step by lia. pose proof (N.div_lt x 10 ltac:(lia) ltac:(lia)) as Hlt.
  pose proof (N.mod_lt x 10 ltac:(done)) as Hm. pose proof (N.div_mod x 10 ltac:(done)) as Hdm.
  rewrite IH by lia. cbn [parse_digits]. rewrite digit_value_char by done. cbn [mbind option_bind].
  replace (Z.of_N (x `div` 10) * 10 + Z.of_N (x `mod` 10))%Z with (Z.of_N x) by lia.
  by apply Z.leb_le in Hx as ->.
Qed.

Lemma pretty_N_go_head x s :
  (0 < x)%N -> exists d rest, (d < 10)%N /\ pretty_N_go x s = String (pretty_N_char d) rest.
Proof.
  revert s. induction (N.lt_wf_0 x) as [x _ IH]; intros s Hx. rewrite pretty_N_go_step by done.
  pose proof (N.mod_lt x 10 ltac:(done)) as Hm.
  destruct (decide (x `div` 10 = 0)%N) as [->|Hn]; [rewrite pretty_N_go_0; eauto|].
  apply IH; [by apply N.div_lt|]. by apply N.neq_0_lt_0.
Qed.

Lemma parse_u64_pretty n : (0 <= n <= U64_MAX)%Z -> parse_u64 (pretty n) = Some n.
Proof.
  intros [Hlo Hhi]. assert (pretty n = pretty (Z.to_N n)) as -> by by destruct n.
  unfold pretty, pretty_N. destruct (decide (Z.to_N n = 0%N)) as [E|Hn].
  { assert (n = 0%Z) as -> by lia. reflexivity. }
  destruct (pretty_N_go_head (Z.to_N n) "") as (d & rest & Hd & E); [lia|].
  assert (parse_u64 (pretty_N_go (Z.to_N n) "") = parse_digits 0 (pretty_N_go (Z.to_N n) "")) as ->.
  { rewrite E. unfold parse_u64.
    assert (d = 0 \/ d = 1 \/ d = 2 \/ d = 3 \/ d = 4 \/ d = 5 \/ d = 6 \/ d = 7 \/ d = 8 \/ d = 9)%N as H by lia.
    repeat destruct H as [->|H]; [reflexivity..|]. subst. reflexivity. }
  rewrite parse_digits_go by lia. cbn [parse_digits]. by rewrite Z2N.id.
Qed.

(** * The policy flags read back *)

(** How an overlay is typed: one flag per field it names. *)
Definition edit_text (v : FieldVal) : string :=
  match v with
  | VBool b => if b then "on" else "off"
  | VMs n => pretty n
  | VTools l => str_join "," l
  end.

Definition typed (o : PolicyOverlay) (field : PolicyField) : option string := edit_text <$> overlay_get o field.

(** The windows are in bounds and the tool names have no comma or surrounding blanks, as the
    store requires of both. *)
Definition typable (o : PolicyOverlay) : Prop :=
  overlay_ok o /\
  forall f l, oget_tools o f = Some l -> forall t, t ∈ l -> str_is_empty t = false /\ str_contains "," t = false /\ trim t = t.

Lemma edit_value_text mb o field v :
  typable o -> overlay_get o field = Some v -> edit_value mb field (edit_text v) = Ok v.
Proof.
  intros [Hok Ht]. unfold overlay_get, edit_value. destruct (kind field) as [b|f|f].
  - destruct (oget_bool o b) as [[]|]; intros [= <-]; reflexivity.
  - destruct (oget_ms o f) as [n|] eqn:E; intros [= <-]. specialize (Hok f n E). unfold ms. cbn [edit_text].
    rewrite parse_u64_pretty by (unfold U64_MAX; unfold JS_SAFE_INT_MAX in Hok; lia). cbn [ok_or mbind result_mbind].
    unfold Ms_try_from. destruct (Z.ltb_spec JS_SAFE_INT_MAX n); [lia|done].
  - destruct (oget_tools o f) as [l|] eqn:E; intros [= <-]. cbn [edit_text]. rewrite parse_tool_list_join; [done|].
    intros t Hin. by apply (Ht f l E).
Qed.

Lemma parse_edits_typed mb o fields :
  typable o -> exists m, parse_edits mb (typed o) fields = Ok m /\
    forall f, m f = if decide (f ∈ fields) then overlay_get o f else None.
Proof.
  intros Ho. induction fields as [|field fields (m & Hm & IH)]; cbn [parse_edits].
  - eexists. split; [done|]. intros f. rewrite decide_False; [done|apply not_elem_of_nil].
  - rewrite Hm. cbn [mbind result_mbind]. unfold typed at 1. destruct (overlay_get o field) as [v|] eqn:E; cbn [fmap option_fmap option_map].
    + rewrite (edit_value_text mb o field v Ho E). cbn [mbind result_mbind]. eexists. split; [done|]. intros f. cbv beta.
      destruct (decide (f = field)) as [->|Hne]; [rewrite decide_True by set_solver; by rewrite E|]. rewrite IH.
      destruct (decide (f ∈ fields)); [rewrite decide_True by set_solver|rewrite decide_False by set_solver]; done.
    + eexists. split; [done|]. intros f. rewrite IH. destruct (decide (f = field)) as [->|Hne].
      * rewrite E, (decide_True (P := field ∈ field :: fields)) by set_solver. by case_decide.
      * destruct (decide (f ∈ fields)); [rewrite decide_True by set_solver|rewrite decide_False by set_solver]; done.
Qed.

Lemma set_edit_get o g v f :
  (forall x, v = Some x -> match kind g, x with KBool _, VBool _ | KMs _, VMs _ | KToolSet _, VTools _ => True | _, _ => False end) ->
  overlay_get (set_edit o g v) f = if decide (f = g) then v else overlay_get o f.
Proof.
  intros Hv. destruct v as [x|]; [specialize (Hv x eq_refl)|];
    destruct o, g, f; try destruct x; try done; reflexivity.
Qed.

Lemma overlay_from_matches_get matches f :
  (forall g x, matches g = Some x -> match kind g, x with KBool _, VBool _ | KMs _, VMs _ | KToolSet _, VTools _ => True | _, _ => False end) ->
  overlay_get (overlay_from_matches matches) f = matches f.
Proof.
  intros Hm. unfold overlay_from_matches.
  assert (forall l o, overlay_get (foldl (fun overlay field => set_edit overlay field (matches field)) o l) f
    = if decide (f ∈ l) then matches f else overlay_get o f) as H.
  { induction l as [|g l IH]; intros o; cbn [foldl]; [by rewrite decide_False by apply not_elem_of_nil|].
    rewrite IH, set_edit_get by apply Hm. destruct (decide (f = g)) as [->|Hne].
    - rewrite (decide_True (P := g ∈ g :: l)) by set_solver. by case_decide.
    - destruct (decide (f ∈ l)); [rewrite decide_True by set_solver|rewrite decide_False by set_solver]; done. }
  rewrite H, decide_True by apply elem_of_ALL. done.
Qed.

Lemma overlay_get_kind o g x :
  overlay_get o g = Some x -> match kind g, x with KBool _, VBool _ | KMs _, VMs _ | KToolSet _, VTools _ => True | _, _ => False end.
Proof.
  unfold overlay_get. destruct (kind g) as [b|f|f]; [destruct (oget_bool o b)|destruct (oget_ms o f)|destruct (oget_tools o f)];
    by intros [= <-].
Qed.

(** The policy flags say what they mean. An overlay that names at least one field, typed one
    flag per field, parses back as itself, through every value parser and the fold over the
    catalogue; the flags of two fields are never the same word; and a command line that
    names no field is refused. *)
Theorem policy_flags_roundtrip ms_bounds (o : PolicyOverlay) :
  typable o ->
  (touched_fields o <> [] -> policy_overlay ms_bounds (typed o) = Ok o) /\
  (touched_fields o = [] -> policy_overlay ms_bounds (typed o) = Err NO_EDITS) /\
  (forall f g, edit_flag f = edit_flag g -> f = g).
Proof.
  intros Ho. assert (forall f, is_some (typed o f) = overlay_has o f) as Hs.
  { intros f. unfold typed, overlay_get, overlay_has. destruct (kind f) as [b|m|s];
      [by destruct (oget_bool o b)|by destruct (oget_ms o m)|by destruct (oget_tools o s)]. }
  assert (forallb (fun f => negb (is_some (typed o f))) ALL = is_nil (touched_fields o)) as Hn.
  { unfold touched_fields. generalize ALL. intros l. induction l as [|f l IH]; [done|]. cbn [forallb List.filter].
    rewrite Hs. by destruct (overlay_has o f). }
  split_and!.
  - intros Ht. unfold policy_overlay. rewrite Hn. destruct (touched_fields o); [done|]. cbn [is_nil].
    destruct (parse_edits_typed ms_bounds o ALL Ho) as (m & -> & Hm). cbn [fmap result_fmap]. f_equal.
    apply overlay_ext. intros f. rewrite overlay_from_matches_get; [by rewrite Hm, decide_True by apply elem_of_ALL|].
    intros g x. rewrite Hm, decide_True by apply elem_of_ALL. apply overlay_get_kind.
  - intros Ht. unfold policy_overlay. by rewrite Hn, Ht.
  - intros f g H. destruct f, g; try reflexivity; discriminate H.
Qed.

Lemma policy_flags_roundtrip_witness :
  let o := oset_ms (oset_tools overlay_default TF_DisabledTools (Some ["tab_close"; "page_eval"])) MF_ConfirmGraceMs (Some 1500%Z) in
  policy_overlay "too large" (typed o) = Ok o /\ typed o DisabledTools = Some "tab_close,page_eval".
Proof.
  intros o. split; [|reflexivity]. refine (proj1 (policy_flags_roundtrip "too large" o _) _); [|discriminate].
  split.
  - intros f m H. destruct f; try discriminate H. injection H as <-. vm_compute. split; discriminate.
  - intros f l H t Ht. destruct f. injection H as <-. repeat (apply elem_of_cons in Ht as [->|Ht]; [vm_compute; done|]).
    by apply not_elem_of_nil in Ht.
Defined.

Lemma doctor_flags_roundtrip_witness :
  doctor_command (mkDoctorFlags true false false false [Brave; Chrome; Brave] false [] false)
  = DcFix (FixBrowsers [Brave; Chrome]) ScopeUser /\
  doctor_wellformed (DcFix (FixBrowsers [Brave; Chrome]) ScopeUser).
Proof.
  split; [reflexivity|].
  apply (proj2 (doctor_flags_roundtrip DcList (mkDoctorFlags true false false false [Brave; Chrome; Brave] false [] false))).
  reflexivity.
Defined.
