(* ===== verification/Exchange.v ===== *)
(** Exchange: the host side of one browser connection's presence exchange
    (src/src/packages/core/src/native_host/presence.rs): the single pending slot,
    the requests that open it, the answers that close it and the act an attested
    answer runs; with [restrict_replies] and [policy_current_reply] of
    native_host.rs, which its replies use.

    Randomness and the monotonic clock are arguments: [nonce] is what
    [Nonce::fresh] returns in that step, [now] an [Instant] in nanoseconds. *)
From S2P Require Import Prelude Json RuntimeRecord Policy Identity Trust PolicyRecord PrefixCodec World Messages PolicyStore PolicyPlan Gating Wire AuthData WebAuthn EnrollStore Presence Allowlist Frames.
From stdpp Require Import base list sets strings pretty.

(** * The slot *)

Inductive GrantLane :=
| GlSet
| GlRollback (revision : Z).

Definition lane_result (l : GrantLane) : WriteLane :=
  match l with GlSet => LanePolicySet | GlRollback _ => LanePolicyRollback end.

(** [GrantLane::action_text]. *)
Definition action_text (l : GrantLane) (g : Grant) : string :=
  match l with
  | GlSet => "set policy: " +:+ grant_summary g
  | GlRollback revision =>
      "roll policy back to revision " +:+ pretty revision +:+ ": " +:+ grant_summary g
  end.

Inductive PendingAct :=
| PaKillRelease
| PaEnrollBegin
| PaPageOp (op : PageOp) (origin : string)
| PaPolicyGrant (prepared : PreparedGrant) (lane : GrantLane)
| PaClientPair (name : ClientName) (anchor : Anchor).

Inductive Pending :=
| PendEnrollment (statement : Statement) (authority : EnrollmentAuthority)
| PendPresence (request : PresenceRequest) (act : PendingAct)
| PendApproved (auth : PresenceAttestation) (since : Z).

Record Exchange := mkExchange { ex_label : BrowserLabel; ex_pending : option Pending }.

Definition Exchange_new (label : BrowserLabel) : Exchange := mkExchange label None.

Definition with_slot (x : Exchange) (p : option Pending) : Exchange := mkExchange x.(ex_label) p.

Definition APPROVAL_TTL : Z := 60 * 1000000000.

Definition summary_too_long (what : string) : string :=
  "the " +:+ what +:+ " summary exceeds the " +:+ pretty MAX_ACTION_LEN
  +:+ "-byte bound a presence prompt can show".

(** [PendingAct::audit_detail]. *)
Definition act_audit_detail (a : PendingAct) : string :=
  match a with
  | PaKillRelease => "act=kill_release"
  | PaEnrollBegin => "act=enroll_begin"
  | PaPageOp op origin => "act=" +:+ PageOp_as_str op +:+ "; origin=" +:+ origin
  | PaPolicyGrant _ GlSet => "act=policy_set"
  | PaPolicyGrant _ (GlRollback _) => "act=policy_rollback"
  | PaClientPair _ _ => "act=client_pair"
  end.

Definition pair_action_text (name : ClientName) (anchor : Anchor) : string :=
  "pair trusted client '" +:+ name +:+ "' on " +:+ anchor_display anchor.

(** * Replies *)

Definition enroll_refused (r : Reason) : HostReply := enroll_into_frame (EnrollRefused (reason_display r)).
Definition presence_refused (r : Reason) : HostReply :=
  presence_into_frame (PresenceRefused (reason_display r)).
Definition revoke_refused (r : Reason) : RevokeOutcome := RevokeRefused (reason_display r).
Definition kill_unreadable (error : string) : HostReply := kill_into_frame (KillUnreadable error).
Definition refused_write (lane : WriteLane) (error : string) : HostReply :=
  write_into_frame (VerdictRefused error) lane.

(** [grant_action]. *)
Definition grant_action (lane : GrantLane) (g : Grant) : result string string :=
  _ ← map_err (fun m => write_error_display (Invalid m))
        (validate_disabled_tools (pv_disabled_tools (g_values g)));
  ok_or (Action_parse (action_text lane g))
    (write_error_display (Invalid (summary_too_long "change"))).

Section exchange.
Context `{CO : PolicyCodec, DG : Digest, CR : Crypto, CL : CoseLib, SD : StrDebug, OP : OriginParser}.
Context `{ST : !Sized Trust, SP : !Sized PolicyStore, SH : !Sized PolicyHistory}.

Abbreviation step_ := (host (list HostReply * Exchange)) (only parsing).

Definition CredentialId_from_base64url (s : string) : result CredentialIdError CredentialId :=
  b ← ok_or (b64url_decode s) CidEncoding; CredentialId_parse b.

(** [enrollments]: re-read per step. *)
Definition enrollments_now : host (result io_error (list Enrollment)) :=
  let! t := current_trust in hret (enrollments <$> t).

(** [policy_current_reply]. *)
Definition policy_current_reply : host HostReply :=
  let! loaded := load_policy in
  hret (policy_into_frame
    match loaded with
    | Ok (Some store) =>
        match effective store with
        | Ok _ => PolicyPresent (ps_baseline_b64 store) (ps_sig_b64 store) (ps_overlay store)
        | Err e => PolicyUnavailable ("policy store damaged: " +:+ io_msg e)
        end
    | Ok None => PolicyUnavailable "no policy baseline on this host"
    | Err e => PolicyUnavailable ("policy store unreadable: " +:+ io_msg e)
    end).

(** [restrict_replies]. *)
Definition restrict_replies (r : result PolicyWriteError unit) (lane : WriteLane) :
    host (list HostReply) :=
  match r with
  | Ok _ => let! current := policy_current_reply in hret [write_into_frame Applied lane; current]
  | Err e => hret [refused_write lane (write_error_display e)]
  end.

(** * Opening *)

Definition await_presence (x : Exchange) (request : PresenceRequest) (act : PendingAct) :
    list HostReply * Exchange :=
  let s := pq_statement request in
  ([PresenceRequestFrame (challenge_base64url s) (st_nonce s) (st_action s)
      (b64url_encode <$> pq_hint request)],
   with_slot x (Some (PendPresence request act))).

Definition start_enrollment (x : Exchange) (enrolled : list Enrollment)
    (authority : EnrollmentAuthority) (nonce : result io_error string) :
    list HostReply * Exchange :=
  match nonce with
  | Err e => ([enroll_refused (detailed RcNonce (io_msg e))], x)
  | Ok nonce =>
      let statement := mkStatement DomEnrollment (ex_label x) Action_enroll nonce in
      ([EnrollOptions (challenge_base64url statement) nonce
          (b64url_encode (as_bytes (ex_label x))) (ex_label x)
          ((fun e => b64url_encode (en_id e)) <$>
             List.filter (fun e => String.eqb (en_label e) (ex_label x)) enrolled)],
       with_slot x (Some (PendEnrollment statement authority)))
  end.

(** [Exchange::enroll_begin]. *)
Definition enroll_begin (x : Exchange) (now : Z) (nonce : result io_error string) : step_ :=
  let approval := match ex_pending x with
                  | Some (PendApproved auth since) =>
                      if (now - since <=? APPROVAL_TTL)%Z then Some auth else None
                  | _ => None
                  end in
  let x := with_slot x None in
  let! read := enrollments_now in
  hret match read with
  | Err e => ([enroll_refused (detailed RcStoreError (io_msg e))], x)
  | Ok enrolled =>
      if (length enrolled =? 0)%nat then start_enrollment x enrolled FirstUse nonce
      else
        match approval with
        | Some auth => start_enrollment x enrolled (Approved auth) nonce
        | None =>
            match for_enrollment (ex_label x) enrolled nonce with
            | Ok request =>
                let '(replies, x) := await_presence x request PaEnrollBegin in
                (replies ++ [enroll_refused (reason_of_code RcPresenceRequired)], x)
            | Err e => ([enroll_refused (detailed RcNonce (io_msg e))], x)
            end
        end
  end.

(** [Exchange::kill_release]. *)
Definition kill_release (x : Exchange) (nonce : result io_error string) : step_ :=
  let x := with_slot x None in
  let refused_early (sentence : string) (e : io_error) : step_ :=
    let! _ := audit_refused_release SurfExtension (presence_error_display (PeStore e)) in
    hret ([kill_unreadable sentence], x) in
  let! read := enrollments_now in
  match read with
  | Err e => refused_early (record_failure_sentence e) e
  | Ok enrolled =>
      match for_browser (ex_label x) Action_release_kill_switch enrolled nonce with
      | Ok request => hret (await_presence x request PaKillRelease)
      | Err e => refused_early (io_msg e) e
      end
  end.

(** [Exchange::presence_begin]: a refusal leaves the slot as it was. *)
Definition presence_begin (x : Exchange) (action origin : string) (nonce : result io_error string) :
    step_ :=
  let refused (reason : Reason) : step_ :=
    let! _ := audit_record (audit_of PresenceAssert SurfExtension "refused"
                (Some ("act=presence_begin; " +:+ reason_display reason))) in
    hret ([presence_refused reason], x) in
  match PageOp_parse action with
  | None => refused (reason_of_code RcInvalidAction)
  | Some op =>
      match Origin_parse origin with
      | None => refused (reason_of_code RcInvalidOrigin)
      | Some origin =>
          let! read := enrollments_now in
          match read with
          | Err e => refused (detailed RcStoreError (io_msg e))
          | Ok enrolled =>
              match for_browser (ex_label x) (Action_page_op op origin) enrolled nonce with
              | Ok request => hret (await_presence x request (PaPageOp op origin))
              | Err e => refused (detailed RcNonce (io_msg e))
              end
          end
      end
  end.

(** [Exchange::begin_grant]. *)
Definition begin_grant (x : Exchange) (g : Grant) (lane : GrantLane) (action : string)
    (over : option StoreObservation) (nonce : result io_error string) : step_ :=
  let result_ := lane_result lane in
  let! prepared := prepare_grant (g_values g) (g_touched g) SurfExtension in
  let prepared := prepared ← prepared;
                  match over with Some over => planned_over prepared over | None => Ok prepared end in
  match prepared with
  | Err e => hret ([refused_write result_ (write_error_display e)], x)
  | Ok prepared =>
      let refused_early (e : io_error) : step_ :=
        let e := presence_error_display (PeStore e) in
        let! _ := audit_refused prepared ("presence: " +:+ e) in
        hret ([refused_write result_ (write_error_display (WriteRefused e))], x) in
      let! read := enrollments_now in
      match read with
      | Err e => refused_early e
      | Ok enrolled =>
          match for_browser (ex_label x) action enrolled nonce with
          | Ok request => hret (await_presence x request (PaPolicyGrant prepared lane))
          | Err e => refused_early e
          end
      end
  end.

(** [Exchange::policy_set]. *)
Definition policy_set (x : Exchange) (overlay : PolicyOverlay) (nonce : result io_error string) :
    step_ :=
  let x := with_slot x None in
  let lane := GlSet in
  let preview := mkGrant (fold values_default overlay) (touched_fields overlay) in
  match grant_action lane preview with
  | Err error => hret ([refused_write (lane_result lane) error], x)
  | Ok action =>
      let! planned := plan_grant overlay in
      match planned with
      | Ok g => begin_grant x g lane action None nonce
      | Err error => hret ([refused_write (lane_result lane) error], x)
      end
  end.

(** [Exchange::policy_rollback]. *)
Definition policy_rollback (x : Exchange) (revision : Z) (entry : option string)
    (nonce : result io_error string) : step_ :=
  let x := with_slot x None in
  let lane := LanePolicyRollback in
  let! inputs := rollback_inputs revision entry in
  match inputs with
  | Err error => hret ([refused_write lane error], x)
  | Ok inputs =>
      match inputs_plan inputs with
      | NoChange =>
          let! r := confirm_unmoved (ri_over inputs) in
          hret (match r with
                | Ok _ => [write_into_frame Applied lane]
                | Err e => [refused_write lane (write_error_display e)]
                end, x)
      | Tighten overlay _ =>
          let! r := restrict_planned overlay (ri_over inputs) SurfExtension in
          let! replies := restrict_replies r lane in
          hret (replies, x)
      | Relax g =>
          let lane := GlRollback revision in
          match grant_action lane g with
          | Ok action => begin_grant x g lane action (Some (ri_over inputs)) nonce
          | Err error => hret ([refused_write (lane_result lane) error], x)
          end
      end
  end.

(** [Exchange::client_pair]. *)
Definition client_pair (x : Exchange) (name : ClientName) (anchor : Anchor)
    (nonce : result io_error string) : step_ :=
  let x := with_slot x None in
  let lane := LaneClientPair in
  match Action_parse (pair_action_text name anchor) with
  | None => hret ([refused_write lane (pair_client_error_display (PcInvalid (summary_too_long "pairing")))], x)
  | Some action =>
      let refused_early (e : io_error) : step_ :=
        let e := PeStore e in
        let! _ := audit_pair_refused name SurfExtension e in
        hret ([refused_write lane (pair_client_error_display (PcPresence e))], x) in
      let! read := enrollments_now in
      match read with
      | Err e => refused_early e
      | Ok enrolled =>
          match for_browser (ex_label x) action enrolled nonce with
          | Ok request => hret (await_presence x request (PaClientPair name anchor))
          | Err e => refused_early e
          end
      end
  end.

(** * Closing *)

(** [PendingAct::audit_refusal]. *)
Definition act_audit_refusal (a : PendingAct) (e : PresenceError) : host unit :=
  match a with
  | PaKillRelease => audit_refused_release SurfExtension (presence_error_display e)
  | PaEnrollBegin | PaPageOp _ _ => hret tt
  | PaPolicyGrant prepared _ => audit_refused prepared ("presence: " +:+ presence_error_display e)
  | PaClientPair name _ => audit_pair_refused name SurfExtension e
  end.

(** The act an attestation authorizes: its replies and the slot it leaves. *)
Definition run_act (act : PendingAct) (auth : PresenceAttestation) (now : Z) :
    host (list HostReply * option Pending) :=
  match act with
  | PaKillRelease =>
      let! r := release SurfExtension auth in
      hret ([kill_into_frame match r with
                             | Ok _ => KillRead false
                             | Err e => KillUnreadable (record_failure_sentence e)
                             end], None)
  | PaEnrollBegin => hret ([], Some (PendApproved auth now))
  | PaPageOp _ _ => hret ([], None)
  | PaPolicyGrant prepared lane =>
      let! r := commit prepared auth in
      match r with
      | Ok _ =>
          let! current := policy_current_reply in
          hret ([write_into_frame Applied (lane_result lane); current], None)
      | Err e => hret ([refused_write (lane_result lane) (write_error_display e)], None)
      end
  | PaClientPair name anchor =>
      let! r := pair_client_with_presence name anchor SurfExtension (fun _ => hret (Ok auth)) in
      hret ([match r with
             | Ok _ => write_into_frame Applied LaneClientPair
             | Err e => refused_write LaneClientPair (pair_client_error_display e)
             end], None)
  end.

(** [Exchange::settle], on an exchange whose slot was taken. *)
Definition settle (x : Exchange) (act : PendingAct)
    (outcome : result PresenceError PresenceAttestation) (now : Z) : step_ :=
  match outcome with
  | Err e =>
      let! _ := audit_record (audit_of PresenceAssert SurfExtension "refused"
                  (Some (act_audit_detail act +:+ "; " +:+ presence_error_display e))) in
      let! _ := act_audit_refusal act e in
      hret ([presence_refused (reason_of_code (presence_error_code e))], x)
  | Ok auth =>
      let! _ := audit_record (audit_of PresenceAssert SurfExtension "ok"
                  (Some (act_audit_detail act +:+ "; auth=" +:+ audit_label (att_path auth)))) in
      let! ran := run_act act auth now in
      let '(replies, slot) := ran in
      hret (presence_into_frame PresenceApproved :: replies, with_slot x slot)
  end.

(** [Exchange::presence_assert]. *)
Definition presence_assert (x : Exchange) (credential_id : string)
    (assertion : result Refusal Assertion) (now : Z) : step_ :=
  match ex_pending x with
  | Some (PendPresence request act) =>
      let x := with_slot x None in
      let! outcome :=
        (let? id := hret (map_err (fun _ => PeRefused (RfEncoding "credential_id"))
                     (CredentialId_from_base64url credential_id)) in
         let? assertion := hret (map_err PeRefused assertion) in
         let? enrolled := hmap_err PeStore enrollments_now in
         assert_ request enrolled id assertion) in
      settle x act outcome now
  | _ => hret ([presence_refused (reason_of_code RcNoRequestOutstanding)], with_slot x None)
  end.

(** [Exchange::presence_confirm]. *)
Definition presence_confirm (x : Exchange) (nonce : string) (now : Z) : step_ :=
  match ex_pending x with
  | Some (PendPresence request act) =>
      let x := with_slot x None in
      let! outcome :=
        (if String.eqb (st_nonce (pq_statement request)) nonce then
           let? enrolled := hmap_err PeStore enrollments_now in
           hret (confirm_window request enrolled)
         else hret (Err RequestMismatch)) in
      settle x act outcome now
  | _ => hret ([presence_refused (reason_of_code RcNoRequestOutstanding)], with_slot x None)
  end.

(** [Exchange::browser_revoke]. *)
Definition browser_revoke (x : Exchange) : step_ :=
  let! r := revoke_browser (ex_label x) SurfExtension in
  hret match r with
  | Ok _ => ([revoke_into_frame Forgotten], with_slot x None)
  | Err (RbNotEnrolled _) => ([revoke_into_frame (revoke_refused (reason_of_code RcNotEnrolled))], x)
  | Err (RbIo e) => ([revoke_into_frame (revoke_refused (detailed RcStoreError (io_msg e)))], x)
  end.

(** [Exchange::enroll_finish]. *)
Definition enroll_finish (x : Exchange) (registration : result Refusal Registration) : step_ :=
  match ex_pending x with
  | Some (PendEnrollment statement authority) =>
      let x := with_slot x None in
      let enroll_audit (outcome detail : string) : host unit :=
        audit_record (audit_of AuditEnroll SurfExtension outcome
          (Some ("browser=" +:+ ex_label x +:+ "; " +:+ detail))) in
      match (registration ← registration; parse_registration statement RpId_pinned registration) with
      | Err refusal =>
          let! _ := enroll_audit "refused" (refusal_display refusal) in
          hret ([enroll_refused (reason_of_code (refusal_code refusal))], x)
      | Ok registered =>
          let id := cr_id (rd_credential registered) in
          let fingerprint := audit_label (PathWebAuthn id) in
          let authorized_by := match authority with
                               | FirstUse => "first_use"
                               | Approved auth => audit_label (att_path auth)
                               end in
          let! r := record (ex_label x) (rd_credential registered) authority in
          match r with
          | Ok _ =>
              let! _ := enroll_audit "ok"
                          ("credential=" +:+ fingerprint +:+ "; authorized_by=" +:+ authorized_by) in
              hret ([enroll_into_frame (Enrolled (b64url_encode id))], x)
          | Err e =>
              if bool_decide (io_kind e = AlreadyExists) then
                let! _ := enroll_audit "refused" (refusal_code_display RcMachineAlreadyEnrolled) in
                hret ([enroll_refused (reason_of_code RcMachineAlreadyEnrolled)], x)
              else
                let reason := detailed RcStoreError (io_msg e) in
                let! _ := enroll_audit "refused" (reason_display reason) in
                hret ([enroll_refused reason], x)
          end
      end
  | _ => hret ([enroll_refused (reason_of_code RcNoEnrollmentOutstanding)], with_slot x None)
  end.
End exchange.

(** * The exchange as a state machine *)

(** The frames the dispatcher hands to the exchange. *)
Inductive ExRequest :=
| ExEnrollBegin
| ExEnrollFinish (registration : result Refusal Registration)
| ExKillRelease
| ExPresenceBegin (action origin : string)
| ExPolicySet (overlay : PolicyOverlay)
| ExPolicyRollback (revision : Z) (entry : option string)
| ExClientPair (name : ClientName) (anchor : Anchor)
| ExPresenceAssert (credential_id : string) (assertion : result Refusal Assertion)
| ExPresenceConfirm (nonce : string)
| ExBrowserRevoke.

Section machine.
Context `{CO : PolicyCodec, DG : Digest, CR : Crypto, CL : CoseLib, SD : StrDebug, OP : OriginParser}.
Context `{ST : !Sized Trust, SP : !Sized PolicyStore, SH : !Sized PolicyHistory}.

(** One request: [now] and [nonce] are the clock and the randomness it would read. *)
Definition handle_request (x : Exchange) (q : ExRequest) (now : Z) (nonce : result io_error string) :
    host (list HostReply * Exchange) :=
  match q with
  | ExEnrollBegin => enroll_begin x now nonce
  | ExEnrollFinish registration => enroll_finish x registration
  | ExKillRelease => kill_release x nonce
  | ExPresenceBegin action origin => presence_begin x action origin nonce
  | ExPolicySet overlay => policy_set x overlay nonce
  | ExPolicyRollback revision entry => policy_rollback x revision entry nonce
  | ExClientPair name anchor => client_pair x name anchor nonce
  | ExPresenceAssert id assertion => presence_assert x id assertion now
  | ExPresenceConfirm n => presence_confirm x n now
  | ExBrowserRevoke => browser_revoke x
  end.

(** A connection's exchange over a world other processes also write. *)
Inductive reachable (label : BrowserLabel) : Exchange -> world -> Prop :=
| reach_new w : reachable label (Exchange_new label) w
| reach_step x q now nonce e w replies x' w' :
    reachable label x w -> handle_request x q now nonce e w = ((replies, x'), w') ->
    reachable label x' w'
| reach_elsewhere x w w' : reachable label x w -> reachable label x w'.

(** What an outstanding request asks the user to approve is the act it holds. *)
Definition names_act (label : BrowserLabel) (req : PresenceRequest) (act : PendingAct) : Prop :=
  let s := pq_statement req in
  st_domain s = DomPresence /\ st_browser_label s = label /\
  match act with
  | PaKillRelease =>
      st_action s = Action_release_kill_switch /\ pq_answerers req = AnsBrowser label
  | PaEnrollBegin =>
      st_action s = "enroll a credential for browser '" +:+ label +:+ "'" /\
      pq_answerers req = AnsAnyEnrolled
  | PaPageOp op origin =>
      st_action s = Action_page_op op origin /\ pq_answerers req = AnsBrowser label
  | PaPolicyGrant prepared lane =>
      pq_answerers req = AnsBrowser label /\
      exists doc, pg_doc_bytes prepared = doc_to_bytes doc /\ doc_validate doc = Ok tt /\
        pd_touched doc = pg_touched prepared /\
        st_action s = action_text lane (mkGrant (doc_values doc) (pd_touched doc))
  | PaClientPair name anchor =>
      st_action s = pair_action_text name anchor /\ pq_answerers req = AnsBrowser label
  end.

Definition slot_ok (label : BrowserLabel) (p : option Pending) : Prop :=
  match p with
  | Some (PendPresence req act) => names_act label req act
  | Some (PendEnrollment s _) =>
      st_domain s = DomEnrollment /\ st_browser_label s = label /\ st_action s = Action_enroll
  | Some (PendApproved _ _) | None => True
  end.

Definition exchange_ok (label : BrowserLabel) (x : Exchange) : Prop :=
  ex_label x = label /\ slot_ok label (ex_pending x).

(** * Lemmas *)

Lemma same_records_refl w : same_records w w.
Proof. done. Qed.

Lemma same_records_audit r w w' : same_records w w' -> same_records w (add_audit r w').
Proof. done. Qed.

Lemma same_records_trans w1 w2 w3 : same_records w1 w2 -> same_records w2 w3 -> same_records w1 w3.
Proof. unfold same_records. intuition congruence. Qed.

(** Quoting the touched fields reads nothing but the overlay. *)
Lemma summary_is_the_overlays b b' o :
  grant_summary (mkGrant (fold b o) (touched_fields o)) =
  grant_summary (mkGrant (fold b' o) (touched_fields o)).
Proof.
  unfold grant_summary, summarize. cbn [g_values g_touched]. f_equal.
  apply list_fmap_ext. intros i f Hi. apply list_elem_of_lookup_2 in Hi.
  unfold touched_fields in Hi. apply elem_of_bfilter in Hi as [_ Hh].
  rewrite overlay_has_get in Hh. apply bool_decide_eq_true in Hh as [v Hv].
  assert (field_get (fold b o) f = field_get (fold b' o) f) as Hf by (by rewrite !fold_get, Hv).
  unfold summarize_field. unfold field_get in Hf.
  destruct (kind f); injection Hf as ->; reflexivity.
Qed.

(** What every opening leaves: the records alone, and a slot that names its act. *)
Definition opens (x : Exchange) (w : world) (r : list HostReply * Exchange) (w' : world) : Prop :=
  same_records w w' /\ (exchange_ok (ex_label x) x -> exchange_ok (ex_label x) r.2).

Lemma opens_refused x w replies w' :
  same_records w w' -> opens x w (replies, with_slot x None) w'.
Proof. done. Qed.

Lemma opens_kept x w replies w' : same_records w w' -> opens x w (replies, x) w'.
Proof. done. Qed.

Lemma opens_awaiting x y w act req :
  ex_label y = ex_label x -> names_act (ex_label x) req act -> opens x w (await_presence y req act) w.
Proof. intros Hl H. split; [done|]. intros _. split; [done|]. exact H. Qed.

Lemma enrollments_now_wp (Q : result io_error (list Enrollment) -> world -> Prop) e w :
  Q (enrollments <$> trust_current (w_trust w)) w -> wp enrollments_now Q e w.
Proof. done. Qed.

Lemma for_browser_Ok label action enrolled nonce req :
  for_browser label action enrolled nonce = Ok req ->
  exists n, nonce = Ok n /\ req = mkRequest (mkStatement DomPresence label action n) (AnsBrowser label)
    (en_id <$> List.filter (admits (AnsBrowser label)) enrolled).
Proof. unfold for_browser, PresenceRequest_new. destruct nonce as [n|]; [|done]. intros [= <-]. eauto. Qed.

(** One browser's request for an act its action text names. *)
Lemma browser_request_names label action enrolled nonce req act :
  for_browser label action enrolled nonce = Ok req ->
  match act with
  | PaKillRelease => action = Action_release_kill_switch
  | PaEnrollBegin => False
  | PaPageOp op origin => action = Action_page_op op origin
  | PaPolicyGrant prepared lane =>
      exists doc, pg_doc_bytes prepared = doc_to_bytes doc /\ doc_validate doc = Ok tt /\
        pd_touched doc = pg_touched prepared /\
        action = action_text lane (mkGrant (doc_values doc) (pd_touched doc))
  | PaClientPair name anchor => action = pair_action_text name anchor
  end ->
  names_act label req act.
Proof.
  intros (n & -> & ->)%for_browser_Ok. unfold names_act. cbn [pq_statement pq_answerers st_domain
    st_browser_label st_action]. by destruct act.
Qed.

Lemma kill_release_opens x nonce e w : wp (kill_release x nonce) (opens x w) e w.
Proof.
  unfold kill_release. apply wp_bind, enrollments_now_wp.
  destruct (enrollments <$> _) as [enrolled|err].
  - destruct (for_browser _ _ _ _) as [req|err] eqn:Er.
    + apply wp_ret, opens_awaiting; [done|]. by eapply browser_request_names.
    + apply wp_bind, wp_audit, wp_ret, opens_refused. done.
  - apply wp_bind, wp_audit, wp_ret, opens_refused. done.
Qed.

Lemma presence_begin_opens x action origin nonce e w :
  wp (presence_begin x action origin nonce) (opens x w) e w.
Proof.
  unfold presence_begin. destruct (PageOp_parse action) as [op|];
    [|by apply wp_bind, wp_audit, wp_ret, opens_kept].
  destruct (Origin_parse origin) as [o|]; [|by apply wp_bind, wp_audit, wp_ret, opens_kept].
  apply wp_bind, enrollments_now_wp.
  destruct (enrollments <$> _) as [enrolled|err]; [|by apply wp_bind, wp_audit, wp_ret, opens_kept].
  destruct (for_browser _ _ _ _) as [req|err] eqn:Er;
    [|by apply wp_bind, wp_audit, wp_ret, opens_kept].
  apply wp_ret, opens_awaiting; [done|]. by eapply browser_request_names.
Qed.

Lemma client_pair_opens x name anchor nonce e w :
  wp (client_pair x name anchor nonce) (opens x w) e w.
Proof.
  unfold client_pair. destruct (Action_parse _) as [action|] eqn:Ea;
    [|by apply wp_ret, opens_refused].
  apply wp_bind, enrollments_now_wp.
  destruct (enrollments <$> _) as [enrolled|err]; [|by apply wp_bind, wp_audit, wp_ret, opens_refused].
  destruct (for_browser _ _ _ _) as [req|err] eqn:Er;
    [|by apply wp_bind, wp_audit, wp_ret, opens_refused].
  apply wp_ret, opens_awaiting; [done|]. eapply browser_request_names; [done|].
  unfold Action_parse in Ea. destruct (is_ok _); [|done]. by injection Ea as <-.
Qed.

Lemma start_enrollment_opens x y enrolled authority nonce w :
  ex_label y = ex_label x -> ex_pending y = None ->
  opens x w (start_enrollment y enrolled authority nonce) w.
Proof.
  intros Hl Hp. split; [done|]. intros _. unfold start_enrollment, exchange_ok.
  destruct nonce as [n|]; cbn; by rewrite ?Hp.
Qed.

Lemma enroll_begin_opens x now nonce e w : wp (enroll_begin x now nonce) (opens x w) e w.
Proof.
  unfold enroll_begin. apply wp_bind, enrollments_now_wp, wp_ret.
  generalize (match ex_pending x with
              | Some (PendApproved auth since) =>
                  if (now - since <=? APPROVAL_TTL)%Z then Some auth else None
              | _ => None end).
  intros approval. destruct (enrollments <$> _) as [enrolled|err]; [|by apply opens_refused].
  destruct (_ =? 0)%nat; [by apply start_enrollment_opens|].
  destruct approval; [by apply start_enrollment_opens|].
  destruct (for_enrollment _ _ _) as [req|err] eqn:Er; [|by apply opens_refused].
  split; [done|]. intros _. split; [done|].
  unfold for_enrollment, Action_parse, PresenceRequest_new in Er.
  destruct (is_ok _); [|done]. destruct nonce as [n|]; [|done]. by injection Er as <-.
Qed.

Lemma grant_action_Ok lane g action :
  grant_action lane g = Ok action -> action = action_text lane g.
Proof.
  unfold grant_action. destruct (validate_disabled_tools _) as [[]|]; cbn [map_err mbind result_mbind];
    [|done].
  unfold Action_parse. destruct (is_ok _); [|done]. by intros [= <-].
Qed.

Lemma rollback_inputs_quiet revision entry e w r w' :
  rollback_inputs revision entry e w = (r, w') -> w' = w.
Proof.
  unfold rollback_inputs, with_runtime_lock, load_history, load_policy, asks, hbind, hret.
  destruct (e_lock e); by intros [= _ <-].
Qed.

(** A grant the prepared bytes of which say what the action text says. *)
Lemma begin_grant_opens x g lane action over nonce e w :
  ex_pending x = None -> action_text lane g = action ->
  wp (begin_grant x g lane action over nonce) (opens x w) e w.
Proof.
  intros Hx Hact. unfold begin_grant. apply wp_bind, wp_intro. intros prepared w1 Hp.
  destruct prepared as [p|err]; cbn [mbind result_mbind].
  - apply prepare_grant_Ok in Hp as (tr & st & base & eff & orev & rev & doc & key &
      _ & _ & _ & _ & Hd & _ & -> & ->).
    apply grant_document_Ok in Hd as (-> & Hv & _).
    set (p := mkPrepared _ _ _ _ _).
    assert (match over with Some over => planned_over p over | None => Ok p end = Ok p \/
            exists er, match over with Some over => planned_over p over | None => Ok p end = Err er)
      as [->|[er ->]].
    { destruct over as [over|]; [|by left]. unfold planned_over. case_bool_decide; eauto. }
    + apply wp_bind, enrollments_now_wp.
      destruct (enrollments <$> _) as [enrolled|err];
        [|by apply wp_bind, wp_audit, wp_ret, opens_kept].
      destruct (for_browser _ _ _ _) as [req|err] eqn:Er;
        [|by apply wp_bind, wp_audit, wp_ret, opens_kept].
      apply wp_ret, opens_awaiting; [done|]. eapply browser_request_names; [done|].
      eexists. split; [reflexivity|]. split; [done|]. split; [reflexivity|].
      rewrite doc_values_from_values. rewrite <- Hact. by destruct g.
    + by apply wp_ret, opens_kept.
  - apply prepare_grant_Err in Hp. by apply wp_ret, opens_kept.
Qed.

(** An opening from the emptied slot is one from the exchange it was emptied of. *)
Lemma opens_emptied x w r w' : opens (with_slot x None) w r w' -> opens x w r w'.
Proof. intros [Hs H]. split; [done|]. intros _. by apply H. Qed.

Lemma policy_set_opens x overlay nonce e w : wp (policy_set x overlay nonce) (opens x w) e w.
Proof.
  unfold policy_set. cbv zeta. destruct (grant_action GlSet _) as [action|] eqn:Ea;
    [|by apply wp_ret, opens_refused].
  apply grant_action_Ok in Ea. apply wp_bind. unfold plan_grant. apply wp_bind, wp_asks, wp_ret.
  match goal with |- context [mbind _ ?b] => destruct b as [base|] end;
    cbn [mbind result_mbind]; [|by apply wp_ret, opens_refused].
  eapply wp_mono; [|intros a w'; apply opens_emptied]. apply begin_grant_opens; [done|].
  rewrite Ea. unfold action_text. f_equal. apply summary_is_the_overlays.
Qed.

(** The slot of a rollback, and the records: the free lane may tighten the store. *)
Lemma policy_rollback_cases x revision entry nonce e w :
  wp (policy_rollback x revision entry nonce) (fun r w' =>
    (exchange_ok (ex_label x) x -> exchange_ok (ex_label x) r.2) /\
    (same_records w w' \/
     exists overlay over, restrict_planned overlay over SurfExtension e w = (Ok tt, w') /\
       ex_pending r.2 = None)) e w.
Proof.
  unfold policy_rollback. apply wp_bind, wp_intro. intros inputs w1 Hi.
  apply rollback_inputs_quiet in Hi as ->.
  destruct inputs as [i|]; [|by apply wp_ret; split; [|left]].
  destruct (inputs_plan i) as [|ov fs|g].
  - apply wp_bind, wp_intro. intros r w1 Hc. apply wp_ret. split; [done|left].
    unfold confirm_unmoved, htry, hmap_err, hbind, with_runtime_lock, load_policy, asks, hret in Hc.
    destruct (e_lock e); [by injection Hc as _ <-|]. by destruct (slot_load _); injection Hc as _ <-.
  - apply wp_bind, wp_intro. intros r w1 Hr.
    assert (forall Q : list HostReply -> world -> Prop, (forall l, Q l w1) ->
      wp (restrict_replies r LanePolicyRollback) Q e w1) as Hw.
    { intros Q HQ. destruct r as [u|]; [|apply wp_ret, HQ]. apply wp_bind, wp_bind, wp_asks, wp_ret.
      apply wp_ret, HQ. }
    apply wp_bind, Hw. intros l. apply wp_ret. split; [done|]. destruct r as [[]|err].
    + right. eauto.
    + left. by eapply restrict_with_Err.
  - destruct (grant_action _ g) as [action|] eqn:Ea; [|by apply wp_ret; split; [|left]].
    apply grant_action_Ok in Ea.
    eapply wp_mono; [apply (begin_grant_opens (with_slot x None)); [done|by rewrite Ea]|].
    intros a w' Ho. apply opens_emptied in Ho as [Hs Ho]. split; [done|by left].
Qed.

(** ** Answers *)

(** What an attested act does to the records. *)
Definition act_effect (act : PendingAct) (w w' : world) : Prop :=
  same_records w w' \/
  match act with
  | PaKillRelease =>
      w_policy w' = w_policy w /\ exists t0 t, trust_current (w_trust w) = Ok t0 /\ w_trust w' = Stored t /\
        killed t = false /\ clients t = clients t0 /\ enrollments t = enrollments t0
  | PaEnrollBegin | PaPageOp _ _ => False
  | PaPolicyGrant prepared _ =>
      exists sig prev, slot_load (w_policy w) = Ok prev /\
        observation <$> prev = pp_store (pg_observed prepared) /\
        w_policy w' = Stored (granted_store (pg_doc_bytes prepared) sig (pg_key prepared) prev
          (pg_touched prepared))
  | PaClientPair name anchor =>
      w_policy w' = w_policy w /\ exists t0 t c, trust_current (w_trust w) = Ok t0 /\ w_trust w' = Stored t /\
        killed t = killed t0 /\ enrollments t = enrollments t0 /\ ce_name c = name /\ ce_anchor c = anchor /\
        (forall d, d ∈ paired_entries (clients t) <->
           d = c \/ (d ∈ paired_entries (clients t0) /\ ce_name d <> name))
  end.

Lemma release_cases surface auth e w r w' :
  release surface auth e w = (r, w') -> act_effect PaKillRelease w w'.
Proof.
  unfold release, set_killed_locked, with_runtime_lock, hbind, hret, audit_record.
  destruct (e_lock e); [intros [= _ <-]; by left|].
  destruct (mutate_locked _ _ e w) as [[t|] w1] eqn:Em; cbn; intros [= _ <-].
  - apply mutate_locked_Ok in Em as (t0 & t1 & Ht & Hb & -> & ->). apply bumped_Ok in Hb as (_ & _ & Hc & He & _).
    right. split; [done|]. by exists t0, (set_killed t1 false).
  - apply mutate_locked_Err in Em as ->. by left.
Qed.

Lemma elem_of_pair_entry t entry d :
  d ∈ paired_entries (clients (pair_entry t entry)) <->
  d = entry \/ (d ∈ paired_entries (clients t) /\ ce_name d <> ce_name entry).
Proof.
  unfold pair_entry, paired_entries. cbn [clients with_clients].
  rewrite elem_of_app, list_elem_of_singleton, !list_elem_of_In, filter_In, negb_true_iff, String.eqb_neq.
  by destruct (clients t); tauto.
Qed.

Lemma pair_client_cases name anchor surface auth e w r w' :
  pair_client_with_presence name anchor surface (fun _ => hret (Ok auth)) e w = (r, w') ->
  act_effect (PaClientPair name anchor) w w'.
Proof.
  unfold pair_client_with_presence, hbind at 1, hret at 1. unfold hbind at 1.
  destruct (pair name anchor auth e w) as [[[]|err] w1] eqn:Ep; apply pair_cases in Ep;
    intros [= _ <-].
  - destruct Ep as (t0 & t1 & Ht & Hb & ->). apply bumped_Ok in Hb as (_ & Hk & Hc & He & _).
    right. split; [done|]. eexists t0, _, {| ce_name := name; ce_anchor := anchor; ce_added_unix := w_now w |}.
    split_and!; [done|reflexivity|done..|].
    intros d. by rewrite elem_of_pair_entry, Hc.
  - subst. by left.
Qed.

(** Running an attested act: its effect, and a slot only an enrollment approval fills. *)
Lemma run_act_cases act auth now e w :
  wp (run_act act auth now) (fun r w' => act_effect act w w' /\
    r.2 = match act with PaEnrollBegin => Some (PendApproved auth now) | _ => None end) e w.
Proof.
  destruct act as [| |op origin|prepared lane|name anchor]; cbn [run_act].
  - apply wp_bind, wp_intro. intros r w1 Hr. apply wp_ret. split; [|done].
    by apply release_cases in Hr.
  - apply wp_ret. split; [by left|done].
  - apply wp_ret. split; [by left|done].
  - apply wp_bind, wp_intro. intros [path|err] w1 Hc.
    + apply wp_bind, wp_bind, wp_asks, wp_ret, wp_ret. split; [|done].
      apply commit_Ok in Hc as (sig & trust & prev & _ & _ & _ & Hl & Ho & _ & Hw).
      right. eauto.
    + apply commit_Err in Hc. apply wp_ret. split; [by left|done].
  - apply wp_bind, wp_intro. intros r w1 Hr. apply wp_ret. split; [|done].
    by eapply pair_client_cases.
Qed.

Lemma act_audit_refusal_quiet act err e w :
  wp (act_audit_refusal act err) (fun _ w' => same_records w w') e w.
Proof. by destruct act. Qed.

Lemma act_effect_quiet act w w1 w' : same_records w w1 -> act_effect act w1 w' -> act_effect act w w'.
Proof.
  intros Hs [He|He]; [left; by eapply same_records_trans|]. right.
  destruct Hs as (Ht & Hp & _). destruct act; rewrite ?Hp, ?Ht in He; done.
Qed.

(** Settling: a refusal moves nothing, an attestation runs the act. *)
Lemma settle_cases x act outcome now e w :
  wp (settle x act outcome now) (fun r w' =>
    match outcome with
    | Err _ => same_records w w' /\ r.2 = x
    | Ok auth => act_effect act w w' /\
        r.2 = with_slot x match act with PaEnrollBegin => Some (PendApproved auth now) | _ => None end
    end) e w.
Proof.
  destruct outcome as [auth|err]; cbn [settle].
  - apply wp_bind, wp_audit, wp_bind. eapply wp_mono; [apply run_act_cases|].
    intros [replies slot] w' [He Hs]. cbn [snd] in Hs. subst slot. apply wp_ret.
    split; [|done]. eapply act_effect_quiet; [|done]. done.
  - apply wp_bind, wp_audit, wp_bind. eapply wp_mono; [apply act_audit_refusal_quiet|].
    intros [] w' Hs. by apply wp_ret.
Qed.

(** The slot an answer leaves. *)
Definition answered (x x' : Exchange) : Prop :=
  ex_label x' = ex_label x /\
  match ex_pending x' with None | Some (PendApproved _ _) => True | _ => False end.

Lemma answered_ok label x x' : answered x x' -> ex_label x = label -> exchange_ok label x'.
Proof.
  intros [Hl Hp] <-. split; [done|]. by destruct (ex_pending x') as [[]|].
Qed.

(** How an answer came to an attestation. *)
Definition attests (q : ExRequest) (req : PresenceRequest) (e : env) (w : world)
    (auth : PresenceAttestation) (w1 : world) : Prop :=
  exists t, trust_current (w_trust w) = Ok t /\
    match q with
    | ExPresenceAssert cid a =>
        exists id assertion, CredentialId_from_base64url cid = Ok id /\ a = Ok assertion /\
          assert_ req (enrollments t) id assertion e w = (Ok auth, w1)
    | ExPresenceConfirm n =>
        st_nonce (pq_statement req) = n /\ confirm_window req (enrollments t) = Ok auth /\ w1 = w
    | _ => False
    end.

Definition answer_effect (x : Exchange) (q : ExRequest) (e : env) (w w' : world) : Prop :=
  same_records w w' \/
  exists req act auth w1, ex_pending x = Some (PendPresence req act) /\
    attests q req e w auth w1 /\ act_effect act w1 w'.

Lemma presence_assert_cases x cid a now e w :
  wp (presence_assert x cid a now) (fun r w' =>
    answered x r.2 /\ answer_effect x (ExPresenceAssert cid a) e w w') e w.
Proof.
  unfold presence_assert. destruct (ex_pending x) as [[|req act|]|] eqn:Ep;
    [by apply wp_ret; split; [|left]| |by apply wp_ret; split; [|left]..].
  apply wp_bind, wp_intro. intros outcome w1 Ho.
  eapply wp_mono; [apply settle_cases|]. intros [replies x'] w' Hs. cbn [snd] in *.
  destruct outcome as [auth|err].
  - destruct Hs as [He ->]. split; [by destruct act|]. right. exists req, act, auth, w1.
    split; [done|]. split; [|done].
    unfold htry at 1, hbind at 1, hret at 1 in Ho.
    destruct (CredentialId_from_base64url cid) as [id|] eqn:Ei; cbn [map_err] in Ho; [|done].
    unfold htry at 1, hbind at 1, hret at 1 in Ho. destruct a as [assertion|]; cbn [map_err] in Ho; [|done].
    unfold htry, hbind, hmap_err, hbind, enrollments_now, current_trust, asks, hbind, hret in Ho.
    unfold attests. destruct (trust_current (w_trust w)) as [t|]; cbn in Ho; [|done].
    exists t. split; [done|]. by exists id, assertion.
  - destruct Hs as [He ->]. split; [done|]. left.
    enough (w1 = w) as -> by done.
    unfold htry at 1, hbind at 1, hret at 1 in Ho.
    destruct (CredentialId_from_base64url cid) as [id|]; cbn [map_err] in Ho; [|by injection Ho].
    unfold htry at 1, hbind at 1, hret at 1 in Ho. destruct a as [assertion|]; cbn [map_err] in Ho;
      [|by injection Ho].
    unfold htry, hbind, hmap_err, hbind, enrollments_now, current_trust, asks, hbind, hret in Ho.
    destruct (trust_current (w_trust w)) as [t|]; cbn in Ho; [|by injection Ho].
    by apply assert_cases in Ho.
Qed.

Lemma presence_confirm_cases x n now e w :
  wp (presence_confirm x n now) (fun r w' =>
    answered x r.2 /\ answer_effect x (ExPresenceConfirm n) e w w') e w.
Proof.
  unfold presence_confirm. destruct (ex_pending x) as [[|req act|]|] eqn:Ep;
    [by apply wp_ret; split; [|left]| |by apply wp_ret; split; [|left]..].
  apply wp_bind, wp_intro. intros outcome w1 Ho.
  eapply wp_mono; [apply settle_cases|]. intros [replies x'] w' Hs. cbn [snd] in *.
  assert (w1 = w) as ->.
  { destruct (String.eqb _ n); [|by injection Ho].
    unfold htry, hbind, hmap_err, hbind, enrollments_now, current_trust, asks, hbind, hret in Ho.
    by destruct (trust_current (w_trust w)); injection Ho. }
  destruct outcome as [auth|err]; destruct Hs as [He ->]; [|split; [done|by left]].
  split; [by destruct act|]. right. exists req, act, auth, w. split; [done|]. split; [|done].
  destruct (String.eqb_spec (st_nonce (pq_statement req)) n) as [En|]; [|done].
  unfold htry, hbind, hmap_err, hbind, enrollments_now, current_trust, asks, hbind, hret in Ho.
  unfold attests. destruct (trust_current (w_trust w)) as [t|]; cbn in Ho; [|done].
  injection Ho as Ho. exists t. by split_and!.
Qed.

(** A finished enrollment. *)
Lemma enroll_finish_cases x registration e w :
  wp (enroll_finish x registration) (fun r w' => r.2 = with_slot x None /\
    (same_records w w' \/
     exists s authority rg registered t w1, ex_pending x = Some (PendEnrollment s authority) /\
       registration = Ok rg /\ parse_registration s RpId_pinned rg = Ok registered /\
       record (ex_label x) (rd_credential registered) authority e w = (Ok t, w1) /\
       same_records w1 w')) e w.
Proof.
  unfold enroll_finish. destruct (ex_pending x) as [[s authority| |]|] eqn:Ep;
    [|by apply wp_ret; split; [|left]..].
  destruct registration as [rg|err]; cbn [mbind result_mbind];
    [|by apply wp_bind, wp_audit, wp_ret; split; [|left]].
  destruct (parse_registration s RpId_pinned rg) as [registered|err] eqn:Er;
    [|by apply wp_bind, wp_audit, wp_ret; split; [|left]].
  apply wp_bind, wp_intro. intros r w1 Hr. pose proof Hr as Hc. apply record_cases in Hc.
  destruct r as [t|err].
  - apply wp_bind, wp_audit, wp_ret. split; [done|]. right.
    exists s, authority, rg, registered, t, w1. by split_and!.
  - subst w1. case_bool_decide; apply wp_bind, wp_audit, wp_ret; (split; [done|by left]).
Qed.

Lemma browser_revoke_cases x e w :
  wp (browser_revoke x) (fun r w' =>
    (exchange_ok (ex_label x) x -> exchange_ok (ex_label x) r.2) /\
    (w' = w \/ exists rv, revoke_browser (ex_label x) SurfExtension e w = (Ok rv, w'))) e w.
Proof.
  unfold browser_revoke. apply wp_bind, wp_intro. intros r w1 Hr. apply wp_ret.
  destruct r as [rv|[ls|err]]; (split; [done|]).
  - right. eauto.
  - apply revoke_browser_cases in Hr. by left.
  - apply revoke_browser_cases in Hr. by left.
Qed.

(** The records' side of a step, by the request that took it. *)
Definition step_effect (x : Exchange) (q : ExRequest) (e : env) (w w' : world) : Prop :=
  match q with
  | ExPresenceAssert _ _ | ExPresenceConfirm _ =>
      exists req act auth w1, ex_pending x = Some (PendPresence req act) /\
        attests q req e w auth w1 /\ act_effect act w1 w'
  | ExPolicyRollback _ _ =>
      exists prev next eff eff', w_policy w = Stored prev /\ w_policy w' = Stored next /\
        effective prev = Ok eff /\ effective next = Ok eff' /\
        restricts_or_equal eff' eff = true /\ ps_baseline_b64 next = ps_baseline_b64 prev
  | ExEnrollFinish registration =>
      exists s authority rg registered t w1, ex_pending x = Some (PendEnrollment s authority) /\
        registration = Ok rg /\ parse_registration s RpId_pinned rg = Ok registered /\
        record (ex_label x) (rd_credential registered) authority e w = (Ok t, w1) /\
        same_records w1 w'
  | ExBrowserRevoke => exists rv, revoke_browser (ex_label x) SurfExtension e w = (Ok rv, w')
  | ExEnrollBegin | ExKillRelease | ExPresenceBegin _ _ | ExPolicySet _ | ExClientPair _ _ => False
  end.

(** What every step does to the slot and to the records. *)
Definition step_post (x : Exchange) (q : ExRequest) (e : env) (w : world)
    (r : list HostReply * Exchange) (w' : world) : Prop :=
  (exchange_ok (ex_label x) x -> exchange_ok (ex_label x) r.2) /\
  (same_records w w' \/ step_effect x q e w w').

Definition is_answer (q : ExRequest) : bool :=
  match q with ExPresenceAssert _ _ | ExPresenceConfirm _ | ExEnrollFinish _ => true | _ => false end.

Lemma opens_post x q e w r w' : opens x w r w' -> step_post x q e w r w'.
Proof. intros [Hs Hx]. split; [exact Hx|left; exact Hs]. Qed.

Lemma answered_post x q e w r w' :
  answered x r.2 -> same_records w w' \/ step_effect x q e w w' -> step_post x q e w r w'.
Proof. intros Ha He. split; [intros _; by eapply answered_ok|exact He]. Qed.

Lemma handle_request_post x q now nonce e w :
  wp (handle_request x q now nonce) (step_post x q e w) e w.
Proof.
  destruct q as [|registration| |action origin|overlay|revision entry|name anchor|cid a|n|];
    cbv beta iota delta [handle_request].
  - eapply wp_mono; [apply enroll_begin_opens|apply opens_post].
  - eapply wp_mono; [apply enroll_finish_cases|]. intros r w' [Hr He].
    apply answered_post; [rewrite Hr; split; done|exact He].
  - eapply wp_mono; [apply kill_release_opens|apply opens_post].
  - eapply wp_mono; [apply presence_begin_opens|apply opens_post].
  - eapply wp_mono; [apply policy_set_opens|apply opens_post].
  - eapply wp_mono; [apply policy_rollback_cases|].
    intros r w' [Hx [Hs|(ov & over & Hr & _)]]; (split; [exact Hx|]); [by left|right].
    apply restrict_with_Ok in Hr as (prev & next & eff & eff' & ? & ? & ? & ? & ? & ? & _).
    exists prev, next, eff, eff'. by split_and!.
  - eapply wp_mono; [apply client_pair_opens|apply opens_post].
  - eapply wp_mono; [apply presence_assert_cases|]. intros r w' [Ha He]. by apply answered_post.
  - eapply wp_mono; [apply presence_confirm_cases|]. intros r w' [Ha He]. by apply answered_post.
  - eapply wp_mono; [apply browser_revoke_cases|].
    intros r w' [Hx [->|H]]; (split; [exact Hx|]); [by left|by right].
Qed.

Lemma answer_empties x q now nonce e w :
  is_answer q = true -> wp (handle_request x q now nonce) (fun r _ => answered x r.2) e w.
Proof.
  destruct q; try discriminate 1; intros _; cbv beta iota delta [handle_request].
  - eapply wp_mono; [apply enroll_finish_cases|]. intros r w' [-> _]. split; done.
  - eapply wp_mono; [apply presence_assert_cases|]. by intros r w' [Ha _].
  - eapply wp_mono; [apply presence_confirm_cases|]. by intros r w' [Ha _].
Qed.

(** * Properties *)

(** C4: what the user is asked is what would run. In every state a connection's
    exchange can reach, under any sequence of frames and any writes by other
    processes, an outstanding presence request makes a presence statement under
    this connection's label whose action text names the very act the slot holds:
    for a policy grant, the summary of the values and touched fields in the exact
    document bytes that would be signed. Only the enrolment of another credential
    may be answered by another browser's credential, and an outstanding enrollment
    makes the enrollment statement for this label. *)
Theorem approval_names_its_act (label : BrowserLabel) (x : Exchange) (w : world) :
  reachable label x w -> exchange_ok label x.
Proof.
  induction 1 as [w|x q now nonce e w replies x' w' _ IH Hh|x w w' _ IH]; [split; done| |exact IH].
  pose proof IH as [Hl _]. apply (wp_elim _ _ _ _ _ _ (handle_request_post x q now nonce e w)) in Hh
    as [Hx _]. rewrite Hl in Hx. by apply Hx.
Qed.

(** C3: the exchange grants nothing without an answer. Opening a request, whatever
    it asks for, writes no record. The records move only when an outstanding
    presence request was answered with an attestation (an assertion this request
    verifies against the enrollments as they are now, or the window under the
    request's own nonce), and then by the act that request held; when a rollback
    that only tightens lands; when an outstanding enrollment is finished by a
    registration its own statement verifies; or when this browser is forgotten. *)
Theorem records_move_only_on_an_answer (x : Exchange) (q : ExRequest) (now : Z)
    (nonce : result io_error string) (e : env) (w w' : world) (replies : list HostReply)
    (x' : Exchange) :
  handle_request x q now nonce e w = ((replies, x'), w') ->
  same_records w w' \/ step_effect x q e w w'.
Proof.
  intros Hh. by apply (wp_elim _ _ _ _ _ _ (handle_request_post x q now nonce e w)) in Hh as [_ He].
Qed.

(** An answer is spent by being given. Whatever an answer's verdict, it takes
    the outstanding request out of the slot: the next answer of either kind, over
    whatever the records then hold, is told that no request is outstanding and
    changes nothing, and an enrollment cannot be finished after it either. *)
Theorem an_answer_is_given_once (x x' : Exchange) (q q' : ExRequest) (now now' : Z)
    (nonce nonce' : result io_error string) (e e' : env) (w w' w2 : world)
    (replies : list HostReply) :
  is_answer q = true ->
  handle_request x q now nonce e w = ((replies, x'), w') ->
  match q' with
  | ExPresenceAssert _ _ | ExPresenceConfirm _ =>
      handle_request x' q' now' nonce' e' w2 =
        (([presence_refused (reason_of_code RcNoRequestOutstanding)], with_slot x' None), w2)
  | ExEnrollFinish _ =>
      handle_request x' q' now' nonce' e' w2 =
        (([enroll_refused (reason_of_code RcNoEnrollmentOutstanding)], with_slot x' None), w2)
  | _ => True
  end.
Proof.
  intros Hq Hh. apply (wp_elim _ _ _ _ _ _ (answer_empties x q now nonce e w Hq)) in Hh as [_ Hp].
  cbn [snd] in Hp.
  destruct q'; try exact I; cbv beta iota delta [handle_request enroll_finish presence_assert
    presence_confirm]; destruct (ex_pending x') as [[]|]; done.
Qed.
End machine.

(** ** Witnesses *)

Module ExchangeExample.
#[export] Instance origins : OriginParser := {| origin_serialization s := Some s |}.
#[local] Existing Instances PolicyExample.digest PolicyExample.trust_sized
  PolicyExample.policy_sized PolicyExample.history_sized WebAuthnExample.crypto CoseExample.lib
  AllowlistExample.debug.

Definition nonce : string := "bm9uY2UtYnl0ZXMtMDEyMw".
Definition overlay : PolicyOverlay :=
  overlay_set_from overlay_default CdpMode PolicyExample.grants.

(** A page asks for a capability and the window, under no enrollment, approves it. *)
Definition asked := Eval vm_compute in
  handle_request (Exchange_new "chrome") (ExPolicySet overlay) 0 (Ok nonce) calm PolicyExample.w0.
Definition confirmed := Eval vm_compute in
  handle_request asked.1.2 (ExPresenceConfirm nonce) 5 (Ok nonce) calm asked.2.

Lemma asked_eq :
  handle_request (Exchange_new "chrome") (ExPolicySet overlay) 0 (Ok nonce) calm PolicyExample.w0 =
    ((asked.1.1, asked.1.2), asked.2).
Proof. vm_compute. reflexivity. Qed.

Lemma confirmed_eq :
  handle_request asked.1.2 (ExPresenceConfirm nonce) 5 (Ok nonce) calm asked.2 =
    ((confirmed.1.1, confirmed.1.2), confirmed.2).
Proof. vm_compute. reflexivity. Qed.
End ExchangeExample.
#[local] Existing Instances PolicyExample.digest PolicyExample.trust_sized
  PolicyExample.policy_sized PolicyExample.history_sized WebAuthnExample.crypto CoseExample.lib
  AllowlistExample.debug ExchangeExample.origins.

Lemma approval_names_its_act_witness :
  exchange_ok "chrome" ExchangeExample.asked.1.2 /\
  exists req act, ex_pending ExchangeExample.asked.1.2 = Some (PendPresence req act) /\
    st_action (pq_statement req) = "set policy: cdpMode=on".
Proof.
  split.
  - eapply (approval_names_its_act "chrome" _ ExchangeExample.asked.2). eapply reach_step.
    + apply (reach_new _ PolicyExample.w0).
    + exact ExchangeExample.asked_eq.
  - eexists _, _. split; reflexivity.
Defined.

Lemma records_move_only_on_an_answer_witness :
  exists req act auth w1, ex_pending ExchangeExample.asked.1.2 = Some (PendPresence req act) /\
    attests (ExPresenceConfirm ExchangeExample.nonce) req calm ExchangeExample.asked.2 auth w1 /\
    act_effect act w1 ExchangeExample.confirmed.2.
Proof.
  destruct (records_move_only_on_an_answer _ _ _ _ _ _ _ _ _ ExchangeExample.confirmed_eq) as [H|H].
  - destruct H as (_ & H & _). vm_compute in H. discriminate H.
  - exact H.
Defined.

Lemma an_answer_is_given_once_witness :
  handle_request ExchangeExample.confirmed.1.2 (ExPresenceConfirm ExchangeExample.nonce) 6
    (Ok ExchangeExample.nonce) calm ExchangeExample.confirmed.2 =
  (([presence_refused (reason_of_code RcNoRequestOutstanding)],
    with_slot ExchangeExample.confirmed.1.2 None), ExchangeExample.confirmed.2).
Proof.
  exact (an_answer_is_given_once _ _ (ExPresenceConfirm ExchangeExample.nonce)
    (ExPresenceConfirm ExchangeExample.nonce) _ 6 _
    (Ok ExchangeExample.nonce) _ calm _ _ ExchangeExample.confirmed.2 _ eq_refl ExchangeExample.confirmed_eq).
Defined.
