(* ===== verification/NativeHost.v ===== *)
(** NativeHost: the process Chrome starts
    (src/src/packages/core/src/native_host.rs): the handlers of the control frames
    it answers itself, the dispatch of an inbound frame, the watch that pushes what
    other processes changed, and the control-plane loop a killed bridge runs.

    Standard output is the list of frames written so far; [fault] says which frame
    cannot be written. The doctor's report, the audit file's reader and the browser
    manifests are the class [HostFacts]: this file only carries what they answer. *)
From S2P Require Import Prelude Json RuntimeRecord Policy Identity Trust PolicyRecord PrefixCodec World Messages PolicyStore PolicyPlan ToolArgs Catalogue Gating Wire AuthData WebAuthn EnrollStore Presence Allowlist Lang Enclave Frames Control Exchange.
From stdpp Require Import base list sets strings pretty.

(** * Answers of other components *)

Class HostFacts := {
  (** [doctor::wire_report]. *)
  wire_report : khost -> HealthReport;
  (** [audit::read]: the newest records, how many are older, and the file. *)
  audit_read : Z -> khost -> result io_error (list AuditTrailEntry * Z * string);
  (** [doctor::gather_manifests], after the repair that ran in the same request. *)
  gather_manifests : option (option (list Browser)) -> khost -> result string (list RegistrationRow);
  (** [registration::fix] for this account: per target, its lines or its error. *)
  registration_fix : option (list Browser) -> khost ->
    result string (list (string * result string (list string)))
}.

Definition DEFAULT_AUDIT_LIMIT : Z := 200.

(** [trust::unreadable_sentence]. *)
Definition unreadable_sentence (e : io_error) : string := "trust record unreadable: " +:+ io_msg e.

(** * Writing frames *)

Section output.
Variable fault : HostReply -> option io_error.

Definition write_control_reply (out : list HostReply) (reply : HostReply) :
    result io_error unit * list HostReply :=
  match fault reply with Some e => (Err e, out) | None => (Ok tt, out ++ [reply]) end.

Fixpoint write_replies (out replies : list HostReply) : result io_error unit * list HostReply :=
  match replies with
  | [] => (Ok tt, out)
  | reply :: rest =>
      match write_control_reply out reply with
      | (Ok _, out) => write_replies out rest
      | (Err e, out) => (Err e, out)
      end
  end.

(** A push is best effort. *)
Definition push (out : list HostReply) (reply : HostReply) : list HostReply :=
  (write_control_reply out reply).2.
End output.

(** * Handlers *)

Section handlers.
Context `{CO : PolicyCodec, DG : Digest, CR : Crypto, CL : CoseLib, SD : StrDebug, OP : OriginParser}.
Context `{PK : P256, KR : Keyring, HF : HostFacts}.
Context `{ST : !Sized Trust, SP : !Sized PolicyStore, SH : !Sized PolicyHistory}.
Context `{SL : !Sized LangStore, SK : !Sized HostKeyFile}.

Definition admin_client_list : host HostReply :=
  let! t := current_trust in
  hret match t with
  | Ok trust =>
      match clients trust with
      | Paired clients => ClientListResult true true clients None
      | NeverPaired => ClientListResult true false [] None
      end
  | Err e => ClientListResult false false [] (Some (unreadable_sentence e))
  end.

Definition admin_client_revoke (name : string) : host HostReply :=
  if negb (validate_label name) then hret (ClientRevokeResult false (Some "invalid client name"))
  else
    let! r := revoke name SurfExtension in
    hret match r with
    | Ok true => ClientRevokeResult true None
    | Ok false => ClientRevokeResult false (Some ("no trusted client named '" +:+ name +:+ "'"))
    | Err e => ClientRevokeResult false (Some (io_msg e))
    end.

Definition doctor_report_reply : keyed HostReply := fun _ k =>
  (doctor_into_frame (DoctorReported (wire_report k)), k).

Definition audit_read_reply (limit : option Z) : keyed HostReply := fun _ k =>
  (audit_into_frame
     match audit_read (default DEFAULT_AUDIT_LIMIT limit) k with
     | Ok (entries, older, path) => AuditPageReport entries older path
     | Err e => AuditUnavailable (io_msg e)
     end, k).

Definition registration_report (manifests : result string (list RegistrationRow)) : RegistrationReport :=
  match manifests with Ok rows => RegRows rows | Err error => RegUnavailable error end.

Definition registration_status_reply : keyed HostReply := fun _ k =>
  (registration_into_frame (registration_report (gather_manifests None k)), k).

Definition registration_repair_reply (browsers : option (list Browser)) : keyed HostReply := fun _ k =>
  (match registration_fix browsers k with
   | Err e => registration_into_frame (RegUnavailable e)
   | Ok outcomes =>
       let failures := omap (fun '(target, r) => match r with
                                                 | Ok _ => None
                                                 | Err e => Some (target +:+ ": " +:+ e)
                                                 end) outcomes in
       if (length failures =? 0)%nat then
         registration_into_frame (registration_report (gather_manifests (Some browsers) k))
       else registration_into_frame (RegUnavailable (str_join "; " failures))
   end, k).

(** [gather_history_report] with [PolicyHistoryRow::from] of each entry. *)
Definition history_row (entry : PolicyHistoryEntry) : PolicyHistoryRow :=
  let '(superseded_unix, held) :=
    match JsUint_try_from (he_superseded_unix entry) with
    | Ok at_ => (Some at_, entry_state entry)
    | Err _ => (None, None)
    end in
  mkHistoryRow (entry_id entry) (bool_decide (is_Some (he_sig_b64 entry)))
    (bool_decide (is_Some (he_overlay entry))) superseded_unix held.

Definition policy_history_reply : host HostReply :=
  let! loaded := load_history in
  hret (history_into_frame
    match loaded with
    | Ok None => HistoryEntries []
    | Ok (Some history) => HistoryEntries (history_row <$> entries history)
    | Err e => HistoryUnavailable (io_msg e)
    end).

Definition kill_status_reply : host HostReply :=
  let! r := is_killed in
  hret (kill_into_frame match r with
                        | Ok killed => KillRead killed
                        | Err e => KillUnreadable ("kill state unreadable: " +:+ io_msg e)
                        end).

Definition handle_kill_engage : host HostReply :=
  let! r := engage SurfExtension in
  hret (kill_into_frame match r with
                        | Ok _ => KillRead true
                        | Err e => KillUnreadable (io_msg e)
                        end).

Definition lang_current_frame : host (option HostReply) :=
  let! r := load_current in
  hret match r with Ok (value, seq) => Some (LangCurrent value seq) | Err _ => None end.

Definition handle_lang_set (value : string) : host (option HostReply) :=
  match UiLang_parse value with
  | None => lang_current_frame
  | Some value =>
      let! r := Lang.set value in
      match r with
      | Ok (value, seq) => hret (Some (LangCurrent value seq))
      | Err _ => lang_current_frame
      end
  end.

(** * Dispatch *)

Definition answer_one (x : Exchange) (m : keyed HostReply) : keyed (list HostReply * Exchange) :=
  do! reply := m in kret ([reply], x).

Definition answer_opt (x : Exchange) (m : host (option HostReply)) : keyed (list HostReply * Exchange) :=
  do! reply := on_host m in kret (match reply with Some r => [r] | None => [] end, x).

(** The replies of [handle_request], in the order it writes them. *)
Definition request_replies (r : HostRequest) (x : Exchange) (now : Z) (nonce : result io_error string) :
    keyed (list HostReply * Exchange) :=
  match r with
  | RqEnclaveChallenge n context => answer_one x (respond_to_challenge n context)
  | RqEnrollBegin => on_host (enroll_begin x now nonce)
  | RqEnrollFinish attestation_object client_data_json =>
      on_host (enroll_finish x (Registration_from_base64url attestation_object client_data_json))
  | RqPresenceBegin action origin => on_host (presence_begin x action origin nonce)
  | RqPresenceAssert credential_id authenticator_data client_data_json signature =>
      on_host (presence_assert x credential_id
        (Assertion_from_base64url authenticator_data client_data_json signature) now)
  | RqPresenceConfirm n => on_host (presence_confirm x n now)
  | RqBrowserRevoke => on_host (browser_revoke x)
  | RqEnclaveRevoke => answer_one x revoke_host_key
  | RqClientList => answer_one x (on_host admin_client_list)
  | RqClientRevoke name => answer_one x (on_host (admin_client_revoke name))
  | RqClientPair name anchor => on_host (client_pair x name anchor nonce)
  | RqKillStatus => answer_one x (on_host kill_status_reply)
  | RqKillEngage => answer_one x (on_host handle_kill_engage)
  | RqKillRelease => on_host (kill_release x nonce)
  | RqDoctorReport => answer_one x doctor_report_reply
  | RqAuditRead limit => answer_one x (audit_read_reply limit)
  | RqRegistrationStatus => answer_one x registration_status_reply
  | RqRegistrationRepair browsers => answer_one x (registration_repair_reply browsers)
  | RqPolicyGet => answer_one x (on_host policy_current_reply)
  | RqPolicyRestrict overlay =>
      on_host (let! r := restrict_ overlay SurfExtension in
               let! replies := restrict_replies r LanePolicyRestrict in
               hret (replies, x))
  | RqPolicySet overlay => on_host (policy_set x overlay nonce)
  | RqPolicyHistory => answer_one x (on_host policy_history_reply)
  | RqPolicyRollback revision entry => on_host (policy_rollback x revision entry nonce)
  | RqLangGet => answer_opt x lang_current_frame
  | RqLangSet value => answer_opt x (handle_lang_set value)
  | RqAuditEvent kind outcome tool name detail cid =>
      on_host (let! _ := audit_record (mkAudit kind (Some SurfExtension) outcome tool name detail cid) in
               hret ([], x))
  end.

Inductive Inbound := Handled | InboundForward (frame : json).

Variable fault : HostReply -> option io_error.

(** [handle_control_frame], over the frames written so far. *)
Definition handle_control_frame (frame : json) (out : list HostReply) (x : Exchange) (now : Z)
    (nonce : result io_error string) : keyed (result io_error Inbound * list HostReply * Exchange) :=
  match classify_nm_frame frame with
  | Forward => kret (Ok (InboundForward frame), out, x)
  | Handle request =>
      do! r := request_replies request x now nonce in
      let '(replies, x) := r in
      let '(written, out) := write_replies fault out replies in
      kret ((fun _ => Handled) <$> written, out, x)
  | Malformed tag _ =>
      match malformed_reply tag with
      | MalformedDrop => kret (Ok Handled, out, x)
      | MalformedSend reply =>
          let '(written, out) := write_control_reply fault out reply in
          kret ((fun _ => Handled) <$> written, out, x)
      | MalformedLangCurrent =>
          do! reply := on_host lang_current_frame in
          match reply with
          | Some reply =>
              let '(written, out) := write_control_reply fault out reply in
              kret ((fun _ => Handled) <$> written, out, x)
          | None => kret (Ok Handled, out, x)
          end
      end
  end.

(** * The trust watch *)

Record Watched := mkWatched {
  wd_host_key_epoch : Z;
  wd_kill_epoch : Z;
  wd_policy_epoch : Z;
  wd_lang_epoch : Z
}.

(** [Watched::of]. *)
Definition Watched_of (t : Trust) : Watched :=
  mkWatched (host_key_epoch t) (kill_epoch t) (policy_epoch t) (lang_epoch t).

(** [enrollment_key_is_gone]: only a clean absence counts. *)
Definition enrollment_key_is_gone (e : kenv) (k : khost) : bool :=
  match (lookup_key e k).1 with Ok None => true | _ => false end.

(** The pushes, from the records as they read now. *)
Definition push_policy_current (e : kenv) (k : khost) (out : list HostReply) : list HostReply :=
  push fault out (on_host policy_current_reply e k).1.
Definition push_lang_current (e : kenv) (k : khost) (out : list HostReply) : list HostReply :=
  match (on_host lang_current_frame e k).1 with
  | Some frame => push fault out frame
  | None => out
  end.
Definition push_revoked (out : list HostReply) : list HostReply := push fault out EnclaveRevoked.
Definition push_kill_status (e : kenv) (k : khost) (out : list HostReply) : list HostReply :=
  push fault out (on_host kill_status_reply e k).1.

Definition key_gone (e : kenv) (k : khost) (t : Trust) : bool :=
  (0 <? host_key_epoch t)%Z && enrollment_key_is_gone e k.

(** The posture [spawn_trust_watch] announces before its first poll. *)
Definition watch_start (e : kenv) (k : khost) (out : list HostReply) : option Watched * list HostReply :=
  let out := push_policy_current e k out in
  let out := push_lang_current e k out in
  match trust_current (w_trust (kh_world k)) with
  | Ok trust =>
      let out := if key_gone e k trust then push_revoked out else out in
      let out := if killed trust then push_kill_status e k out else out in
      (Some (Watched_of trust), out)
  | Err _ => (None, push_kill_status e k out)
  end.

(** [watch_tick]: the record as read, the frames written and the release flag. *)
Definition watch_tick (last : option Watched) (read : result io_error Trust) (e : kenv) (k : khost)
    (out : list HostReply) (unkill_observed : option bool) :
    option Watched * list HostReply * option bool :=
  match read with
  | Err _ =>
      (None, match last with Some _ => push_kill_status e k out | None => out end, unkill_observed)
  | Ok trust =>
      let cur := Watched_of trust in
      let '(released, out) :=
        match last with
        | Some prev =>
            let out := if negb (wd_host_key_epoch prev =? wd_host_key_epoch cur)%Z && key_gone e k trust
                       then push_revoked out else out in
            let kill_moved := negb (wd_kill_epoch prev =? wd_kill_epoch cur)%Z in
            let out := if kill_moved then push_kill_status e k out else out in
            let out := if negb (wd_policy_epoch prev =? wd_policy_epoch cur)%Z
                       then push_policy_current e k out else out in
            let out := if negb (wd_lang_epoch prev =? wd_lang_epoch cur)%Z
                       then push_lang_current e k out else out in
            (kill_moved && negb (killed trust), out)
        | None =>
            let out := if key_gone e k trust then push_revoked out else out in
            let out := push_kill_status e k out in
            let out := push_policy_current e k out in
            let out := push_lang_current e k out in
            (negb (killed trust), out)
        end in
      (Some cur, out, if released then (fun _ => true) <$> unkill_observed else unkill_observed)
  end.

(** * Control-plane mode *)

(** What one receive on the frame channel yields, its timeout included: a frame
    comes with the clock and the randomness its handling reads. [PlaneElsewhere] is
    no receive: another process wrote the records while the loop waited. *)
Inductive PlaneEvent :=
| PlaneFrame (frame : json) (now : Z) (nonce : result io_error string)
| PlaneElsewhere (k : khost)
| PlaneEof
| PlaneReadError (e : string)
| PlaneTimeout
| PlaneDisconnected.

Inductive PlaneExit := StdinClosed | Unkilled.

Inductive UnkillDecision := DecideExit (exit : PlaneExit) | DecideStay.

(** The loop's own state: the exchange and the frames written. *)
Record Plane := mkPlane { pl_exchange : Exchange; pl_out : list HostReply }.

(** The [handle] closure of [run_control_plane]: a frame for the bridge is dropped. *)
Definition plane_handle (frame : json) (now : Z) (nonce : result io_error string) (p : Plane) : keyed (result io_error unit * Plane) :=
  do! r := handle_control_frame frame (pl_out p) (pl_exchange p) now nonce in
  let '(inbound, out, x) := r in
  kret ((fun _ => tt) <$> inbound, mkPlane x out).

(** [drain_then_decide], over the receives it makes; [None] while it still waits
    for one. The receives it did not make are handed back. *)
Fixpoint drain_then_decide (frames : list PlaneEvent) (p : Plane) :
    keyed (option (UnkillDecision * list PlaneEvent) * Plane) :=
  match frames with
  | [] => kret (None, p)
  | event :: rest =>
      match event with
      | PlaneElsewhere k => fun e _ => drain_then_decide rest p e k
      | PlaneFrame frame now nonce =>
          do! r := plane_handle frame now nonce p in
          let '(handled, p) := r in
          match handled with
          | Err _ => kret (Some (DecideExit StdinClosed, rest), p)
          | Ok _ => drain_then_decide rest p
          end
      | PlaneEof | PlaneReadError _ | PlaneDisconnected =>
          kret (Some (DecideExit StdinClosed, rest), p)
      | PlaneTimeout =>
          do! state := on_host is_killed in
          kret (Some (match state with
                      | Ok false => DecideExit Unkilled
                      | Ok true | Err _ => DecideStay
                      end, rest), p)
      end
  end.

(** [control_plane_loop]. The flag is swapped at the head of every iteration:
    [flags] is what those swaps find, [frames] what the receives yield, and [fuel]
    bounds the iterations; [None] is a loop that has not ended. *)
Fixpoint control_plane_loop (fuel : nat) (flags : list bool) (frames : list PlaneEvent) (p : Plane) :
    keyed (option PlaneExit * Plane) :=
  match fuel with
  | O => kret (None, p)
  | S fuel =>
      do! r := (if default false (head flags) then drain_then_decide frames p
                else kret (Some (DecideStay, frames), p)) in
      let '(decision, p) := r in
      match decision with
      | None => kret (None, p)
      | Some (DecideExit exit, _) => kret (Some exit, p)
      | Some (DecideStay, frames) =>
          match frames with
          | [] => kret (None, p)
          | PlaneElsewhere k :: rest => fun e _ => control_plane_loop fuel (tail flags) rest p e k
          | PlaneFrame frame now nonce :: rest =>
              do! r := plane_handle frame now nonce p in
              let '(handled, p) := r in
              match handled with
              | Err _ => kret (Some StdinClosed, p)
              | Ok _ => control_plane_loop fuel (tail flags) rest p
              end
          | (PlaneEof | PlaneReadError _ | PlaneDisconnected) :: _ => kret (Some StdinClosed, p)
          | PlaneTimeout :: rest => control_plane_loop fuel (tail flags) rest p
          end
      end
  end.

(** * Lemmas: the control plane *)

(** The look at the switch answers from the record. *)
Lemma is_killed_answer e k :
  on_host is_killed e k = (killed <$> trust_current (w_trust (kh_world k)), (on_host is_killed e k).2).
Proof.
  unfold on_host, is_killed, current_trust, asks, hbind, hret. cbn.
  by destruct (trust_current (w_trust (kh_world k))) as [t|].
Qed.

Lemma is_killed_reads e k k' :
  on_host is_killed e k = (Ok false, k') ->
  exists t, trust_current (w_trust (kh_world k)) = Ok t /\ killed t = false.
Proof.
  rewrite is_killed_answer. destruct (trust_current (w_trust (kh_world k))) as [t|]; intros [= Hk _].
  by exists t.
Qed.

(** Receives served in order: every frame handled and its reply written, the state
    as another process left it, a quiet spell with or without a look at the switch. *)
Inductive served (e : kenv) : list PlaneEvent -> Plane -> khost -> Plane -> khost -> Prop :=
| served_nil p k : served e [] p k p k
| served_frame frame now nonce rest p k p1 k1 p' k' :
    plane_handle frame now nonce p e k = ((Ok tt, p1), k1) -> served e rest p1 k1 p' k' ->
    served e (PlaneFrame frame now nonce :: rest) p k p' k'
| served_elsewhere k1 rest p k p' k' :
    served e rest p k1 p' k' -> served e (PlaneElsewhere k1 :: rest) p k p' k'
| served_quiet rest p k p' k' : served e rest p k p' k' -> served e (PlaneTimeout :: rest) p k p' k'
| served_looked rest p k p' k' :
    served e rest p (on_host is_killed e k).2 p' k' -> served e (PlaneTimeout :: rest) p k p' k'.

(** A receive that came without the pipe going quiet. *)
Definition buffered (ev : PlaneEvent) : bool :=
  match ev with PlaneFrame _ _ _ | PlaneElsewhere _ => true | _ => false end.

#[local] Hint Constructors served : core.

Lemma served_app e pre p k p1 k1 post p' k' :
  served e pre p k p1 k1 -> served e post p1 k1 p' k' -> served e (pre ++ post) p k p' k'.
Proof. induction 1; cbn; eauto. Qed.

(** The decision of a drain is the switch as it reads after the buffered frames. *)
Lemma drain_exact e drained p k p' k' rest :
  forallb buffered drained = true -> served e drained p k p' k' ->
  drain_then_decide (drained ++ PlaneTimeout :: rest) p e k =
  let '(state, k2) := on_host is_killed e k' in
  ((Some (match state with Ok false => DecideExit Unkilled | _ => DecideStay end, rest), p'), k2).
Proof.
  intros Hb Hs. revert Hb. induction Hs as [p k|frame now nonce tl p k p1 k1 p' k' Hh Hs IH
    |k1 tl p k p' k' Hs IH| |]; cbn [forallb buffered andb]; intros Hb; try discriminate Hb.
  - cbn [app drain_then_decide]. unfold kbind. by destruct (on_host is_killed e k) as [[[]|] k2].
  - cbn [app drain_then_decide]. unfold kbind at 1. rewrite Hh. by apply IH.
  - cbn [app drain_then_decide]. by apply IH.
Qed.

(** Conversely: a drain that decides of itself made its way to a quiet pipe. *)
Lemma drain_decided frames p e k d rest p' k' :
  drain_then_decide frames p e k = ((Some (d, rest), p'), k') -> d <> DecideExit StdinClosed ->
  exists drained k1, frames = drained ++ PlaneTimeout :: rest /\ forallb buffered drained = true /\
    served e drained p k p' k1 /\ k' = (on_host is_killed e k1).2 /\
    (d = DecideExit Unkilled <-> (on_host is_killed e k1).1 = Ok false).
Proof.
  revert p k. induction frames as [|ev frames IH]; intros p k; cbn [drain_then_decide]; [by intros [=]|].
  destruct ev as [frame now nonce|k1| | | |]; try (intros [= <- <- <- <-]; by intros []).
  - unfold kbind at 1. destruct (plane_handle frame now nonce p e k) as [[[[]|er] p1] k1] eqn:Eh;
      [|intros [= <- <- <- <-]; by intros []].
    intros H Hd. destruct (IH _ _ H Hd) as (drained & k2 & -> & ? & ? & ? & ?).
    exists (PlaneFrame frame now nonce :: drained), k2. eauto 6.
  - intros H Hd. destruct (IH _ _ H Hd) as (drained & k2 & -> & ? & ? & ? & ?).
    exists (PlaneElsewhere k1 :: drained), k2. eauto 6.
  - unfold kbind. destruct (on_host is_killed e k) as [state k1] eqn:Ek. intros [= <- <- <- <-] _.
    exists [], k. rewrite Ek. split_and!; [done|done|constructor|done|].
    by destruct state as [[]|].
Qed.

(** A drain hands back a shorter list of receives, and ends where they do. *)
Definition ends (ev : PlaneEvent) : bool :=
  match ev with PlaneEof | PlaneReadError _ | PlaneDisconnected => true | _ => false end.

Lemma drain_progress frames p e k :
  existsb ends frames = true ->
  match (drain_then_decide frames p e k).1.1 with
  | Some (DecideExit _, _) => True
  | Some (DecideStay, rest) => existsb ends rest = true /\ length rest < length frames
  | None => False
  end.
Proof.
  revert p k. induction frames as [|ev frames IH]; intros p k; cbn [existsb drain_then_decide]; [done|].
  destruct ev; cbn [ends orb]; try done; intros He.
  - unfold kbind at 1. destruct (plane_handle _ _ _ p e k) as [[[u|er] p1] k1]; [|done].
    specialize (IH p1 k1 He). destruct (drain_then_decide frames p1 e k1) as [[[[[ex|] rest]|] p2] k2];
      cbn in *; [done|split; [tauto|lia]|done].
  - specialize (IH p k0 He). destruct (drain_then_decide frames p e k0) as [[[[[ex|] rest]|] p2] k2];
      cbn in *; [done|split; [tauto|lia]|done].
  - unfold kbind. destruct (on_host is_killed e k) as [[[]|] k1]; cbn; done || (split; [done|lia]).
Qed.

(** What a loop that left with [Unkilled] did. *)
Definition left_released (e : kenv) (flags : list bool) (frames : list PlaneEvent) (p : Plane) (k : khost)
    (p' : Plane) (k' : khost) : Prop :=
  exists pre drained rest p1 k1 k2 j,
    frames = pre ++ drained ++ PlaneTimeout :: rest /\ forallb buffered drained = true /\
    served e pre p k p1 k1 /\ served e drained p1 k1 p' k2 /\
    j <= length pre /\ flags !! j = Some true /\ on_host is_killed e k2 = (Ok false, k').

Lemma left_released_after e flags pre frames p k p1 k1 p' k' :
  served e pre p k p1 k1 -> 0 < length pre -> left_released e (tail flags) frames p1 k1 p' k' ->
  left_released e flags (pre ++ frames) p k p' k'.
Proof.
  intros Hs Hl (pre' & drained & rest & p2 & k2 & k3 & j & -> & Hb & Hpre & Hdr & Hj & Hf & Hk).
  exists (pre ++ pre'), drained, rest, p2, k2, k3, (S j).
  rewrite <- app_assoc, length_app. repeat split; [done|by eapply served_app|done|lia|by destruct flags|done].
Qed.

Lemma receive_Unkilled fuel flags ev pre rest p e k p1 k1 p' k' :
  (forall rest p k, control_plane_loop fuel (tail flags) rest p e k = ((Some Unkilled, p'), k') ->
     left_released e (tail flags) rest p k p' k') ->
  served e pre p k p1 k1 ->
  match ev with
  | PlaneElsewhere k => control_plane_loop fuel (tail flags) rest p1 e k
  | PlaneFrame frame now nonce =>
      (do! r := plane_handle frame now nonce p1 in
       let '(handled, p) := r in
       match handled with
       | Err _ => kret (Some StdinClosed, p)
       | Ok _ => control_plane_loop fuel (tail flags) rest p
       end) e k1
  | PlaneEof | PlaneReadError _ | PlaneDisconnected => ((Some StdinClosed, p1), k1)
  | PlaneTimeout => control_plane_loop fuel (tail flags) rest p1 e k1
  end = ((Some Unkilled, p'), k') ->
  left_released e flags (pre ++ ev :: rest) p k p' k'.
Proof.
  intros IH Hs. replace (pre ++ ev :: rest) with ((pre ++ [ev]) ++ rest) by by rewrite <- app_assoc.
  assert (forall p2 k2, served e [ev] p1 k1 p2 k2 ->
    control_plane_loop fuel (tail flags) rest p2 e k2 = ((Some Unkilled, p'), k') ->
    left_released e flags ((pre ++ [ev]) ++ rest) p k p' k') as Hgo.
  { intros p2 k2 H1 H. eapply left_released_after; [by eapply served_app|rewrite length_app; cbn; lia|].
    by apply IH. }
  destruct ev as [frame now nonce|k2| | | |]; try (by intros [=]); [|intros H; eapply Hgo; [|exact H]; eauto..].
  unfold kbind. destruct (plane_handle frame now nonce p1 e k1) as [[[[]|er] p2] k2] eqn:Eh; [|by intros [=]].
  intros H; eapply Hgo; [|exact H]; eauto.
Qed.

Lemma loop_Unkilled fuel flags frames p e k p' k' :
  control_plane_loop fuel flags frames p e k = ((Some Unkilled, p'), k') ->
  left_released e flags frames p k p' k'.
Proof.
  revert flags frames p k. induction fuel as [|fuel IH]; intros flags frames p k; cbn [control_plane_loop];
    [by intros [=]|].
  unfold kbind at 1. destruct (default false (head flags)) eqn:Eh.
  - destruct (drain_then_decide frames p e k) as [[[[d rest]|] p1] k1] eqn:Ed; [|by intros [=]].
    assert (d = DecideExit StdinClosed \/ d <> DecideExit StdinClosed) as [->|Hd]
      by (destruct d as [[]|]; [left|right|right]; done); [by intros [=]|].
    destruct (drain_decided _ _ _ _ _ _ _ _ Ed Hd) as (drained & k2 & -> & Hb & Hs & -> & Hu).
    destruct d as [exit|].
    + intros [= -> <- <-]. exists [], drained, rest, p, k, k2, 0.
      split_and!; [done|done|constructor|done|lia|by destruct flags as [|[]]|].
      rewrite <- (proj1 Hu eq_refl). apply surjective_pairing.
    + intros H. replace (drained ++ PlaneTimeout :: rest) with ((drained ++ [PlaneTimeout]) ++ rest)
        by by rewrite <- app_assoc.
      assert (served e (drained ++ [PlaneTimeout]) p k p1 (on_host is_killed e k2).2) as Hs'
        by (eapply served_app; eauto).
      destruct rest as [|ev rest]; [by injection H|].
      eapply receive_Unkilled; [|exact Hs'|destruct ev; exact H]. eauto.
  - unfold kret at 1. destruct frames as [|ev rest]; [by intros [=]|]. intros H.
    apply (receive_Unkilled fuel flags ev [] rest p e k p k); eauto. destruct ev; exact H.
Qed.

(** A raised flag: the loop drains to the quiet pipe, leaves if the switch then reads
    released, and otherwise goes on as if the flag had not been raised. *)
Lemma loop_exact fuel flags e drained rest p k p1 k1 :
  forallb buffered drained = true -> served e drained p k p1 k1 ->
  control_plane_loop (S fuel) (true :: flags) (drained ++ PlaneTimeout :: rest) p e k =
  match on_host is_killed e k1 with
  | (Ok false, k2) => ((Some Unkilled, p1), k2)
  | (_, k2) => control_plane_loop (S fuel) (false :: flags) rest p1 e k2
  end.
Proof.
  intros Hb Hs. cbn [control_plane_loop head tail]. change (default false (Some true)) with true.
  unfold kbind at 1. cbv beta iota.
  rewrite (drain_exact _ _ _ _ _ _ rest Hb Hs).
  destruct (on_host is_killed e k1) as [[[]|] k2]; reflexivity.
Qed.

(** One receive of the loop, after the flag was looked at. *)
Lemma loop_ends fuel flags frames p e k :
  existsb ends frames = true -> length frames < fuel ->
  is_Some (control_plane_loop fuel flags frames p e k).1.1.
Proof.
  revert flags frames p k. induction fuel as [|fuel IH]; intros flags frames p k He Hl; [lia|].
  assert (forall rest p1 k1, existsb ends rest = true -> length rest <= fuel ->
    is_Some ((match rest with
     | [] => kret (None, p1)
     | PlaneElsewhere k :: rest => fun e _ => control_plane_loop fuel (tail flags) rest p1 e k
     | PlaneFrame frame now nonce :: rest =>
         do! r := plane_handle frame now nonce p1 in
         let '(handled, p) := r in
         match handled with
         | Err _ => kret (Some StdinClosed, p)
         | Ok _ => control_plane_loop fuel (tail flags) rest p
         end
     | (PlaneEof | PlaneReadError _ | PlaneDisconnected) :: _ => kret (Some StdinClosed, p1)
     | PlaneTimeout :: rest => control_plane_loop fuel (tail flags) rest p1
     end) e k1).1.1) as Hnext.
  { intros [|ev rest] p1 k1 Hr Hlen; [done|]. cbn in Hlen.
    destruct ev; cbn in Hr; try (by eexists); try (apply IH; [done|lia]).
    unfold kbind. destruct (plane_handle _ _ _ p1 e k1) as [[[u|er] p2] k2]; [apply IH; [done|lia]|].
    by eexists. }
  cbn [control_plane_loop]. unfold kbind at 1. destruct (default false (head flags)).
  - pose proof (drain_progress frames p e k He) as Hd.
    destruct (drain_then_decide frames p e k) as [[[[[exit|] rest]|] p1] k1]; cbn [fst] in Hd;
      [by eexists| |done].
    apply Hnext; [tauto|lia].
  - unfold kret at 1. apply Hnext; [done|lia].
Qed.

(** * Lemmas: what a frame may do to the records *)

(** The host's view of its records: [EnrollmentKey::lookup] answers from the keys. *)
Definition view (e : kenv) (k : khost) : world :=
  let w := kh_world k in
  mkWorld (w_trust w) (w_policy w) (w_history w) (w_lang w)
    (map_err enclave_error_display (option_map signer <$> (lookup_key e k).1)) (w_audit w) (w_now w).

Lemma on_host_view {A} (m : host A) e k a k' :
  on_host m e k = (a, k') -> m (ke_env e) (view e k) = (a, kh_world k').
Proof.
  unfold on_host. change (mkWorld _ _ _ _ _ _ _) with (view e k).
  destruct (m (ke_env e) (view e k)) as [a1 w1] eqn:E. by intros [= <- <-].
Qed.

(** The trust record reads as before, but for its epochs. *)
Definition trust_kept (w w' : world) : Prop :=
  forall t, trust_current (w_trust w) = Ok t -> exists t', trust_current (w_trust w') = Ok t' /\
    killed t' = killed t /\ clients t' = clients t /\ enrollments t' = enrollments t.

Lemma trust_kept_same w w' : w_trust w' = w_trust w -> trust_kept w w'.
Proof. intros H t Ht. rewrite H. eauto. Qed.

Lemma trust_kept_trans w1 w2 w3 : trust_kept w1 w2 -> trust_kept w2 w3 -> trust_kept w1 w3.
Proof.
  intros H1 H2 t Ht. destruct (H1 t Ht) as (t' & Ht' & ? & ? & ?).
  destruct (H2 t' Ht') as (t'' & Ht'' & ? & ? & ?). exists t''. split_and!; congruence.
Qed.

Lemma mutate_kept scope e w r w' :
  mutate_locked scope (fun t => t) e w = (r, w') -> trust_kept w w'.
Proof.
  intros H. destruct r as [t|].
  - apply mutate_locked_Ok in H as (t0 & t1 & Ht & Hb & -> & ->). intros t Ht'.
    rewrite Ht in Ht'. injection Ht' as <-. exists t1. split; [done|].
    apply bumped_Ok in Hb as (_ & Hk & Hc & He & _). done.
  - apply mutate_locked_Err in H as ->. by apply trust_kept_same.
Qed.

Lemma bump_kept e w u w' : bump_policy_epoch_locked e w = (u, w') -> trust_kept w w'.
Proof.
  unfold bump_policy_epoch_locked, hbind. destruct (mutate_locked _ _ e w) as [r w1] eqn:E.
  intros [= _ <-]. by eapply mutate_kept.
Qed.

Lemma push_history_kept prev e w u w' : push_history_locked prev e w = (u, w') -> w_trust w' = w_trust w.
Proof.
  unfold push_history_locked, load_history, now_unix, asks, write_history, hbind, hret. cbn.
  destruct (slot_write _ _ (w_history w)) as [r s]. by intros [= _ <-].
Qed.

Lemma restrict_locked_kept overlay over e w u w' :
  restrict_locked overlay over e w = (Ok u, w') -> trust_kept w w'.
Proof.
  unfold restrict_locked, load_policy, hmap_err, asks, htry, hbind at 1 2. cbn [hret].
  destruct (slot_load (w_policy w)) as [[prev|]|]; cbn [map_err]; [|done..].
  case_match; [done|]. unfold hbind at 1, hret at 1.
  destruct (baseline_doc prev) as [doc|]; cbn [map_err]; [|done]. unfold hbind at 1, hret at 1.
  destruct (effective prev) as [eff|]; cbn [map_err]; [|done]. unfold hbind at 1, hret at 1.
  destruct (validate_overlay_tools _) as [[]|]; [|done].
  destruct (restricts_or_equal _ eff); cbn [negb]; [|done].
  unfold hbind at 1 2. destruct (write_policy _ e w) as [[[]|e1] w1] eqn:Ew; [|done].
  apply write_policy_Ok in Ew as ->. unfold hret at 1. cbn [map_err]. unfold hbind.
  destruct (bump_policy_epoch_locked e _) as [[] w2] eqn:Eb. apply bump_kept in Eb.
  destruct (push_history_locked prev e w2) as [[] w3] eqn:Ep. apply push_history_kept in Ep.
  intros [= _ <-]. eapply trust_kept_trans; [exact Eb|]. by apply trust_kept_same.
Qed.

Lemma restrict_with_kept overlay over surface e w r w' :
  restrict_with overlay over surface e w = (r, w') -> trust_kept w w'.
Proof.
  intros H. destruct r as [u|err]; [|apply restrict_with_Err in H as (H & _); by apply trust_kept_same].
  apply restrict_with_split in H as (w1 & H & (Hs & _)).
  apply locked_io_cases in H as [H|[[er Hc] _]]; [|discriminate Hc].
  eapply trust_kept_trans; [by eapply restrict_locked_kept|]. by apply trust_kept_same.
Qed.

Lemma clear_baseline_kept e w r w' : clear_baseline_locked e w = (r, w') -> trust_kept w w'.
Proof.
  unfold clear_baseline_locked, htry at 1, hbind at 1, load_policy, asks.
  destruct (slot_load (w_policy w)) as [[prev|]|]; [|by intros [= _ <-]; apply trust_kept_same..].
  unfold hbind at 1. destruct (push_history_locked prev e w) as [u w1] eqn:Ep.
  apply push_history_kept in Ep. unfold htry at 1, hbind at 1, remove_policy.
  destruct (slot_remove _ (w_policy w1)) as [[[]|er] s]; [|intros [= _ <-]; by apply trust_kept_same].
  unfold hbind. destruct (bump_policy_epoch_locked e _) as [[] w2] eqn:Eb. apply bump_kept in Eb.
  intros [= _ <-]. eapply trust_kept_trans; [|exact Eb]. by apply trust_kept_same.
Qed.

Lemma lang_set_kept value e w r w' :
  Lang.set value e w = (r, w') -> trust_kept w w' /\ w_policy w' = w_policy w.
Proof.
  unfold Lang.set, with_runtime_lock. destruct (e_lock e); [by intros [= _ <-]; split; [apply trust_kept_same|]|].
  unfold set_locked, htry at 1, hbind at 1, load_lang, asks.
  destruct (slot_load (w_lang w)) as [store|]; [|by intros [= _ <-]; split; [apply trust_kept_same|]].
  destruct (lang_or_default store) as [v0 seq0].
  destruct (String.eqb v0 value); [by intros [= _ <-]; split; [apply trust_kept_same|]|].
  unfold htry at 1, hbind at 1, hret at 1.
  destruct (ok_or _ SEQ_OVERFLOW) as [s|]; [|by intros [= _ <-]; split; [apply trust_kept_same|]].
  unfold htry at 1, hbind at 1, write_lang.
  destruct (slot_write _ _ (w_lang w)) as [[[]|er] sl]; [|by intros [= _ <-]; split; [apply trust_kept_same|]].
  unfold hbind. destruct (mutate_locked ScopeLang _ e _) as [rm w2] eqn:Em. intros [= _ <-]. split.
  - eapply trust_kept_trans; [|by eapply mutate_kept]. by apply trust_kept_same.
  - destruct rm; [apply mutate_locked_Ok in Em as (? & ? & _ & _ & _ & ->)|
      apply mutate_locked_Err in Em as ->]; done.
Qed.

(** The step adds no capability: the kill switch is not released, no client is
    admitted and no credential enrolled that was not before, enforcement does not
    lapse, and the policy is the one before, cleared, or one no field of which is
    more permissive. *)
Definition trust_grants_nothing (t t' : Trust) : Prop :=
  (killed t = true -> killed t' = true) /\
  (is_paired (clients t) = true -> is_paired (clients t') = true) /\
  (forall c, c ∈ paired_entries (clients t') -> c ∈ paired_entries (clients t)) /\
  (forall en, en ∈ enrollments t' -> en ∈ enrollments t).

Definition policy_grants_nothing (w w' : world) : Prop :=
  w_policy w' = w_policy w \/ w_policy w' = Absent \/
  exists prev next eff eff', w_policy w = Stored prev /\ w_policy w' = Stored next /\
    effective prev = Ok eff /\ effective next = Ok eff' /\ restricts_or_equal eff' eff = true.

Definition grants_nothing (w w' : world) : Prop :=
  (forall t, trust_current (w_trust w) = Ok t ->
     exists t', trust_current (w_trust w') = Ok t' /\ trust_grants_nothing t t') /\
  policy_grants_nothing w w'.

Lemma kept_grants_nothing w w' :
  trust_kept w w' -> policy_grants_nothing w w' -> grants_nothing w w'.
Proof.
  intros Hk Hp. split; [|done]. intros t Ht. destruct (Hk t Ht) as (t' & Ht' & Hki & Hc & He).
  exists t'. split; [done|]. unfold trust_grants_nothing. rewrite Hki, Hc, He. done.
Qed.

Lemma same_records_grant_nothing w w' : same_records w w' -> grants_nothing w w'.
Proof.
  intros (Ht & Hp & _). apply kept_grants_nothing; [by apply trust_kept_same|by left].
Qed.

Lemma audit_browsers_policy surface l e w : w_policy (audit_browsers_revoked surface l e w).2 = w_policy w.
Proof. revert w. induction l as [|x l IH]; intros w; [done|]. exact (IH (add_audit _ w)). Qed.

Lemma revoke_browser_grants_nothing label surface e w rv w' :
  revoke_browser label surface e w = (Ok rv, w') -> grants_nothing w w'.
Proof.
  intros H. pose proof H as (t0 & t1 & Ht & Hb & Hr & _ & Hw & _)%revoke_browser_cases. split.
  - intros t Ht'. rewrite Ht in Ht'. injection Ht' as <-. exists (br_trust rv). rewrite Hw. split; [done|].
    apply bumped_Ok in Hb as (_ & Hk & Hc & He & _). unfold revoke_browser_enrollments in Hr.
    injection Hr as _ <-. unfold trust_grants_nothing. cbn. rewrite Hk, Hc. split_and!; try done.
    intros en Hen. apply elem_of_bfilter in Hen as [Hen _]. by rewrite <- He.
  - left. unfold revoke_browser, htry at 1, hbind at 1, hmap_err, hbind at 1, with_runtime_lock in H.
    destruct (e_lock e); [done|].
    destruct (revoke_browser_locked label e w) as [[[rv'|]|] w1] eqn:El; cbn in H; try done.
    apply revoke_browser_locked_cases in El as (? & ? & _ & _ & _ & _ & ->).
    unfold hbind in H. pose proof (audit_browsers_policy surface (br_forgotten rv') e
      (set_trust (Stored (br_trust rv')) w)) as Hp.
    destruct (audit_browsers_revoked _ _ e _) as [[] w2]. injection H as _ <-. exact Hp.
Qed.

Lemma revoke_grants_nothing name surface e w r w' :
  revoke name surface e w = (r, w') -> grants_nothing w w'.
Proof.
  intros Er. unfold revoke, htry, hbind, with_runtime_lock in Er.
  destruct (e_lock e); [injection Er as _ <-; by apply same_records_grant_nothing|].
  destruct (revoke_locked name e w) as [[[]|] w2] eqn:El; apply revoke_locked_cases in El;
    injection Er as _ <-.
  - destruct El as (t0 & t1 & Ht & Hb & Hp & ->). split; [|by left].
    intros t Ht'. rewrite Ht in Ht'. injection Ht' as <-. eexists. split; [reflexivity|].
    apply bumped_Ok in Hb as (_ & Hk & Hc & He & _). unfold revoke_name, trust_grants_nothing.
    rewrite Hc. destruct (clients t0) as [|l]; [discriminate Hp|]. cbn. rewrite Hk, He.
    split_and!; try done. intros c Hcc. by apply elem_of_bfilter in Hcc as [Hcc _].
  - destruct El as [-> _]. by apply same_records_grant_nothing.
  - subst. by apply same_records_grant_nothing.
Qed.

Lemma client_revoke_grants_nothing name e w reply w' :
  admin_client_revoke name e w = (reply, w') -> grants_nothing w w'.
Proof.
  unfold admin_client_revoke. destruct (validate_label name); cbn [negb];
    [|intros [= _ <-]; by apply same_records_grant_nothing].
  unfold hbind at 1. destruct (revoke name SurfExtension e w) as [r w1] eqn:Er. intros [= _ <-].
  by eapply revoke_grants_nothing.
Qed.

Lemma engage_grants_nothing surface e w r w' : engage surface e w = (r, w') -> grants_nothing w w'.
Proof.
  unfold engage, htry, hbind, set_killed_locked, hbind, with_runtime_lock, hret.
  destruct (e_lock e); [intros [= _ <-]; by apply same_records_grant_nothing|].
  destruct (mutate_locked _ _ e w) as [[t|] w1] eqn:Em; cbn; intros [= _ <-].
  - apply mutate_locked_Ok in Em as (t0 & t1 & Ht & Hb & -> & ->). split; [|by left].
    intros t Ht'. rewrite Ht in Ht'. injection Ht' as <-. eexists. split; [reflexivity|].
    apply bumped_Ok in Hb as (_ & Hk & Hc & He & _). unfold trust_grants_nothing. cbn. by rewrite Hc, He.
  - apply mutate_locked_Err in Em as ->. by apply same_records_grant_nothing.
Qed.

Lemma kill_engage_grants_nothing e w reply w' :
  handle_kill_engage e w = (reply, w') -> grants_nothing w w'.
Proof.
  unfold handle_kill_engage, hbind at 1. destruct (engage SurfExtension e w) as [r w1] eqn:E. intros [= _ <-].
  by eapply engage_grants_nothing.
Qed.

Lemma lang_frame_same e w r w' : lang_current_frame e w = (r, w') -> w' = w.
Proof. unfold lang_current_frame, load_current, hbind, load_lang, asks, hret. by intros [= _ <-]. Qed.

Lemma lang_set_grants_nothing value e w r w' :
  handle_lang_set value e w = (r, w') -> grants_nothing w w'.
Proof.
  unfold handle_lang_set. destruct (UiLang_parse value) as [v|];
    [|intros H; apply lang_frame_same in H as ->; by apply same_records_grant_nothing].
  unfold hbind at 1. destruct (Lang.set v e w) as [rs w1] eqn:Es. apply lang_set_kept in Es as [Hk Hp].
  intros H. assert (w' = w1) as ->.
  { destruct rs as [[]|]; [by injection H|by apply lang_frame_same in H]. }
  apply kept_grants_nothing; [done|by left].
Qed.

(** A disposal grants nothing where its edit of the trust record does not. *)
Lemma dispose_grants_nothing {T} (edit : Trust -> T * Trust) e k r k' :
  (forall t, trust_grants_nothing t (edit t).2) ->
  dispose_under_lock edit e k = (r, k') -> grants_nothing (kh_world k) (kh_world k').
Proof.
  intros Hedit. unfold dispose_under_lock, kbind at 1, key_lock.
  destruct (e_lock (ke_env e)); [intros [= _ <-]; by apply same_records_grant_nothing|].
  unfold dispose_locked, kbind at 1. destruct (revoke_key e k) as [[rv|er] k2] eqn:Er;
    apply revoke_key_cases in Er; [|subst; intros [= _ <-]; by apply same_records_grant_nothing].
  destruct Er as (_ & Hw & _). unfold kbind at 1.
  destruct (on_host clear_baseline_locked e k2) as [rb k3] eqn:Eb. apply on_host_view in Eb.
  unfold kbind at 1. destruct (on_host (mutate_locked_with _ _) e k3) as [rt k4] eqn:Et.
  apply on_host_view in Et. intros [= _ <-]. rewrite <- Hw.
  assert (w_policy (kh_world k4) = w_policy (kh_world k3)) as Hp4.
  { destruct rt as [[t out]|]; [apply mutate_locked_with_Ok in Et as (t0 & t1 & _ & _ & _ & ->)|
      apply mutate_locked_with_Err in Et as ->]; done. }
  pose proof (clear_baseline_kept _ _ _ _ Eb) as Hk3. split.
  - intros t Ht. destruct (Hk3 t Ht) as (t' & Ht' & Hki & Hc & He). destruct rt as [[t2 out]|].
    + apply mutate_locked_with_Ok in Et as (t0 & t1 & Ht0 & Hb & Hed & ->). exists t2. split; [done|].
      cbn [view w_trust] in Ht0. rewrite Ht' in Ht0. injection Ht0 as <-. apply bumped_Ok in Hb as (_ & Hk1 & Hc1 & He1 & _).
      specialize (Hedit t1). rewrite Hed in Hedit. cbn [snd] in Hedit. unfold trust_grants_nothing in *.
      by rewrite Hk1, Hc1, He1, Hki, Hc, He in Hedit.
    + apply mutate_locked_with_Err in Et as ->. exists t'. split; [done|]. unfold trust_grants_nothing. by rewrite Hki, Hc, He.
  - apply clear_baseline_cases in Eb. unfold policy_grants_nothing. rewrite Hp4. destruct rb; [by right; left|by left].
Qed.

Lemma key_revoke_grants_nothing e k reply k' :
  revoke_host_key e k = (reply, k') -> grants_nothing (kh_world k) (kh_world k').
Proof.
  unfold revoke_host_key, dispose_enrollment_and_policy_baseline, kbind at 1, ktry, kbind at 1.
  pose proof (dispose_grants_nothing (fun t => (tt, t)) e k _ _ ltac:(done) (surjective_pairing _)) as Hd.
  destruct (dispose_under_lock _ e k) as [[d|er] k1]; cbn [snd] in Hd; [|by intros [= _ <-]].
  unfold kret at 1, kbind, audit_host_key_revoke, on_host, audit_record. intros [= _ <-]. exact Hd.
Qed.

(** The requests the exchange serves. *)
Definition exchange_request (r : HostRequest) : option ExRequest :=
  match r with
  | RqEnrollBegin => Some ExEnrollBegin
  | RqEnrollFinish a c => Some (ExEnrollFinish (Registration_from_base64url a c))
  | RqPresenceBegin action origin => Some (ExPresenceBegin action origin)
  | RqPresenceAssert i a c s => Some (ExPresenceAssert i (Assertion_from_base64url a c s))
  | RqPresenceConfirm n => Some (ExPresenceConfirm n)
  | RqBrowserRevoke => Some ExBrowserRevoke
  | RqClientPair name anchor => Some (ExClientPair name anchor)
  | RqKillRelease => Some ExKillRelease
  | RqPolicySet overlay => Some (ExPolicySet overlay)
  | RqPolicyRollback revision entry => Some (ExPolicyRollback revision entry)
  | _ => None
  end.

Lemma request_via_exchange r q x now nonce :
  exchange_request r = Some q -> request_replies r x now nonce = on_host (handle_request x q now nonce).
Proof.
  destruct r; cbv beta iota delta [exchange_request request_replies]; intros H; try discriminate H;
    injection H as <-; cbv beta iota delta [handle_request]; reflexivity.
Qed.

Lemma rollback_grants_nothing x revision entry now nonce e w replies x' w' :
  handle_request x (ExPolicyRollback revision entry) now nonce e w = ((replies, x'), w') ->
  grants_nothing w w'.
Proof.
  intros H. cbv beta iota delta [handle_request] in H.
  apply (wp_elim _ _ _ _ _ _ (policy_rollback_cases x revision entry nonce e w)) in H
    as [_ [Hs|(ov & over & Hr & _)]]; [by apply same_records_grant_nothing|].
  apply kept_grants_nothing; [by eapply restrict_with_kept|].
  apply restrict_with_Ok in Hr as (prev & next & eff & eff' & H1 & H2 & H3 & H4 & H5 & _).
  right; right. by exists prev, next, eff, eff'.
Qed.

(** A step of the exchange that is no answer grants nothing. *)
Lemma exchange_grants_nothing x q now nonce e w replies x' w' :
  handle_request x q now nonce e w = ((replies, x'), w') ->
  grants_nothing w w' \/ is_answer q = true /\ step_effect x q e w w'.
Proof.
  intros H. destruct (is_answer q) eqn:Ea.
  - apply (wp_elim _ _ _ _ _ _ (handle_request_post x q now nonce e w)) in H as [_ [Hs|Hs]];
      [left; by apply same_records_grant_nothing|by right].
  - left. destruct q; try discriminate Ea; try (by eapply rollback_grants_nothing);
      apply (wp_elim _ _ _ _ _ _ (handle_request_post _ _ now nonce e w)) in H as [_ [Hs|Hs]];
      try (by apply same_records_grant_nothing); cbn [step_effect] in Hs; try done.
    destruct Hs as [rv Hs]. by eapply revoke_browser_grants_nothing.
Qed.

Lemma answer_one_grants_nothing x m e k replies x' k' :
  (forall a k1, m e k = (a, k1) -> grants_nothing (kh_world k) (kh_world k1)) ->
  answer_one x m e k = ((replies, x'), k') -> grants_nothing (kh_world k) (kh_world k').
Proof.
  intros Hm. unfold answer_one, kbind. destruct (m e k) as [a k1] eqn:E. intros [= _ _ <-]. by eapply Hm.
Qed.

Lemma on_host_grants_nothing {A} (m : host A) e k a k' :
  (forall e w a w', m e w = (a, w') -> grants_nothing w w') ->
  on_host m e k = (a, k') -> grants_nothing (kh_world k) (kh_world k').
Proof. intros Hm H. apply on_host_view in H. by apply Hm in H. Qed.

Lemma read_grants_nothing {A} (m : host A) e k a k' :
  (forall e w, (m e w).2 = w) -> on_host m e k = (a, k') -> grants_nothing (kh_world k) (kh_world k').
Proof.
  intros Hm. apply on_host_grants_nothing. intros e' w a' w' H. specialize (Hm e' w). rewrite H in Hm.
  cbn in Hm. subst w'. by apply same_records_grant_nothing.
Qed.

Lemma host_read_same {A B} (f : world -> A) (g : A -> B) e w :
  ((let! a := asks f in hret (g a)) e w).2 = w.
Proof. done. Qed.

Lemma policy_restrict_grants_nothing overlay (x : Exchange) e w a w' :
  (let! r := restrict_ overlay SurfExtension in
   let! replies := restrict_replies r LanePolicyRestrict in
   hret (replies, x)) e w = (a, w') -> grants_nothing w w'.
Proof.
  unfold hbind at 1, restrict_. destruct (restrict_with overlay None SurfExtension e w) as [r w1] eqn:Er.
  intros H. assert (w' = w1) as ->.
  { unfold hbind in H. destruct r; [|by injection H].
    unfold restrict_replies, policy_current_reply, load_policy, hbind, asks, hret in H. by injection H. }
  apply kept_grants_nothing; [by eapply restrict_with_kept|].
  destruct r as [u|err]; [|apply restrict_with_Err in Er as (_ & Hp & _); by left].
  apply restrict_with_Ok in Er as (prev & next & eff & eff' & H1 & H2 & H3 & H4 & H5 & _).
  right; right. by exists prev, next, eff, eff'.
Qed.

Lemma challenge_same nonce context e k : (respond_to_challenge nonce context e k).2 = k.
Proof.
  unfold respond_to_challenge, challenge_proof, kbind at 1, ktry at 1, kbind at 1, kret at 1.
  destruct (challenge_message nonce context) as [m|]; [|done].
  unfold ktry, kbind. pose proof (lookup_key_same e k) as Hk.
  destruct (lookup_key e k) as [[[key|]|er] k1]; cbn in Hk; subst k1; cbn; [|done..].
  by destruct (sign_message key m).
Qed.

(** Frames the host answers without the exchange grant nothing. *)
Lemma plain_grants_nothing r x now nonce e k replies x' k' :
  exchange_request r = None ->
  request_replies r x now nonce e k = ((replies, x'), k') -> grants_nothing (kh_world k) (kh_world k').
Proof.
  destruct r; cbv beta iota delta [exchange_request request_replies]; intros Hn; try discriminate Hn.
  - apply answer_one_grants_nothing. intros a k1 H. pose proof (challenge_same nonce0 context e k) as Hs.
    rewrite H in Hs. cbn in Hs. subst k1. by apply same_records_grant_nothing.
  - apply answer_one_grants_nothing. intros a k1. apply key_revoke_grants_nothing.
  - apply answer_one_grants_nothing. intros a k1. apply read_grants_nothing. intros; apply host_read_same.
  - apply answer_one_grants_nothing. intros a k1. apply on_host_grants_nothing.
    intros e' w a' w'. apply client_revoke_grants_nothing.
  - apply answer_one_grants_nothing. intros a k1. apply read_grants_nothing. done.
  - apply answer_one_grants_nothing. intros a k1. apply on_host_grants_nothing.
    intros e' w a' w'. apply kill_engage_grants_nothing.
  - apply on_host_grants_nothing. intros e' w a w' H. injection H as _ <-. by apply same_records_grant_nothing.
  - apply answer_one_grants_nothing. intros a k1 [= _ <-]. by apply same_records_grant_nothing.
  - apply answer_one_grants_nothing. intros a k1 [= _ <-]. by apply same_records_grant_nothing.
  - apply answer_one_grants_nothing. intros a k1 [= _ <-]. by apply same_records_grant_nothing.
  - apply answer_one_grants_nothing. intros a k1 [= _ <-]. by apply same_records_grant_nothing.
  - apply answer_one_grants_nothing. intros a k1. apply read_grants_nothing. done.
  - apply on_host_grants_nothing. intros e' w a w'. apply policy_restrict_grants_nothing.
  - apply answer_one_grants_nothing. intros a k1. apply read_grants_nothing. done.
  - unfold answer_opt, kbind. destruct (on_host lang_current_frame e k) as [a k1] eqn:E.
    intros [= _ _ <-]. revert E. apply read_grants_nothing. done.
  - unfold answer_opt, kbind. destruct (on_host (handle_lang_set value) e k) as [a k1] eqn:E.
    intros [= _ _ <-]. revert E. apply on_host_grants_nothing. intros e' w a' w'. apply lang_set_grants_nothing.
Qed.

(** * Properties *)

(** C39: No control frame grants anything without an answered presence request.
    Whatever the extension sends, in whatever state, the frame either grants nothing
    (the kill switch stays engaged if it was, enforcement does not lapse, no client
    or credential is added, and the policy stays, is cleared, or relaxes
    no field), or it is an answer: of a presence request that was outstanding and
    is attested, doing the act it held, or of an outstanding enrollment by a
    registration its statement verifies. *)
Theorem frames_grant_nothing_without_presence (frame : json) (out out' : list HostReply)
    (x x' : Exchange) (now : Z) (nonce : result io_error string) (e : kenv) (k k' : khost)
    (inbound : result io_error Inbound) :
  handle_control_frame frame out x now nonce e k = ((inbound, out', x'), k') ->
  grants_nothing (kh_world k) (kh_world k') \/
  exists r q, classify_nm_frame frame = Handle r /\ exchange_request r = Some q /\
    is_answer q = true /\ step_effect x q (ke_env e) (view e k) (kh_world k').
Proof.
  unfold handle_control_frame. destruct (classify_nm_frame frame) as [|r|tag er] eqn:Ec.
  - intros [= _ _ _ <-]. left. by apply same_records_grant_nothing.
  - unfold kbind at 1. destruct (request_replies r x now nonce e k) as [[replies x1] k1] eqn:Er.
    destruct (write_replies fault out replies) as [written out1]. intros [= _ _ _ <-].
    destruct (exchange_request r) as [q|] eqn:Eq.
    + rewrite (request_via_exchange r q) in Er by done. apply on_host_view in Er.
      apply exchange_grants_nothing in Er as [Hg|[Ha Hs]]; [left; exact Hg|right]. by exists r, q.
    + left. by eapply plain_grants_nothing.
  - intros H. left. destruct (malformed_reply tag) as [|reply|].
    + injection H as _ _ _ <-. by apply same_records_grant_nothing.
    + destruct (write_control_reply fault out reply) as [written out1]. injection H as _ _ _ <-.
      by apply same_records_grant_nothing.
    + unfold kbind in H. destruct (on_host lang_current_frame e k) as [reply k1] eqn:E.
      assert (k' = k1) as ->.
      { destruct reply as [reply|]; [|by injection H].
        destruct (write_control_reply fault out reply). by injection H. }
      revert E. apply read_grants_nothing. done.
Qed.

(** C40: The killed bridge is left only when it is released. The control-plane loop
    ends with [Unkilled] only as follows: after some receives, all served, a look at
    the watch's flag found it raised; then everything buffered was received and
    handled, its replies written, until the pipe went quiet; and the record, read
    after all of that, says released. Conversely, a raised flag followed by buffered
    frames and a quiet pipe settles the matter by the switch as those frames left it:
    released, the loop ends with [Unkilled] there; engaged again or unreadable, it goes
    on over the remaining receives as though the flag had not been raised. And it does
    end: when standard input ends, after at most one more iteration than there were
    receives. *)
Theorem control_plane_waits_for_a_release (flags : list bool) (frames : list PlaneEvent) (p : Plane)
    (e : kenv) (k : khost) (fuel : nat) :
  (forall p' k', control_plane_loop fuel flags frames p e k = ((Some Unkilled, p'), k') ->
     exists pre drained rest p1 k1 k2 j,
       frames = pre ++ drained ++ PlaneTimeout :: rest /\ forallb buffered drained = true /\
       served e pre p k p1 k1 /\ served e drained p1 k1 p' k2 /\
       j <= length pre /\ flags !! j = Some true /\ on_host is_killed e k2 = (Ok false, k') /\
       exists t, trust_current (w_trust (kh_world k2)) = Ok t /\ killed t = false) /\
  (forall drained rest p1 k1, forallb buffered drained = true -> served e drained p k p1 k1 ->
     control_plane_loop (S fuel) (true :: flags) (drained ++ PlaneTimeout :: rest) p e k =
     match trust_current (w_trust (kh_world k1)), on_host is_killed e k1 with
     | Ok t, (_, k2) =>
         if killed t then control_plane_loop (S fuel) (false :: flags) rest p1 e k2
         else ((Some Unkilled, p1), k2)
     | Err _, (_, k2) => control_plane_loop (S fuel) (false :: flags) rest p1 e k2
     end) /\
  (existsb ends frames = true -> length frames < fuel ->
     is_Some (control_plane_loop fuel flags frames p e k).1.1).
Proof.
  split_and!; [|intros drained rest p1 k1 Hb Hs|apply loop_ends].
  - intros p' k' H. destruct (loop_Unkilled _ _ _ _ _ _ _ _ H)
      as (pre & drained & rest & p1 & k1 & k2 & j & ? & ? & ? & ? & ? & ? & Hk).
    exists pre, drained, rest, p1, k1, k2, j. split_and!; try done. by eapply is_killed_reads.
  - rewrite (loop_exact _ _ _ _ _ _ _ _ _ Hb Hs), (is_killed_answer e k1).
    generalize (on_host is_killed e k1).2 as k2; intros k2.
    destruct (trust_current (w_trust (kh_world k1))) as [t|]; [|reflexivity].
    change (killed <$> Ok t) with (Ok (E := io_error) (killed t)). by destruct (killed t).
Qed.

(** Whether a history wrote under a scope. *)
Definition wrote (s : Trust.Scope) (ops : list trust_op) : bool :=
  existsb (fun op => bool_decide (op_scope op = s)) ops.

Lemma marker_moved s t ops t' m m' :
  run_ops t ops = Ok t' -> marker s t = Some m -> marker s t' = Some m' -> (m <= epoch t)%Z ->
  negb (m =? m')%Z = wrote s ops.
Proof.
  intros Hr Hm Hm' Hle. destruct (run_ops_marker _ _ _ _ _ Hr Hm) as [_ Hma].
  rewrite Hm' in Hma. injection Hma as ->.
  destruct (marker_after_moves s ops (epoch t) m Hle) as [_ Hi]. unfold wrote.
  destruct (existsb _ ops) eqn:Ee.
  - apply existsb_true_iff in Ee as (op & Hop & Hs). apply bool_decide_eq_true in Hs.
    apply negb_true_iff, Z.eqb_neq. intros E. apply (proj2 Hi); [by exists op|done].
  - rewrite existsb_false_iff in Ee. apply negb_false_iff, Z.eqb_eq.
    destruct (Z.eq_dec m (marker_after s ops (epoch t) m)) as [|Hne]; [done|exfalso].
    destruct (proj1 Hi) as (op & Hop & Hs); [done|]. specialize (Ee op Hop).
    by apply bool_decide_eq_false in Ee.
Qed.

Lemma push_unfaulted : (forall r, fault r = None) -> forall out r, push fault out r = out ++ [r].
Proof. intros Hf out r. unfold push, write_control_reply. by rewrite Hf. Qed.

Lemma push_lang_unfaulted e k out :
  (forall r, fault r = None) ->
  push_lang_current e k out = out ++ option_list (on_host lang_current_frame e k).1.
Proof.
  intros Hf. unfold push_lang_current. destruct (on_host lang_current_frame e k).1;
    cbn [option_list]; [by apply push_unfaulted|by rewrite app_nil_r].
Qed.

Lemma append_if (b : bool) (out l : list HostReply) :
  (if b then out ++ l else out) = out ++ (if b then l else []).
Proof. destruct b; [done|by rewrite app_nil_r]. Qed.

(** The watch misses nothing and invents nothing. Whatever writes happened to
    the trust record between two polls, the second poll pushes, in order: the
    revocation exactly if a host-key write happened and the key is verifiably gone,
    the kill state exactly if the switch was written, the policy exactly if the
    policy was, the language exactly if it was; and it hands a release over exactly
    if the switch was written and now reads released. *)
Theorem watch_misses_no_transition (t t' : Trust) (ops : list trust_op) (e : kenv) (k : khost)
    (out : list HostReply) (flag : option bool) :
  (forall r, fault r = None) -> run_ops t ops = Ok t' ->
  (host_key_epoch t <= epoch t)%Z -> (kill_epoch t <= epoch t)%Z ->
  (policy_epoch t <= epoch t)%Z -> (lang_epoch t <= epoch t)%Z ->
  watch_tick (Some (Watched_of t)) (Ok t') e k out flag =
    (Some (Watched_of t'),
     out ++ (if wrote ScopeHostKey ops && key_gone e k t' then [EnclaveRevoked] else [])
         ++ (if wrote ScopeKill ops then [(on_host kill_status_reply e k).1] else [])
         ++ (if wrote ScopePolicy ops then [(on_host policy_current_reply e k).1] else [])
         ++ (if wrote ScopeLang ops then option_list (on_host lang_current_frame e k).1 else []),
     if wrote ScopeKill ops && negb (killed t') then (fun _ => true) <$> flag else flag).
Proof.
  intros Hf Hr H1 H2 H3 H4. unfold watch_tick. cbn [Watched_of wd_host_key_epoch wd_kill_epoch
    wd_policy_epoch wd_lang_epoch].
  rewrite (marker_moved ScopeHostKey t ops t' _ _ Hr eq_refl eq_refl H1),
    (marker_moved ScopeKill t ops t' _ _ Hr eq_refl eq_refl H2),
    (marker_moved ScopePolicy t ops t' _ _ Hr eq_refl eq_refl H3),
    (marker_moved ScopeLang t ops t' _ _ Hr eq_refl eq_refl H4).
  unfold push_revoked, push_kill_status, push_policy_current.
  rewrite !(push_unfaulted Hf), (push_lang_unfaulted _ _ _ Hf), !append_if, <- !app_assoc. reflexivity.
Qed.
End handlers.

(** ** Witnesses *)

Module NativeHostExample.
#[local] Existing Instances PolicyExample.digest PolicyExample.trust_sized
  PolicyExample.policy_sized PolicyExample.history_sized WebAuthnExample.crypto CoseExample.lib
  AllowlistExample.debug ExchangeExample.origins EnclaveExample.p256 EnclaveExample.keyring
  EnclaveExample.key_sized.
#[export] Instance facts : HostFacts := {|
  wire_report _ := let row := mkDoctorRow "" [] in mkHealth "" "" row row row row "" "" true;
  audit_read _ _ := Ok ([], 0%Z, "audit.log");
  gather_manifests _ _ := Ok [];
  registration_fix _ _ := Ok [] |}.
#[export] Instance lang_sized : Sized LangStore := {| fits _ := true; too_large _ := invalid_data "" |}.

Definition written (_ : HostReply) : option io_error := None.
Definition frame (r : HostRequest) : json := JObj (request_ser r).
Definition x : Exchange := Exchange_new "chrome".

(** The extension engages the switch; the watch and the loop of a killed bridge. *)
Definition engaged := Eval vm_compute in
  handle_control_frame written (frame RqKillEngage) [] x 0 (Ok ExchangeExample.nonce) EnclaveExample.e
    EnclaveExample.bare.
Definition plane := Eval vm_compute in
  control_plane_loop written 4 [false; true] [PlaneFrame (frame RqKillStatus) 0 (Ok ""); PlaneTimeout; PlaneEof]
    (mkPlane x []) EnclaveExample.e EnclaveExample.bare.

Lemma engaged_eq :
  handle_control_frame written (frame RqKillEngage) [] x 0 (Ok ExchangeExample.nonce) EnclaveExample.e
    EnclaveExample.bare = (engaged.1, engaged.2).
Proof. vm_compute. reflexivity. Qed.
End NativeHostExample.
#[local] Existing Instances PolicyExample.digest PolicyExample.trust_sized
  PolicyExample.policy_sized PolicyExample.history_sized WebAuthnExample.crypto CoseExample.lib
  AllowlistExample.debug ExchangeExample.origins EnclaveExample.p256 EnclaveExample.keyring
  EnclaveExample.key_sized NativeHostExample.facts NativeHostExample.lang_sized.

Lemma frames_grant_nothing_without_presence_witness :
  grants_nothing (kh_world EnclaveExample.bare) (kh_world NativeHostExample.engaged.2) /\
  exists t, w_trust (kh_world NativeHostExample.engaged.2) = Stored t /\ killed t = true.
Proof.
  split; [|eexists; split; reflexivity].
  destruct (frames_grant_nothing_without_presence NativeHostExample.written
    (NativeHostExample.frame RqKillEngage) [] NativeHostExample.engaged.1.1.2 NativeHostExample.x
    NativeHostExample.engaged.1.2 0 (Ok ExchangeExample.nonce) EnclaveExample.e EnclaveExample.bare
    NativeHostExample.engaged.2 NativeHostExample.engaged.1.1.1) as [H|(r & q & Hr & Hq & _)].
  - vm_compute. reflexivity.
  - exact H.
  - vm_compute in Hr. injection Hr as <-. discriminate Hq.
Defined.

(** A release seen after a status frame leaves; one raced by an engagement already in
    the pipe does not, and the plane serves on until standard input ends. *)
Lemma control_plane_waits_for_a_release_witness :
  (exists k2 t, on_host is_killed EnclaveExample.e k2 = (Ok false, NativeHostExample.plane.2) /\
     trust_current (w_trust (kh_world k2)) = Ok t /\ killed t = false) /\
  (control_plane_loop NativeHostExample.written 2 [true]
     ([PlaneFrame (NativeHostExample.frame RqKillEngage) 0 (Ok ExchangeExample.nonce)] ++
      PlaneTimeout :: [PlaneEof])
     (mkPlane NativeHostExample.x []) EnclaveExample.e EnclaveExample.bare).1.1 = Some StdinClosed /\
  is_Some (control_plane_loop NativeHostExample.written 2 [] [PlaneEof] (mkPlane NativeHostExample.x [])
    EnclaveExample.e EnclaveExample.bare).1.1.
Proof.
  split_and!.
  - destruct (proj1 (control_plane_waits_for_a_release NativeHostExample.written [false; true]
      [PlaneFrame (NativeHostExample.frame RqKillStatus) 0 (Ok ""); PlaneTimeout; PlaneEof]
      (mkPlane NativeHostExample.x []) EnclaveExample.e EnclaveExample.bare 4) NativeHostExample.plane.1.2
      NativeHostExample.plane.2) as (pre & dr & rest & p1 & k1 & k2 & j & _ & _ & _ & _ & _ & _ & Hk & t & Ht & Hf).
    { vm_compute. reflexivity. }
    exists k2, t. split_and!; assumption.
  - rewrite (proj1 (proj2 (control_plane_waits_for_a_release NativeHostExample.written [] []
      (mkPlane NativeHostExample.x []) EnclaveExample.e EnclaveExample.bare 1))
      [PlaneFrame (NativeHostExample.frame RqKillEngage) 0 (Ok ExchangeExample.nonce)] [PlaneEof]
      (mkPlane NativeHostExample.engaged.1.2 NativeHostExample.engaged.1.1.2) NativeHostExample.engaged.2).
    + vm_compute. reflexivity.
    + reflexivity.
    + eapply served_frame; [vm_compute; reflexivity|apply served_nil].
  - apply control_plane_waits_for_a_release; [reflexivity|cbn; lia].
Defined.

Lemma watch_misses_no_transition_witness :
  exists t', run_ops trust_default [OpKill true; OpLang; OpKill false] = Ok t' /\
    (watch_tick NativeHostExample.written (Some (Watched_of trust_default)) (Ok t') EnclaveExample.e
       EnclaveExample.bare [] (Some false)).2 = Some true.
Proof.
  eexists. split; [reflexivity|].
  rewrite (watch_misses_no_transition NativeHostExample.written trust_default _
    [OpKill true; OpLang; OpKill false] EnclaveExample.e EnclaveExample.bare [] (Some false)).
  - reflexivity.
  - reflexivity.
  - reflexivity.
  - cbn; lia.
  - cbn; lia.
  - cbn; lia.
  - cbn; lia.
Defined.
