(* ===== verification/Reports.v ===== *)
(** Reports: what the native host answers from the rest of the machine
    (src/src/packages/core/src/native_host.rs with the projections of protocol/control.rs,
    [doctor::wire_report] and [audit::read]): the audit trail as the options page lists it,
    the registrations and their repair, the health report. [live_facts] is the [HostFacts]
    of a machine, so what [NativeHost] proves of any answers holds of these. *)
From S2P Require Import Prelude Json RuntimeRecord Policy Identity Trust PolicyRecord PrefixCodec World Messages PolicyStore PolicyPlan ToolArgs Catalogue Gating Wire LineCodec AuthData WebAuthn EnrollStore Presence Allowlist Lang Frames Control Replies AuditTrail Browsers Wrapper Machine Registration Install Lockfile PolicyCli Enclave Doctor Exchange NativeHost.
From stdpp Require Import base list gmap sets strings pretty.

(** * The trail *)

(** [From<&AuditEntry> for AuditTrailEntry]: a record whose time a JavaScript number cannot
    hold keeps its place as an unrecognized one. *)
Definition trail_entry (e : AuditEntry) : AuditTrailEntry :=
  match e with
  | EntryRecord r =>
      match ok (JsUint_try_from (al_ts_ms r)) with
      | Some ts_ms => TrailRecord ts_ms (audit_kind_name (al_kind r)) (fields_display r)
      | None => TrailUnrecognized UNRECOGNIZED_RECORD
      end
  | EntryUnrecognized => TrailUnrecognized UNRECOGNIZED_RECORD
  end.

(** [From<AuditPage> for AuditReport]. *)
Definition audit_report (p : AuditPage) : AuditReport :=
  AuditPageReport (trail_entry <$> ap_entries p) (Z.of_nat (ap_older p)) (ap_path p).

(** The trail's two files as [audit::read] meets them; the path is [audit_path]'s answer. *)
Record TrailFiles := mkTrailFiles { tf_path : result io_error string; tf_rotated : FileRead; tf_live : FileRead }.

(** * Registrations *)

(** [RepairBrowsers::into_targets], or the detected browsers. *)
Definition repair_targets (browsers : option (list Browser)) : FixTargets :=
  match browsers with Some l => FixBrowsers l | None => FixDetected end.

Section reports.
Context `{PS : PathStyle} `{BL : Build} `{SD : StrDebug} `{JV : JsonValue} `{JL : !JsonCodec AuditLine}.
Context `{CO : PolicyCodec, DG : Digest, PK : P256, KR : Keyring}.
Context `{ST : !Sized Trust, SP : !Sized PolicyStore, SH : !Sized PolicyHistory, SK : !Sized HostKeyFile}.
Implicit Types (d : DoctorEnv) (m : Machine).

(** [audit::read]. *)
Definition trail_read (t : TrailFiles) (limit : Z) : result io_error AuditPage :=
  path ← tf_path t; read_at path (tf_rotated t) (tf_live t) (Z.to_nat limit).

Definition status_rows d m : result string (list RegistrationRow) :=
  (fun rows : list ManifestStatus => registration_row <$> rows) <$> Doctor.gather_manifests d m.

Definition repair_run d (browsers : option (list Browser)) m : Machine * result FixError (list TargetOutcome) :=
  fix_ (de_env d) (de_io d) (repair_targets browsers) ScopeUser Refuse m.

Definition repair_failures (os : list TargetOutcome) : list string :=
  omap (fun o => match o_result o with Ok _ => None | Err e => Some (o_target o +:+ ": " +:+ e) end) os.

(** [registration_repair_reply], with the machine it leaves. *)
Definition repair_reply d (browsers : option (list Browser)) m : Machine * HostReply :=
  match repair_run d browsers m with
  | (m, Err e) => (m, registration_into_frame (RegUnavailable (FixError_display e)))
  | (m, Ok os) =>
      match repair_failures os with
      | [] => (m, registration_into_frame (registration_report (status_rows d m)))
      | failed => (m, registration_into_frame (RegUnavailable (str_join "; " failed)))
      end
  end.

(** [doctor::wire_report]. *)
Definition wire_report_of d m (s : Published) : keyed HealthReport := fun e k =>
  let '((report, _), w) := gather d m s (ke_env e) (kh_world k) in
  let (key, k) := key_report e (mkKHost (kh_keys k) w) in
  (project report key, k).

#[local] Instance live_facts d m (s : Published) (t : TrailFiles) (e : kenv) : HostFacts := {|
  wire_report k := (wire_report_of d m s e k).1;
  audit_read limit _ := (fun p => (trail_entry <$> ap_entries p, Z.of_nat (ap_older p), ap_path p)) <$> trail_read t limit;
  gather_manifests repaired _ :=
    status_rows d (match repaired with None => m | Some browsers => (repair_run d browsers m).1 end);
  registration_fix browsers _ :=
    map_err FixError_display ((fun os : list TargetOutcome => (fun o => (o_target o, o_result o)) <$> os) <$> (repair_run d browsers m).2)
|}.

(** * Lemmas *)

(** The handlers of [NativeHost] over [live_facts] are the ones spelled here. *)
Lemma live_repair d m s t e browsers k :
  registration_repair_reply (HF := live_facts d m s t e) browsers e k = ((repair_reply d browsers m).2, k).
Proof.
  unfold registration_repair_reply, repair_reply. cbn [registration_fix live_facts NativeHost.gather_manifests].
  destruct (repair_run d browsers m) as [m' [os|x]]; [|done]. cbn [fst snd fmap result_fmap map_err].
  assert (omap (fun '(target, r) => match r with Ok _ => None | Err e => Some (target +:+ ": " +:+ e) end)
            ((fun o => (o_target o, o_result o)) <$> os) = repair_failures os) as ->.
  { unfold repair_failures. induction os as [|[n [l|y]] os IH]; [done|done|]. cbn. f_equal. exact IH. }
  by destruct (repair_failures os).
Qed.

Lemma live_audit d m s t e limit k :
  audit_read_reply (HF := live_facts d m s t e) limit e k =
    (audit_into_frame match trail_read t (default DEFAULT_AUDIT_LIMIT limit) with
                      | Ok p => audit_report p
                      | Err x => AuditUnavailable (io_msg x)
                      end, k).
Proof.
  unfold audit_read_reply. cbn [audit_read live_facts]. by destruct (trail_read t _).
Qed.

Lemma trail_entry_fit (e : AuditEntry) :
  (forall r, e = EntryRecord r -> (0 <= al_ts_ms r)%Z) -> mc_fit c_trail (trail_entry e).
Proof.
  destruct e as [r|]; [|done]. intros H. specialize (H r eq_refl). unfold trail_entry, JsUint_try_from, JsUint_MAX.
  destruct (Z.leb_spec (al_ts_ms r) JS_SAFE_INT_MAX); [|done]. change (0 <= al_ts_ms r <= JS_SAFE_INT_MAX)%Z. lia.
Qed.

Lemma held_fit (h : HeldPolicy) :
  (0 <= hp_revision h <= u64_max)%Z -> values_ok (hp_effective h) -> mc_fit c_held h.
Proof. intros H1 H2. split; [exact H1|exact H2]. Qed.

Lemma history_fit (r : PolicyHistoryRow) :
  (forall at_, hw_superseded_unix r = Some at_ -> (0 <= at_ <= JS_SAFE_INT_MAX)%Z) ->
  (forall h, hw_held r = Some h -> mc_fit c_held h) -> mc_fit c_history r.
Proof. intros H1 H2. split; [exact H1|exact H2]. Qed.

Lemma entry_state_spec en h :
  entry_state en = Some h ->
  exists doc, decode_entry_doc (he_baseline_b64 en) = Ok doc /\
    h = mkHeld (pd_revision doc) (fold (doc_values doc) (overlay_or_default (he_overlay en))).
Proof.
  intros H. unfold entry_state in H. apply bind_Some in H as (doc & Hd & H). apply bind_Some in H as (u & _ & H).
  exists doc. split; [|congruence]. by destruct (decode_entry_doc _); inversion Hd.
Qed.

Lemma entry_revision `{OK : !PolicyCodecOk} b doc :
  decode_entry_doc b = Ok doc -> (0 <= pd_revision doc <= u64_max)%Z.
Proof.
  unfold decode_entry_doc. intros H. inv_res.
  match goal with H : doc_of_bytes _ = Ok _ |- _ => apply doc_parse_ok in H as [[? ?] _] end.
  split; [done|]. assert (JS_SAFE_INT_MAX <= u64_max)%Z by (vm_compute; discriminate). lia.
Qed.

Lemma history_row_fit `{OK : !PolicyCodecOk} w h en :
  ring_ok w -> slot_load (w_history w) = Ok (Some h) -> en ∈ entries h -> (0 <= he_superseded_unix en)%Z ->
  mc_fit c_history (history_row en).
Proof.
  intros Hr Hh Hen Hu. unfold history_row, JsUint_try_from, JsUint_MAX.
  destruct (Z.leb_spec (he_superseded_unix en) JS_SAFE_INT_MAX) as [Hs|]; apply history_fit;
    cbn [hw_superseded_unix hw_held]; try done.
  - intros at_ Hat. apply (inj Some) in Hat as <-. done.
  - intros v Hv. apply entry_state_spec in Hv as (doc & Hd & ->).
    apply held_fit; [by eapply entry_revision|by eapply entry_ok].
Qed.

(** ** Every report fits its frame *)

(** The types of the fields [serde] reads: a time is unsigned. *)
Definition lines_typed : Prop := forall b r, from_slice b = Ok r -> (0 <= al_ts_ms r)%Z.
Definition ring_typed (w : world) : Prop :=
  ring_ok w /\ forall h en, slot_load (w_history w) = Ok (Some h) -> en ∈ entries h -> (0 <= he_superseded_unix en)%Z.

Lemma page_entries_typed path limit lines r :
  lines_typed -> EntryRecord r ∈ ap_entries (page_of path limit lines) -> (0 <= al_ts_ms r)%Z.
Proof.
  intros Ht Hr. cbn [page_of ap_entries] in Hr. apply list_elem_of_fmap in Hr as (b & Hb & _).
  unfold entry_of, parse_record in Hb. destruct (from_slice b) as [x|] eqn:E; [|done].
  destruct (al_v x =? AUDIT_VERSION)%Z; [|done]. injection Hb as ->. by eapply Ht.
Qed.

Lemma trail_read_page t limit p :
  trail_read t limit = Ok p -> exists path lines, p = page_of path (Z.to_nat limit) lines.
Proof.
  unfold trail_read, read_at. intros H. inv_res. eauto.
Qed.

Lemma audit_reply_fit t limit :
  lines_typed -> (forall p, trail_read t limit = Ok p -> (Z.of_nat (ap_older p) <= u64_max)%Z) ->
  reply_fit (audit_into_frame match trail_read t limit with
                              | Ok p => audit_report p
                              | Err x => AuditUnavailable (io_msg x)
                              end).
Proof.
  intros Ht Ho. destruct (trail_read t limit) as [p|x] eqn:E; [|split; discriminate]. split.
  - intros l Hl. apply (inj Some) in Hl as <-. apply Forall_fmap, Forall_forall. intros en Hen.
    apply trail_entry_fit. intros r ->. destruct (trail_read_page _ _ _ E) as (path & lines & ->).
    by eapply page_entries_typed.
  - intros n Hn. apply (inj Some) in Hn as <-. specialize (Ho p eq_refl). change (0 <= Z.of_nat (ap_older p) <= u64_max)%Z. lia.
Qed.

Lemma registration_reply_fit manifests : reply_fit (registration_into_frame (registration_report manifests)).
Proof.
  destruct manifests as [rows|e]; [|discriminate]. intros l _. by apply Forall_forall.
Qed.

Lemma repair_reply_fit d browsers m : reply_fit (repair_reply d browsers m).2.
Proof.
  unfold repair_reply. destruct (repair_run d browsers m) as [m' [os|e]]; [|discriminate].
  destruct (repair_failures os); [apply registration_reply_fit|discriminate].
Qed.

Lemma history_reply_fit `{OK : !PolicyCodecOk} e w :
  ring_typed w -> reply_fit (policy_history_reply e w).1.
Proof.
  intros [Hr Ht]. change (reply_fit (history_into_frame match slot_load (w_history w) with
    | Ok None => HistoryEntries [] | Ok (Some h) => HistoryEntries (history_row <$> entries h)
    | Err x => HistoryUnavailable (io_msg x) end)).
  destruct (slot_load (w_history w)) as [[h|]|x] eqn:E; [| |discriminate].
  - intros l Hl. apply (inj Some) in Hl as <-. apply Forall_fmap, Forall_forall. intros en Hen.
    eapply history_row_fit; eauto.
  - intros l Hl. apply (inj Some) in Hl as <-. apply Forall_nil_2.
Qed.

(** * Properties *)

(** The options page can read every report of its host, however damaged what the report is
    about. The health report, a page of the trail, the registrations before or after a
    repair, and the ring of superseded policies each travel as a frame that reads back as
    itself, with no [null] in it: a line of the trail that does not parse, a record or a
    superseded policy whose time no JavaScript number holds, and a baseline that does not
    decode cost their own row and no other, so the page of the trail has as many rows as it
    has lines. *)
Theorem reports_always_read `{OK : !PolicyCodecOk} d m s t e k limit browsers (reply : HostReply) :
  lines_typed -> ring_typed (kh_world k) ->
  (forall p, trail_read t (default DEFAULT_AUDIT_LIMIT limit) = Ok p -> (Z.of_nat (ap_older p) <= u64_max)%Z) ->
  let HF := live_facts d m s t e in
  let audit := (audit_read_reply limit e k).1 in
  (reply ∈ [(doctor_report_reply e k).1; audit; (registration_status_reply e k).1;
            (registration_repair_reply browsers e k).1; (policy_history_reply (ke_env e) (kh_world k)).1] ->
   HostReply_de (reply_json reply) = Ok reply /\ null_free (reply_json reply) = true) /\
  (forall p, trail_read t (default DEFAULT_AUDIT_LIMIT limit) = Ok p ->
   exists rows older path, audit = AuditReadResult true (Some rows) older path None /\
     length rows = length (ap_entries p)).
Proof.
  intros Ht Hr Ho HF audit. unfold audit, HF. rewrite live_audit, live_repair. cbn [fst]. split.
  - intros Hin. split; [|apply reply_null_free]. apply reply_de_json.
    repeat (apply elem_of_cons in Hin as [->|Hin]);
      [done|by apply audit_reply_fit|apply registration_reply_fit|apply repair_reply_fit|by apply history_reply_fit|].
    by apply not_elem_of_nil in Hin.
  - intros p ->. do 3 eexists. split; [reflexivity|]. apply length_fmap.
Qed.
End reports.

(** * Witnesses *)

(** A trail of a record from beyond the year 280000 and a line that is none. *)
Module ReportsExample.
Import DoctorExample.
Definition late : AuditLine := AuditTrail.stamp (2 ^ 53) 0 AuditExample.engaged.
#[export] Instance line_json : JsonCodec AuditLine := {|
  to_vec _ := [Byte.x31];
  from_slice b := if bool_decide (b = [Byte.x31]) then Ok late else Err "expected value" |}.
Definition files : TrailFiles :=
  mkTrailFiles (Ok "/run/audit.log") FileMissing (FileText [Byte.x31; Byte.x0a; Byte.x32; Byte.x0a]).
Lemma typed : lines_typed.
Proof. intros b r H. cbn in H. destruct (bool_decide _); [|done]. injection H as <-. by vm_compute. Qed.
Lemma ring_empty : ring_typed (kh_world EnclaveExample.bare).
Proof. split; [intros h en o H|intros h en H]; vm_compute in H; discriminate. Qed.
End ReportsExample.

Section witnesses.
Import DoctorExample ReportsExample.
#[local] Existing Instances EnclaveExample.p256 EnclaveExample.keyring EnclaveExample.key_sized
  PolicyExample.policy_sized PolicyExample.history_sized.

Lemma reports_always_read_witness :
  let row := TrailUnrecognized UNRECOGNIZED_RECORD in
  let reply := AuditReadResult true (Some [row; row]) (Some 0%Z) (Some "/run/audit.log") None in
  HostReply_de (reply_json reply) = Ok reply.
Proof.
  intros row reply.
  destruct (reports_always_read d m LockExample.files files EnclaveExample.e EnclaveExample.bare None None reply)
    as [H _].
  - exact typed.
  - exact ring_empty.
  - intros p Hp. vm_compute in Hp. injection Hp as <-. vm_compute. discriminate.
  - apply H. apply elem_of_cons. right. apply elem_of_cons. left. vm_compute. reflexivity.
Defined.
End witnesses.
