(* ===== verification/Relay.v ===== *)
(** Relay: the native host of a live bridge (src/src/packages/core/src/native_host.rs,
    [run] and [pump_socket_to_stdout]). [host_start] is everything [run] does before its
    threads start; [Bridge] is what the threads share afterwards, and [bridge_step] one
    turn of the thread that reads standard input, of the pump from the socket, of the trust
    watch, or of another process that writes the records. Streams are bytes: what is still
    to be read, and what has been written. *)
From S2P Require Import Prelude Json RuntimeRecord Policy Identity Trust PolicyRecord PrefixCodec World Messages PolicyStore PolicyPlan ToolArgs Catalogue Gating Wire LineCodec AuthData WebAuthn EnrollStore Presence Allowlist Handshake Lang Frames Control Replies Connection Broker Serve Enclave Exchange NativeHost.
From Stdlib Require Import Strings.Byte.
From stdpp Require Import base list sets strings.

(** * Before the threads *)

Inductive HostStart :=
| HostExits (code : Z)
| HostControlPlane (x : Exchange)
| HostBridges (x : Exchange) (rest : bytes).

Section start.
Context `{DG : Digest, ML : MacLib, JH : !JsonCodec Handshake, JA : !JsonCodec AttachRequest, JP : !JsonCodec AttachReply}.

(** [ipc::client_handshake]: what it wrote, its outcome and the rest of the stream. *)
Definition host_handshake (label : option BrowserLabel) (io : RelayIo) : result io_error unit * (bytes * bytes) :=
  match rl_secret io with
  | Err e => (Err e, ([], rl_input io))
  | Ok secret => client_handshake_with_secret secret label (rl_response io) (rl_input io)
  end.

(** [run] past the kill check: the bytes it wrote to the socket, and how it ended. *)
Definition host_attach (label : option BrowserLabel) (x : Exchange) (io : RelayIo) : bytes * HostStart :=
  match rl_connect io with
  | Err _ => ([], HostExits 1)
  | Ok _ =>
      match rl_attest io with
      | Err _ => ([], HostExits 1)
      | Ok _ =>
          if bool_decide (is_Some (rl_clone io)) then ([], HostExits 1)
          else
            match host_handshake label io with
            | (Err _, (sent, _)) => (sent, HostExits 1)
            | (Ok _, (sent, input)) =>
                if bool_decide (is_Some (rl_attach io)) then (sent, HostExits 1)
                else
                  (sent ++ bridge_write AttachBrowser,
                   match bridge_read (T := AttachReply) input with
                   | (Ok (Some AttachAccepted), rest) => HostBridges x rest
                   | (Ok (Some _), _) | (Ok None, _) | (Err _, _) => HostExits 1
                   end)
            end
      end
  end.

(** [run], up to its threads; [identity] is [ensure_own_identity]. *)
Definition host_start (identity : result io_error unit) (label : option BrowserLabel) (io : RelayIo) :
    host (bytes * HostStart) :=
  match identity with
  | Err _ => hret ([], HostExits 1)
  | Ok _ =>
      let x := Exchange_new (default DEFAULT_LABEL label) in
      let! state := is_killed in
      hret (match state with
            | Ok false => host_attach label x io
            | Ok true | Err _ => ([], HostControlPlane x)
            end)
  end.
End start.

(** * The threads of a bridge *)

(** The thread on standard input: about to read, or with the replies of the frame it took
    still to write and what follows them. *)
Inductive StdinThread :=
| StdinReads
| StdinAnswers (replies : list HostReply) (inbound : result io_error Inbound).

(** The watch: [None] before its first announcement. *)
Record WatchThread := mkWatch { wt_last : option (option Watched); wt_pushes : list HostReply }.

Record Bridge := mkBridge {
  br_stdin : bytes;
  br_to_socket : bytes;
  br_socket : bytes;
  br_stdout : bytes;
  br_exchange : Exchange;
  br_records : khost;
  br_reader : StdinThread;
  br_watch : WatchThread;
  br_exit : option Z
}.

Section bridge.
Context `{CO : PolicyCodec, DG : Digest, CR : Crypto, CL : CoseLib, SD : StrDebug, OP : OriginParser}.
Context `{PK : P256, KR : Keyring, HF : HostFacts}.
Context `{ST : !Sized Trust, SP : !Sized PolicyStore, SH : !Sized PolicyHistory}.
Context `{SL : !Sized LangStore, SK : !Sized HostKeyFile}.
Context `{JC : !JsonCodec json}.
Implicit Types (b : Bridge) (pipe : HostReply -> option io_error).

(** The bytes of a reply on standard output. *)
Definition reply_frame (r : HostReply) : result io_error bytes := nm_write_frame (reply_json r).

Definition reply_bytes (r : HostReply) : bytes := match reply_frame r with Ok out => out | Err _ => [] end.

(** Why a reply cannot be written: over the cap, or the pipe. *)
Definition reply_fault pipe (r : HostReply) : option io_error :=
  match reply_frame r with Err e => Some e | Ok _ => pipe r end.

Definition exited b : Bridge :=
  mkBridge (br_stdin b) (br_to_socket b) (br_socket b) (br_stdout b) (br_exchange b) (br_records b)
    (br_reader b) (br_watch b) (Some 0%Z).
Definition written (out : bytes) b : Bridge :=
  mkBridge (br_stdin b) (br_to_socket b) (br_socket b) (br_stdout b ++ out) (br_exchange b) (br_records b)
    (br_reader b) (br_watch b) (br_exit b).
Definition sent (out : bytes) b : Bridge :=
  mkBridge (br_stdin b) (br_to_socket b ++ out) (br_socket b) (br_stdout b) (br_exchange b) (br_records b)
    (br_reader b) (br_watch b) (br_exit b).
Definition with_reader (t : StdinThread) b : Bridge :=
  mkBridge (br_stdin b) (br_to_socket b) (br_socket b) (br_stdout b) (br_exchange b) (br_records b)
    t (br_watch b) (br_exit b).
Definition with_watch (t : WatchThread) b : Bridge :=
  mkBridge (br_stdin b) (br_to_socket b) (br_socket b) (br_stdout b) (br_exchange b) (br_records b)
    (br_reader b) t (br_exit b).
Definition with_socket (s : bytes) b : Bridge :=
  mkBridge (br_stdin b) (br_to_socket b) s (br_stdout b) (br_exchange b) (br_records b)
    (br_reader b) (br_watch b) (br_exit b).
Definition with_records (k : khost) b : Bridge :=
  mkBridge (br_stdin b) (br_to_socket b) (br_socket b) (br_stdout b) (br_exchange b) k
    (br_reader b) (br_watch b) (br_exit b).

(** Thread A takes a frame: its handler runs to the end, and leaves what it writes. *)
Definition stdin_take (e : kenv) (now : Z) (nonce : result io_error string) pipe (frame : json) (rest : bytes) b : Bridge :=
  let '((inbound, replies, x), k) :=
    handle_control_frame (reply_fault pipe) frame [] (br_exchange b) now nonce e (br_records b) in
  mkBridge rest (br_to_socket b) (br_socket b) (br_stdout b) x k (StdinAnswers replies inbound) (br_watch b) (br_exit b).

(** One turn of thread A; [broken] is the socket refusing a frame. *)
Definition stdin_step (e : kenv) (now : Z) (nonce : result io_error string) pipe (broken : bool) b : Bridge :=
  match br_reader b with
  | StdinReads =>
      match nm_read_frame (br_stdin b) with
      | (Ok (Some frame), rest) => stdin_take e now nonce pipe frame rest b
      | (Ok None, _) | (Err _, _) => exited b
      end
  | StdinAnswers (reply :: replies) inbound =>
      with_reader (StdinAnswers replies inbound) (written (reply_bytes reply) b)
  | StdinAnswers [] (Ok Handled) => with_reader StdinReads b
  | StdinAnswers [] (Ok (InboundForward frame)) =>
      if broken then exited b else with_reader StdinReads (sent (bridge_write frame) b)
  | StdinAnswers [] (Err _) => exited b
  end.

(** One turn of [pump_socket_to_stdout]. *)
Definition pump_step (broken : bool) b : Bridge :=
  match bridge_read (T := json) (br_socket b) with
  | (Ok (Some value), rest) =>
      match host_control_type value with
      | Some _ => with_socket rest b
      | None =>
          match nm_write_frame value with
          | Ok out => if broken then exited (with_socket rest b) else with_socket rest (written out b)
          | Err _ => exited (with_socket rest b)
          end
      end
  | (Ok None, _) | (Err _, _) => exited b
  end.

(** One turn of the trust watch: a push left to write, or the next look at the records. *)
Definition watch_step (e : kenv) pipe b : Bridge :=
  let k := br_records b in
  match wt_pushes (br_watch b) with
  | reply :: pushes =>
      with_watch (mkWatch (wt_last (br_watch b)) pushes) (written (reply_bytes reply) b)
  | [] =>
      with_watch
        (match wt_last (br_watch b) with
         | None => let '(last, pushes) := watch_start (reply_fault pipe) e k [] in mkWatch (Some last) pushes
         | Some last =>
             let '(last, pushes, _) :=
               watch_tick (reply_fault pipe) last (trust_current (w_trust (kh_world k))) e k [] None in
             mkWatch (Some last) pushes
         end) b
  end.

(** [process::exit] ends every thread: a bridge that exited takes no step. *)
Inductive bridge_step b : Bridge -> Prop :=
| by_stdin e now nonce pipe broken : br_exit b = None -> bridge_step b (stdin_step e now nonce pipe broken b)
| by_pump broken : br_exit b = None -> bridge_step b (pump_step broken b)
| by_watch e pipe : br_exit b = None -> bridge_step b (watch_step e pipe b)
| by_other_process k : br_exit b = None -> bridge_step b (with_records k b).

Inductive bridge_run : Bridge -> Bridge -> Prop :=
| bridge_here b : bridge_run b b
| bridge_more b b' b'' : bridge_run b b' -> bridge_step b' b'' -> bridge_run b b''.

(** The bridge [run] starts: the socket holds what followed the attach reply. *)
Definition bridge_new (stdin : bytes) (to_socket : bytes) (x : Exchange) (rest : bytes) (k : khost) : Bridge :=
  mkBridge stdin to_socket rest [] x k StdinReads (mkWatch None []) None.

(** * What crosses a bridge *)

(** The values read off the front of a stream, and what is left. *)
Inductive reads {T} (read : bytes -> result io_error (option T) * bytes) : bytes -> list T -> bytes -> Prop :=
| reads_none s : reads read s [] s
| reads_one s v s1 vs s2 : read s = (Ok (Some v), s1) -> reads read s1 vs s2 -> reads read s (v :: vs) s2.

(** A frame for the other end of the bridge, and not for the host. *)
Definition bridge_frame (frame : json) : bool :=
  match host_control_type frame with Some _ => false | None => true end.
Definition control_frame (frame : json) : bool := negb (bridge_frame frame).

(** The frame thread A holds for the socket. *)
Definition in_flight b : list json :=
  match br_reader b with StdinAnswers _ (Ok (InboundForward frame)) => [frame] | _ => [] end.

(** The stream made of these frames. *)
Definition framed (s : bytes) (vs : list json) : Prop :=
  exists outs, s = concat outs /\ Forall2 (fun v out => nm_write_frame v = Ok out) vs outs.

Definition writable (r : HostReply) : Prop := is_ok (reply_frame r) = true.

Definition queued b : list HostReply :=
  match br_reader b with StdinAnswers replies _ => replies | StdinReads => [] end ++ wt_pushes (br_watch b).

Lemma reads_snoc {T} (read : bytes -> result io_error (option T) * bytes) s vs r v r' :
  reads read s vs r -> read r = (Ok (Some v), r') -> reads read s (vs ++ [v]) r'.
Proof. induction 1; intros; cbn [app]; econstructor; eauto. constructor. Qed.

Lemma framed_snoc s vs v out : framed s vs -> nm_write_frame v = Ok out -> framed (s ++ out) (vs ++ [v]).
Proof.
  intros (outs & -> & H) Hv. exists (outs ++ [out]). rewrite concat_app. cbn [concat]. rewrite app_nil_r.
  split; [done|]. apply Forall2_app; [done|]. by constructor.
Qed.

Lemma framed_reads `{JO : !JsonCodecOk json} s vs : framed s vs -> reads nm_read_frame s vs [].
Proof.
  intros (outs & -> & H). induction H as [|v out vs outs Hv H IH]; [constructor|]. cbn [concat].
  pose proof (nm_frame_roundtrip v (concat outs)) as Hr. rewrite Hv in Hr. econstructor; [apply Hr|done].
Qed.

(** ** What the handlers leave to write *)

Lemma write_replies_writable pipe out replies :
  Forall writable out -> Forall writable (write_replies (reply_fault pipe) out replies).2.
Proof.
  revert out. induction replies as [|r replies IH]; intros out Ho; cbn [write_replies]; [done|].
  unfold write_control_reply. destruct (reply_fault pipe r) eqn:E; [done|]. apply IH, Forall_app. split; [done|].
  constructor; [|done]. unfold reply_fault in E. unfold writable. by destruct (reply_frame r).
Qed.

Lemma reply_writable pipe out reply :
  Forall writable out -> Forall writable (write_control_reply (reply_fault pipe) out reply).2.
Proof.
  intros Ho. pose proof (write_replies_writable pipe out [reply] Ho) as H. cbn [write_replies] in H.
  by destruct (write_control_reply _ out reply) as [[] ].
Qed.

Lemma push_writable pipe out reply : Forall writable out -> Forall writable (push (reply_fault pipe) out reply).
Proof. apply reply_writable. Qed.

#[local] Create HintDb relay.
#[local] Hint Resolve push_writable reply_writable Forall_nil_2 : relay.

Lemma watch_writable pipe last read e k :
  Forall writable (watch_start (reply_fault pipe) e k []).2 /\
  Forall writable (watch_tick (reply_fault pipe) last read e k [] None).1.2.
Proof.
  assert (forall out, Forall writable out -> Forall writable (push_lang_current (reply_fault pipe) e k out)) as Hl.
  { intros out Ho. unfold push_lang_current. destruct (on_host lang_current_frame e k).1; auto with relay. }
  unfold watch_start, watch_tick, push_policy_current, push_revoked, push_kill_status. split.
  - destruct (trust_current _); [|cbn [snd]; auto with relay].
    destruct (key_gone _ _ _), (killed _); cbn [snd]; auto 8 with relay.
  - destruct read as [t|]; [|destruct last; cbn [fst snd]; auto with relay].
    destruct last as [prev|].
    + destruct (negb (wd_host_key_epoch _ =? _)%Z && _), (negb (wd_kill_epoch _ =? _)%Z),
        (negb (wd_policy_epoch _ =? _)%Z), (negb (wd_lang_epoch _ =? _)%Z); cbn [fst snd]; auto 8 with relay.
    + destruct (key_gone _ _ _); cbn [fst snd]; auto 8 with relay.
Qed.

(** A frame for the bridge comes back untouched and unanswered; any other is the host's. *)
Lemma handle_forwards pipe frame x now nonce e k inbound replies x' k' :
  handle_control_frame (reply_fault pipe) frame [] x now nonce e k = ((inbound, replies, x'), k') ->
  Forall writable replies /\
  (if bridge_frame frame then inbound = Ok (InboundForward frame)
   else forall f, inbound <> Ok (InboundForward f)).
Proof.
  unfold handle_control_frame, bridge_frame, classify_nm_frame.
  destruct (host_control_type frame) as [tag|].
  - destruct (HostRequest_de frame) as [request|].
    + unfold kbind. destruct (request_replies request x now nonce e k) as [[rs x1] k1].
      pose proof (write_replies_writable pipe [] rs ltac:(constructor)) as Hw.
      destruct (write_replies _ [] rs) as [[] out]; intros [= <- <- _ _]; by split.
    + destruct (malformed_reply tag) as [|reply|]; [intros [= <- <- _ _]; by split| |].
      * pose proof (reply_writable pipe [] reply ltac:(constructor)) as Hw.
        destruct (write_control_reply _ [] reply) as [[] out]; intros [= <- <- _ _]; by split.
      * unfold kbind. destruct (on_host lang_current_frame e k) as [[reply|] k1]; [|intros [= <- <- _ _]; by split].
        pose proof (reply_writable pipe [] reply ltac:(constructor)) as Hw.
        destruct (write_control_reply _ [] reply) as [[] out]; intros [= <- <- _ _]; by split.
  - intros [= <- <- _ _]. by split.
Qed.

(** ** The bridge and its quiet twin *)

(** The part of a bridge the socket has no say in. *)
Definition hears_alike b b0 : Prop :=
  br_stdin b0 = br_stdin b /\ br_to_socket b0 = br_to_socket b /\ br_exchange b0 = br_exchange b /\
  br_records b0 = br_records b /\ br_reader b0 = br_reader b /\ br_watch b0 = br_watch b.

Record crossing (stdin to rest : bytes) b b0 (asked answered heard forwarded lost : list json) : Prop := {
  cr_asked : reads nm_read_frame stdin asked (br_stdin b);
  cr_sent : br_to_socket b = to ++ concat (bridge_write <$> forwarded);
  cr_forwarded : List.filter bridge_frame asked = forwarded ++ in_flight b;
  cr_answered : reads bridge_read rest answered (br_socket b);
  cr_heard : framed (br_stdout b) heard;
  cr_relayed : List.filter bridge_frame answered = List.filter bridge_frame heard ++ lost;
  cr_lost : length lost <= 1 /\ (br_exit b = None -> lost = []);
  cr_queued : Forall writable (queued b);
  cr_alike : hears_alike b b0;
  cr_quiet : framed (br_stdout b0) (List.filter control_frame heard);
  cr_running : br_exit b = None -> br_exit b0 = None
}.

Lemma reply_is_control r : bridge_frame (reply_json r) = false.
Proof. unfold bridge_frame. by rewrite reply_typed. Qed.

Lemma reply_written r : writable r -> nm_write_frame (reply_json r) = Ok (reply_bytes r).
Proof. unfold writable, reply_bytes, reply_frame. by destruct (nm_write_frame _). Qed.

(** A reply written by both. *)
Lemma crossing_reply stdin to rest b b0 asked answered heard forwarded lost r :
  crossing stdin to rest b b0 asked answered heard forwarded lost -> writable r ->
  crossing stdin to rest (written (reply_bytes r) b) (written (reply_bytes r) b0) asked answered
    (heard ++ [reply_json r]) forwarded lost.
Proof.
  intros [] Hr. apply reply_written in Hr. split; try done; cbn [br_stdout written].
  - by apply framed_snoc.
  - rewrite List.filter_app. cbn [List.filter]. by rewrite reply_is_control, app_nil_r.
  - rewrite List.filter_app. unfold control_frame at 2. cbn [List.filter]. rewrite reply_is_control. cbn [negb].
    by apply framed_snoc.
Qed.

Lemma crossing_watch stdin to rest b b0 asked answered heard forwarded lost e pipe :
  crossing stdin to rest b b0 asked answered heard forwarded lost ->
  exists heard', crossing stdin to rest (watch_step e pipe b) (watch_step e pipe b0) asked answered heard' forwarded lost.
Proof.
  intros C. pose proof (cr_alike _ _ _ _ _ _ _ _ _ _ C) as (H1 & H2 & H3 & H4 & H5 & H6).
  unfold watch_step. rewrite H4, H6. pose proof (cr_queued _ _ _ _ _ _ _ _ _ _ C) as Hq.
  apply Forall_app in Hq as [Hq Hp]. destruct (wt_pushes (br_watch b)) as [|reply pushes] eqn:Ep.
  - exists heard. set (t := match wt_last _ with Some _ => _ | None => _ end).
    assert (Forall writable (wt_pushes t)) as Ht.
    { subst t. destruct (wt_last (br_watch b)) as [last|].
      - pose proof (proj2 (watch_writable pipe last (trust_current (w_trust (kh_world (br_records b)))) e (br_records b))).
        by destruct (watch_tick _ _ _ _ _ _ _) as [[? ?] ?].
      - pose proof (proj1 (watch_writable pipe None (Err (other "")) e (br_records b))).
        by destruct (watch_start _ _ _ _). }
    clearbody t. destruct C. split; try done. by apply Forall_app.
  - apply Forall_cons in Hp as [Hr Hp]. exists (heard ++ [reply_json reply]).
    apply (crossing_reply _ _ _ _ _ _ _ _ _ _ reply) in C; [|done]. destruct C. split; try done.
    by apply Forall_app.
Qed.

Lemma crossing_pump stdin to rest b b0 asked answered heard forwarded lost broken :
  br_exit b = None -> crossing stdin to rest b b0 asked answered heard forwarded lost ->
  exists answered' heard' lost',
    crossing stdin to rest (pump_step broken b) b0 asked answered' heard' forwarded lost'.
Proof.
  intros Hx C. pose proof (cr_lost _ _ _ _ _ _ _ _ _ _ C) as [_ El]. specialize (El Hx). subst lost. unfold pump_step.
  pose proof (cr_relayed _ _ _ _ _ _ _ _ _ _ C) as Hrel. rewrite app_nil_r in Hrel.
  destruct (bridge_read (br_socket b)) as [[[value|]|] more] eqn:Er;
    [|exists answered, heard, []; destruct C; split; try done; by split; [cbn; lia|]..].
  pose proof (reads_snoc _ _ _ _ _ _ (cr_answered _ _ _ _ _ _ _ _ _ _ C) Er) as Ha.
  assert (List.filter bridge_frame (answered ++ [value]) =
          List.filter bridge_frame heard ++ (if bridge_frame value then [value] else [])) as Hf.
  { rewrite List.filter_app, Hrel. by cbn [List.filter]; destruct (bridge_frame value). }
  assert (crossing stdin to rest (exited (with_socket more b)) b0 asked (answered ++ [value]) heard forwarded
            (if bridge_frame value then [value] else [])) as Cx.
  { destruct C. split; try done. split; [|done]. destruct (bridge_frame value); cbn; lia. }
  assert (bridge_frame value = match host_control_type value with Some _ => false | None => true end) as Eb by done.
  destruct (host_control_type value); rewrite Eb in Hf, Cx.
  - exists (answered ++ [value]), heard, []. destruct C. by split.
  - destruct (nm_write_frame value) as [out|] eqn:Ew; [destruct broken|]; [by eauto| |by eauto].
    exists (answered ++ [value]), (heard ++ [value]), []. destruct C.
    assert (List.filter bridge_frame (heard ++ [value]) = List.filter bridge_frame heard ++ [value]) as Eh.
    { rewrite List.filter_app. cbn [List.filter]. by rewrite Eb. }
    split; try done.
    + by apply framed_snoc.
    + rewrite app_nil_r. congruence.
    + rewrite List.filter_app. unfold control_frame at 2. cbn [List.filter]. rewrite Eb. cbn [negb].
      by rewrite app_nil_r.
Qed.

Lemma crossing_stdin stdin to rest b b0 asked answered heard forwarded lost e now nonce pipe broken :
  br_exit b = None -> crossing stdin to rest b b0 asked answered heard forwarded lost ->
  exists asked' heard' forwarded',
    crossing stdin to rest (stdin_step e now nonce pipe broken b) (stdin_step e now nonce pipe broken b0)
      asked' answered heard' forwarded' lost.
Proof.
  intros Hx C. pose proof (cr_alike _ _ _ _ _ _ _ _ _ _ C) as (H1 & H2 & H3 & H4 & H5 & H6).
  assert (crossing stdin to rest (exited b) (exited b0) asked answered heard forwarded lost) as Cx.
  { destruct C as [? ? ? ? ? ? [? ?]]. by split. }
  pose proof (cr_queued _ _ _ _ _ _ _ _ _ _ C) as Hq. unfold queued in Hq.
  pose proof (cr_forwarded _ _ _ _ _ _ _ _ _ _ C) as Hf. unfold in_flight in Hf.
  unfold stdin_step. rewrite H1, H5. destruct (br_reader b) as [|[|reply replies] inbound] eqn:Erd.
  - destruct (nm_read_frame (br_stdin b)) as [[[frame|]|] more] eqn:Er; [|by eauto..].
    unfold stdin_take. rewrite H2, H3, H4, H6.
    destruct (handle_control_frame _ _ _ _ _ _ _ _) as [[[inbound replies] x] k] eqn:Eh.
    apply handle_forwards in Eh as [Hw Hi].
    exists (asked ++ [frame]), heard, forwarded. destruct C. split; try done.
    + by eapply reads_snoc.
    + rewrite List.filter_app, Hf, app_nil_r. unfold in_flight. cbn [List.filter br_reader].
      destruct (bridge_frame frame); [by rewrite Hi|].
      destruct inbound as [[]|]; [done| |done]. by destruct (Hi frame0).
    + apply Forall_app. by split.
  - destruct inbound as [[|frame]|]; [| |by eauto].
    + exists asked, heard, forwarded. destruct C. by split.
    + destruct broken; [by eauto|]. exists asked, heard, (forwarded ++ [frame]).
      destruct C. split; try done; cbn [br_to_socket with_reader sent].
      * rewrite cr_sent0, fmap_app, concat_app. cbn. by rewrite app_nil_r, app_assoc.
      * rewrite Hf. unfold in_flight. cbn. by rewrite app_nil_r.
      * unfold hears_alike. cbn. by rewrite H1, H2, H3, H4, H6.
  - apply Forall_app in Hq as [[Hr Hq]%Forall_cons Hp]. exists asked, (heard ++ [reply_json reply]), forwarded.
    apply (crossing_reply _ _ _ _ _ _ _ _ _ _ reply) in C; [|done]. destruct C. split; try done.
    + by apply Forall_app.
Qed.

Lemma crossing_new stdin to x rest k :
  crossing stdin to rest (bridge_new stdin to x rest k) (bridge_new stdin to x [] k) [] [] [] [] [].
Proof.
  assert (framed [] []) as Hn by (exists []; by split).
  split; try done; try (by constructor); [|by split; [cbn; lia|]]. cbn. by rewrite app_nil_r.
Qed.

Lemma crossing_run stdin to x rest k b :
  bridge_run (bridge_new stdin to x rest k) b ->
  exists b0 asked answered heard forwarded lost,
    bridge_run (bridge_new stdin to x [] k) b0 /\ crossing stdin to rest b b0 asked answered heard forwarded lost.
Proof.
  intros H. remember (bridge_new stdin to x rest k) as start eqn:Es.
  induction H as [b|b b1 b2 H IH Hs]; subst.
  - do 6 eexists. split; [apply bridge_here|apply crossing_new].
  - destruct (IH eq_refl) as (b0 & asked & answered & heard & forwarded & lost & Hr & C). clear IH.
    pose proof (cr_running _ _ _ _ _ _ _ _ _ _ C) as Hrun. destruct Hs as [e now nonce pipe broken Hx|broken Hx|e pipe Hx|k' Hx].
    + destruct (crossing_stdin _ _ _ _ _ _ _ _ _ _ e now nonce pipe broken Hx C) as (asked' & heard' & forwarded' & C').
      do 6 eexists. split; [|exact C']. eapply bridge_more; [exact Hr|]. constructor. by apply Hrun.
    + destruct (crossing_pump _ _ _ _ _ _ _ _ _ _ broken Hx C) as (answered' & heard' & lost' & C').
      do 6 eexists. split; [exact Hr|exact C'].
    + destruct (crossing_watch _ _ _ _ _ _ _ _ _ _ e pipe C) as (heard' & C').
      do 6 eexists. split; [|exact C']. eapply bridge_more; [exact Hr|]. constructor. by apply Hrun.
    + exists (with_records k' b0), asked, answered, heard, forwarded, lost. split.
      { eapply bridge_more; [exact Hr|]. constructor. by apply Hrun. }
      destruct C as [? ? ? ? ? ? ? ? (? & ? & ? & ? & ? & ?)]. by split.
Qed.

Context `{JO : !JsonCodecOk json}.

(** C5: The two legs of a bridge never mix, whatever the threads' interleaving and whatever
    either end sends. The server is sent exactly the frames of the extension that no
    control tag names, whole and in order, the one being forwarded aside. What the
    extension reads on its port splits by tag: the frames without a control tag are exactly
    the server's, in order (a frame whose write fails ends the host, and only that one can
    be missing); and the frames with one are exactly those of a host whose server never
    said a word, which leaves the same records, the same exchange and the same bytes on the
    socket. So no server can make the host say, sign or store anything. *)
Theorem server_never_speaks_for_the_host (stdin to rest : bytes) (x : Exchange) (k : khost) b :
  bridge_run (bridge_new stdin to x rest k) b ->
  exists asked answered heard forwarded lost quiet,
    reads nm_read_frame stdin asked (br_stdin b) /\
    reads bridge_read rest answered (br_socket b) /\
    reads nm_read_frame (br_stdout b) heard [] /\
    List.filter bridge_frame asked = forwarded ++ in_flight b /\
    br_to_socket b = to ++ concat (bridge_write <$> forwarded) /\
    List.filter bridge_frame answered = List.filter bridge_frame heard ++ lost /\
    length lost <= 1 /\ (br_exit b = None -> lost = []) /\
    bridge_run (bridge_new stdin to x [] k) quiet /\
    reads nm_read_frame (br_stdout quiet) (List.filter control_frame heard) [] /\
    br_records quiet = br_records b /\ br_exchange quiet = br_exchange b /\ br_to_socket quiet = br_to_socket b.
Proof.
  intros H. apply crossing_run in H as (b0 & asked & answered & heard & forwarded & lost & Hr & C).
  exists asked, answered, heard, forwarded, lost, b0.
  destruct C as [? ? ? ? ? ? [? ?] ? (? & ? & ? & ? & ? & ?) ? ?].
  split_and!; try done; by apply framed_reads.
Qed.
End bridge.

(** * Starting a bridge *)

Section start_lemmas.
Context `{DG : Digest, ML : MacLib, JH : !JsonCodec Handshake, JA : !JsonCodec AttachRequest, JP : !JsonCodec AttachReply}.

(** [run] bridges only beside an accepted attach, and says nothing to a socket it did not
    attest: the host knows its own image, the switch reads as released, the server is this
    very binary, the secret and the label are what it answered the challenge with, and the
    reply to its attach was [Accepted]; what follows that reply is the bridge's. While the
    switch is engaged or unreadable nothing is dialed, and every other failure exits with 1. *)
Theorem host_bridges_only_when_accepted (identity : result io_error unit) (label : option BrowserLabel)
    (io : RelayIo) (e : env) (w w' : world) (out : bytes) (start : HostStart) :
  host_start identity label io e w = ((out, start), w') ->
  w' = w /\
  (out <> [] -> is_ok identity = true /\ killed <$> trust_current (w_trust w) = Ok false /\
     is_ok (rl_connect io) = true /\ is_ok (rl_attest io) = true) /\
  match start with
  | HostExits code => code = 1%Z
  | HostControlPlane x => out = [] /\ x = Exchange_new (default DEFAULT_LABEL label) /\
      is_ok identity = true /\ killed <$> trust_current (w_trust w) <> Ok false
  | HostBridges x rest =>
      x = Exchange_new (default DEFAULT_LABEL label) /\ out <> [] /\
      exists secret nonce mac input after,
        rl_secret io = Ok secret /\ bridge_read (rl_input io) = (Ok (Some (Challenge nonce)), input) /\
        compute_mac (as_bytes secret) (handshake_mac_message nonce label) = Ok mac /\
        out = bridge_write (Response mac label) ++ bridge_write AttachBrowser /\
        bridge_read (T := AttachReply) input = (Ok (Some AttachAccepted), after) /\ rest = after
  end.
Proof.
  unfold host_start. destruct identity as [[]|]; [|by intros [= <- <- <-]].
  unfold hbind, is_killed, current_trust, asks, hbind, hret.
  destruct (killed <$> trust_current (w_trust w)) as [[]|] eqn:Ek; [by intros [= <- <- <-]| |by intros [= <- <- <-]].
  intros H. injection H as Ha <-. split; [done|]. unfold host_attach in Ha.
  destruct (rl_connect io); [|by injection Ha as <- <-]. destruct (rl_attest io); [|by injection Ha as <- <-].
  case_bool_decide; [by injection Ha as <- <-|]. split; [by intros _|]. unfold host_handshake in Ha.
  destruct (rl_secret io) as [secret|]; [|by injection Ha as <- <-].
  unfold client_handshake_with_secret in Ha.
  destruct (bridge_read (rl_input io)) as [[[[nonce|]|]|] input] eqn:Ec; try (by injection Ha as <- <-).
  destruct (compute_mac _ _) as [mac|] eqn:Em; [|by injection Ha as <- <-].
  destruct (rl_response io); [by injection Ha as <- <-|]. case_bool_decide; [by injection Ha as <- <-|].
  destruct (bridge_read (T := AttachReply) input) as [[[[]|]|] after] eqn:Er; try (by injection Ha as <- <-).
  injection Ha as <- <-. split_and!; [done| |].
  - unfold bridge_write. intros E%(f_equal length). rewrite !length_app in E. cbn in E. lia.
  - exists secret, nonce, mac, input, after. by split_and!.
Qed.

Context `{JHO : !JsonCodecOk Handshake, JAO : !JsonCodecOk AttachRequest, JPO : !JsonCodecOk AttachReply}.

(** The socket of a host and a broker that find nothing wrong with each other. *)
Definition dialed (secret : string) (input : bytes) : RelayIo :=
  mkRelayIo (Ok tt) (Ok tt) None (Ok secret) None None input.
Definition accepted (uid : option (result io_error Z)) (euid : Z) (secret nonce : string) (input : bytes) : Attach :=
  mkAttach uid euid (Ok tt) None (Ok secret) (Ok nonce) None None None input.

(** The host's half: an answered challenge and an accepted attach. *)
Lemma host_start_bridges secret nonce mac (label : option BrowserLabel) (e : env) (w : world) (t : Trust) to_host :
  hmac_new (as_bytes secret) = Some mac -> trust_current (w_trust w) = Ok t -> killed t = false ->
  (Z.of_nat (length (to_vec (Challenge nonce))) < BRIDGE_MAX_LINE)%Z ->
  (Z.of_nat (length (to_vec AttachAccepted)) < BRIDGE_MAX_LINE)%Z ->
  host_start (Ok tt) label
    (dialed secret (bridge_write (Challenge nonce) ++ bridge_write AttachAccepted ++ to_host)) e w =
    ((bridge_write (Response (hex_encode (mac (handshake_mac_message nonce label))) label) ++ bridge_write AttachBrowser,
      HostBridges (Exchange_new (default DEFAULT_LABEL label)) to_host), w).
Proof.
  intros Hm Ht Hk Hc Hp. unfold host_start, hbind, is_killed, current_trust, asks, hbind, hret. rewrite Ht.
  cbn [fmap result_fmap]. rewrite Hk. unfold host_attach, dialed. cbn [rl_connect rl_attest rl_clone rl_attach].
  rewrite !bool_decide_eq_false_2 by (by intros []). unfold host_handshake. cbn [rl_secret rl_response rl_input].
  rewrite (client_answers _ _ mac) by done. by rewrite bridge_read_written.
Qed.

(** C14: A host and a broker of one user and one binary, sharing the secret of the lock file,
    attach to each other while the switch is released: the host's answer and attach frame,
    whatever follows them, make the broker admit a browser under the label the host was
    started with; the challenge and the reply the broker wrote, whatever follows them, make
    the host bridge; and each is left with exactly the bytes the other sends next. *)
Theorem host_and_broker_attach (secret nonce : string) (mac : bytes -> bytes) (label : option BrowserLabel)
    (uid : option (result io_error Z)) (euid : Z) (f : Front) (e : env) (w : world) (t : Trust) (to_host to_broker : bytes) :
  (forall b, hex_decode (hex_encode b) = Some b) -> hmac_new (as_bytes secret) = Some mac ->
  (forall l, label = Some l -> validate_label l = true) ->
  (forall r, uid = Some r -> r = Ok euid) ->
  trust_current (w_trust w) = Ok t -> killed t = false ->
  let answer := Response (hex_encode (mac (handshake_mac_message nonce label))) label in
  (Z.of_nat (length (to_vec (Challenge nonce))) < BRIDGE_MAX_LINE)%Z ->
  (Z.of_nat (length (to_vec answer)) < BRIDGE_MAX_LINE)%Z ->
  (Z.of_nat (length (to_vec AttachBrowser)) < BRIDGE_MAX_LINE)%Z ->
  (Z.of_nat (length (to_vec AttachAccepted)) < BRIDGE_MAX_LINE)%Z ->
  let browser := default DEFAULT_LABEL label in
  exists out f' w',
    host_start (Ok tt) label
      (dialed secret (bridge_write (Challenge nonce) ++ bridge_write AttachAccepted ++ to_host)) e w =
      ((out, HostBridges (Exchange_new browser) to_host), w) /\
    admit_connection (accepted uid euid secret nonce (out ++ to_broker)) f e w =
      ((OutcomeBrowser browser to_broker, f'), w') /\
    fr_replies f' = fr_replies f ++ [AttachAccepted].
Proof.
  intros Hhex Hm Hl Hu Ht Hk answer Hc Ha Hb Hp browser.
  exists (bridge_write answer ++ bridge_write AttachBrowser). do 2 eexists. split_and!.
  - by apply (host_start_bridges _ _ mac _ _ _ t).
  - assert (admit_connection (accepted uid euid secret nonce ((bridge_write answer ++ bridge_write AttachBrowser) ++ to_broker)) f e w =
            admit_same_user (accepted uid euid secret nonce ((bridge_write answer ++ bridge_write AttachBrowser) ++ to_broker)) f e w) as ->.
    { unfold admit_connection. cbn [at_peer_uid at_euid accepted]. destruct uid as [r|]; [|done].
      rewrite (Hu r eq_refl). by rewrite Z.eqb_refl. }
    unfold admit_same_user, server_handshake. cbn [at_attest at_clone at_secret at_nonce at_challenge at_input accepted].
    rewrite bool_decide_eq_false_2 by (by intros []). rewrite <- app_assoc. unfold answer. rewrite (server_accepts _ _ mac) by done.
    rewrite bridge_read_written by done. unfold admit_browser, kill_check, hbind, current_trust, asks, hbind, hret.
    rewrite Ht. unfold kill_verdict. rewrite Hk. cbn [send_reply at_reply accepted]. reflexivity.
  - done.
Qed.
End start_lemmas.

(** * Witnesses *)

(** A server that forges a host frame before it asks for something, and an extension that
    asks the host for the state of the switch. *)
Module RelayExample.
#[export] Instance frames : JsonCodec json := line_codec c_json.
#[export] Instance frames_ok : JsonCodecOk json := line_codec_ok c_json.
Definition reply_tuple (r : AttachReply) : Z * string :=
  match r with AttachAccepted => (0%Z, "") | AttachRefused s => (1%Z, s) | AttachUnavailable s => (2%Z, s) end.
Definition tuple_reply (t : Z * string) : AttachReply :=
  match t with (0%Z, _) => AttachAccepted | (1%Z, s) => AttachRefused s | (_, s) => AttachUnavailable s end.
Lemma tuple_reply_id r : tuple_reply (reply_tuple r) = r.
Proof. by destruct r. Qed.
Definition c_reply : codec AttachReply := c_iso (c_pair c_Z c_string) tuple_reply reply_tuple tuple_reply_id.
#[export] Instance attach_reply_json : JsonCodec AttachReply := line_codec c_reply.
#[export] Instance attach_reply_json_ok : JsonCodecOk AttachReply := line_codec_ok c_reply.
End RelayExample.
#[local] Existing Instances PolicyExample.digest PolicyExample.trust_sized
  PolicyExample.policy_sized PolicyExample.history_sized WebAuthnExample.crypto CoseExample.lib
  AllowlistExample.debug ExchangeExample.origins EnclaveExample.p256 EnclaveExample.keyring
  EnclaveExample.key_sized NativeHostExample.facts NativeHostExample.lang_sized
  RelayExample.frames RelayExample.frames_ok.

Module BridgeExample.
Definition forged : json := JObj [("type", JStr (tag_name T_EnclaveRevoked))].
Definition asks : json := JObj [("id", JInt 1); ("op", JStr "tabs_list")].
Definition stdin : bytes := Eval vm_compute in
  match nm_write_frame (NativeHostExample.frame RqKillStatus) with Ok out => out | Err _ => [] end.
Definition b0 : Bridge :=
  bridge_new stdin [] NativeHostExample.x (bridge_write forged ++ bridge_write asks) EnclaveExample.bare.
Definition b1 : Bridge := with_socket (bridge_write asks) b0.
Definition out : bytes := Eval vm_compute in match nm_write_frame asks with Ok out => out | Err _ => [] end.
Definition b2 : Bridge := with_socket [] (written out b1).
Definition turn (b : Bridge) : Bridge :=
  stdin_step EnclaveExample.e 0 (Ok ExchangeExample.nonce) NativeHostExample.written false b.

Lemma bridged_run : bridge_run b0 (turn (turn b2)).
Proof.
  assert (b1 = pump_step false b0) as E1.
  { unfold pump_step, b0. cbn [br_socket bridge_new]. by rewrite bridge_read_written by (vm_compute; reflexivity). }
  assert (b2 = pump_step false b1) as E2.
  { unfold pump_step, b1, b0. cbn [br_socket bridge_new with_socket]. rewrite <- (app_nil_r (bridge_write asks)).
    rewrite bridge_read_written by (vm_compute; reflexivity). vm_compute. reflexivity. }
  assert (bridge_run b0 b2) as H2.
  { rewrite E2. eapply bridge_more; [|by constructor]. rewrite E1. eapply bridge_more; [apply bridge_here|by constructor]. }
  eapply bridge_more; [eapply bridge_more; [exact H2|]|]; constructor; vm_compute; reflexivity.
Qed.
End BridgeExample.

Lemma server_never_speaks_for_the_host_witness :
  exists heard quiet,
    reads nm_read_frame (br_stdout (BridgeExample.turn (BridgeExample.turn BridgeExample.b2))) heard [] /\
    reads nm_read_frame (br_stdout quiet) (List.filter control_frame heard) [] /\
    br_records quiet = EnclaveExample.bare.
Proof.
  destruct (server_never_speaks_for_the_host BridgeExample.stdin [] _ NativeHostExample.x EnclaveExample.bare _ BridgeExample.bridged_run)
    as (asked & answered & heard & forwarded & lost & quiet & _ & _ & Hh & _ & _ & _ & _ & _ & _ & Hq & Hk & _ & _).
  exists heard, quiet. split; [exact Hh|]. split; [exact Hq|]. rewrite Hk. vm_compute. reflexivity.
Defined.

(** The host of a browser labelled work, and the broker it dials. *)
Module AttachExample.
Definition mac : bytes -> bytes := HandshakeExample.mac.
Definition label : option BrowserLabel := Some "work".
Definition to_broker : bytes := [x61].
Definition input : bytes :=
  @bridge_write _ ServeExample.handshake_json (Challenge "n0") ++ @bridge_write _ RelayExample.attach_reply_json AttachAccepted ++ [x62].
Definition front : Front := ServeExample.front.
Definition w : world := ServeExample.w.
End AttachExample.

Lemma host_and_broker_attach_witness :
  exists out f' w',
    @host_start HandshakeExample.digest HandshakeExample.mac_lib ServeExample.handshake_json ServeExample.attach_json
      RelayExample.attach_reply_json (Ok tt) AttachExample.label (dialed "s3cr" AttachExample.input) calm AttachExample.w =
      ((out, HostBridges (Exchange_new "work") [x62]), AttachExample.w) /\
    @admit_connection HandshakeExample.mac_lib ServeExample.handshake_json ServeExample.attach_json
      (accepted (Some (Ok 501%Z)) 501 "s3cr" "n0" (out ++ AttachExample.to_broker)) AttachExample.front calm AttachExample.w =
      ((OutcomeBrowser "work" AttachExample.to_broker, f'), w').
Proof.
  destruct (@host_and_broker_attach HandshakeExample.digest HandshakeExample.mac_lib ServeExample.handshake_json
    ServeExample.attach_json RelayExample.attach_reply_json ServeExample.handshake_json_ok ServeExample.attach_json_ok
    RelayExample.attach_reply_json_ok "s3cr" "n0" AttachExample.mac AttachExample.label (Some (Ok 501%Z)) 501
    AttachExample.front calm AttachExample.w BrokerExample.paired [x62] AttachExample.to_broker)
    as (out & f' & w' & H1 & H2 & _).
  - intros b. change (Some (as_bytes (String.string_of_list_byte b)) = Some b). f_equal.
    apply String.list_byte_of_string_of_list_byte.
  - reflexivity.
  - intros l [= <-]. vm_compute. reflexivity.
  - intros r [= <-]. reflexivity.
  - reflexivity.
  - reflexivity.
  - vm_compute. reflexivity.
  - vm_compute. reflexivity.
  - vm_compute. reflexivity.
  - vm_compute. reflexivity.
  - exists out, f', w'. split; [exact H1|exact H2].
Defined.

Lemma host_bridges_only_when_accepted_witness :
  exists out nonce input,
    @host_start HandshakeExample.digest HandshakeExample.mac_lib ServeExample.handshake_json ServeExample.attach_json
      RelayExample.attach_reply_json (Ok tt) AttachExample.label (dialed "s3cr" AttachExample.input) calm AttachExample.w =
      ((out, HostBridges (Exchange_new "work") [x62]), AttachExample.w) /\
    @bridge_read _ ServeExample.handshake_json AttachExample.input = (Ok (Some (Challenge nonce)), input) /\
    @bridge_read _ RelayExample.attach_reply_json input = (Ok (Some AttachAccepted), [x62]).
Proof.
  pose proof (@host_start_bridges HandshakeExample.digest HandshakeExample.mac_lib ServeExample.handshake_json
    ServeExample.attach_json RelayExample.attach_reply_json ServeExample.handshake_json_ok
    RelayExample.attach_reply_json_ok "s3cr" "n0" AttachExample.mac AttachExample.label calm AttachExample.w
    BrokerExample.paired [x62] eq_refl eq_refl eq_refl ltac:(vm_compute; reflexivity) ltac:(vm_compute; reflexivity)) as E.
  destruct (@host_bridges_only_when_accepted HandshakeExample.digest HandshakeExample.mac_lib
    ServeExample.handshake_json ServeExample.attach_json RelayExample.attach_reply_json _ _ _ _ _ _ _ _ E)
    as (_ & _ & _ & _ & secret & nonce & mac & input & after & _ & Hc & _ & _ & Ha & <-).
  do 3 eexists. split; [exact E|]. split; [exact Hc|exact Ha].
Defined.
