(* ===== verification/Commands.v ===== *)
(** Commands: the one-shot commands of the binary and their dispatch
    (src/src/apps/host/src/main.rs, with the handlers of kill.rs, allowlist.rs, lang.rs,
    webauthn/cli.rs and enclave/cli.rs under src/src/packages/core/src/).

    A handler is a host program that returns what it printed and its exit code; [Site] is
    everything the commands of one machine act on. *)
From S2P Require Import Prelude Json RuntimeRecord Policy Identity Trust PolicyRecord PrefixCodec World Messages PolicyStore PolicyPlan ToolArgs Catalogue Gating Wire AuthData WebAuthn EnrollStore Presence Allowlist Lang Frames Control AuditTrail Browsers Machine Registration Install Lockfile PolicyCli Enclave Doctor Exchange NativeHost Flags.
From stdpp Require Import base list gmap sets strings pretty.

Section handlers.
Context `{BL : Build, CO : PolicyCodec, DG : Digest, SD : StrDebug, RJ : ReportJson, CR : Crypto, CL : CoseLib}.
Context `{ST : !Sized Trust, SP : !Sized PolicyStore, SH : !Sized PolicyHistory, SL : !Sized LangStore}.
Implicit Types (tm : Terminal).

(** ** The kill switch (kill.rs) *)

Definition run_kill : host (list Console * Z) :=
  let! r := engage SurfCli in
  hret (match r with
        | Ok epoch =>
            ([Println ("kill switch ENGAGED (trust epoch " +:+ pretty epoch +:+ ")");
              Println "all bridge activity is now refused: live browser connections are dropped within a second, every tool call fails with BRIDGE_KILLED, and the state survives restarts until `genkan unkill`"], 0%Z)
        | Err e =>
            ([Eprintln ("kill: could not write the trust record: " +:+ io_msg e);
              Eprintln "note: an unreadable record already fails every enforcement point closed, so bridge activity is refused either way; see docs/troubleshooting.md to recover"], 1%Z)
        end).

(** [TerminalStdin::require().and_then(tty_confirm)]. *)
Definition require_and_confirm tm : host (result PresenceError PresenceAttestation) :=
  match TerminalStdin_require (tm_is_terminal tm) with
  | Err e => hret (Err e)
  | Ok _ => tty_confirm tm
  end.

Definition run_unkill tm : host (list Console * Z) :=
  let! auth := require_and_confirm tm in
  match auth with
  | Err e =>
      let! _ := audit_refused_release SurfCli (presence_error_display e) in
      hret ([Eprintln ("unkill: refused - " +:+ presence_error_display e); Eprintln "the kill switch stays engaged"], 1%Z)
  | Ok auth =>
      let! r := release SurfCli auth in
      hret (match r with
            | Ok epoch =>
                ([Println ("kill switch released (trust epoch " +:+ pretty epoch +:+ ")");
                  Println "bridge activity resumes as connections re-establish"], 0%Z)
            | Err e =>
                ([Eprintln ("unkill: refusing - " +:+ record_failure_sentence e);
                  Eprintln "releasing the kill switch from an unknown state would fail open; see docs/troubleshooting.md for the recovery path"], 1%Z)
            end)
  end.

(** ** Trusted clients (allowlist.rs) *)

Definition THIS_PARENT_UNAVAILABLE_ON_WINDOWS : string :=
  "--this-parent is unavailable on Windows: the server identifies a harness by the creator of its stdin pipe, which a console command has none of. Pair with --hash <sha256> or --signer <publisher subject>; the server logs the hash, and the subject when the image is signed, at startup while unenrolled".

(** [parent] is what [ipc::attest_parent] measured. *)
Definition resolve_anchor (parent : result io_error ClientIdentity) (spec : AnchorSpec) : result string Anchor :=
  match spec with
  | SpecHash hash => Ok (AnchorHash hash)
  | SpecSigner signer => Ok (AnchorSigner signer)
  | SpecThisParent =>
      if windows then Err THIS_PARENT_UNAVAILABLE_ON_WINDOWS
      else
        id ← map_err (fun e => "could not attest the parent process: " +:+ io_msg e) parent;
        Ok (AnchorHash (ci_hash id))
  end.

Definition run_pair_client (parent : result io_error ClientIdentity) (client : PairClientArgs) tm : host (list Console * Z) :=
  match resolve_anchor parent (pca_anchor client) with
  | Err e => hret ([Eprintln ("pair-client: " +:+ e)], 1%Z)
  | Ok anchor =>
      let shown := anchor_display anchor in
      let! r := pair_client_with_presence (pca_name client) anchor SurfCli (fun _ => require_and_confirm tm) in
      hret (match r with
            | Ok path =>
                ([Println ("paired trusted client '" +:+ pca_name client +:+ "' on " +:+ shown +:+ " (user presence: "
                    +:+ path_wire_name path +:+ ")");
                  Println "harness admission is now ENFORCED (fail closed for anything else)"], 0%Z)
            | Err (PcPresence e) =>
                ([Eprintln ("pair-client: refused - " +:+ pair_client_error_display (PcPresence e));
                  Eprintln "nothing was paired"], 1%Z)
            | Err e => ([Eprintln ("pair-client: " +:+ pair_client_error_display e)], 1%Z)
            end)
  end.

Definition run_revoke_client (name : string) : host (list Console * Z) :=
  let! r := revoke name SurfCli in
  hret (match r with
        | Ok true =>
            ([Println ("revoked trusted client '" +:+ name +:+ "'");
              Println "a live broker refuses this client's next request and its re-attach; an idle connection is dropped within a second"], 0%Z)
        | Ok false => ([Eprintln ("revoke-client: no trusted client named '" +:+ name +:+ "'")], 1%Z)
        | Err e => ([Eprintln ("revoke-client: could not write the allowlist: " +:+ io_msg e)], 1%Z)
        end).

Definition run_list_clients : host (list Console * Z) :=
  let! t := current_trust in
  hret (match t with
        | Err e => ([Eprintln ("list-clients: " +:+ unreadable_sentence e);
                     Eprintln "(treating the trust state as suspect; fail closed)"], 1%Z)
        | Ok trust =>
            (match clients trust with
             | NeverPaired => [Println "no trusted-client allowlist yet (UNENROLLED: harness admission not enforced)"]
             | Paired [] => [Println "trusted-client allowlist is EMPTY (enrolled: every harness fails closed)"]
             | Paired cs =>
                 Println ("trusted clients (" +:+ pretty (length cs) +:+ "):")
                 :: ((fun c => Println ("  " +:+ ce_name c +:+ "  (" +:+ anchor_display (ce_anchor c) +:+ ")")) <$> cs)
             end, 0%Z)
        end).

(** ** The language (lang.rs) *)

Definition run_lang (command : LangCommand) : host (list Console * Z) :=
  let! r := match command with LangShow => load_current | LangSet value => Lang.set value end in
  hret (match r with
        | Ok (value, _) => ([Println ("language: " +:+ value)], 0%Z)
        | Err e => ([Eprintln ("lang: " +:+ io_msg e)], 1%Z)
        end).

(** ** Forgetting a browser (webauthn/cli.rs) *)

Definition plural (n : nat) : string := if (n =? 1)%nat then "" else "s".

Definition run_revoke_browser (label : BrowserLabel) : host (list Console * Z) :=
  let! r := revoke_browser label SurfCli in
  hret (match r with
        | Ok revoked =>
            let n := length (br_forgotten revoked) in
            ([Println ("forgot browser '" +:+ label +:+ "' (" +:+ pretty n +:+ " enrolled credential" +:+ plural n +:+ ")");
              Println "its authenticator no longer vouches for this bridge; the browser enrolls again from its options page"]
             ++ (if is_nil (enrollments (br_trust revoked)) then
                   [Println "no browser is enrolled now: the next enrollment is first-time (trust on first use)"] else []), 0%Z)
        | Err (RbNotEnrolled enrolled) =>
            ([Eprintln ("revoke: no browser is enrolled under '" +:+ label +:+ "'");
              Eprintln (if is_nil enrolled then "no browser is enrolled at all"
                        else "enrolled labels: " +:+ str_join ", " enrolled
                             +:+ " (a browser on a shared host manifest enrolls as 'default')")], 1%Z)
        | Err (RbIo e) => ([Eprintln ("revoke: could not update the trust record: " +:+ io_msg e)], 1%Z)
        end).
End handlers.

(** * The dispatch (main.rs) *)

(** What the commands of one machine act on. *)
Record Site := mkSite { si_host : khost; si_machine : Machine; si_published : Published }.

(** What the process and the system answer to one run. *)
Record SiteEnv := mkSiteEnv {
  se_key : kenv;
  se_doctor : DoctorEnv;
  se_terminal : Terminal;
  se_parent : result io_error ClientIdentity;
  (** [audit::read]. *)
  se_audit : Z -> result io_error AuditPage;
  (** serde over the two reports. *)
  se_report_json : Report -> result string string;
  se_status_json : EnclaveStatusReport -> result string string
}.

Section dispatch.
Context `{PS : PathStyle, BL : Build, SD : StrDebug, JV : JsonValue}.
Context `{CO : PolicyCodec, DG : Digest, RJ : ReportJson, PK : P256, KR : Keyring}.
Context `{ST : !Sized Trust, SP : !Sized PolicyStore, SH : !Sized PolicyHistory, SL : !Sized LangStore, SK : !Sized HostKeyFile}.
Context `{CH : Chrono}.
Implicit Types (se : SiteEnv) (s : Site).

(** [run_status] and [run_status_json] (enclave/cli.rs). *)
Definition run_status : keyed (list Console * Z) :=
  do! report := key_report in
  kret ([Println "genkan enclave-status"; Println ("key:        " +:+ key_line report)]
        ++ match report with
           | KeyPresent _ public_key_b64 fingerprint =>
               [Println ("public key: " +:+ public_key_b64); Println "fingerprint (sha256):"; Println ("  " +:+ fingerprint)]
           | _ => []
           end, 0%Z).

Definition run_status_json se : keyed (list Console * Z) :=
  do! report := key_report in
  kret (match se_status_json se report with
        | Ok value => ([Println value], 0%Z)
        | Err e => ([Eprintln ("enclave-status --json failed to serialize the report: " +:+ e)], 1%Z)
        end).

(** A handler of the records, run on the site. *)
Definition on_records se (m : keyed (list Console * Z)) s : list Said * Z * Site :=
  let '((out, code), k) := m (se_key se) (si_host s) in
  (Console_ <$> out, code, mkSite k (si_machine s) (si_published s)).

(** The text of [run_pair] and [run_revoke_all] is left out. *)
Definition silent (m : keyed Z) : keyed (list Console * Z) := do! code := m in kret ([], code).

(** [audit::run_audit], with its lines. *)
Definition audit_command (page : result io_error AuditPage) : list Console * Z :=
  let '(code, text, suspect) := run_audit page in
  (match page with
   | Err e => [Eprintln ("audit: " +:+ io_msg e)]
   | Ok _ =>
       PrintText text ::
       (if (0 <? suspect)%nat then
          [Eprintln ("audit: " +:+ pretty suspect +:+ " record(s) could not be parsed; treat the trail as suspect")] else [])
   end, code).

(** [main]'s dispatch of every command that ends; the MCP server and the native host are
    [Serve] and [NativeHost]. *)
Definition run_command se (c : Command) s : option (list Said * Z * Site) :=
  let tm := se_terminal se in
  match c with
  | CmdMcpServer | CmdNativeHost _ => None
  | CmdDoctor command =>
      let '((out, code, m), w) :=
        run_doctor (se_report_json se) (se_doctor se) command (si_machine s) (si_published s)
          (ke_env (se_key se)) (kh_world (si_host s)) in
      Some (out, code, mkSite (mkKHost (kh_keys (si_host s)) w) m (si_published s))
  | CmdPair reset file_store =>
      Some (on_records se (silent (run_pair reset file_store (tm_is_terminal tm) (tm_still_terminal tm) (tm_line tm))) s)
  | CmdRevoke (RevokeBrowserTarget label) => Some (on_records se (on_host (run_revoke_browser label)) s)
  | CmdRevoke RevokeAll => Some (on_records se (silent run_revoke_all) s)
  | CmdEnclaveStatus false => Some (on_records se run_status s)
  | CmdEnclaveStatus true => Some (on_records se (run_status_json se) s)
  | CmdPairClient client => Some (on_records se (on_host (run_pair_client (se_parent se) client tm)) s)
  | CmdRevokeClient name => Some (on_records se (on_host (run_revoke_client name)) s)
  | CmdListClients => Some (on_records se (on_host run_list_clients) s)
  | CmdUninstall args =>
      let '(m, out, code) :=
        run_uninstall (de_env (se_doctor se)) (de_io (se_doctor se)) (ua_scope args) (ua_manifest_dirs args) (si_machine s) in
      Some (Logged <$> out, code, mkSite (si_host s) m (si_published s))
  | CmdKill => Some (on_records se (on_host run_kill) s)
  | CmdUnkill => Some (on_records se (on_host (run_unkill tm)) s)
  | CmdAudit limit =>
      let (out, code) := audit_command (se_audit se limit) in Some (Console_ <$> out, code, s)
  | CmdPolicy command => Some (on_records se (on_host (run_policy command tm)) s)
  | CmdLang command => Some (on_records se (on_host (run_lang command)) s)
  end.

(** * What a command may do unconfirmed *)

Lemma records_left_grants tm w w' :
  records_left tm w w' -> grants_nothing w w' \/ grants_nothing (tm_meanwhile tm w) w'.
Proof. intros [H|H]; [left|right]; by apply same_records_grant_nothing. Qed.

Lemma unconfirmed_refused tm e w r w' :
  confirmed tm = false -> require_and_confirm tm e w = (r, w') -> is_ok r = false /\ records_left tm w w'.
Proof.
  unfold confirmed, require_and_confirm. destruct (tm_is_terminal tm); cbn [TerminalStdin_require andb].
  - unfold tty_confirm. destruct (tty_verdict _ _); [done|]. intros _ [= <- <-]. split; [done|by right].
  - intros _ [= <- <-]. split; [done|by left].
Qed.

(** The file key is the one before, or gone. *)
Definition minted_nothing (k k' : khost) : Prop :=
  ks_file (kh_keys k') = ks_file (kh_keys k) \/ ks_file (kh_keys k') = Absent.

(** Neither the records the command found nor those its prompt waited on gained anything. *)
Definition adds_nothing tm (e : kenv) (k k' : khost) : Prop :=
  minted_nothing k k' /\
  (grants_nothing (kh_world k) (kh_world k') \/ grants_nothing (tm_meanwhile tm (view e k)) (kh_world k')).

Lemma on_host_adds_nothing {A} tm (m : host A) e k a k' :
  (forall w w', m (ke_env e) w = (a, w') -> grants_nothing w w' \/ grants_nothing (tm_meanwhile tm w) w') ->
  on_host m e k = (a, k') -> adds_nothing tm e k k'.
Proof.
  intros Hm H. split; [left; pose proof (on_host_keys m e k) as Hk; by rewrite H in Hk; cbn in Hk; rewrite Hk|].
  apply on_host_view in H. by apply Hm in H.
Qed.

Lemma same_adds_nothing tm e k : adds_nothing tm e k k.
Proof. split; [by left|]. left. by apply same_records_grant_nothing. Qed.

Lemma unkill_adds_nothing tm e w a w' :
  confirmed tm = false -> run_unkill tm e w = (a, w') -> grants_nothing w w' \/ grants_nothing (tm_meanwhile tm w) w'.
Proof.
  intros Hc. unfold run_unkill, hbind at 1. destruct (require_and_confirm tm e w) as [r w1] eqn:E.
  apply unconfirmed_refused in E as [Hr Hl]; [|done]. destruct r; [done|]. unfold hbind, audit_refused_release, audit_record, hret.
  intros [= _ <-]. apply records_left_grants. destruct Hl as [Hl|Hl]; [left|right]; exact Hl.
Qed.

Lemma pair_client_adds_nothing parent client tm e w a w' :
  confirmed tm = false -> run_pair_client parent client tm e w = (a, w') ->
  grants_nothing w w' \/ grants_nothing (tm_meanwhile tm w) w'.
Proof.
  intros Hc. unfold run_pair_client. destruct (resolve_anchor _ _) as [anchor|];
    [|intros [= _ <-]; left; by apply same_records_grant_nothing].
  unfold hbind at 1, pair_client_with_presence, hbind at 1. destruct (require_and_confirm tm e w) as [r w1] eqn:E.
  apply unconfirmed_refused in E as [Hr Hl]; [|done]. destruct r; [done|]. unfold hbind, audit_pair_refused, audit_record, hret.
  intros [= _ <-]. apply records_left_grants. destruct Hl as [Hl|Hl]; [left|right]; exact Hl.
Qed.

Lemma policy_adds_nothing c tm e w a w' :
  confirmed tm = false -> run_policy c tm e w = (a, w') -> grants_nothing w w' \/ grants_nothing (tm_meanwhile tm w) w'.
Proof.
  intros Hc H. apply run_policy_unconfirmed in H as [H|(overlay & over & u & H)]; [by apply records_left_grants| |done].
  left. apply kept_grants_nothing; [by eapply restrict_with_kept|].
  apply restrict_with_Ok in H as (prev & next & eff & eff' & H1 & H2 & H3 & H4 & H5 & _).
  right; right. by exists prev, next, eff, eff'.
Qed.

Lemma forget_pairings_grants_nothing t : trust_grants_nothing t (forget_pairings t).2.
Proof.
  unfold forget_pairings, trust_grants_nothing. destruct (clients t) as [|l]; cbn; split_and!; try done; set_solver.
Qed.

Lemma grants_nothing_ext w w1 w2 :
  w_trust w2 = w_trust w1 -> w_policy w2 = w_policy w1 -> grants_nothing w w1 -> grants_nothing w w2.
Proof. unfold grants_nothing, policy_grants_nothing. by intros -> ->. Qed.

Lemma audits_same surface l cs e w :
  same_records w ((let! _ := audit_browsers_revoked surface l in audit_clients_revoked surface cs) e w).2.
Proof.
  assert (forall w, same_records w (audit_clients_revoked surface cs e w).2) as Hc.
  { induction cs as [|c cs IH]; intros w1; [done|]. exact (IH (add_audit _ w1)). }
  revert w. induction l as [|x l IH]; intros w; [apply Hc|]. exact (IH (add_audit _ w)).
Qed.

(** Running a program that only audits keeps what was granted. *)
Lemma on_host_audits {A} (m : host A) e k w a k' :
  (forall e w, same_records w (m e w).2) -> on_host m e k = (a, k') ->
  grants_nothing w (kh_world k) -> grants_nothing w (kh_world k').
Proof.
  intros Hm H. apply on_host_view in H. specialize (Hm (ke_env e) (view e k)). rewrite H in Hm. destruct Hm as (Ht & Hp & _).
  by apply grants_nothing_ext.
Qed.

Lemma revoke_all_adds_nothing tm e k code k' : run_revoke_all e k = (code, k') -> adds_nothing tm e k k'.
Proof.
  unfold run_revoke_all, kbind at 1. destruct (dispose_everything SurfCli e k) as [r k1] eqn:E. intros [= _ <-].
  unfold dispose_everything, ktry, kbind at 1 in E.
  destruct (dispose_under_lock forget_pairings e k) as [[d|er] k2] eqn:Ed; cycle 1.
  { apply dispose_cases in Ed as ->. injection E as _ <-. apply same_adds_nothing. }
  pose proof (dispose_grants_nothing _ e k _ _ forget_pairings_grants_nothing Ed) as Hg. apply dispose_cases in Ed as (Hf & _).
  unfold kbind at 1 in E. destruct (audit_host_key_revoke SurfCli (dp_revoked _ d) e k2) as [u k3] eqn:E3.
  pose proof (on_host_keys (audit_record (host_key_revoke_record SurfCli (dp_revoked _ d))) e k2) as Hk3.
  unfold audit_host_key_revoke in E3. rewrite E3 in Hk3. cbn in Hk3. apply (on_host_audits _ _ _ (kh_world k)) in E3; [|done..].
  unfold kbind in E. cbv zeta in E. destruct (dp_trust _ d) as [[t out]|]; cbn [fmap result_fmap] in E; cycle 1.
  { injection E as _ <-. split; [right; by rewrite Hk3|by left]. }
  destruct (on_host _ e k3) as [u2 k4] eqn:E4. injection E as _ <-.
  pose proof (on_host_keys (let! _ := audit_browsers_revoked SurfCli out.1 in audit_clients_revoked SurfCli out.2) e k3) as Hk4.
  cbn [fg_enrollments fg_clients fst snd] in E4. rewrite E4 in Hk4. cbn in Hk4.
  apply (on_host_audits _ _ _ (kh_world k)) in E4; [|intros; apply audits_same|done].
  split; [right; by rewrite Hk4, Hk3|by left].
Qed.

(** ** The other handlers *)

Lemma doctor_keeps_world rj d command m pub e w out code m' w' :
  run_doctor rj d command m pub e w = ((out, code, m'), w') -> w' = w.
Proof.
  destruct command; cbn [run_doctor]; unfold hret.
  - unfold hbind at 1, gather. destruct (gather_runtime_dir _ _) as [m1 dir]. unfold hbind, hret.
    cbn. destruct json; [destruct (rj _)|]; by intros [= _ _ _ <-].
  - by intros [= _ _ <-].
  - destruct (paths_report d); by intros [= _ _ _ <-].
  - destruct (run_fix _ _ _ _ _) as [[m1 o1] z1]. by intros [= _ _ _ <-].
Qed.

Lemma pair_adds_nothing reset file_store tm e k a k' :
  confirmed tm = false ->
  silent (run_pair reset file_store (tm_is_terminal tm) (tm_still_terminal tm) (tm_line tm)) e k = (a, k') -> k' = k.
Proof.
  unfold confirmed, silent, kbind, run_pair. destruct (tm_is_terminal tm); cbn [TerminalStdin_require andb];
    [|by intros _ [= _ <-]].
  destruct (tty_verdict _ _); [done|]. by intros _ [= _ <-].
Qed.

Lemma status_keeps se e k a k' : run_status e k = (a, k') \/ run_status_json se e k = (a, k') -> k' = k.
Proof.
  assert ((key_report e k).2 = k) as Hk.
  { unfold key_report, kbind. pose proof (lookup_key_same e k) as Hl. by destruct (lookup_key e k). }
  unfold run_status, run_status_json, kbind. destruct (key_report e k) as [r k1]. cbn in Hk. subst k1.
  by intros [[= _ <-]|[= _ <-]].
Qed.

(** The commands that only take away or choose a language. *)
Lemma revoke_browser_command_grants_nothing label e w a w' : run_revoke_browser label e w = (a, w') -> grants_nothing w w'.
Proof.
  unfold run_revoke_browser, hbind. destruct (revoke_browser label SurfCli e w) as [r w1] eqn:E. intros [= _ <-].
  destruct r; [by eapply revoke_browser_grants_nothing|]. apply revoke_browser_cases in E as ->. by apply same_records_grant_nothing.
Qed.

Lemma revoke_client_command_grants_nothing name e w a w' : run_revoke_client name e w = (a, w') -> grants_nothing w w'.
Proof.
  unfold run_revoke_client, hbind. destruct (revoke name SurfCli e w) as [r w1] eqn:E. intros [= _ <-].
  by eapply revoke_grants_nothing.
Qed.

Lemma kill_command_grants_nothing e w a w' : run_kill e w = (a, w') -> grants_nothing w w'.
Proof.
  unfold run_kill, hbind. destruct (engage SurfCli e w) as [r w1] eqn:E. intros [= _ <-]. by eapply engage_grants_nothing.
Qed.

Lemma lang_command_grants_nothing command e w a w' : run_lang command e w = (a, w') -> grants_nothing w w'.
Proof.
  unfold run_lang, hbind. destruct command as [|value]; [intros [= _ <-]; by apply same_records_grant_nothing|].
  destruct (Lang.set value e w) as [r w1] eqn:E. intros [= _ <-]. apply lang_set_kept in E as [Hk Hp].
  apply kept_grants_nothing; [done|by left].
Qed.

Lemma list_clients_grants_nothing e w a w' : run_list_clients e w = (a, w') -> grants_nothing w w'.
Proof. intros [= _ <-]. by apply same_records_grant_nothing. Qed.

#[local] Create HintDb commands.
#[local] Hint Resolve revoke_browser_command_grants_nothing revoke_client_command_grants_nothing
  kill_command_grants_nothing lang_command_grants_nothing list_clients_grants_nothing
  pair_client_adds_nothing unkill_adds_nothing policy_adds_nothing : commands.

(** A handler on the records, seen through the site. *)
Lemma on_records_host se m s out code s' :
  on_records se m s = (out, code, s') -> exists a, m (se_key se) (si_host s) = (a, si_host s').
Proof.
  unfold on_records. destruct (m (se_key se) (si_host s)) as [[o z] k]. intros [= _ _ <-]. by eexists.
Qed.

Lemma on_records_adds_nothing se tm (m : host (list Console * Z)) s out code s' :
  (forall a w w', m (ke_env (se_key se)) w = (a, w') -> grants_nothing w w' \/ grants_nothing (tm_meanwhile tm w) w') ->
  Some (on_records se (on_host m) s) = Some (out, code, s') -> adds_nothing tm (se_key se) (si_host s) (si_host s').
Proof.
  intros Hm [= H]. apply on_records_host in H as [a H]. apply (on_host_adds_nothing tm m _ _ a); [|done]. intros w w'. apply Hm.
Qed.

(** C8: No command grants anything the user did not confirm at a terminal. Whatever command is
    run, on whatever machine and with whatever flags, while standard input is no terminal,
    stops being one, ends, or carries anything but the phrase: no file key is minted, the
    kill switch is not released, no client is admitted and no credential enrolled,
    enforcement does not lapse, and the policy is the one before, cleared, or
    relaxed in no field; all against the records found, or those another process left while
    the prompt waited. *)
Theorem unconfirmed_commands_grant_nothing se c s out code s' :
  confirmed (se_terminal se) = false ->
  run_command se c s = Some (out, code, s') ->
  adds_nothing (se_terminal se) (se_key se) (si_host s) (si_host s').
Proof.
  intros Hc. set (tm := se_terminal se) in *.
  destruct c as [|label|command|reset file_store|[label|]|json|client|name| |args| | |limit|command|command];
    cbn [run_command]; fold tm; try done;
    try (apply on_records_adds_nothing; intros a w w' H; by eauto with commands).
  - destruct (run_doctor _ _ _ _ _ _ _) as [[[o z] m] w] eqn:E. apply doctor_keeps_world in E as ->.
    intros [= _ _ <-]. split; [by left|left; by apply same_records_grant_nothing].
  - intros [= H]. apply on_records_host in H as [a H]. apply pair_adds_nothing in H as ->; [|done]. apply same_adds_nothing.
  - intros [= H]. apply on_records_host in H as [a H]. unfold silent, kbind in H.
    destruct (run_revoke_all (se_key se) (si_host s)) as [z k1] eqn:E. injection H as _ <-. by eapply revoke_all_adds_nothing.
  - destruct json; intros [= H]; apply on_records_host in H as [a H];
      (assert (si_host s' = si_host s) as -> by (eapply (status_keeps se); eauto)); apply same_adds_nothing.
  - destruct (run_uninstall _ _ _ _ _) as [[m o] z]. intros [= _ _ <-]. apply same_adds_nothing.
  - destruct (audit_command _) as [o z]. intros [= _ _ <-]. apply same_adds_nothing.
Qed.
End dispatch.

Module CommandsExample.
Import RegistrationExample.
#[export] Existing Instances unix_style unix_build quoted toy_json PolicyCliExample.json.
#[export] Existing Instances PolicyExample.digest PolicyExample.trust_sized PolicyExample.policy_sized
  PolicyExample.history_sized EnclaveExample.p256 EnclaveExample.keyring EnclaveExample.key_sized NativeHostExample.lang_sized.
#[export] Instance no_calendar : Chrono := {| utc_millis _ := None |}.
(** A pipe that carries the phrase. *)
Definition piped : Terminal := mkTerminal false false (Ok (Some "release")) id.
Definition se : SiteEnv :=
  mkSiteEnv EnclaveExample.e DoctorExample.d piped (Err not_found) (fun _ => Err not_found) (fun _ => Ok "{}") (fun _ => Ok "{}").
Definition s : Site := mkSite EnclaveExample.bare two_browsers LockExample.files.
Definition killed_site : Site := Eval vm_compute in
  match run_command se CmdKill s with Some (_, _, s) => s | None => s end.
Definition refused : list Said * Z * Site := Eval vm_compute in
  match run_command se CmdUnkill killed_site with Some r => r | None => ([], 0%Z, s) end.
End CommandsExample.

Section witness.
Import CommandsExample.

Lemma unconfirmed_commands_grant_nothing_witness :
  refused.1.2 = 1%Z /\ adds_nothing piped EnclaveExample.e (si_host killed_site) (si_host refused.2) /\
  exists t, w_trust (kh_world (si_host refused.2)) = Stored t /\ killed t = true.
Proof.
  split; [reflexivity|]. split; [|eexists; split; reflexivity].
  apply (unconfirmed_commands_grant_nothing se CmdUnkill killed_site refused.1.1 refused.1.2 refused.2);
    [reflexivity|vm_compute; reflexivity].
Defined.
End witness.
